(* ===== verification/_CoqProject ===== *)
-Q . S2P
Prelude.v
JsString.v
JsMap.v
JsDate.v
Json.v
Base64.v
Types.v
Config.v
World.v
Utils.v
MemoryRepo.v
RepoFacts.v
Http.v
Auth.v
Notify.v
Logic.v
XrplTrack.v
XrplWorkers.v
Contracts.v
Evidence.v
Disputes.v
XrplApi.v
NotifyApi.v
Settlements.v
Export.v
Reports.v
Reputation.v
Inv.v
Loops.v
Steps.v
ContractSteps.v
XrplSteps.v
NotifySteps.v
DisputeSteps.v
System.v
Demo.v
SystemProps.v
AccessProps.v
Wp.v
AuditProps.v
NotifyProps.v
EvidenceProps.v
DisputeProps.v
ReputationProps.v
SettlementProps.v
XrplProps.v
StreamWorker.v
Footprint.v
CoreTx.v
CoreDispute.v
CoreProps.v
CoreSystem.v
Sql.v
PgTables.v
PgRepo.v
RepoSpec.v
PgSim.v
PgStore.v
PgEntities.v
PgQueues.v
PgListings.v
PgMonths.v
PgRefine.v
JsFloat.v
Be1World.v
Be1Xrpl.v
Be1Contracts.v
Be1Reconciler.v
Be1Wallet.v
Be1Logic.v
Be1Inv.v
Be1Services.v
Be1Settle.v
Be1System.v
Be1Once.v
Be1Bounds.v
Be1Props.v
Be1Values.v
Frontend.v
FrontendProps.v
