(* ===== verification/Prelude.v ===== *)
(** * The BlueSafe platform, verified

    BlueSafe keeps rental contracts whose deposits sit in XRPL escrows.  Its
    operations backend [src/services/be2-ops] is a TypeScript HTTP service: it
    stores contracts, evidence files, disputes with their votes and decisions,
    the tracked ledger transactions, monthly settlements, notifications and
    audit rows; workers started by [main] talk to the ledger, deliver
    notifications and write exports.  The package [src/packages/xrpl-core]
    builds the ledger transactions and runs the panel of verifiers that judges
    a dispute.  The service [src/services/be1-xrpl] locks the deposits in escrows
    and pays the monthly electricity settlement.  The mobile app
    [src/apps/mobile-frontend] calls both.  This library models the first
    service over its in-memory repository, its PostgreSQL repository, the
    package, the second service over any repository that keeps TypeORM's
    promises, and the actions of the app, and proves what they keep.

    ** How the service is modelled

    A handler or worker is a computation of the monad [M] ([World.v]): it reads
    the environment [Env], and passes on the [World], which holds the store
    [Db] (the maps of [store.ts] and of [repository/memory-repository.ts]), the
    dead-letter queue and scheduled deliveries of the reputation webhook, the
    metric counters, and how many times clock, random source and network have
    been asked.  A thrown error keeps the writes made before it, as in the
    source.  [Env] holds what is outside [src/]: the configuration values, the
    clock, [crypto.randomUUID], SHA-256, HMAC, AES-GCM, [Date.parse] on strings
    that are not ISO, the rippled WebSocket client, the submitting wallet and
    [fetch].  Nothing is assumed of them except where a theorem names it: the
    identifiers drawn in the run differ ([ids_distinct]), the clock has
    four-digit years and UUIDs have their shape ([sound_env]).

    A store map is a list of pairs in insertion order ([JsMap.v]), because the
    listings show that order; a timestamp is the ISO string the code stores
    ([JsDate.v]); numbers are integers, the token bucket of the transaction
    stream counts thousandths of a token.  Zod's [safeParse] gives [Invalid]
    or the decoded body ([Parsed], [Http.v]); the predicates of [schemas.ts]
    say which bodies are valid.

    ** The parts

    - language: [Prelude.v] (notations, automation), [JsString.v], [JsMap.v],
      [JsDate.v],
      [Json.v] (JSON.stringify and JSON.parse, with their round trip),
      [Base64.v];
    - data: [Types.v] ([types.ts], [repository/app-repository.ts]), [Config.v]
      ([config.ts]), [World.v];
    - pure services: [Utils.v] ([services/audit-cursor.ts], [utils.ts],
      [services/evidence-retention.ts], [services/settlement-ledger.ts]);
    - storage: [MemoryRepo.v], one definition per method of
      [memory-repository.ts]; [RepoFacts.v] what its queries compute;
    - the interface of the two repositories ([app-repository.ts]) and the other
      one: [RepoSpec.v] (operations, [mem_exec], [spec]); [Sql.v] (statements), [PgTables.v] ([db/migrations], the [rowTo..] functions),
      [PgRepo.v] (one definition per method of [postgres-repository.ts]);
    - access: [Http.v], [Auth.v] ([auth.ts],
      [services/operator-console-scopes.ts]);
    - components, their routes in [index.ts] and their services: [Notify.v]
      (with the audit and event writers) and [NotifyApi.v], [XrplTrack.v], [XrplWorkers.v] and
      [XrplApi.v], [StreamWorker.v] (the connection loop of the stream worker, as
      a state machine), [Contracts.v], [Evidence.v], [Disputes.v], [Settlements.v],
      [Export.v], [Reports.v], [Reputation.v];
    - [packages/xrpl-core]: [CoreTx.v] (encodings, conditions, one definition
      per transaction builder), [CoreDispute.v] (the submissions and
      [DisputeService]; its state is [CoreWorld], its effects the monad [CM], its
      environment [CoreEnv]: clock, randomness, digests, the ledger's answers),
      [CoreSystem.v] (its operations as a transition system);
    - the whole service: [System.v], [serve] with the middlewares in the order Express
      runs them, [runTask] for the ticks and stream messages, [transition],
      the relation that any of them makes, and [overlap], the steps of a service
      ([Service]) whose requests for execution and notification ticks may wait on
      the network while anything else runs.

    - [services/be1-xrpl]: [JsFloat.v] (binary64: parseFloat, toFixed), and
      [Be1World.v] (rows, environment, computations), [Be1Xrpl.v]
      ([xrpl/*.service.ts], [iou-lines.util.ts]), [Be1Contracts.v] ([contracts/],
      [shared/crypto]), [Be1Reconciler.v] ([reconciler/], [shared/email],
      [queue/]), [Be1Wallet.v] ([wallet/]), [Be1System.v] (routes, cron and
      retry worker as one system);
    - [apps/mobile-frontend]: [Frontend.v] (the calls of [api/], the state, actions
      and guards of [App.tsx]), [FrontendProps.v] (the app against [serve] and the
      schemas of the two services).

    ** How the PostgreSQL repository is modelled

    A method is a computation of the monad [Pg]: each statement is carried out
    on the tables [PgDb] as SQL says, with the keys, references and checks of
    the migrations, and is then answered, refused, or answered in vain
    ([Lost]). The database and its driver are [PgEnv]: the order in which a
    statement meets the rows, the casts of text to [timestamptz] and [jsonb],
    the collation; [pg_sound] is what their documentation says of them.
    [represents] relates a database to a store of the in-memory repository,
    [kept] is an argument as its columns keep it, [sendable] and [accepted]
    are the arguments on which the two repositories agree: stamps of the years
    0 to 9999, no empty text where a method tests for one, rows whose
    references exist and whose [created_at] is unchanged. [spec] says what an
    operation may answer and do, leaving open the order in which rows without
    an ORDER BY come. [PgSim.v] (tables and maps), [PgStore.v] and one file of
    lemmas per group of methods ([PgEntities.v], [PgQueues.v], [PgListings.v],
    [PgMonths.v]) carry the proof in [PgRefine.v], which also shows two stores
    on which the repositories differ (an archived month is counted as touched;
    a settlement without a row is not stored).

    ** How [be1-xrpl] is modelled

    There every [await] lets other requests run, so a computation is a tree
    [prog] of effects: database statements, ledger submissions and requests, the
    retry queue, mail, HTTP, and the synchronous code between them.  [run]
    executes one alone; [pool_step] performs the next effect of any computation
    in flight, or starts a new one ([entry]).  The two tables are the interface
    [Table] with its laws [TableLaws]: a statement that fails may have been
    carried out or not, and [find] promises no order; [MemTable] is an instance,
    with refusals and lost answers.  Be1Env holds configuration, clock,
    randomness, AES-GCM, SHA-256 and xrpl.js.  Two facts are assumed of them
    where a theorem says so: what is sealed opens again ([gcm_sound]), and the
    conversion of text to hexadecimal has an inverse ([hex_sound]).

    Proofs there: [Be1Logic.v] (a rely/guarantee triple [ok] over the steps of
    others, and its soundness for pools), [Be1Inv.v] (the invariant and how
    worlds evolve), [Be1Services.v], [Be1Settle.v] (each service and flow),
    [Be1Once.v] (no second payment), [Be1Bounds.v] (submissions counted along
    every path).

    Proofs of the backend: [Logic.v] (what a computation keeps, as a relation
    on worlds), [Loops.v] (loops over rows), [Inv.v] (the invariant [db_wf]
    and the evolution [db_evolves] of the store), the files [*Steps.v] (every
    operation keeps both), [Wp.v] (total and partial correctness of single
    operations). [Demo.v] holds the concrete runs at which the theorems are
    instantiated.

    ** What is proved

    - C1-C9 ([SystemProps.v]), on runs of overlapping steps: every store is well
      formed (keys are identifiers, required references resolve, one vote per
      verifier, one outbox row per idempotency key); contracts and settlements
      only move along their life cycles, disputes (C3) and notifications (C9) do
      as long as no request or delivery that was waiting writes over them; votes
      and audit rows are append-only; evidence content is immutable.  As a lemma,
      a run in which a notification is delivered twice.
    - C10-C11 ([AccessProps.v]): no handler runs for a request the policy
      refuses; tenants and landlords are refused what they name of another's
      contract; as lemmas, the listings of contracts, whatever filter they send,
      and the lists of disputes and events, which show other parties' rows.
    - C12 ([PgRefine.v]): the PostgreSQL repository implements the specification
      of the repository; C39-C40: what PostgreSQL rejects, and what comes back
      from it unchanged.  That the in-memory repository, from which the
      specification is read off, meets it is a lemma of [RepoSpec.v].
    - C13 ([Footprint.v]): only the decision route writes decisions, at most
      one per dispute.
    - C14-C17 ([Be1Props.v]): in [be1-xrpl], under any interleaving, a locked
      contract and a settled month are what the ledger accepted; a settled month
      is not paid again; a monthly run forgets no contract.  C18 ([Be1Values.v]):
      the memo of a payment reads back.
    - C19 and C21-C23 ([XrplProps.v]): reconciliation, the rate limit, stream
      messages handled once, leases; as lemmas, backoff bounds, probes that end,
      and three runs in which an execution goes wrong (in one, a request that
      waited takes back an executed dispute).
    - C20 ([StreamWorker.v]): the stream worker's connection, subscriptions and
      back-off; then two runs, a refresh that ends the process and refreshes that
      overlap.
    - C24 ([NotifyProps.v]): outcomes of a delivery; as a lemma, what a payload
      fingerprint identifies.
    - C25-C26 ([AuditProps.v]): cursor walks, CSV read back; as a lemma, export
      jobs.
    - C27 ([FrontendProps.v]): what is typed into the mobile app is what BE2 stores
      and what BE1 is asked to lock; as lemmas, that authentication refuses the app
      and that signing again is refused.  C38 ([Frontend.v]): what holds of the
      app's state and calls in every session; as lemmas, when a contract is
      requested, what is stored comes back, durations and screens, and three runs
      in which an action goes wrong.
    - C28-C29 ([EvidenceProps.v]): the retention run, download after upload; as a
      lemma, pinning retries.
    - C30-C31 ([DisputeProps.v]): quorum, executions backed by the ledger.
    - C32 ([SettlementProps.v]): the monthly touch of a ledger close.
    - C33 ([ReputationProps.v]): the dead-letter queue refines a map of attempt
      counts.
    - C34-C35 ([CoreProps.v]): who may sit on a panel, and what a verdict does;
      C36-C37 ([CoreSystem.v]): a judgment that fails after its verdict is final,
      and the records and votes of every reachable state.
    - [Be1Values.v], as lemmas: signer lists, how many transactions a
      request submits, and the runs of [be1-xrpl] in which
      a month is paid twice or the monthly run stops early.

    ** Fuel

    Four definitions take fuel.  The paging loop of the exports runs with one
    unit more than the rows it may write, and is proved to end by itself; the
    JSON parser takes the length of the text, proved enough for every text
    [json_stringify] writes; the pinning loop counts the configured attempts and
    the purchase loop of the wallets its eight rounds, as the source does.

    ** Not modelled

    - In [be2-ops], overlap other than that of requests for execution and of
      notification ticks ([overlap]; the stream worker's loop has its own steps).
      Every other handler and tick is one transition, those that wait on the
      network too: the upload and purge of evidence, the refresh and backfill of
      transactions, the policy tick, the webhook of the reputation.  A request for
      execution or a delivery is one step from its first wait on.  C1-C9 are about
      such runs, the other theorems about handlers and ticks that follow one
      another.  Between calls of the in-memory repository alone nothing can
      interleave, because their promises are already resolved; over PostgreSQL
      every call waits, and a handler that saves the row it read earlier may lose
      another's update: the runs here are those of the in-memory repository.
    - Strings outside ASCII (JavaScript orders by UTF-16 code unit), the NUL
      character in PostgreSQL (which refuses it) and object keys that look like
      integers (which JavaScript reorders).
    - In the PostgreSQL repository, transactions that overlap (a statement is
      atomic, and the queries of a [Promise.all] follow one another),
      microseconds, and columns that are written and never read;
      [repository/context.ts] and [repository/migrate.ts].
    - Reading [process.env], multer, Express itself, the headers of outgoing
      webhooks; the metrics route and CORS stand beside [serve] ([Reports.v]).
    - In [packages/xrpl-core], fractions of seconds, and the interleaving of a
      judgment with other operations at its awaits: the ruling is stored before
      the first of them, so that every operation on that dispute is refused
      until the end.  [Math.random] is a number of 53 bits; xrpl.js (autofill,
      signing, submitAndWait) is one answer of the environment.
    - In [services/be1-xrpl], NestJS's modules, class-validator's decorators
      other than the shape of amounts and months and, in [Frontend.v], those of
      [CreateContractDto] on the fields the app sends, connecting to the ledger, SMTP
      and BullMQ themselves (a retry may start at any time).  Seoul is UTC+9;
      KEPCO's answers have the declared shape with whole numbers, and numbers
      read from the ledger are integers; a numeric reply spelled with a fraction
      counts as missing.
    - In [apps/mobile-frontend], the views and their texts, actions that overlap (an
      action is one step, though it may see an old state), numbers of a draft other
      than the digits the form lets through, dates in local time; the scripts. *)
From stdpp Require Export base list strings gmap pretty sorting.
From Stdlib Require Export ZArith Lia.

(** * Notations *)

Declare Scope bs_scope.
Delimit Scope bs_scope with bs.
#[global] Open Scope bs_scope.
#[global] Open Scope string_scope.
#[global] Open Scope list_scope.

(** ** Record update

    [r <| f := v |>] is the JavaScript spread [{ ...r, f: v }] (or the field
    assignment [r.f = v]).  Each record gives its eta expansion once, and the
    update of any of its fields is derived from it. *)
Class Eta (R : Type) := eta_of : R -> R.
#[export] Hint Mode Eta + : typeclass_instances.

Class Setter {R T : Type} (f : R -> T) := mkSetter { upd : (T -> T) -> R -> R }.
Arguments upd {R T} f {_} _ _.

Ltac derive_setter :=
  match goal with
  | |- @Setter ?R ?T ?f =>
      let inst := constr:(@eta_of R _) in
      let e := eval hnf in inst in
      match eval pattern f in e with
      | ?F _ => exact (mkSetter R T f (fun (g : T -> T) => F (fun r : R => g (f r))))
      end
  end.

#[export] Hint Extern 1 (Setter _) => derive_setter : typeclass_instances.

Notation "r <| f := v |>" := (upd f (fun _ => v) r)
  (at level 1, left associativity, only parsing) : bs_scope.

(** * Automation shared by the components *)

Create HintDb bs discriminated.
Create Rewrite HintDb bsrw.

(** Case analysis on every [match] and [if] of the goal or the hypotheses. *)
Ltac split_matches :=
  repeat (case_match; simplify_eq/=; try done).

(** Turn the boolean tests of the code into propositions. *)
Ltac bool_to_prop :=
  repeat match goal with
  | H : bool_decide _ = true |- _ => apply bool_decide_eq_true in H
  | H : bool_decide _ = false |- _ => apply bool_decide_eq_false in H
  | H : (_ && _)%bool = true |- _ => apply andb_true_iff in H as [? ?]
  | H : (_ || _)%bool = false |- _ => apply orb_false_iff in H as [? ?]
  | H : negb _ = true |- _ => apply negb_true_iff in H
  | H : negb _ = false |- _ => apply negb_false_iff in H
  | H : (_ <=? _)%Z = true |- _ => apply Z.leb_le in H
  | H : (_ <=? _)%Z = false |- _ => apply Z.leb_gt in H
  | H : (_ <? _)%Z = true |- _ => apply Z.ltb_lt in H
  | H : (_ <? _)%Z = false |- _ => apply Z.ltb_ge in H
  | H : (_ =? _)%Z = true |- _ => apply Z.eqb_eq in H
  | H : (_ =? _)%Z = false |- _ => apply Z.eqb_neq in H
  end.

(** * JavaScript values

    The payloads of events, audit rows and HTTP bodies.  Numbers are the
    integers the services store ([JNum]); a number written with a fraction or
    an exponent is kept by its spelling ([JDec]).  [JUndef] is [undefined]: a
    property that is present with the value [undefined] is written out. *)
#[warnings="-register-all"]
Inductive JsVal :=
  | JUndef
  | JNull
  | JBool (b : bool)
  | JNum (n : Z)
  | JDec (lexeme : string)
  | JStr (s : string)
  | JArr (l : list JsVal)
  | JObj (l : list (string * JsVal)).

(** [v ?? null] and a plain optional property. *)
Definition jopt (o : option string) : JsVal :=
  match o with Some s => JStr s | None => JUndef end.
Definition jopt_num (o : option Z) : JsVal :=
  match o with Some n => JNum n | None => JUndef end.
Definition jnull (o : option string) : JsVal :=
  match o with Some s => JStr s | None => JNull end.
Definition jnull_num (o : option Z) : JsVal :=
  match o with Some n => JNum n | None => JNull end.

(** Property read on a plain object; a missing property is [undefined]. *)
Definition jget (k : string) (v : JsVal) : JsVal :=
  match v with
  | JObj l => match list_find (fun kv => kv.1 = k) l with
              | Some (_, (_, x)) => x
              | None => JUndef
              end
  | _ => JUndef
  end.

(** [typeof v === "string" ? v : undefined] *)
Definition jstr (v : JsVal) : option string :=
  match v with JStr s => Some s | _ => None end.
(** [typeof v === "number" ? v : undefined] *)
Definition jnum (v : JsVal) : option Z :=
  match v with JNum n => Some n | _ => None end.
(** [Boolean(v)] *)
Definition jtruthy (v : JsVal) : bool :=
  match v with
  | JUndef | JNull => false
  | JBool b => b
  | JNum n => negb (n =? 0)%Z
  | JDec _ => true
  | JStr s => negb (bool_decide (s = ""))
  | JArr _ | JObj _ => true
  end.

(** Truthiness of a [string | undefined]: the empty string is falsy. *)
Definition truthy (o : option string) : bool :=
  match o with Some s => negb (bool_decide (s = "")) | None => false end.

(** [if (f && v !== f) return false]: an absent or empty filter passes. *)
Definition flt_eq (f : option string) (v : string) : bool :=
  match f with
  | Some s => bool_decide (s = "") || bool_decide (v = s)
  | None => true
  end.

(** The optional field [o] compared with [===] to the filter. *)
Definition flt_eq_opt (f o : option string) : bool :=
  match f with
  | Some s => bool_decide (s = "") || bool_decide (o = Some s)
  | None => true
  end.

(** [o || undefined] on a string. *)
Definition nonempty (o : option string) : option string :=
  if truthy o then o else None.

Lemma truthy_Some o : truthy o = true -> exists s, o = Some s /\ s <> "".
Proof.
  destruct o as [s|]; simpl; [|done]. intros ?. bool_to_prop. eauto.
Qed.

Lemma flt_eq_spec f v :
  flt_eq f v = true <-> (truthy f = true -> f = Some v).
Proof.
  destruct f as [s|]; simpl; [|done].
  rewrite orb_true_iff, negb_true_iff, !bool_decide_eq_true, bool_decide_eq_false.
  destruct (decide (s = "")); naive_solver.
Qed.

(** * Lists *)

(** [l.slice(offset, offset + limit)] for non-negative bounds. *)
Definition slice {A} (offset limit : nat) (l : list A) : list A :=
  take limit (drop offset l).

Lemma slice_length {A} off lim (l : list A) :
  length (slice off lim l) = lim `min` (length l - off).
Proof. unfold slice. rewrite length_take, length_drop. lia. Qed.

Lemma slice_sublist {A} off lim (l : list A) : sublist (slice off lim l) l.
Proof.
  unfold slice. etrans; [apply sublist_take|apply sublist_drop].
Qed.

(** Two consecutive windows give the longer one. *)
Lemma slice_app {A} off n m (l : list A) :
  slice off n l ++ slice (off + n) m l = slice off (n + m) l.
Proof.
  unfold slice. rewrite <-drop_drop. generalize (drop off l) as k. intros k.
  revert k. induction n as [|n IH]; intros [|x k]; simpl; [done..| |].
  - by rewrite take_nil.
  - by rewrite IH.
Qed.

Lemma elem_of_slice {A} off lim (l : list A) x : x ∈ slice off lim l -> x ∈ l.
Proof. apply sublist_subseteq, slice_sublist. Qed.
