(* ===== verification/JsString.v ===== *)
(** JavaScript strings as the services use them: relational comparison,
    [localeCompare], [trim], [toLowerCase], [startsWith], [includes],
    [split(",")], and the printing of integers.  A string is a sequence of
    8-bit code units; the services store ASCII (identifiers, timestamps,
    status names), for which this is exact. *)
From S2P Require Import Prelude.
From Stdlib Require Import Ascii.

(** * Code units and lexicographic comparison *)

Fixpoint chars (s : string) : list ascii :=
  match s with EmptyString => [] | String c s' => c :: chars s' end.
Fixpoint of_chars (l : list ascii) : string :=
  match l with [] => EmptyString | c :: l' => String c (of_chars l') end.

Definition code (c : ascii) : N := N_of_ascii c.
Definition codes (s : string) : list N := code <$> chars s.

Lemma of_chars_chars s : of_chars (chars s) = s.
Proof. induction s; simpl; congruence. Qed.
Lemma chars_of_chars l : chars (of_chars l) = l.
Proof. induction l; simpl; congruence. Qed.
Lemma chars_app a b : chars (a +:+ b) = chars a ++ chars b.
Proof.
  induction a as [|x a IH]; [done|].
  change (x :: chars (a +:+ b) = x :: (chars a ++ chars b)). by rewrite IH.
Qed.
Lemma of_chars_app a b : of_chars (a ++ b) = of_chars a +:+ of_chars b.
Proof.
  induction a as [|x a IH]; [done|]. simpl. by rewrite IH.
Qed.
#[export] Instance chars_inj : Inj (=) (=) chars.
Proof. intros a b H. by rewrite <-(of_chars_chars a), H, of_chars_chars. Qed.
#[export] Instance of_chars_inj : Inj (=) (=) of_chars.
Proof. intros a b H. by rewrite <-(chars_of_chars a), H, chars_of_chars. Qed.
#[export] Instance code_inj : Inj (=) (=) code.
Proof.
  intros a b H. apply (f_equal ascii_of_N) in H. unfold code in H.
  by rewrite !ascii_N_embedding in H.
Qed.
#[export] Instance codes_inj : Inj (=) (=) codes.
Proof. intros a b H. by apply (inj chars), (inj (fmap code)). Qed.

Fixpoint lex_compare (a b : list N) : comparison :=
  match a, b with
  | [], [] => Eq
  | [], _ :: _ => Lt
  | _ :: _, [] => Gt
  | x :: a', y :: b' =>
      match (x ?= y)%N with Eq => lex_compare a' b' | r => r end
  end.

Lemma lex_compare_refl a : lex_compare a a = Eq.
Proof. induction a; simpl; [done|]. by rewrite N.compare_refl. Qed.

Lemma lex_compare_eq a b : lex_compare a b = Eq -> a = b.
Proof.
  revert b. induction a as [|x a IH]; intros [|y b]; simpl; try done.
  destruct (N.compare_spec x y); try done. subst. intros ?%IH. by subst.
Qed.

Lemma lex_compare_antisym a b : lex_compare b a = CompOpp (lex_compare a b).
Proof.
  revert b. induction a as [|x a IH]; intros [|y b]; simpl; try done.
  rewrite N.compare_antisym. by destruct (x ?= y)%N; simpl.
Qed.

Lemma lex_compare_trans a b c :
  lex_compare a b = Lt -> lex_compare b c = Lt -> lex_compare a c = Lt.
Proof.
  revert b c. induction a as [|x a IH]; intros [|y b] [|z c]; simpl; try done.
  destruct (N.compare_spec x y), (N.compare_spec y z), (N.compare_spec x z);
    try done; subst; try lia; eauto.
Qed.

(** A common prefix does not count. *)
Lemma lex_compare_app_l p a b : lex_compare (p ++ a) (p ++ b) = lex_compare a b.
Proof. induction p; simpl; [done|]. by rewrite N.compare_refl. Qed.

(** Blocks of equal length compare first. *)
Lemma lex_compare_app a1 a2 b1 b2 :
  length a1 = length b1 ->
  lex_compare (a1 ++ a2) (b1 ++ b2) =
    match lex_compare a1 b1 with Eq => lex_compare a2 b2 | r => r end.
Proof.
  revert b1. induction a1 as [|x a1 IH]; intros [|y b1]; simpl; try done.
  intros [= ?]. destruct (x ?= y)%N; auto.
Qed.

(** * Relational operators *)

Definition str_compare (a b : string) : comparison := lex_compare (codes a) (codes b).
(** [a < b], [a <= b], [a >= b], [a > b] on strings. *)
Definition str_lt (a b : string) : bool :=
  match str_compare a b with Lt => true | _ => false end.
Definition str_le (a b : string) : bool := negb (str_lt b a).

Lemma str_lt_irrefl a : str_lt a a = false.
Proof. unfold str_lt, str_compare. by rewrite lex_compare_refl. Qed.
Lemma str_lt_trans a b c : str_lt a b = true -> str_lt b c = true -> str_lt a c = true.
Proof.
  unfold str_lt, str_compare. intros.
  destruct (lex_compare (codes a) (codes b)) eqn:E1; try done.
  destruct (lex_compare (codes b) (codes c)) eqn:E2; try done.
  by rewrite (lex_compare_trans _ _ _ E1 E2).
Qed.
Lemma str_lt_total a b : str_lt a b = false -> str_lt b a = false -> a = b.
Proof.
  unfold str_lt, str_compare. rewrite (lex_compare_antisym (codes a) (codes b)).
  destruct (lex_compare (codes a) (codes b)) eqn:E; try done.
  intros _ _. by apply (inj codes), lex_compare_eq.
Qed.
Lemma str_le_refl a : str_le a a = true.
Proof. unfold str_le. by rewrite str_lt_irrefl. Qed.
Lemma str_lt_le a b : str_lt a b = true -> str_le a b = true.
Proof.
  unfold str_le. intros H. destruct (str_lt b a) eqn:E; [|done].
  pose proof (str_lt_trans _ _ _ H E) as C. by rewrite str_lt_irrefl in C.
Qed.
Lemma str_le_trans a b c : str_le a b = true -> str_le b c = true -> str_le a c = true.
Proof.
  unfold str_le. rewrite !negb_true_iff. intros H1 H2.
  destruct (str_lt c a) eqn:E; [|done].
  destruct (str_lt a b) eqn:E1.
  - by rewrite (str_lt_trans _ _ _ E E1) in H2.
  - by rewrite (str_lt_total _ _ E1 H1), H2 in E.
Qed.
Lemma str_le_total a b : str_le a b = true \/ str_le b a = true.
Proof.
  unfold str_le. destruct (str_lt b a) eqn:E; [|by left].
  right. apply negb_true_iff. destruct (str_lt a b) eqn:E2; [|done].
  pose proof (str_lt_trans _ _ _ E E2) as C. by rewrite str_lt_irrefl in C.
Qed.
#[export] Hint Resolve str_lt_irrefl str_le_refl str_lt_le : bs.

(** * [localeCompare]

    The default collation (CLDR root) on ASCII: whitespace, punctuation,
    symbols, digits, letters; letters compare by primary weight without regard
    to case, and on a primary tie the lower-case letter comes first.  Control
    characters are ignored. *)
Definition collation_order : list ascii :=
  chars (of_chars (ascii_of_N <$> [9;10;11;12;13]%N)) ++
  chars " _-,;:!?.'" ++ [ascii_of_N 34] ++ chars "()[]{}@*/\&#%`^+<=>|~$".

Definition is_digit (c : ascii) : bool := ((48 <=? code c) && (code c <=? 57))%N.
Definition is_lower (c : ascii) : bool := ((97 <=? code c) && (code c <=? 122))%N.
Definition is_upper (c : ascii) : bool := ((65 <=? code c) && (code c <=? 90))%N.

(** Primary weight; 0 is "ignored". *)
Definition primary_weight (c : ascii) : N :=
  if is_digit c then (100 + code c)%N
  else if is_lower c then (200 + (code c - 97))%N
  else if is_upper c then (200 + (code c - 65))%N
  else match list_find (fun x => x = c) collation_order with
       | Some (i, _) => (1 + N.of_nat i)%N
       | None => if (128 <=? code c)%N then (300 + code c)%N else 0%N
       end.
Definition tertiary_weight (c : ascii) : N := if is_upper c then 1%N else 0%N.

Definition collation_key (s : string) : list N * list N :=
  let cs := filter (fun c => primary_weight c <> 0%N) (chars s) in
  (primary_weight <$> cs, tertiary_weight <$> cs).

(** The sign of [a.localeCompare(b)]. *)
Definition localeCompare (a b : string) : comparison :=
  let '(p1, t1) := collation_key a in
  let '(p2, t2) := collation_key b in
  match lex_compare p1 p2 with Eq => lex_compare t1 t2 | r => r end.

Lemma localeCompare_refl a : localeCompare a a = Eq.
Proof. unfold localeCompare. simpl. by rewrite !lex_compare_refl. Qed.

Lemma localeCompare_antisym a b : localeCompare b a = CompOpp (localeCompare a b).
Proof.
  unfold localeCompare. simpl.
  rewrite (lex_compare_antisym (primary_weight <$> _)).
  destruct (lex_compare _ _); simpl; auto using lex_compare_antisym.
Qed.

(** Two strings of the same layout: at each position the same character, or
    two characters of [0-9a-z]. *)
Definition same_class (x y : ascii) : Prop :=
  x = y \/ ((is_digit x || is_lower x)%bool = true /\ (is_digit y || is_lower y)%bool = true).
Definition same_layout (a b : string) : Prop := Forall2 same_class (chars a) (chars b).

Lemma primary_weight_low c :
  (is_digit c || is_lower c)%bool = true ->
  primary_weight c = (if is_digit c then 100 + code c else 103 + code c)%N.
Proof.
  unfold primary_weight. destruct (is_digit c); simpl; [done|].
  intros H. rewrite H. unfold is_lower in H. apply andb_true_iff in H as [H _].
  apply N.leb_le in H. lia.
Qed.

Lemma same_class_compare x y :
  (is_digit x || is_lower x)%bool = true -> (is_digit y || is_lower y)%bool = true ->
  (primary_weight x ?= primary_weight y)%N = (code x ?= code y)%N.
Proof.
  intros Hx Hy. rewrite !primary_weight_low by done.
  unfold is_digit, is_lower in *.
  destruct (N.leb_spec 48 (code x)), (N.leb_spec (code x) 57), (N.leb_spec 97 (code x)),
    (N.leb_spec (code x) 122), (N.leb_spec 48 (code y)), (N.leb_spec (code y) 57),
    (N.leb_spec 97 (code y)), (N.leb_spec (code y) 122); simpl in *; try done; try lia;
  destruct (N.compare_spec (code x) (code y));
    first [apply N.compare_eq_iff | apply N.compare_lt_iff | apply N.compare_gt_iff]; lia.
Qed.

Lemma localeCompare_layout a b :
  same_layout a b -> localeCompare a b = str_compare a b.
Proof.
  intros H. unfold localeCompare, str_compare, collation_key, codes. simpl.
  assert (lex_compare (primary_weight <$> filter (fun c => primary_weight c <> 0%N) (chars a))
            (primary_weight <$> filter (fun c => primary_weight c <> 0%N) (chars b))
          = lex_compare (code <$> chars a) (code <$> chars b)) as ->.
  { unfold same_layout in H. induction H as [|x y l k Hxy _ IH]; [done|].
    destruct (decide (x = y)) as [->|Hne].
    - rewrite !filter_cons, !fmap_cons. cbn [lex_compare].
      rewrite N.compare_refl, <-IH.
      case_decide; rewrite ?fmap_cons; cbn [lex_compare]; by rewrite ?N.compare_refl.
    - destruct Hxy as [?|[Hx Hy]]; [done|].
      rewrite !filter_cons_True.
      + rewrite !fmap_cons. cbn [lex_compare]. rewrite same_class_compare by done.
        by rewrite IH.
      + rewrite primary_weight_low by done. case_match; lia.
      + rewrite primary_weight_low by done. case_match; lia. }
  destruct (lex_compare (code <$> chars a) _) eqn:E; try done.
  apply lex_compare_eq, (inj (fmap code)), (inj chars) in E. subst.
  apply lex_compare_refl.
Qed.

(** * Searching and slicing *)

Definition startsWith (s p : string) : bool := String.prefix p s.
Fixpoint includes_chars (l p : list ascii) : bool :=
  bool_decide (take (length p) l = p) ||
  match l with [] => false | _ :: l' => includes_chars l' p end.
Definition includes (s p : string) : bool := includes_chars (chars s) (chars p).
Definition endsWith (s p : string) : bool :=
  bool_decide (drop (length (chars s) - length (chars p)) (chars s) = chars p).
Definition str_length (s : string) : nat := length (chars s).
(** [s.slice(0, n)] *)
Definition str_take (n : nat) (s : string) : string := of_chars (take n (chars s)).

Lemma startsWith_app p s : startsWith (p +:+ s) p = true.
Proof.
  unfold startsWith. induction p as [|c p IH]; [by destruct s|].
  change (String.prefix (String c p) (String c (p +:+ s)) = true). simpl.
  destruct (ascii_dec c c); done.
Qed.

(** * [trim], case, [split] *)

Definition is_space (c : ascii) : bool :=
  ((9 <=? code c) && (code c <=? 13) || (code c =? 32) || (code c =? 160))%N.
Fixpoint drop_spaces (l : list ascii) : list ascii :=
  match l with c :: l' => if is_space c then drop_spaces l' else l | [] => [] end.
Definition trim (s : string) : string :=
  of_chars (rev (drop_spaces (rev (drop_spaces (chars s))))).
Definition lower_char (c : ascii) : ascii :=
  if is_upper c then ascii_of_N (code c + 32) else c.
Definition upper_char (c : ascii) : ascii :=
  if is_lower c then ascii_of_N (code c - 32) else c.
Definition toLowerCase (s : string) : string := of_chars (lower_char <$> chars s).
Definition toUpperCase (s : string) : string := of_chars (upper_char <$> chars s).

Fixpoint split_chars (sep : ascii) (l : list ascii) : list (list ascii) :=
  match l with
  | [] => [[]]
  | c :: l' =>
      if decide (c = sep) then [] :: split_chars sep l'
      else match split_chars sep l' with
           | w :: ws => (c :: w) :: ws
           | [] => [[c]]
           end
  end.
Definition split_on (sep : ascii) (s : string) : list string :=
  of_chars <$> split_chars sep (chars s).

(** [s.replace(/[^...]/g, r)] and [s.replace(/x/g, "")] character by character. *)
Definition map_chars (f : ascii -> ascii) (s : string) : string := of_chars (f <$> chars s).
Definition remove_char (x : ascii) (s : string) : string :=
  of_chars (filter (fun c => c <> x) (chars s)).
(** [/^[...]*$/.test(s)] for a class of characters. *)
Definition all_chars (p : ascii -> bool) (s : string) : bool := forallb p (chars s).
Definition is_hex (c : ascii) : bool :=
  is_digit c || (((97 <=? code c) && (code c <=? 102)) || ((65 <=? code c) && (code c <=? 70)))%N.

(** ** encodeURIComponent

    Every byte but the unreserved ones becomes [%XX]. *)
Definition uri_unreserved (c : ascii) : bool :=
  is_digit c || is_lower c || is_upper c || bool_decide (c ∈ chars "-_.!~*'()").
Definition hex_digit (n : N) : ascii :=
  ascii_of_N (if (n <? 10)%N then 48 + n else 55 + n)%N.
Definition uri_char (c : ascii) : list ascii :=
  if uri_unreserved c then [c]
  else ["%"%char; hex_digit (code c / 16); hex_digit (code c mod 16)]%N.
Definition encodeURIComponent (s : string) : string := of_chars (flat_map uri_char (chars s)).
Example encodeURI_ex : encodeURIComponent "a b/c.d" = "a%20b%2Fc.d".
Proof. reflexivity. Qed.
Lemma encodeURIComponent_id s : all_chars uri_unreserved s = true -> encodeURIComponent s = s.
Proof.
  unfold all_chars, encodeURIComponent. intros H. rewrite <-(of_chars_chars s) at 2. f_equal.
  induction (chars s) as [|c l IH]; [done|]. simpl in *. apply andb_prop in H as [Hc Hl].
  unfold uri_char at 1. rewrite Hc. simpl. f_equal. by apply IH.
Qed.

Lemma unreserved_nonspace c : uri_unreserved c = true -> is_space c = false.
Proof. destruct c as [[] [] [] [] [] [] [] []]; vm_compute; done. Qed.
Lemma drop_spaces_id l : Forall (fun c => is_space c = false) l -> drop_spaces l = l.
Proof. intros [|c l' Hc Hl]; simpl; [done|]. by rewrite Hc. Qed.
Lemma trim_unreserved s : all_chars uri_unreserved s = true -> trim s = s.
Proof.
  unfold all_chars, trim. intros H.
  assert (Forall (fun c => is_space c = false) (chars s)) as Hs.
  { apply Forall_forall. intros c Hc%list_elem_of_In. apply unreserved_nonspace.
    rewrite forallb_forall in H. auto. }
  rewrite (drop_spaces_id (chars s)) by done. rewrite drop_spaces_id.
  - by rewrite rev_involutive, of_chars_chars.
  - by apply Forall_rev.
Qed.

(** [`${n}`] *)
Definition num_str (n : Z) : string := pretty n.
#[export] Instance num_str_inj : Inj (=) (=) num_str.
Proof. apply pretty_Z_inj. Qed.

Example trim_ex : trim "  a b " = "a b". Proof. reflexivity. Qed.
Example split_ex : split_on "," "a,b,,c" = ["a"; "b"; ""; "c"]. Proof. reflexivity. Qed.
Example lower_ex : toLowerCase "Tes_9Z" = "tes_9z". Proof. reflexivity. Qed.
