(* ===== verification/JsMap.v ===== *)
(** The JavaScript [Map] with string keys, as [store.ts] uses it: an
    association list in insertion order, in which setting a present key keeps
    its place; its finite-map semantics ([gmap]); [Array.prototype.sort] (a
    stable sort), and comparators as instances of one class. *)
From S2P Require Import Prelude JsString.

Abbreviation JsMap V := (list (string * V)) (only parsing).

Section js_map.
Context {V : Type}.
Implicit Types (m : JsMap V) (k : string) (v : V).

(** [map.get(k)], [map.has(k)], [map.set(k, v)], [map.delete(k)],
    [[...map.values()]], [map.size]. *)
Fixpoint jm_get k m : option V :=
  match m with
  | [] => None
  | (k', v) :: m' => if decide (k = k') then Some v else jm_get k m'
  end.
Definition jm_has k m : bool := match jm_get k m with Some _ => true | None => false end.
Fixpoint jm_set k v m : JsMap V :=
  match m with
  | [] => [(k, v)]
  | (k', v') :: m' => if decide (k = k') then (k, v) :: m' else (k', v') :: jm_set k v m'
  end.
Definition jm_delete k m : JsMap V := filter (fun kv => kv.1 <> k) m.
Definition jm_values m : list V := m.*2.
Definition jm_keys m : list string := m.*1.
Definition jm_size m : nat := length m.

(** Keys are unique: what every map built by [set] and [delete] has. *)
Definition jm_wf m : Prop := NoDup (jm_keys m).

(** The finite map a JS map denotes. *)
Definition jm_to_gmap m : gmap string V := list_to_map m.

Lemma jm_get_gmap k m : jm_get k m = jm_to_gmap m !! k.
Proof.
  unfold jm_to_gmap. induction m as [|[k' v] m IH]; simpl; [by rewrite lookup_empty|].
  rewrite lookup_insert. repeat case_decide; congruence.
Qed.

Lemma jm_set_keys k v m :
  jm_keys (jm_set k v m) = if jm_has k m then jm_keys m else jm_keys m ++ [k].
Proof.
  unfold jm_has, jm_keys. induction m as [|[k' v'] m IH]; csimpl; [done|].
  case_decide; csimpl; [congruence|]. rewrite IH. by case_match.
Qed.

Lemma jm_get_elem k m : is_Some (jm_get k m) <-> k ∈ jm_keys m.
Proof.
  unfold jm_keys. induction m as [|[k' v] m IH]; csimpl.
  - split; [by intros [? ?]|by intros ?%not_elem_of_nil].
  - rewrite elem_of_cons, <-IH. case_decide; naive_solver.
Qed.

Lemma jm_set_wf k v m : jm_wf m -> jm_wf (jm_set k v m).
Proof.
  unfold jm_wf. intros H. rewrite jm_set_keys. unfold jm_has.
  destruct (jm_get k m) eqn:E; [done|].
  apply NoDup_app. split_and!; [done| |apply NoDup_singleton].
  intros x Hx ->%list_elem_of_singleton.
  apply jm_get_elem in Hx. rewrite E in Hx. by destruct Hx.
Qed.

Lemma jm_delete_wf k m : jm_wf m -> jm_wf (jm_delete k m).
Proof.
  unfold jm_wf, jm_delete, jm_keys. intros H. eapply sublist_NoDup; [exact H|].
  apply fmap_sublist, sublist_filter.
Qed.

(** [set] and [delete] are the finite-map operations. *)
Lemma jm_set_gmap k v m : jm_to_gmap (jm_set k v m) = <[k := v]> (jm_to_gmap m).
Proof.
  unfold jm_to_gmap. induction m as [|[k' v'] m IH]; simpl; [done|].
  case_decide as E; simpl; [subst; by rewrite insert_insert_eq|].
  by rewrite IH, insert_insert_ne.
Qed.

Lemma jm_delete_get k k' m : jm_get k' (jm_delete k m) = if decide (k = k') then None else jm_get k' m.
Proof.
  unfold jm_delete. induction m as [|[k0 v0] m IH]; simpl.
  - by case_decide.
  - rewrite filter_cons; simpl. repeat (case_decide; simplify_eq/=); congruence.
Qed.

Lemma jm_delete_gmap k m : jm_to_gmap (jm_delete k m) = delete k (jm_to_gmap m).
Proof.
  apply map_eq. intros k'. rewrite <-jm_get_gmap, jm_delete_get, lookup_delete.
  by case_decide; rewrite ?jm_get_gmap.
Qed.

Lemma jm_get_set k k' v m : jm_get k' (jm_set k v m) = if decide (k = k') then Some v else jm_get k' m.
Proof. by rewrite !jm_get_gmap, jm_set_gmap, lookup_insert. Qed.
Lemma jm_get_set_eq k v m : jm_get k (jm_set k v m) = Some v.
Proof. rewrite jm_get_set. by case_decide. Qed.
Lemma jm_get_set_ne k k' v m : k <> k' -> jm_get k' (jm_set k v m) = jm_get k' m.
Proof. intros. rewrite jm_get_set. by case_decide. Qed.

(** Entries and lookups. *)
Lemma jm_get_in k v m : jm_get k m = Some v -> (k, v) ∈ m.
Proof.
  induction m as [|[k' v'] m IH]; simpl; [done|].
  case_decide; intros; simplify_eq; [by left|right; auto].
Qed.
Lemma jm_in_get k v m : jm_wf m -> (k, v) ∈ m -> jm_get k m = Some v.
Proof.
  unfold jm_wf, jm_keys. induction m as [|[k' v'] m IH]; csimpl.
  - by intros _ ?%not_elem_of_nil.
  - intros [Hk Hm]%NoDup_cons [?|Hin]%elem_of_cons; simplify_eq; case_decide; try done.
    + subst. destruct Hk. apply list_elem_of_fmap. by exists (k', v).
    + auto.
Qed.
Lemma jm_values_get v m : jm_wf m -> v ∈ jm_values m <-> exists k, jm_get k m = Some v.
Proof.
  intros Hwf. unfold jm_values. rewrite list_elem_of_fmap. split.
  - intros ([k ?] & -> & ?). exists k. by apply jm_in_get.
  - intros [k ?%jm_get_in]. by exists (k, v).
Qed.

(** An overwrite keeps the position of the key. *)
Lemma jm_set_keys_present k v m : is_Some (jm_get k m) -> jm_keys (jm_set k v m) = jm_keys m.
Proof. intros [? H]. rewrite jm_set_keys. unfold jm_has. by rewrite H. Qed.
Lemma jm_set_absent k v m : jm_get k m = None -> jm_set k v m = m ++ [(k, v)].
Proof.
  induction m as [|[k' v'] m IH]; simpl; [done|]. case_decide; [done|].
  intros. by rewrite IH.
Qed.

(** The entries satisfy [P]: the shape of the store invariants. *)
Definition jm_all (P : string -> V -> Prop) m : Prop := Forall (fun kv => P kv.1 kv.2) m.
Lemma jm_all_set P k v m : jm_all P m -> P k v -> jm_all P (jm_set k v m).
Proof.
  unfold jm_all. induction m as [|[k' v'] m IH]; simpl; intros Hm Hv.
  - by constructor.
  - inversion_clear Hm. case_decide; constructor; simpl; auto.
Qed.
Lemma jm_all_delete P k m : jm_all P m -> jm_all P (jm_delete k m).
Proof.
  unfold jm_all, jm_delete. rewrite !Forall_forall.
  intros H x [_ ?]%list_elem_of_filter. auto.
Qed.
Lemma jm_all_get P k v m : jm_all P m -> jm_get k m = Some v -> P k v.
Proof. unfold jm_all. intros H ?%jm_get_in. rewrite Forall_forall in H. by apply (H (k, v)). Qed.
End js_map.
#[export] Hint Resolve jm_set_wf jm_delete_wf jm_all_set jm_all_delete : bs.
#[export] Hint Rewrite @jm_get_set_eq : bsrw.


(** * [Array.prototype.sort] with a comparator

    The specification requires a stable sort; for a comparator that orders
    totally, the stably sorted permutation is unique, so insertion from the
    right stands for the engine's merge sort. *)
Section sort.
Context {A : Type} (cmp : A -> A -> comparison).
Definition cmp_le (x y : A) : Prop := cmp x y <> Gt.
#[export] Instance cmp_le_dec x y : Decision (cmp_le x y).
Proof. unfold cmp_le. destruct (cmp x y); [left|left|right]; congruence. Defined.

Fixpoint sort_insert (x : A) (l : list A) : list A :=
  match l with
  | [] => [x]
  | y :: l' => if decide (cmp_le x y) then x :: l else y :: sort_insert x l'
  end.
Definition js_sort (l : list A) : list A := foldr sort_insert [] l.

Lemma sort_insert_perm x l : sort_insert x l ≡ₚ x :: l.
Proof.
  induction l as [|y l IH]; simpl; [done|]. case_decide; [done|].
  rewrite IH. apply Permutation_swap.
Qed.
Lemma js_sort_perm l : js_sort l ≡ₚ l.
Proof. induction l as [|x l IH]; simpl; [done|]. by rewrite sort_insert_perm, IH. Qed.
Lemma js_sort_length l : length (js_sort l) = length l.
Proof. by rewrite js_sort_perm. Qed.
Lemma elem_of_js_sort x l : x ∈ js_sort l <-> x ∈ l.
Proof. by rewrite js_sort_perm. Qed.
Lemma js_sort_NoDup l : NoDup (js_sort l) <-> NoDup l.
Proof. by rewrite js_sort_perm. Qed.

Context (Hanti : forall x y, cmp y x = CompOpp (cmp x y)).
Context (Htrans : forall x y z, cmp_le x y -> cmp_le y z -> cmp_le x z).

Lemma cmp_le_total x y : ~ cmp_le x y -> cmp_le y x.
Proof using Hanti. 
  unfold cmp_le. rewrite (Hanti x y). intros H.
  destruct (cmp x y); simpl; [by destruct H..|done].
Qed.

Lemma sort_insert_sorted x l :
  StronglySorted cmp_le l -> StronglySorted cmp_le (sort_insert x l).
Proof using Hanti Htrans.
  induction l as [|y l IH]; simpl; intros Hs; [by repeat constructor|].
  apply StronglySorted_inv in Hs as [Hs Hy]. case_decide as E.
  - constructor; [by constructor|]. constructor; [done|].
    eapply Forall_impl; [exact Hy|]. eauto.
  - constructor; [auto|]. rewrite sort_insert_perm.
    constructor; [by apply cmp_le_total|done].
Qed.
Lemma js_sort_sorted l : StronglySorted cmp_le (js_sort l).
Proof using Hanti Htrans.
  induction l as [|x l IH]; simpl; [constructor|]. by apply sort_insert_sorted.
Qed.

(** Stability: the elements of one class keep their order. *)
Lemma sort_insert_filter_eq z x l :
  StronglySorted cmp_le l ->
  filter (fun y => cmp z y = Eq) (sort_insert x l) =
    filter (fun y => cmp z y = Eq) (x :: l).
Proof using Hanti Htrans.
  induction l as [|y l IH]; simpl; intros Hs; [done|].
  apply StronglySorted_inv in Hs as [Hs Hy]. case_decide as E; [done|].
  rewrite !filter_cons, IH, filter_cons by done.
  destruct (decide (cmp z y = Eq)) as [Hzy|], (decide (cmp z x = Eq)) as [Hzx|]; try done.
  destruct E. apply (Htrans _ z); unfold cmp_le.
  - by rewrite Hanti, Hzx.
  - by rewrite Hzy.
Qed.
Lemma js_sort_stable z l :
  filter (fun y => cmp z y = Eq) (js_sort l) = filter (fun y => cmp z y = Eq) l.
Proof using Hanti Htrans.
  induction l as [|x l IH]; simpl; [done|].
  rewrite sort_insert_filter_eq by apply js_sort_sorted.
  rewrite !filter_cons, IH. done.
Qed.
End sort.

(** Comparators: total preorders as a class, closed under projection, reversal
    and lexicographic combination; the comparators the services sort with are
    instances, so that [js_sort] sorts and is stable for each of them. *)

Class TotalCmp {A} (cmp : A -> A -> comparison) := {
  tc_anti x y : cmp y x = CompOpp (cmp x y);
  tc_trans x y z : cmp_le cmp x y -> cmp_le cmp y z -> cmp_le cmp x z }.

(** [c1(x, y) || c2(x, y)] on comparison results. *)
Definition then_by {A} (c1 c2 : A -> A -> comparison) (x y : A) : comparison :=
  match c1 x y with Eq => c2 x y | c => c end.

Section total.
Context {A : Type} (cmp : A -> A -> comparison) `{!TotalCmp cmp}.

Lemma tc_refl x : cmp x x = Eq.
Proof using Type*. pose proof (tc_anti x x). by destruct (cmp x x). Qed.

Lemma tc_eq_l x y z : cmp x y = Eq -> cmp x z = cmp y z.
Proof using Type*.
  intros E. pose proof (tc_anti x y) as Ha. rewrite E in Ha. simpl in Ha.
  assert (cmp_le cmp x y /\ cmp_le cmp y x) as [Hxy Hyx] by (unfold cmp_le; by rewrite E, Ha).
  pose proof (tc_trans x y z Hxy) as H1. pose proof (tc_trans y x z Hyx) as H2.
  assert (cmp_le cmp z x -> cmp_le cmp z y) as H3 by (intros H; exact (tc_trans (cmp := cmp) z x y H Hxy)).
  assert (cmp_le cmp z y -> cmp_le cmp z x) as H4 by (intros H; exact (tc_trans (cmp := cmp) z y x H Hyx)).
  unfold cmp_le in H1, H2, H3, H4. rewrite (tc_anti (cmp := cmp) x z), (tc_anti (cmp := cmp) y z) in H3, H4.
  clear -H1 H2 H3 H4. destruct (cmp x z), (cmp y z); simpl in H3, H4; try reflexivity; exfalso;
    first [by apply H1|by apply H2|by apply H3|by apply H4].
Qed.

Lemma js_sort_total l : StronglySorted (cmp_le cmp) (js_sort cmp l).
Proof using Type*. apply js_sort_sorted; [apply tc_anti|apply tc_trans]. Qed.
End total.

#[export] Instance lex_total : TotalCmp lex_compare.
Proof.
  split; [intros; apply lex_compare_antisym|]. unfold cmp_le. intros x y z Hxy Hyz Hxz.
  assert (lex_compare z x = Lt) as Hzx by by rewrite lex_compare_antisym, Hxz.
  destruct (lex_compare x y) eqn:E1; [|destruct (lex_compare y z) eqn:E2|done]; try done.
  - apply lex_compare_eq in E1 as ->. congruence.
  - apply lex_compare_eq in E2 as ->. congruence.
  - rewrite (lex_compare_trans _ _ _ E1 E2) in Hxz. done.
Qed.

(** The comparators on a field, ascending and descending:
    [cmp(f(a), f(b))] and [cmp(f(b), f(a))]. *)
Definition asc {A B} (cmp : B -> B -> comparison) (f : A -> B) (x y : A) : comparison :=
  cmp (f x) (f y).
Definition desc {A B} (cmp : B -> B -> comparison) (f : A -> B) (x y : A) : comparison :=
  cmp (f y) (f x).

#[export] Instance asc_total {A B} (f : A -> B) cmp : TotalCmp cmp -> TotalCmp (asc cmp f).
Proof.
  intros H. unfold asc. split; [intros; apply (tc_anti (cmp := cmp))|].
  intros x y z. exact (tc_trans (cmp := cmp) (f x) (f y) (f z)).
Qed.
#[export] Instance desc_total {A B} (f : A -> B) cmp : TotalCmp cmp -> TotalCmp (desc cmp f).
Proof.
  intros H. unfold desc. split; [intros; apply (tc_anti (cmp := cmp))|].
  intros x y z H1 H2. exact (tc_trans (cmp := cmp) (f z) (f y) (f x) H2 H1).
Qed.

#[export] Instance then_total {A} (c1 c2 : A -> A -> comparison) :
  TotalCmp c1 -> TotalCmp c2 -> TotalCmp (then_by c1 c2).
Proof.
  intros H1 H2. split.
  - intros x y. unfold then_by. rewrite (tc_anti (cmp := c1) x y).
    destruct (c1 x y); simpl; [apply tc_anti|done..].
  - intros x y z. unfold cmp_le, then_by.
    destruct (c1 x y) eqn:E1.
    + rewrite (tc_eq_l c1 x y z E1). destruct (c1 y z); [apply tc_trans|done..].
    + intros _ Hyz. destruct (c1 x z) eqn:E3; try done.
      * destruct (c1 y z) eqn:E2; [|by rewrite (tc_eq_l c1 x z y E3), (tc_anti y z), E2 in E1|done].
        assert (c1 x y = Eq); [|congruence].
        by rewrite (tc_eq_l c1 x z y E3), (tc_anti y z), E2.
      * exfalso. revert E3. apply (tc_trans (cmp := c1) x y z); unfold cmp_le; [by rewrite E1|].
        destruct (c1 y z); [done..|by destruct Hyz].
    + done.
Qed.

#[export] Instance locale_total : TotalCmp localeCompare.
Proof.
  assert (TotalCmp (then_by (asc lex_compare (fun a => (collation_key a).1))
    (asc lex_compare (fun a => (collation_key a).2)))) as H by apply _.
  split; [exact (tc_anti (TotalCmp := H))|exact (tc_trans (TotalCmp := H))].
Qed.

#[export] Instance Zcompare_total : TotalCmp Z.compare.
Proof.
  split; [intros; apply Z.compare_antisym|]. unfold cmp_le. intros x y z.
  rewrite !Z.compare_le_iff. lia.
Qed.

(** Positions of a sorted list are ordered. *)
Lemma StronglySorted_lookup {A} (R : relation A) l i j a b :
  StronglySorted R l -> l !! i = Some a -> l !! j = Some b -> i < j -> R a b.
Proof.
  intros Hs Hi Hj Hlt. rewrite <-(take_drop j l) in Hs.
  eapply StronglySorted_app_1_elem_of; [exact Hs| |].
  - apply (list_elem_of_lookup_2 _ i). by rewrite lookup_take_lt.
  - apply (list_elem_of_lookup_2 _ 0). by rewrite lookup_drop, Nat.add_0_r.
Qed.
