(* ===== verification/JsDate.v ===== *)
(** JavaScript dates: the proleptic Gregorian calendar on milliseconds since
    the Unix epoch, [Date.prototype.toISOString], the ECMAScript date-time
    strings accepted by [Date.parse], and the facts the services rely on: the
    two are inverse, and the code-unit order of ISO strings is the order of
    the instants. *)
From S2P Require Import Prelude JsString JsMap.
From Stdlib Require Import Ascii.
Local Open Scope Z_scope.

(** * Calendar *)

(** (year, month 1-12, day 1-31) of a day number (0 is 1970-01-01), and back.
    Years start on 1 March; an era is 400 years. *)
Definition year_of_era (doe : Z) : Z :=
  (doe - doe / 1460 + doe / 36524 - doe / 146096) / 365.
Definition year_start (yoe : Z) : Z := 365 * yoe + yoe / 4 - yoe / 100.

Definition civil_of_days (days : Z) : Z * Z * Z :=
  let z := days + 719468 in
  let era := z / 146097 in
  let doe := z mod 146097 in
  let yoe := year_of_era doe in
  let doy := doe - year_start yoe in
  let mp := (5 * doy + 2) / 153 in
  let d := doy - (153 * mp + 2) / 5 + 1 in
  let m := if mp <? 10 then mp + 3 else mp - 9 in
  let y := yoe + era * 400 in
  ((if m <=? 2 then y + 1 else y), m, d).

Definition days_of_civil (y m d : Z) : Z :=
  let y' := if m <=? 2 then y - 1 else y in
  let era := y' / 400 in
  let yoe := y' mod 400 in
  let mp := if m <=? 2 then m + 9 else m - 3 in
  let doy := (153 * mp + 2) / 5 + d - 1 in
  era * 146097 + (year_start yoe + doy) - 719468.

Lemma year_of_era_spec doe :
  0 <= doe < 146097 ->
  0 <= year_of_era doe < 400 /\ 0 <= doe - year_start (year_of_era doe) < 366 /\
  (year_of_era doe < 399 -> doe < year_start (year_of_era doe + 1)).
Proof.
  unfold year_start, year_of_era. intros H.
  split; [|split]; Z.to_euclidean_division_equations; lia.
Qed.

Lemma year_start_mono a b : 0 <= a <= b -> year_start a <= year_start b.
Proof. unfold year_start. intros. Z.to_euclidean_division_equations; lia. Qed.

Lemma year_of_era_mono a b :
  0 <= a < 146097 -> 0 <= b < 146097 -> a <= b -> year_of_era a <= year_of_era b.
Proof.
  intros Ha Hb Hab.
  destruct (year_of_era_spec a Ha) as (?&?&?), (year_of_era_spec b Hb) as (?&?&Hlt).
  destruct (Z.le_gt_cases (year_of_era a) (year_of_era b)) as [|Hgt]; [done|exfalso].
  assert (b < year_start (year_of_era b + 1)) by (apply Hlt; lia).
  pose proof (year_start_mono (year_of_era b + 1) (year_of_era a)). lia.
Qed.

Lemma civil_fields days :
  let '(y, m, d) := civil_of_days days in 1 <= m <= 12 /\ 1 <= d <= 31.
Proof.
  unfold civil_of_days. cbv zeta.
  pose proof (Z.mod_pos_bound (days + 719468) 146097 ltac:(lia)) as Hdoe.
  destruct (year_of_era_spec _ Hdoe) as (_&Hd&_).
  set (doy := _ - year_start _) in *. clearbody doy.
  destruct ((5 * doy + 2) / 153 <? 10) eqn:E; bool_to_prop;
    Z.to_euclidean_division_equations; lia.
Qed.

Theorem days_of_civil_of_days days :
  let '(y, m, d) := civil_of_days days in days_of_civil y m d = days.
Proof.
  unfold civil_of_days, days_of_civil. cbv zeta.
  pose proof (Z.mod_pos_bound (days + 719468) 146097 ltac:(lia)) as Hdoe.
  pose proof (Z.div_mod (days + 719468) 146097 ltac:(lia)) as Hz.
  destruct (year_of_era_spec _ Hdoe) as (Hy&Hd&_).
  set (doe := (days + 719468) mod 146097) in *.
  set (era := (days + 719468) / 146097) in *.
  set (yoe := year_of_era doe) in *. set (doy := doe - year_start yoe) in *.
  assert (0 <= (5 * doy + 2) / 153 <= 11) as Hmp
    by (clear -Hd; Z.to_euclidean_division_equations; lia).
  set (mp := (5 * doy + 2) / 153) in *.
  assert ((yoe + era * 400) / 400 = era /\ (yoe + era * 400) mod 400 = yoe) as [Hq Hr]
    by (split; [rewrite Z.div_add, Z.div_small; lia|rewrite Z.mod_add, Z.mod_small; lia]).
  destruct (mp <? 10) eqn:E; bool_to_prop.
  - rewrite !(proj2 (Z.leb_gt (mp + 3) 2)) by lia. rewrite Hq, Hr.
    replace (mp + 3 - 3) with mp by lia. lia.
  - rewrite !(proj2 (Z.leb_le (mp - 9) 2)) by lia.
    replace (yoe + era * 400 + 1 - 1) with (yoe + era * 400) by lia.
    rewrite Hq, Hr. replace (mp - 9 + 9) with mp by lia. lia.
Qed.

(** The date as one number that grows with the calendar. *)
Definition civil_key (ymd : Z * Z * Z) : Z :=
  let '(y, m, d) := ymd in (y * 12 + m) * 32 + d.

Lemma civil_key_mono a b : a < b -> civil_key (civil_of_days a) < civil_key (civil_of_days b).
Proof.
  assert (forall days, let z := days + 719468 in
    let doe := z mod 146097 in let yoe := year_of_era doe in
    let doy := doe - year_start yoe in let mp := (5 * doy + 2) / 153 in
    civil_key (civil_of_days days) =
      ((yoe + z / 146097 * 400) * 12 + mp + 3) * 32 + (doy - (153 * mp + 2) / 5 + 1)) as Hk.
  { intros days. unfold civil_of_days, civil_key. cbv zeta.
    pose proof (Z.mod_pos_bound (days + 719468) 146097 ltac:(lia)) as Hdoe.
    destruct (year_of_era_spec _ Hdoe) as (_&Hd&_).
    set (doe := (days + 719468) mod 146097) in *.
    set (doy := doe - year_start (year_of_era doe)) in *.
    assert (0 <= (5 * doy + 2) / 153 <= 11) as Hmp
      by (clear -Hd; Z.to_euclidean_division_equations; lia).
    set (mp := (5 * doy + 2) / 153) in *.
    set (dd := (153 * mp + 2) / 5). clearbody mp dd doy.
    destruct (mp <? 10) eqn:E; bool_to_prop.
    - rewrite (proj2 (Z.leb_gt (mp + 3) 2)); lia.
    - rewrite (proj2 (Z.leb_le (mp - 9) 2)); lia. }
  intros Hab. rewrite !Hk. cbv zeta. clear Hk.
  pose proof (Z.div_mod (a + 719468) 146097 ltac:(lia)) as Ha.
  pose proof (Z.div_mod (b + 719468) 146097 ltac:(lia)) as Hb.
  pose proof (Z.mod_pos_bound (a + 719468) 146097 ltac:(lia)) as Hda.
  pose proof (Z.mod_pos_bound (b + 719468) 146097 ltac:(lia)) as Hdb.
  set (da := (a + 719468) mod 146097) in *. set (db := (b + 719468) mod 146097) in *.
  set (ea := (a + 719468) / 146097) in *. set (eb := (b + 719468) / 146097) in *.
  clearbody da db ea eb.
  destruct (year_of_era_spec da Hda) as (Hya&Hoa&_), (year_of_era_spec db Hdb) as (Hyb&Hob&_).
  pose proof (year_of_era_mono da db Hda Hdb) as Hm.
  set (ya := year_of_era da) in *. set (yb := year_of_era db) in *. clearbody ya yb.
  assert (ea < eb \/ ea = eb /\ (ya < yb \/ ya = yb /\ da < db)) as Hc by lia.
  assert (forall doy, 0 <= doy < 366 -> let mp := (5 * doy + 2) / 153 in
    0 <= mp <= 11 /\ 1 <= doy - (153 * mp + 2) / 5 + 1 <= 31) as Hr.
  { intros doy ?. cbv zeta. Z.to_euclidean_division_equations; lia. }
  pose proof (Hr _ Hoa) as Hra. pose proof (Hr _ Hob) as Hrb. cbv zeta in Hra, Hrb. clear Hr.
  destruct Hc as [|[-> [|[-> ?]]]]; [lia|lia|].
  set (oa := da - year_start yb) in *. set (ob := db - year_start yb) in *.
  assert (oa < ob) by lia. clearbody oa ob.
  Z.to_euclidean_division_equations; lia.
Qed.

(** * [toISOString] *)

(** The last [n] decimal digits of [v]. *)
Fixpoint pad (n : nat) (v : Z) : list ascii :=
  match n with
  | O => []
  | S n' => pad n' (v / 10) ++ [ascii_of_N (Z.to_N (48 + v mod 10))]
  end.

Definition iso_year (y : Z) : list ascii :=
  if (0 <=? y) && (y <=? 9999) then pad 4 y
  else (if y <? 0 then "-"%char else "+"%char) :: pad 6 (Z.abs y).

Definition iso_chars (t : Z) : list ascii :=
  let '(y, m, d) := civil_of_days (t / 86400000) in
  let tod := t mod 86400000 in
  iso_year y ++ ["-"%char] ++ pad 2 m ++ ["-"%char] ++ pad 2 d ++ ["T"%char] ++
  pad 2 (tod / 3600000) ++ [":"%char] ++ pad 2 (tod / 60000 mod 60) ++ [":"%char] ++
  pad 2 (tod / 1000 mod 60) ++ ["."%char] ++ pad 3 (tod mod 1000) ++ ["Z"%char].

(** [new Date(t).toISOString()] *)
Definition toISOString (t : Z) : string := of_chars (iso_chars t).

(** [d.setUTCDate(d.getUTCDate() + n)] adds whole days. *)
Definition addUTCDays (t n : Z) : Z := t + n * 86400000.

Example iso_ex : toISOString 1767225600123 = "2026-01-01T00:00:00.123Z".
Proof. reflexivity. Qed.
Example iso_ex_leap : toISOString 1709210096007 = "2024-02-29T12:34:56.007Z".
Proof. reflexivity. Qed.

(** * [Date.parse] *)

Definition digit_val (c : ascii) : option Z :=
  if is_digit c then Some (Z.of_N (code c) - 48) else None.

(** Read exactly [n] digits. *)
Fixpoint read_digits (n : nat) (acc : Z) (l : list ascii) : option (Z * list ascii) :=
  match n with
  | O => Some (acc, l)
  | S n' => match l with
            | c :: l' => v ← digit_val c; read_digits n' (acc * 10 + v) l'
            | [] => None
            end
  end.
Definition read_char (c : ascii) (l : list ascii) : option (list ascii) :=
  match l with x :: l' => if decide (x = c) then Some l' else None | [] => None end.

Definition read_year (l : list ascii) : option (Z * list ascii) :=
  match l with
  | "+"%char :: l' => read_digits 6 0 l'
  | "-"%char :: l' => '(y, r) ← read_digits 6 0 l'; Some (- y, r)
  | _ => read_digits 4 0 l
  end.

(** [Z] or [+HH:mm] / [-HH:mm]: the offset from UTC in milliseconds. *)
Definition read_zone (l : list ascii) : option (Z * list ascii) :=
  match l with
  | "Z"%char :: l' => Some (0, l')
  | c :: l' =>
      if decide (c = "+"%char \/ c = "-"%char) then
        '(h, l1) ← read_digits 2 0 l'; l2 ← read_char ":" l1;
        '(m, l3) ← read_digits 2 0 l2;
        if (h <=? 23) && (m <=? 59)
        then Some ((if decide (c = "-"%char) then -1 else 1) * (h * 60 + m) * 60000, l3)
        else None
      else None
  | [] => None
  end.

Definition read_time (l : list ascii) : option (Z * list ascii) :=
  '(h, l1) ← read_digits 2 0 l; l2 ← read_char ":" l1;
  '(mi, l3) ← read_digits 2 0 l2;
  '(s, ms, l4) ← (match read_char ":" l3 with
    | None => Some (0, 0, l3)
    | Some l5 => '(s, l6) ← read_digits 2 0 l5;
        match read_char "." l6 with
        | None => Some (s, 0, l6)
        | Some l7 => '(ms, l8) ← read_digits 3 0 l7; Some (s, ms, l8)
        end
    end);
  if (h <=? 23) && (mi <=? 59) && (s <=? 59)
  then Some (((h * 60 + mi) * 60 + s) * 1000 + ms, l4) else None.

Definition date_ms (y m d : Z) : option Z :=
  let n := days_of_civil y m d in
  if decide (civil_of_days n = (y, m, d)) then Some (n * 86400000) else None.

(** The date-time strings of the ECMAScript specification with an explicit
    zone, and the date-only forms (UTC). *)
Definition parse_iso (s : string) : option Z :=
  '(y, l1) ← read_year (chars s);
  match l1 with
  | [] => date_ms y 1 1
  | _ =>
      l2 ← read_char "-" l1; '(m, l3) ← read_digits 2 0 l2;
      match l3 with
      | [] => date_ms y m 1
      | _ =>
          l4 ← read_char "-" l3; '(d, l5) ← read_digits 2 0 l4;
          day ← date_ms y m d;
          match l5 with
          | [] => Some day
          | _ => l6 ← read_char "T" l5; '(tm, l7) ← read_time l6;
                 '(off, l8) ← read_zone l7;
                 match l8 with [] => Some (day + tm - off) | _ => None end
          end
      end
  end.

(** [Date.parse(s)], [None] for [NaN].  What the engine makes of any other
    string (a local time, an implementation-defined format) is [legacy]. *)
Definition date_parse (legacy : string -> option Z) (s : string) : option Z :=
  match parse_iso s with Some t => Some t | None => legacy s end.

Example parse_ex : parse_iso "2026-05-31T20:00:00-12:00" = Some 1780300800000.
Proof. vm_compute. reflexivity. Qed.
Example parse_ex_day : parse_iso "2026-02-30" = None.
Proof. vm_compute. reflexivity. Qed.

(** * Round trip and order *)

(** The instants whose year has four digits (years 0 to 9999). *)
Definition iso_range (t : Z) : Prop := -62167219200000 <= t < 253402300800000.

Lemma pad_length n v : length (pad n v) = n.
Proof.
  revert v. induction n as [|n IH]; intros v; simpl; [done|].
  rewrite length_app, IH. simpl. lia.
Qed.

Lemma digit_code v : 0 <= v -> code (ascii_of_N (Z.to_N (48 + v mod 10))) = Z.to_N (48 + v mod 10).
Proof.
  intros. pose proof (Z.mod_pos_bound v 10 ltac:(lia)).
  unfold code. apply N_ascii_embedding. lia.
Qed.

Lemma digit_val_digit v :
  0 <= v -> digit_val (ascii_of_N (Z.to_N (48 + v mod 10))) = Some (v mod 10).
Proof.
  intros. pose proof (Z.mod_pos_bound v 10 ltac:(lia)).
  unfold digit_val, is_digit. rewrite digit_code by done.
  rewrite (proj2 (N.leb_le _ _)), (proj2 (N.leb_le _ _)) by lia. simpl. f_equal. lia.
Qed.

Lemma read_digits_snoc n acc l :
  read_digits (S n) acc l = '(a, r) ← read_digits n acc l; read_digits 1 a r.
Proof.
  revert acc l. induction n as [|n IH]; intros acc l; [done|].
  destruct l as [|c l]; [done|].
  change (read_digits (S (S n)) acc (c :: l)) with
    (v ← digit_val c; read_digits (S n) (acc * 10 + v) l).
  change (read_digits (S n) acc (c :: l)) with
    (v ← digit_val c; read_digits n (acc * 10 + v) l).
  destruct (digit_val c); simpl; [|done]. apply IH.
Qed.

Lemma read_digits_pad n v acc l :
  0 <= v < 10 ^ Z.of_nat n ->
  read_digits n acc (pad n v ++ l) = Some (acc * 10 ^ Z.of_nat n + v, l).
Proof.
  revert v l. induction n as [|n IH]; intros v l Hv.
  - simpl in *. do 2 f_equal. lia.
  - rewrite Nat2Z.inj_succ, Z.pow_succ_r in * by lia.
    rewrite read_digits_snoc. simpl pad. rewrite <-(assoc_L (++)), IH.
    2:{ split; [apply Z.div_pos; lia|]. apply Z.div_lt_upper_bound; lia. }
    cbn -[Z.modulo Z.mul Z.add digit_val ascii_of_N Z.to_N]. rewrite digit_val_digit by lia.
    simpl. do 2 f_equal. pose proof (Z.div_mod v 10). lia.
Qed.

Lemma lex_compare_pad n a b :
  0 <= a < 10 ^ Z.of_nat n -> 0 <= b < 10 ^ Z.of_nat n ->
  lex_compare (code <$> pad n a) (code <$> pad n b) = (a ?= b).
Proof.
  revert a b. induction n as [|n IH]; intros a b Ha Hb.
  - simpl in *. symmetry. apply Z.compare_eq_iff. lia.
  - rewrite Nat2Z.inj_succ, Z.pow_succ_r in * by lia. simpl pad. rewrite !fmap_app.
    rewrite lex_compare_app by (rewrite !length_fmap, !pad_length; done).
    rewrite IH by (split; [apply Z.div_pos; lia|apply Z.div_lt_upper_bound; lia]).
    rewrite !list_fmap_singleton, !digit_code by lia. simpl.
    pose proof (Z.mod_pos_bound a 10 ltac:(lia)). pose proof (Z.mod_pos_bound b 10 ltac:(lia)).
    pose proof (Z.div_mod a 10 ltac:(lia)). pose proof (Z.div_mod b 10 ltac:(lia)).
    destruct (Z.compare_spec (a / 10) (b / 10)) as [E|E|E].
    + rewrite Z2N.inj_compare by lia.
      destruct (Z.compare_spec (48 + a mod 10) (48 + b mod 10)); symmetry;
        first [apply Z.compare_eq_iff|apply Z.compare_lt_iff|apply Z.compare_gt_iff]; lia.
    + symmetry. apply Z.compare_lt_iff. lia.
    + symmetry. apply Z.compare_gt_iff. lia.
Qed.

Lemma iso_range_year t :
  iso_range t -> let '(y, m, d) := civil_of_days (t / 86400000) in 0 <= y <= 9999.
Proof.
  unfold iso_range. intros Ht.
  assert (-719529 < t / 86400000 < 2932897) as Hd by (Z.to_euclidean_division_equations; lia).
  pose proof (civil_key_mono (-719529) (t / 86400000) ltac:(lia)) as H1.
  pose proof (civil_key_mono (t / 86400000) 2932897 ltac:(lia)) as H2.
  change (civil_of_days (-719529)) with (-1, 12, 31) in H1.
  change (civil_of_days 2932897) with (10000, 1, 1) in H2.
  pose proof (civil_fields (t / 86400000)) as Hf.
  destruct (civil_of_days (t / 86400000)) as [[y m] d]. unfold civil_key in *. lia.
Qed.

(** The time of day in hours, minutes, seconds, milliseconds. *)
Lemma tod_fields tod :
  0 <= tod < 86400000 ->
  let h := tod / 3600000 in let mi := tod / 60000 mod 60 in
  let s := tod / 1000 mod 60 in let ms := tod mod 1000 in
  0 <= h <= 23 /\ 0 <= mi <= 59 /\ 0 <= s <= 59 /\ 0 <= ms <= 999 /\
  tod = ((h * 60 + mi) * 60 + s) * 1000 + ms.
Proof.
  intros Htod. cbv zeta.
  replace (tod / 3600000) with (tod / 1000 / 60 / 60) by (by rewrite !Z.div_div by lia).
  replace (tod / 60000) with (tod / 1000 / 60) by (by rewrite !Z.div_div by lia).
  pose proof (Z.div_mod tod 1000 ltac:(lia)). pose proof (Z.mod_pos_bound tod 1000 ltac:(lia)).
  set (q := tod / 1000) in *.
  pose proof (Z.div_mod q 60 ltac:(lia)). pose proof (Z.mod_pos_bound q 60 ltac:(lia)).
  set (q' := q / 60) in *.
  pose proof (Z.div_mod q' 60 ltac:(lia)). pose proof (Z.mod_pos_bound q' 60 ltac:(lia)).
  lia.
Qed.

Lemma iso_year_pad y : 0 <= y <= 9999 -> iso_year y = pad 4 y.
Proof.
  intros. unfold iso_year.
  by rewrite (proj2 (Z.leb_le 0 y)), (proj2 (Z.leb_le y 9999)) by lia.
Qed.

Lemma read_year_pad y l : 0 <= y <= 9999 -> read_year (pad 4 y ++ l) = Some (y, l).
Proof.
  intros Hy. assert (read_digits 4 0 (pad 4 y ++ l) = Some (y, l)) as <-.
  { rewrite read_digits_pad by (simpl; lia). do 2 f_equal. }
  unfold read_year. simpl pad. simpl.
  set (c := ascii_of_N (Z.to_N (48 + y / 10 / 10 / 10 mod 10))).
  assert (is_digit c = true) as Hc.
  { assert (digit_val c <> None) as Hv.
    { subst c. rewrite digit_val_digit; [done|]. Z.to_euclidean_division_equations; lia. }
    unfold digit_val in Hv. by destruct (is_digit c). }
  destruct c as [[] [] [] [] [] [] [] []]; try done.
Qed.

(** One step of the parser on a rendered string. *)
Ltac read_step :=
  first [rewrite decide_True by done | rewrite read_digits_pad by (simpl; lia)];
  cbn -[pad read_digits date_ms read_zone read_time Z.mul Z.add Z.leb].

(** The fields that [toISOString] prints. *)
Lemma iso_fields t :
  iso_range t -> exists y m d h mi s ms,
    0 <= y <= 9999 /\ 1 <= m <= 12 /\ 1 <= d <= 31 /\ 0 <= h <= 23 /\ 0 <= mi <= 59 /\ 0 <= s <= 59 /\ 0 <= ms <= 999 /\
    date_ms y m d = Some (t / 86400000 * 86400000) /\
    t mod 86400000 = ((h * 60 + mi) * 60 + s) * 1000 + ms /\
    chars (toISOString t) = pad 4 y ++ ["-"%char] ++ pad 2 m ++ ["-"%char] ++ pad 2 d ++ ["T"%char] ++ pad 2 h ++
      [":"%char] ++ pad 2 mi ++ [":"%char] ++ pad 2 s ++ ["."%char] ++ pad 3 ms ++ ["Z"%char].
Proof.
  intros Ht. pose proof (iso_range_year t Ht) as Hy.
  pose proof (tod_fields _ (Z.mod_pos_bound t 86400000 ltac:(lia))) as Hf. cbv zeta in Hf.
  pose proof (civil_fields (t / 86400000)) as Hc.
  pose proof (days_of_civil_of_days (t / 86400000)) as Hd.
  unfold toISOString, iso_chars. rewrite chars_of_chars.
  destruct (civil_of_days (t / 86400000)) as [[y m] d] eqn:Ed. rewrite iso_year_pad by done.
  set (tod := t mod 86400000) in *.
  exists y, m, d, (tod / 3600000), (tod / 60000 mod 60), (tod / 1000 mod 60), (tod mod 1000).
  destruct Hf as (?&?&?&?&?). split_and!; try lia; [|reflexivity].
  unfold date_ms. rewrite Hd, Ed. by rewrite decide_True.
Qed.

(** [Date.parse] inverts [toISOString]. *)
Lemma parse_iso_toISOString t : iso_range t -> parse_iso (toISOString t) = Some t.
Proof.
  intros Ht. destruct (iso_fields t Ht) as (y&m&d&h&mi&s&ms&Hy&Hm&Hd&Hh&Hmi&Hs&Hms&Hday&Htod&Hiso).
  pose proof (Z.div_mod t 86400000 ltac:(lia)) as Hdiv. clear Ht.
  unfold parse_iso. rewrite Hiso, read_year_pad by done.
  cbn -[pad read_digits date_ms read_zone read_time Z.mul Z.add Z.leb].
  repeat read_step. rewrite !Z.mul_0_l, !Z.add_0_l, Hday.
  cbn -[pad read_digits read_zone read_time Z.mul Z.add Z.leb]. repeat read_step.
  unfold read_time. repeat read_step. rewrite !Z.mul_0_l, !Z.add_0_l.
  rewrite (proj2 (Z.leb_le h 23)), (proj2 (Z.leb_le mi 59)), (proj2 (Z.leb_le s 59)) by lia.
  cbn -[Z.mul Z.add]. f_equal. lia.
Qed.

(** ** Order *)

(** A separator between blocks of equal width does not matter. *)
Lemma lex_compare_block n a b c l k :
  0 <= a < 10 ^ Z.of_nat n -> 0 <= b < 10 ^ Z.of_nat n ->
  lex_compare (code <$> (pad n a ++ c :: l)) (code <$> (pad n b ++ c :: k)) =
    match a ?= b with Eq => lex_compare (code <$> l) (code <$> k) | r => r end.
Proof.
  intros Ha Hb. rewrite !fmap_app, lex_compare_app by (by rewrite !length_fmap, !pad_length).
  rewrite lex_compare_pad, !fmap_cons by done. cbn [lex_compare].
  by rewrite N.compare_refl.
Qed.

(** Lexicographic comparison of two mixed-radix numbers. *)
Lemma radix_compare r a b a' b' :
  - r < a' - b' < r ->
  (a * r + a' ?= b * r + b') = match a ?= b with Eq => a' ?= b' | c => c end.
Proof.
  intros Hr. destruct (Z.compare_spec a b) as [->|E|E].
  - destruct (Z.compare_spec a' b') as [->|E|E].
    + apply Z.compare_refl.
    + apply Z.compare_lt_iff. lia.
    + apply Z.compare_gt_iff. lia.
  - apply Z.compare_lt_iff. nia.
  - apply Z.compare_gt_iff. nia.
Qed.

Lemma civil_compare a b :
  (civil_key (civil_of_days a) ?= civil_key (civil_of_days b)) = (a ?= b).
Proof.
  destruct (Z.compare_spec a b) as [->|E|E].
  - apply Z.compare_refl.
  - apply Z.compare_lt_iff. by apply civil_key_mono.
  - apply Z.compare_gt_iff. by apply civil_key_mono.
Qed.

(** Comparing two ISO timestamps as strings is comparing the instants. *)
Lemma iso_compare a b :
  iso_range a -> iso_range b -> str_compare (toISOString a) (toISOString b) = (a ?= b).
Proof.
  intros Ha Hb.
  pose proof (iso_range_year a Ha) as Hya. pose proof (iso_range_year b Hb) as Hyb.
  pose proof (civil_fields (a / 86400000)) as Hca. pose proof (civil_fields (b / 86400000)) as Hcb.
  pose proof (civil_compare (a / 86400000) (b / 86400000)) as Hk.
  pose proof (Z.mod_pos_bound a 86400000 ltac:(lia)) as Hta.
  pose proof (Z.mod_pos_bound b 86400000 ltac:(lia)) as Htb.
  pose proof (Z.div_mod a 86400000 ltac:(lia)) as Hda.
  pose proof (Z.div_mod b 86400000 ltac:(lia)) as Hdb.
  pose proof (tod_fields _ Hta) as Hfa. pose proof (tod_fields _ Htb) as Hfb.
  cbv zeta in Hfa, Hfb.
  unfold str_compare, codes, toISOString, iso_chars. rewrite !chars_of_chars.
  destruct (civil_of_days (a / 86400000)) as [[y1 m1] d1].
  destruct (civil_of_days (b / 86400000)) as [[y2 m2] d2].
  rewrite !iso_year_pad by done. cbn [app].
  rewrite !lex_compare_block by (simpl; lia).
  transitivity (a / 86400000 * 86400000 + a mod 86400000 ?= b / 86400000 * 86400000 + b mod 86400000).
  2: { f_equal; lia. }
  rewrite radix_compare, <-Hk by lia. unfold civil_key.
  rewrite !radix_compare by lia.
  set (ta := a mod 86400000) in *. set (tb := b mod 86400000) in *.
  replace (ta ?= tb) with
    (((ta / 3600000 * 60 + ta / 60000 mod 60) * 60 + ta / 1000 mod 60) * 1000 + ta mod 1000 ?=
     ((tb / 3600000 * 60 + tb / 60000 mod 60) * 60 + tb / 1000 mod 60) * 1000 + tb mod 1000)
    by (f_equal; lia).
  rewrite !radix_compare by lia. clear. simpl lex_compare.
  repeat case_match; congruence.
Qed.

Lemma iso_lt a b :
  iso_range a -> iso_range b -> str_lt (toISOString a) (toISOString b) = (a <? b).
Proof. intros. unfold str_lt. by rewrite iso_compare. Qed.
Lemma iso_le a b :
  iso_range a -> iso_range b -> str_le (toISOString a) (toISOString b) = (a <=? b).
Proof. intros. unfold str_le. by rewrite iso_lt, Z.leb_antisym. Qed.

(** ** [localeCompare] on timestamps *)

Lemma pad_digits n v : 0 <= v -> Forall (fun c => is_digit c = true) (pad n v).
Proof.
  revert v. induction n as [|n IH]; intros v Hv; simpl; [constructor|].
  apply Forall_app. split; [apply IH, Z.div_pos; lia|]. constructor; [|constructor].
  pose proof (digit_val_digit v Hv) as H. unfold digit_val in H. by case_match.
Qed.

Lemma pad_layout n a b : 0 <= a -> 0 <= b -> Forall2 same_class (pad n a) (pad n b).
Proof.
  intros Ha Hb. apply Forall2_same_length_lookup_2; [by rewrite !pad_length|].
  intros i x y Hx Hy. right.
  pose proof (Forall_lookup_1 _ _ _ _ (pad_digits n a Ha) Hx) as ->.
  by pose proof (Forall_lookup_1 _ _ _ _ (pad_digits n b Hb) Hy) as ->.
Qed.

Lemma iso_layout a b :
  iso_range a -> iso_range b -> same_layout (toISOString a) (toISOString b).
Proof.
  intros Ha Hb.
  pose proof (iso_range_year a Ha) as Hya. pose proof (iso_range_year b Hb) as Hyb.
  pose proof (civil_fields (a / 86400000)) as Hca. pose proof (civil_fields (b / 86400000)) as Hcb.
  pose proof (tod_fields _ (Z.mod_pos_bound a 86400000 ltac:(lia))) as Hfa.
  pose proof (tod_fields _ (Z.mod_pos_bound b 86400000 ltac:(lia))) as Hfb.
  cbv zeta in Hfa, Hfb.
  unfold same_layout, toISOString, iso_chars. rewrite !chars_of_chars.
  destruct (civil_of_days (a / 86400000)) as [[y1 m1] d1].
  destruct (civil_of_days (b / 86400000)) as [[y2 m2] d2].
  rewrite !iso_year_pad by done.
  cbn [app].
  repeat first [apply Forall2_app; [apply pad_layout; lia|]
               |apply Forall2_cons; split; [by left|]].
  constructor.
Qed.

(** [a.localeCompare(b)] on ISO timestamps compares the instants. *)
Lemma iso_localeCompare a b :
  iso_range a -> iso_range b -> localeCompare (toISOString a) (toISOString b) = (a ?= b).
Proof. intros. rewrite localeCompare_layout by (by apply iso_layout). by apply iso_compare. Qed.
