(* ===== verification/Json.v ===== *)
(** [JSON.stringify] and [JSON.parse] of the JavaScript values, and the round
    trip between them.  Strings are byte strings (UTF-8), so that the bytes
    from 128 on stand for themselves in a JSON text.  Integer-like property
    names, which JavaScript would order first, are not reordered. *)
From S2P Require Import Prelude JsString JsMap.
From Stdlib Require Import Ascii.

(** * Printing *)

Definition dq : ascii := Ascii.ascii_of_nat 34.
Definition hex_digit (n : N) : ascii :=
  ascii_of_N (if (n <? 10)%N then 48 + n else 87 + n)%N.

(** One character of a JSON string. *)
Definition escape_char (c : ascii) : list ascii :=
  match code c with
  | 34%N => ["\"%char; dq]
  | 92%N => ["\"%char; "\"%char]
  | 8%N => ["\"%char; "b"%char]
  | 9%N => ["\"%char; "t"%char]
  | 10%N => ["\"%char; "n"%char]
  | 12%N => ["\"%char; "f"%char]
  | 13%N => ["\"%char; "r"%char]
  | n => if (n <? 32)%N
         then ["\"%char; "u"%char; "0"%char; "0"%char; hex_digit (n / 16); hex_digit (n mod 16)]
         else [c]
  end.
Definition print_string (s : string) : list ascii := dq :: flat_map escape_char (chars s) ++ [dq].

Definition comma (first : bool) : list ascii := if first then [] else [","%char].

Section print_containers.
Context (pj : JsVal -> list ascii).
Fixpoint print_items (first : bool) (l : list JsVal) : list ascii :=
  match l with
  | [] => []
  | x :: l' => comma first ++ pj x ++ print_items false l'
  end.
Fixpoint print_members (first : bool) (l : list (string * JsVal)) : list ascii :=
  match l with
  | [] => []
  | (_, JUndef) :: l' => print_members first l'
  | (k, x) :: l' => comma first ++ print_string k ++ ":"%char :: pj x ++ print_members false l'
  end.
End print_containers.

Fixpoint print_json (v : JsVal) : list ascii :=
  match v with
  | JUndef | JNull => chars "null"
  | JBool true => chars "true"
  | JBool false => chars "false"
  | JNum n => chars (num_str n)
  | JDec s => chars s
  | JStr s => print_string s
  | JArr l => "["%char :: print_items print_json true l ++ ["]"%char]
  | JObj l => "{"%char :: print_members print_json true l ++ ["}"%char]
  end.

(** [JSON.stringify(v)] of a value other than [undefined]. *)
Definition json_stringify (v : JsVal) : string := of_chars (print_json v).

(** * Parsing *)

Fixpoint skip_ws (l : list ascii) : list ascii :=
  match l with
  | c :: l' => match code c with
               | 32%N | 9%N | 10%N | 13%N => skip_ws l'
               | _ => l
               end
  | [] => []
  end.

Definition hex_val (c : ascii) : option N :=
  let n := code c in
  if is_digit c then Some (n - 48)%N
  else if ((97 <=? n) && (n <=? 102))%N then Some (n - 87)%N
  else if ((65 <=? n) && (n <=? 70))%N then Some (n - 55)%N
  else None.
Definition hex4 (a b c d : ascii) : option N :=
  match hex_val a, hex_val b, hex_val c, hex_val d with
  | Some a, Some b, Some c, Some d => Some (((a * 16 + b) * 16 + c) * 16 + d)%N
  | _, _, _, _ => None
  end.

(** The UTF-8 bytes of a code point below [0x10000]; a code unit of a
    surrogate pair is encoded on its own. *)
Definition utf8 (n : N) : list ascii :=
  if (n <? 128)%N then [ascii_of_N n]
  else if (n <? 2048)%N then [ascii_of_N (192 + n / 64); ascii_of_N (128 + n mod 64)]
  else [ascii_of_N (224 + n / 4096); ascii_of_N (128 + n / 64 mod 64); ascii_of_N (128 + n mod 64)].

(** The characters up to the closing quote. *)
Fixpoint parse_string (l : list ascii) : option (list ascii * list ascii) :=
  let cons_to (x : list ascii) (r : option (list ascii * list ascii)) :=
    match r with Some (s, rest) => Some (x ++ s, rest) | None => None end in
  match l with
  | [] => None
  | c :: l' =>
      match code c with
      | 34%N => Some ([], l')
      | 92%N =>
          match l' with
          | e :: l'' =>
              match code e with
              | 34%N | 92%N | 47%N => cons_to [e] (parse_string l'')
              | 98%N => cons_to [ascii_of_N 8] (parse_string l'')
              | 102%N => cons_to [ascii_of_N 12] (parse_string l'')
              | 110%N => cons_to [ascii_of_N 10] (parse_string l'')
              | 114%N => cons_to [ascii_of_N 13] (parse_string l'')
              | 116%N => cons_to [ascii_of_N 9] (parse_string l'')
              | 117%N =>
                  match l'' with
                  | h1 :: h2 :: h3 :: h4 :: rest =>
                      match hex4 h1 h2 h3 h4 with
                      | Some n => cons_to (utf8 n) (parse_string rest)
                      | None => None
                      end
                  | _ => None
                  end
              | _ => None
              end
          | [] => None
          end
      | n => if (n <? 32)%N then None else cons_to [c] (parse_string l')
      end
  end.

(** The longest prefix of digits. *)
Fixpoint span_digits (l : list ascii) : list ascii * list ascii :=
  match l with
  | c :: l' => if is_digit c then let '(d, r) := span_digits l' in (c :: d, r) else ([], l)
  | [] => ([], [])
  end.
Definition digits_val (l : list ascii) : Z :=
  fold_left (fun acc c => acc * 10 + (Z.of_N (code c) - 48))%Z l 0%Z.

(** A fraction and an exponent, each optional; [None] when malformed. *)
Definition parse_frac (l : list ascii) : option (list ascii * list ascii) :=
  match l with
  | "."%char :: r => match span_digits r with
                     | ([], _) => None
                     | (d, r') => Some ("."%char :: d, r')
                     end
  | _ => Some ([], l)
  end.
Definition parse_exp (l : list ascii) : option (list ascii * list ascii) :=
  match l with
  | ("e"%char as e) :: r | ("E"%char as e) :: r =>
      let '(sg, r1) := match r with
                       | "+"%char :: r' => (["+"%char], r')
                       | "-"%char :: r' => (["-"%char], r')
                       | _ => ([], r)
                       end in
      match span_digits r1 with
      | ([], _) => None
      | (d, r') => Some (e :: sg ++ d, r')
      end
  | _ => Some ([], l)
  end.
(** A number may not have a leading zero. *)
Definition bad_digits (ds : list ascii) : bool :=
  match ds with
  | [] => true
  | [_] => false
  | c :: _ :: _ => bool_decide (c = "0"%char)
  end.
Definition parse_unsigned (neg : bool) (l : list ascii) : option (JsVal * list ascii) :=
  let '(ds, r1) := span_digits l in
  if bad_digits ds then None else
  match parse_frac r1 with
  | Some (fr, r2) =>
      match parse_exp r2 with
      | Some (ex, r3) =>
          match fr, ex with
          | [], [] => Some (JNum (if neg then - digits_val ds else digits_val ds)%Z, r3)
          | _, _ => Some (JDec (of_chars ((if neg then ["-"%char] else []) ++ ds ++ fr ++ ex)), r3)
          end
      | None => None
      end
  | None => None
  end.
Definition parse_number (l : list ascii) : option (JsVal * list ascii) :=
  match l with
  | c :: r => if decide (c = "-"%char) then parse_unsigned true r else parse_unsigned false l
  | [] => None
  end.

(** Consume a fixed word. *)
Fixpoint expect (w l : list ascii) : option (list ascii) :=
  match w, l with
  | [], _ => Some l
  | a :: w', b :: l' => if decide (a = b) then expect w' l' else None
  | _, [] => None
  end.

Section containers.
Context (pv : list ascii -> option (JsVal * list ascii)).

(** After a value: more items, or the closing bracket. *)
Fixpoint parse_items (k : nat) (acc : list JsVal) (l : list ascii) : option (list JsVal * list ascii) :=
  match k with
  | O => None
  | S k' =>
      match pv l with
      | Some (x, r) =>
          match skip_ws r with
          | ","%char :: r' => parse_items k' (acc ++ [x]) r'
          | "]"%char :: r' => Some (acc ++ [x], r')
          | _ => None
          end
      | None => None
      end
  end.
Fixpoint parse_members (k : nat) (acc : list (string * JsVal)) (l : list ascii) :
    option (list (string * JsVal) * list ascii) :=
  match k with
  | O => None
  | S k' =>
      match skip_ws l with
      | c :: r0 =>
          if decide (c = dq) then
            match parse_string r0 with
            | Some (key, r1) =>
                match skip_ws r1 with
                | ":"%char :: r2 =>
                    match pv r2 with
                    | Some (x, r) =>
                        let acc' := jm_set (of_chars key) x acc in
                        match skip_ws r with
                        | ","%char :: r' => parse_members k' acc' r'
                        | "}"%char :: r' => Some (acc', r')
                        | _ => None
                        end
                    | None => None
                    end
                | _ => None
                end
            | None => None
            end
          else None
      | [] => None
      end
  end.
End containers.

(** A value, with the fuel of the number of characters. *)
Fixpoint parse_value (n : nat) (l : list ascii) : option (JsVal * list ascii) :=
  match n with
  | O => None
  | S n' =>
      match skip_ws l with
      | [] => None
      | c :: r =>
          if decide (c = dq) then
            match parse_string r with Some (s, r') => Some (JStr (of_chars s), r') | None => None end
          else if decide (c = "["%char) then
            match skip_ws r with
            | "]"%char :: r' => Some (JArr [], r')
            | _ => match parse_items (parse_value n') n' [] r with
                   | Some (xs, r') => Some (JArr xs, r')
                   | None => None
                   end
            end
          else if decide (c = "{"%char) then
            match skip_ws r with
            | "}"%char :: r' => Some (JObj [], r')
            | _ => match parse_members (parse_value n') n' [] r with
                   | Some (xs, r') => Some (JObj xs, r')
                   | None => None
                   end
            end
          else if decide (c = "n"%char) then
            match expect (chars "ull") r with Some r' => Some (JNull, r') | None => None end
          else if decide (c = "t"%char) then
            match expect (chars "rue") r with Some r' => Some (JBool true, r') | None => None end
          else if decide (c = "f"%char) then
            match expect (chars "alse") r with Some r' => Some (JBool false, r') | None => None end
          else parse_number (c :: r)
      end
  end.

(** [JSON.parse(text)]; [None] is the [SyntaxError]. *)
Definition json_parse (s : string) : option JsVal :=
  match parse_value (S (str_length s)) (chars s) with
  | Some (v, r) => match skip_ws r with [] => Some v | _ => None end
  | None => None
  end.

(** * Round trip *)

(** The values a JSON text denotes exactly: no [undefined], integer numbers,
    objects with distinct keys. *)
Fixpoint json_ok (v : JsVal) : Prop :=
  match v with
  | JUndef | JDec _ => False
  | JNull | JBool _ | JNum _ | JStr _ => True
  | JArr l => (fix all (l : list JsVal) : Prop :=
                 match l with [] => True | x :: l' => json_ok x /\ all l' end) l
  | JObj l => NoDup l.*1 /\
              (fix all (l : list (string * JsVal)) : Prop :=
                 match l with [] => True | (_, x) :: l' => json_ok x /\ all l' end) l
  end.

Lemma json_ok_items l : json_ok (JArr l) <-> Forall json_ok l.
Proof.
  simpl. induction l as [|x l IH]; [by split|].
  rewrite Forall_cons. by rewrite IH.
Qed.
Lemma json_ok_members l : json_ok (JObj l) <-> NoDup l.*1 /\ Forall (fun kv => json_ok kv.2) l.
Proof.
  cbn [json_ok]. assert (forall A B C : Prop, (B <-> C) -> (A /\ B <-> A /\ C)) as Hand by tauto.
  apply Hand. clear Hand. induction l as [|[k x] l IH]; [by split|].
  rewrite Forall_cons. by rewrite IH.
Qed.

(** What may follow a value: nothing that a number could continue with. *)
Definition stops (l : list ascii) : bool :=
  match l with
  | [] => true
  | c :: _ => bool_decide (c ∈ [","; "]"; "}"]%char)
  end.

Lemma parse_string_char c l :
  parse_string (escape_char c ++ l) =
    match parse_string l with Some (s, rest) => Some (c :: s, rest) | None => None end.
Proof. destruct c as [[] [] [] [] [] [] [] []]; reflexivity. Qed.

Lemma parse_string_print s l :
  parse_string (flat_map escape_char (chars s) ++ dq :: l) = Some (chars s, l).
Proof.
  induction (chars s) as [|c r IH]; [done|].
  cbn [flat_map]. by rewrite <-app_assoc, parse_string_char, IH.
Qed.

(** ** Numbers *)

Lemma digits_val_snoc d c : digits_val (d ++ [c]) = (digits_val d * 10 + (Z.of_N (code c) - 48))%Z.
Proof. unfold digits_val. by rewrite fold_left_app. Qed.

Lemma pretty_char_digit n :
  (n < 10)%N -> is_digit (pretty_N_char n) = true /\ code (pretty_N_char n) = (48 + n)%N.
Proof.
  intros Hn. assert (n ∈ [0;1;2;3;4;5;6;7;8;9]%N) as Hin.
  { rewrite !elem_of_cons, elem_of_nil. lia. }
  rewrite !elem_of_cons, elem_of_nil in Hin.
  destruct Hin as [->|[->|[->|[->|[->|[->|[->|[->|[->|[->|[]]]]]]]]]]]; done.
Qed.

(** The decimal digits of a positive number. *)
Record decimal_of (n : N) (d : list ascii) : Prop := mkDecimal {
  dec_digits : Forall (fun c => is_digit c = true) d;
  dec_value : digits_val d = Z.of_N n;
  dec_head : head d <> Some "0"%char;
  dec_nonempty : n <> 0%N -> d <> [] }.

Lemma decimal_of_pretty n : forall s, exists d, decimal_of n d /\
  chars (pretty_N_go n s) = d ++ chars s.
Proof.
  induction (N.lt_wf_0 n) as [n _ IH]; intros s.
  destruct (decide (n = 0%N)) as [->|Hn].
  - exists []. by rewrite pretty_N_go_0.
  - rewrite pretty_N_go_step by lia.
    destruct (IH (n `div` 10)%N ltac:(apply N.div_lt; lia) (String (pretty_N_char (n `mod` 10)) s))
      as (d & [Hd Hv Hh Hne] & ->).
    pose proof (N.mod_lt n 10 ltac:(done)) as Hlt.
    destruct (pretty_char_digit (n `mod` 10) Hlt) as [Hc Hcode].
    exists (d ++ [pretty_N_char (n `mod` 10)]). split; [|by rewrite <-app_assoc].
    pose proof (N.div_mod n 10 ltac:(done)). split.
    + apply Forall_app; auto.
    + rewrite digits_val_snoc, Hv, Hcode. lia.
    + destruct d as [|c d]; [|done]. simpl. intros [= Hz].
      apply (f_equal code) in Hz. rewrite Hcode in Hz. cbv [digits_val fold_left] in Hv.
      change (code "0"%char) with 48%N in Hz. lia.
    + intros _ ?. by destruct d.
Qed.

Lemma span_digits_app d l :
  Forall (fun c => is_digit c = true) d -> stops l = true -> span_digits (d ++ l) = (d, l).
Proof.
  induction 1 as [|c d Hc Hd IH]; intros Hl; simpl.
  - destruct l as [|c l]; [done|]. simpl in *. apply bool_decide_eq_true in Hl.
    rewrite !elem_of_cons, elem_of_nil in Hl. by destruct Hl as [->|[->|[->|[]]]].
  - by rewrite Hc, IH.
Qed.

Lemma parse_unsigned_print neg d l :
  Forall (fun c => is_digit c = true) d -> bad_digits d = false -> stops l = true ->
  parse_unsigned neg (d ++ l) = Some (JNum (if neg then - digits_val d else digits_val d)%Z, l).
Proof.
  intros Hd Hb Hl. unfold parse_unsigned. rewrite span_digits_app, Hb by done.
  destruct l as [|c l]; [done|]. apply bool_decide_eq_true in Hl.
  rewrite !elem_of_cons, elem_of_nil in Hl. by destruct Hl as [->|[->|[->|[]]]].
Qed.

Lemma pos_digits p : exists d,
  chars (pretty (N.pos p)) = d /\ Forall (fun c => is_digit c = true) d /\
  bad_digits d = false /\ digits_val d = Z.pos p.
Proof.
  destruct (decimal_of_pretty (N.pos p) "") as (d & [Hd Hv Hh Hne] & Hp).
  exists d. rewrite app_nil_r in Hp. split_and!; [exact Hp|done| |exact Hv].
  destruct d as [|c [|c' d]]; [by destruct Hne|done|].
  simpl. apply bool_decide_eq_false. intros ->. by apply Hh.
Qed.

(** How a printed number starts: never white space, quote, bracket or word. *)
Definition number_start (c : ascii) : bool := is_digit c || bool_decide (c = "-"%char).

Lemma num_str_start n : exists c d, chars (num_str n) = c :: d /\ number_start c = true.
Proof.
  destruct n as [|p|p]; [by exists "0"%char, []| |by exists "-"%char, (chars (pretty (N.pos p)))].
  destruct (pos_digits p) as (d & Hp & Hd & Hb & _). change (num_str (Z.pos p)) with (pretty (N.pos p)).
  rewrite Hp. destruct d as [|c d]; [done|]. apply Forall_cons in Hd as [Hc _].
  exists c, d. unfold number_start. by rewrite Hc.
Qed.

Lemma parse_number_print n l :
  stops l = true -> parse_number (chars (num_str n) ++ l) = Some (JNum n, l).
Proof.
  intros Hl. destruct n as [|p|p].
  - exact (parse_unsigned_print false ["0"%char] l ltac:(by repeat constructor) eq_refl Hl).
  - destruct (pos_digits p) as (d & Hp & Hd & Hb & Hv).
    change (num_str (Z.pos p)) with (pretty (N.pos p)). rewrite Hp.
    pose proof (parse_unsigned_print false d l Hd Hb Hl) as Hu. rewrite Hv in Hu.
    destruct d as [|c d]; [done|]. unfold parse_number. cbn [app].
    rewrite decide_False; [exact Hu|]. intros ->. by apply Forall_cons in Hd as [? _].
  - destruct (pos_digits p) as (d & Hp & Hd & Hb & Hv).
    change (chars (num_str (Z.neg p))) with ("-"%char :: chars (pretty (N.pos p))). rewrite Hp.
    pose proof (parse_unsigned_print true d l Hd Hb Hl) as Hu. rewrite Hv in Hu.
    unfold parse_number. cbn [app]. by rewrite decide_True.
Qed.

(** ** Values *)

Lemma number_start_value n c l :
  number_start c = true -> parse_value (S n) (c :: l) = parse_number (c :: l).
Proof. destruct c as [[] [] [] [] [] [] [] []]; intros H; try done; reflexivity. Qed.

(** The first character of a value: neither white space nor a closing bracket. *)
Definition value_start (c : ascii) : bool :=
  negb (bool_decide (c ∈ [" "; ","; "]"; "}"; ":"]%char)) && (32 <=? code c)%N.

Lemma print_json_start v : json_ok v -> exists c l, print_json v = c :: l /\ value_start c = true.
Proof.
  destruct v as [| |[]|n|s|s|l|l]; intros Hv; try done; try (eexists _, _; split; [reflexivity|done]).
  destruct (num_str_start n) as (c & d & Hn & Hc). exists c, d. split; [exact Hn|].
  by destruct c as [[] [] [] [] [] [] [] []].
Qed.

Lemma skip_ws_start c l : value_start c = true -> skip_ws (c :: l) = c :: l.
Proof. destruct c as [[] [] [] [] [] [] [] []]; intros; try done; reflexivity. Qed.

Lemma skip_ws_sep c l :
  bool_decide (c ∈ [","; "]"; "}"; ":"; dq]%char) = true -> skip_ws (c :: l) = c :: l.
Proof. destruct c as [[] [] [] [] [] [] [] []]; intros; try done; reflexivity. Qed.

(** A parser of values that inverts the printer on the given ones. *)
Definition inverts (pv : list ascii -> option (JsVal * list ascii)) (v : JsVal) : Prop :=
  forall rest, stops rest = true -> pv (print_json v ++ rest) = Some (v, rest).

Lemma print_items_false l :
  l <> [] -> print_items print_json false l = ","%char :: print_items print_json true l.
Proof. by destruct l. Qed.

Lemma parse_items_print pv k acc l rest :
  l <> [] -> Forall (inverts pv) l -> length l <= k ->
  parse_items pv k acc (print_items print_json true l ++ "]"%char :: rest) = Some (acc ++ l, rest).
Proof.
  revert k acc. induction l as [|x l IH]; intros [|k] acc Hne Hl Hk; simpl in Hk; [done|done|lia|].
  apply Forall_cons in Hl as [Hx Hl]. cbn [print_items comma app parse_items].
  rewrite <-app_assoc. destruct (decide (l = [])) as [->|Hl0].
  - by rewrite Hx.
  - rewrite print_items_false by done. rewrite Hx by done. cbn [app].
    rewrite skip_ws_sep by done. rewrite IH by (done || lia).
    by rewrite <-app_assoc.
Qed.

Lemma print_members_false l :
  Forall (fun kv => json_ok kv.2) l -> l <> [] ->
  print_members print_json false l = ","%char :: print_members print_json true l.
Proof. intros Hl ?. destruct l as [|[k []] l]; try done. by apply Forall_cons in Hl as [[] _]. Qed.

Lemma parse_members_print pv k acc l rest :
  l <> [] -> Forall (fun kv => json_ok kv.2) l -> Forall (fun kv => inverts pv kv.2) l ->
  NoDup (acc ++ l).*1 -> length l <= k ->
  parse_members pv k acc (print_members print_json true l ++ "}"%char :: rest) = Some (acc ++ l, rest).
Proof.
  revert k acc. induction l as [|[key x] l IH]; intros [|k] acc Hne Hok Hl Hnd Hk;
    simpl in Hk; [done|done|lia|].
  apply Forall_cons in Hl as [Hx Hl]. apply Forall_cons in Hok as [Hxok Hok].
  assert (print_members print_json true ((key, x) :: l) =
    print_string key ++ ":"%char :: print_json x ++ print_members print_json false l) as ->
    by by destruct x.
  unfold print_string. cbn [app]. rewrite <-!app_assoc. cbn [app parse_members].
  rewrite skip_ws_sep by done. rewrite decide_True by done.
  rewrite parse_string_print. rewrite skip_ws_sep by done.
  rewrite of_chars_chars. rewrite <-app_assoc.
  assert (jm_get key acc = None) as Hkey.
  { apply eq_None_not_Some. rewrite jm_get_elem. intros Hin.
    rewrite fmap_app in Hnd. apply NoDup_app in Hnd as (_ & Hnd & _).
    apply (Hnd key Hin). csimpl. by left. }
  destruct (decide (l = [])) as [->|Hl0].
  - rewrite Hx by done. cbn [app print_members]. rewrite jm_set_absent by done. done.
  - rewrite print_members_false by done. rewrite Hx by done. cbn [app].
    rewrite skip_ws_sep by done.
    rewrite jm_set_absent by done. rewrite IH; [by rewrite <-app_assoc|done..| |lia].
    by rewrite <-app_assoc.
Qed.

Lemma print_items_length first l :
  Forall json_ok l ->
  length l <= length (print_items print_json first l) /\
  Forall (fun x => length (print_json x) <= length (print_items print_json first l)) l.
Proof.
  revert first. induction l as [|x l IH]; intros first Hok; [by split|].
  apply Forall_cons in Hok as [Hx Hl]. destruct (print_json_start x Hx) as (c & r & Hp & _).
  destruct (IH false Hl) as [IH1 IH2]. cbn [print_items].
  rewrite !length_app, Hp. cbn [length]. split; [lia|].
  constructor; [rewrite Hp; cbn [length]; lia|].
  eapply Forall_impl; [exact IH2|]. cbv beta. intros y ?. lia.
Qed.

Lemma print_members_length first l :
  Forall (fun kv => json_ok kv.2) l ->
  length l <= length (print_members print_json first l) /\
  Forall (fun kv => length (print_json kv.2) <= length (print_members print_json first l)) l.
Proof.
  revert first. induction l as [|[k x] l IH]; intros first Hok; [by split|].
  apply Forall_cons in Hok as [Hx Hl]. destruct (IH false Hl) as [IH1 IH2].
  assert (print_members print_json first ((k, x) :: l) =
    comma first ++ print_string k ++ ":"%char :: print_json x ++ print_members print_json false l) as ->
    by by destruct x.
  rewrite !length_app. cbn [length]. rewrite length_app. split; [lia|].
  constructor; [cbn [snd]; lia|].
  eapply Forall_impl; [exact IH2|]. cbv beta. intros [??] ?. cbn [snd] in *. lia.
Qed.

Lemma parse_value_print n v :
  json_ok v -> length (print_json v) <= n -> inverts (parse_value n) v.
Proof.
  revert v. induction n as [|n IH]; intros v Hok Hlen rest Hrest.
  { destruct (print_json_start v Hok) as (c & r & Hp & _). rewrite Hp in Hlen. simpl in Hlen. lia. }
  destruct v as [| |[]|z|s|s|l|l]; try done.
  - destruct (num_str_start z) as (c & d & Hp & Hc).
    pose proof (parse_number_print z rest Hrest) as Hn. cbn [print_json]. rewrite Hp in *.
    cbn [app] in *. by rewrite number_start_value.
  - cbn [print_json]. unfold print_string. cbn [app parse_value].
    rewrite skip_ws_sep by done. rewrite decide_True, <-app_assoc by done. cbn [app].
    by rewrite parse_string_print, of_chars_chars.
  - apply json_ok_items in Hok. destruct (print_items_length true l Hok) as [Hk Hall].
    cbn [print_json app] in *. rewrite <-app_assoc. cbn [length app] in *.
    rewrite length_app in Hlen. cbn [length] in Hlen.
    destruct (decide (l = [])) as [->|Hl]; [done|].
    change (parse_value (S n) ("["%char :: ?r)) with
      (match skip_ws r with
       | "]"%char :: r' => Some (JArr [], r')
       | _ => match parse_items (parse_value n) n [] r with
              | Some (xs, r') => Some (JArr xs, r') | None => None end
       end).
    assert (Forall (inverts (parse_value n)) l) as Hinv.
    { rewrite Forall_forall in Hok, Hall |- *. intros x Hx. apply IH; [auto|].
      specialize (Hall x Hx). lia. }
    rewrite (parse_items_print (parse_value n) n [] l rest) by (done || lia).
    destruct l as [|x l]; [done|]. apply Forall_cons in Hok as [Hx _].
    destruct (print_json_start x Hx) as (c & r & Hp & Hc). cbn [print_items comma app].
    rewrite Hp. cbn [app]. rewrite skip_ws_start by done.
    destruct c as [[] [] [] [] [] [] [] []]; done.
  - apply json_ok_members in Hok as [Hnd Hok]. destruct (print_members_length true l Hok) as [Hk Hall].
    cbn [print_json app] in *. rewrite <-app_assoc. cbn [length app] in *.
    rewrite length_app in Hlen. cbn [length] in Hlen.
    destruct (decide (l = [])) as [->|Hl]; [done|].
    change (parse_value (S n) ("{"%char :: ?r)) with
      (match skip_ws r with
       | "}"%char :: r' => Some (JObj [], r')
       | _ => match parse_members (parse_value n) n [] r with
              | Some (xs, r') => Some (JObj xs, r') | None => None end
       end).
    assert (Forall (fun kv => inverts (parse_value n) kv.2) l) as Hinv.
    { rewrite Forall_forall in Hok, Hall |- *. intros x Hx. apply IH; [auto|].
      specialize (Hall x Hx). cbv beta in Hall. lia. }
    rewrite (parse_members_print (parse_value n) n [] l rest) by (done || lia).
    destruct l as [|[k x] l]; [done|]. apply Forall_cons in Hok as [Hx _]. by destruct x.
Qed.

(** Parsing a printed value gives the value back. *)
Lemma json_parse_stringify v : json_ok v -> json_parse (json_stringify v) = Some v.
Proof.
  intros Hok. unfold json_parse, json_stringify, str_length. rewrite chars_of_chars.
  pose proof (parse_value_print (S (length (print_json v))) v Hok ltac:(lia) [] eq_refl) as Hp.
  rewrite app_nil_r in Hp. by rewrite Hp.
Qed.

Lemma json_stringify_inj v1 v2 :
  json_ok v1 -> json_ok v2 -> json_stringify v1 = json_stringify v2 -> v1 = v2.
Proof.
  intros H1 H2 Heq. apply json_parse_stringify in H1, H2. rewrite Heq in H1. congruence.
Qed.
