(* ===== verification/Base64.v ===== *)
(** The base64url codec of Node's [Buffer] ([toString("base64url")] and
    [Buffer.from(s, "base64url")]): no padding is written, both alphabets are
    read, and characters outside them are skipped. *)
From S2P Require Import Prelude JsString.
From Stdlib Require Import Ascii.
Local Open Scope N_scope.

Definition b64_char (n : N) : ascii :=
  ascii_of_N (if n <? 26 then 65 + n
              else if n <? 52 then 71 + n
              else if n <? 62 then n - 4
              else if n =? 62 then 45 else 95).
Definition b64_val (c : ascii) : option N :=
  let n := code c in
  if is_upper c then Some (n - 65)
  else if is_lower c then Some (n - 71)
  else if is_digit c then Some (n + 4)
  else if (n =? 45) || (n =? 43) then Some 62
  else if (n =? 95) || (n =? 47) then Some 63
  else None.

(** Three bytes are four sextets; one or two remaining bytes are two or three. *)
Fixpoint sextets (l : list N) : list N :=
  match l with
  | a :: b :: c :: l' =>
      a / 4 :: (a mod 4 * 16 + b / 16) :: (b mod 16 * 4 + c / 64) :: c mod 64 :: sextets l'
  | [a; b] => [a / 4; a mod 4 * 16 + b / 16; b mod 16 * 4]
  | [a] => [a / 4; a mod 4 * 16]
  | [] => []
  end.
Fixpoint octets (l : list N) : list N :=
  match l with
  | s1 :: s2 :: s3 :: s4 :: l' =>
      (s1 * 4 + s2 / 16) :: (s2 mod 16 * 16 + s3 / 4) :: (s3 mod 4 * 64 + s4) :: octets l'
  | [s1; s2; s3] => [s1 * 4 + s2 / 16; s2 mod 16 * 16 + s3 / 4]
  | [s1; s2] => [s1 * 4 + s2 / 16]
  | _ => []
  end.

Definition base64url_encode (s : string) : string :=
  of_chars (b64_char <$> sextets (codes s)).
Definition base64url_decode (s : string) : string :=
  of_chars (ascii_of_N <$> octets (omap b64_val (chars s))).

Example b64_ex : base64url_encode "any carnal pleas" = "YW55IGNhcm5hbCBwbGVhcw".
Proof. reflexivity. Qed.

Lemma b64_val_char n : n < 64 -> b64_val (b64_char n) = Some n.
Proof.
  intros Hn. assert (forallb (fun n => bool_decide (b64_val (b64_char n) = Some n))
    (N.of_nat <$> seq 0 64) = true) as H by (vm_compute; reflexivity).
  rewrite forallb_forall in H. eapply bool_decide_eq_true_1, H, list_elem_of_In.
  apply list_elem_of_fmap. exists (N.to_nat n). rewrite N2Nat.id. split; [done|].
  apply elem_of_seq. lia.
Qed.

Lemma sextets_octets l :
  Forall (fun n => n < 256) l ->
  octets (sextets l) = l /\ Forall (fun n => n < 64) (sextets l).
Proof.
  revert l. fix IH 1. intros [|a [|b [|c l]]] H.
  - by split.
  - apply Forall_cons in H as [Ha _]. cbn [sextets octets].
    rewrite !Forall_cons, Forall_nil. split; [f_equal|split_and!]; try done; zify; Z.to_euclidean_division_equations; lia.
  - apply Forall_cons in H as [Ha [Hb _]%Forall_cons]. cbn [sextets octets].
    rewrite !Forall_cons, Forall_nil. split; [repeat f_equal|split_and!]; try done; zify; Z.to_euclidean_division_equations; lia.
  - apply Forall_cons in H as [Ha [Hb [Hc Hl]%Forall_cons]%Forall_cons].
    destruct (IH l Hl) as [IH1 IH2]. cbn [sextets octets]. rewrite IH1. split.
    + repeat f_equal; clear IH IH1 IH2 Hl; zify; Z.to_euclidean_division_equations; lia.
    + rewrite !Forall_cons. split_and!; try done; clear IH IH1 IH2 Hl; zify; Z.to_euclidean_division_equations; lia.
Qed.

(** Decoding an encoded string gives the string back. *)
Lemma base64url_decode_encode s : base64url_decode (base64url_encode s) = s.
Proof.
  unfold base64url_decode, base64url_encode. rewrite chars_of_chars.
  assert (Forall (fun n => n < 256) (codes s)) as Hs.
  { unfold codes. apply Forall_fmap, Forall_true. intros c. apply N_ascii_bounded. }
  destruct (sextets_octets _ Hs) as [Ho Hb].
  assert (omap b64_val (b64_char <$> sextets (codes s)) = sextets (codes s)) as ->.
  { clear Ho Hs. induction Hb as [|n l Hn Hl IH]; csimpl; [done|].
    rewrite b64_val_char by done. by rewrite IH. }
  rewrite Ho. unfold codes. rewrite <-list_fmap_compose.
  rewrite <-(of_chars_chars s) at 2. f_equal. rewrite <-(list_fmap_id (chars s)) at 2.
  apply list_fmap_ext. intros ? c _. apply ascii_N_embedding.
Qed.

(** What is written: letters, digits, [-] and [_]. *)
Lemma b64_char_unreserved n : uri_unreserved (b64_char n) = true.
Proof.
  destruct (N.lt_ge_cases n 63) as [Hn|Hn].
  - assert (forallb (fun n => uri_unreserved (b64_char n)) (N.of_nat <$> seq 0 63) = true) as H
      by (vm_compute; reflexivity).
    rewrite forallb_forall in H. apply H, list_elem_of_In, list_elem_of_fmap.
    exists (N.to_nat n). rewrite N2Nat.id. split; [done|]. apply elem_of_seq. lia.
  - unfold b64_char. rewrite !(proj2 (N.ltb_ge _ _)) by lia. by destruct (N.eqb_spec n 62) as [->|].
Qed.
Lemma base64url_unreserved s : all_chars uri_unreserved (base64url_encode s) = true.
Proof.
  unfold all_chars, base64url_encode. rewrite chars_of_chars. apply forallb_forall.
  intros c (n & -> & _)%list_elem_of_In%list_elem_of_fmap. apply b64_char_unreserved.
Qed.
