(* ===== verification/Types.v ===== *)
(** The data of the operations service: the entities of [types.ts] and the
    records of [repository/app-repository.ts].  String unions are inductive
    types with the spelling the code uses; an optional property is an
    [option]. *)
From S2P Require Import Prelude.

(** * Status and kind enumerations (types.ts) *)

Inductive ContractStatus :=
  | CS_draft | CS_escrow_pending | CS_escrow_validated | CS_active | CS_closed | CS_cancelled.
Inductive DisputeStatus :=
  | DS_filed | DS_under_review | DS_decided | DS_execution_pending | DS_executed
  | DS_closed | DS_rejected.
Inductive TxTrackingStatus :=
  | TS_created | TS_submitted | TS_pending_validation | TS_validated_success
  | TS_validated_fail | TS_retry_scheduled.
Inductive OutcomeClass := OC_success | OC_retryable | OC_final_fail | OC_manual_review.
Inductive NotificationChannel := Ch_push | Ch_email | Ch_inapp.
Inductive SettlementStatus := SS_collecting | SS_accrued | SS_confirmed | SS_archived.
Inductive SettlementPeriodMode := PM_calendar_utc.
Inductive EvidenceRetentionClass := RC_standard | RC_regulated | RC_legal_hold.
Inductive EvidenceCategory :=
  | EC_contract_pdf | EC_utility_bill | EC_photo | EC_receipt | EC_other.
Inductive StorageProvider := SP_mock | SP_pinata.
Inductive Network := Net_testnet | Net_mainnet.
Inductive DisputeParty := RB_tenant | RB_landlord | RB_operator.
Inductive DisputeDecisionChoice :=
  | DD_finish_to_tenant | DD_finish_to_landlord | DD_cancel_to_owner | DD_partial_manual.
Inductive NotificationStatus := NS_queued | NS_sent | NS_failed | NS_retry_scheduled.
Inductive NotificationOutboxStatus := OS_pending | OS_processing | OS_dispatched | OS_dead.
Inductive ExportJobStatus := ES_pending | ES_running | ES_completed | ES_failed.

#[export] Instance ContractStatus_eq : EqDecision ContractStatus. Proof. solve_decision. Defined.
#[export] Instance DisputeStatus_eq : EqDecision DisputeStatus. Proof. solve_decision. Defined.
#[export] Instance TxTrackingStatus_eq : EqDecision TxTrackingStatus. Proof. solve_decision. Defined.
#[export] Instance OutcomeClass_eq : EqDecision OutcomeClass. Proof. solve_decision. Defined.
#[export] Instance NotificationChannel_eq : EqDecision NotificationChannel. Proof. solve_decision. Defined.
#[export] Instance SettlementStatus_eq : EqDecision SettlementStatus. Proof. solve_decision. Defined.
#[export] Instance EvidenceRetentionClass_eq : EqDecision EvidenceRetentionClass. Proof. solve_decision. Defined.
#[export] Instance EvidenceCategory_eq : EqDecision EvidenceCategory. Proof. solve_decision. Defined.
#[export] Instance StorageProvider_eq : EqDecision StorageProvider. Proof. solve_decision. Defined.
#[export] Instance Network_eq : EqDecision Network. Proof. solve_decision. Defined.
#[export] Instance DisputeDecisionChoice_eq : EqDecision DisputeDecisionChoice. Proof. solve_decision. Defined.
#[export] Instance NotificationStatus_eq : EqDecision NotificationStatus. Proof. solve_decision. Defined.
#[export] Instance NotificationOutboxStatus_eq : EqDecision NotificationOutboxStatus. Proof. solve_decision. Defined.
#[export] Instance ExportJobStatus_eq : EqDecision ExportJobStatus. Proof. solve_decision. Defined.

(** The spelling of each value. *)
Definition contractStatus_str (s : ContractStatus) : string :=
  match s with
  | CS_draft => "draft" | CS_escrow_pending => "escrow_pending"
  | CS_escrow_validated => "escrow_validated" | CS_active => "active"
  | CS_closed => "closed" | CS_cancelled => "cancelled"
  end.
Definition disputeStatus_str (s : DisputeStatus) : string :=
  match s with
  | DS_filed => "filed" | DS_under_review => "under_review" | DS_decided => "decided"
  | DS_execution_pending => "execution_pending" | DS_executed => "executed"
  | DS_closed => "closed" | DS_rejected => "rejected"
  end.
Definition trackingStatus_str (s : TxTrackingStatus) : string :=
  match s with
  | TS_created => "created" | TS_submitted => "submitted"
  | TS_pending_validation => "pending_validation"
  | TS_validated_success => "validated_success" | TS_validated_fail => "validated_fail"
  | TS_retry_scheduled => "retry_scheduled"
  end.
Definition outcomeClass_str (c : OutcomeClass) : string :=
  match c with
  | OC_success => "success" | OC_retryable => "retryable"
  | OC_final_fail => "final_fail" | OC_manual_review => "manual_review"
  end.
Definition channel_str (c : NotificationChannel) : string :=
  match c with Ch_push => "push" | Ch_email => "email" | Ch_inapp => "inapp" end.
Definition settlementStatus_str (s : SettlementStatus) : string :=
  match s with
  | SS_collecting => "collecting" | SS_accrued => "accrued"
  | SS_confirmed => "confirmed" | SS_archived => "archived"
  end.
Definition retentionClass_str (c : EvidenceRetentionClass) : string :=
  match c with
  | RC_standard => "standard" | RC_regulated => "regulated" | RC_legal_hold => "legal_hold"
  end.
Definition category_str (c : EvidenceCategory) : string :=
  match c with
  | EC_contract_pdf => "contract_pdf" | EC_utility_bill => "utility_bill"
  | EC_photo => "photo" | EC_receipt => "receipt" | EC_other => "other"
  end.
Definition provider_str (p : StorageProvider) : string :=
  match p with SP_mock => "mock" | SP_pinata => "pinata" end.
Definition network_str (n : Network) : string :=
  match n with Net_testnet => "testnet" | Net_mainnet => "mainnet" end.
Definition party_str (p : DisputeParty) : string :=
  match p with RB_tenant => "tenant" | RB_landlord => "landlord" | RB_operator => "operator" end.
Definition decision_str (d : DisputeDecisionChoice) : string :=
  match d with
  | DD_finish_to_tenant => "finish_to_tenant" | DD_finish_to_landlord => "finish_to_landlord"
  | DD_cancel_to_owner => "cancel_to_owner" | DD_partial_manual => "partial_manual"
  end.
Definition notificationStatus_str (s : NotificationStatus) : string :=
  match s with
  | NS_queued => "queued" | NS_sent => "sent" | NS_failed => "failed"
  | NS_retry_scheduled => "retry_scheduled"
  end.
Definition outboxStatus_str (s : NotificationOutboxStatus) : string :=
  match s with
  | OS_pending => "pending" | OS_processing => "processing"
  | OS_dispatched => "dispatched" | OS_dead => "dead"
  end.
Definition exportStatus_str (s : ExportJobStatus) : string :=
  match s with
  | ES_pending => "pending" | ES_running => "running"
  | ES_completed => "completed" | ES_failed => "failed"
  end.

(** Distinct values have distinct spellings. *)
#[export] Instance contractStatus_str_inj : Inj (=) (=) contractStatus_str.
Proof. by intros [] []. Qed.
#[export] Instance disputeStatus_str_inj : Inj (=) (=) disputeStatus_str.
Proof. by intros [] []. Qed.
#[export] Instance trackingStatus_str_inj : Inj (=) (=) trackingStatus_str.
Proof. by intros [] []. Qed.
#[export] Instance settlementStatus_str_inj : Inj (=) (=) settlementStatus_str.
Proof. by intros [] []. Qed.
#[export] Instance channel_str_inj : Inj (=) (=) channel_str.
Proof. by intros [] []. Qed.

(** * Entities (types.ts) *)

Record Contract := mkContract {
  c_id : string; c_tenantId : string; c_landlordId : string; c_status : ContractStatus;
  c_escrowCreateTxHash : option string; c_depositAmount : option string;
  c_stakeAmount : option string; c_startsAt : option string; c_endsAt : option string;
  c_createdAt : string; c_updatedAt : string }.
#[export] Instance eta_Contract : Eta Contract := fun c =>
  mkContract c.(c_id) c.(c_tenantId) c.(c_landlordId) c.(c_status) c.(c_escrowCreateTxHash)
    c.(c_depositAmount) c.(c_stakeAmount) c.(c_startsAt) c.(c_endsAt) c.(c_createdAt)
    c.(c_updatedAt).

Record SettlementRecord := mkSettlement {
  s_id : string; s_contractId : string; s_periodYear : Z; s_periodMonth : Z;
  s_status : SettlementStatus; s_lastLedgerIndex : option Z; s_ledgerCloseCount : option Z;
  s_createdAt : string; s_updatedAt : string; s_amountMinor : option Z;
  s_currencyCode : option string; s_batchId : option string;
  s_periodMode : option SettlementPeriodMode; s_confirmedAt : option string }.
#[export] Instance eta_Settlement : Eta SettlementRecord := fun s =>
  mkSettlement s.(s_id) s.(s_contractId) s.(s_periodYear) s.(s_periodMonth) s.(s_status)
    s.(s_lastLedgerIndex) s.(s_ledgerCloseCount) s.(s_createdAt) s.(s_updatedAt)
    s.(s_amountMinor) s.(s_currencyCode) s.(s_batchId) s.(s_periodMode) s.(s_confirmedAt).

Record DisputeVerifierRegistryEntry := mkRegistryEntry {
  r_id : string; r_verifierId : string; r_displayLabel : option string; r_active : bool;
  r_createdAt : string }.

Record EvidenceFile := mkEvidence {
  e_id : string; e_contractId : string; e_disputeId : option string; e_uploaderId : string;
  e_category : EvidenceCategory; e_cid : string; e_sha256 : string; e_mimeType : string;
  e_sizeBytes : Z; e_version : Z; e_isEncrypted : bool; e_encryptionScheme : option string;
  e_retainUntil : option string; e_retentionClass : option EvidenceRetentionClass;
  e_jurisdiction : option string; e_legalHoldUntil : option string;
  e_storageProvider : StorageProvider; e_createdAt : string; e_localContentHashSeed : string }.
#[export] Instance eta_Evidence : Eta EvidenceFile := fun e =>
  mkEvidence e.(e_id) e.(e_contractId) e.(e_disputeId) e.(e_uploaderId) e.(e_category)
    e.(e_cid) e.(e_sha256) e.(e_mimeType) e.(e_sizeBytes) e.(e_version) e.(e_isEncrypted)
    e.(e_encryptionScheme) e.(e_retainUntil) e.(e_retentionClass) e.(e_jurisdiction)
    e.(e_legalHoldUntil) e.(e_storageProvider) e.(e_createdAt) e.(e_localContentHashSeed).

Record DisputeCase := mkDispute {
  d_id : string; d_contractId : string; d_raisedBy : DisputeParty; d_reasonCode : string;
  d_status : DisputeStatus; d_evidenceBundle : list string; d_createdAt : string;
  d_updatedAt : string; d_reviewDeadlineAt : option string; d_escalatedAt : option string }.
#[export] Instance eta_Dispute : Eta DisputeCase := fun d =>
  mkDispute d.(d_id) d.(d_contractId) d.(d_raisedBy) d.(d_reasonCode) d.(d_status)
    d.(d_evidenceBundle) d.(d_createdAt) d.(d_updatedAt) d.(d_reviewDeadlineAt) d.(d_escalatedAt).

Record DisputeVerifierVoteRecord := mkVote {
  v_id : string; v_disputeId : string; v_verifierId : string;
  v_recommendation : DisputeDecisionChoice; v_createdAt : string }.

(** [decidedBy] has the single value ["verifier_mock"]. *)
Record CaseDecision := mkDecision {
  cd_id : string; cd_disputeId : string; cd_decision : DisputeDecisionChoice;
  cd_memo : option string; cd_createdAt : string }.

Record XrplTransaction := mkXrplTx {
  x_id : string; x_txHash : string; x_txType : string; x_account : option string;
  x_disputeId : option string; x_network : Network; x_trackingStatus : TxTrackingStatus;
  x_validated : bool; x_ledgerIndex : option Z; x_resultCode : option string;
  x_outcomeClass : option OutcomeClass; x_retries : Z; x_lastCheckedAt : string;
  x_escrowOwner : option string; x_escrowDestination : option string;
  x_escrowOfferSequence : option Z; x_escrowSubmitterAccount : option string }.
#[export] Instance eta_XrplTx : Eta XrplTransaction := fun x =>
  mkXrplTx x.(x_id) x.(x_txHash) x.(x_txType) x.(x_account) x.(x_disputeId) x.(x_network)
    x.(x_trackingStatus) x.(x_validated) x.(x_ledgerIndex) x.(x_resultCode)
    x.(x_outcomeClass) x.(x_retries) x.(x_lastCheckedAt) x.(x_escrowOwner)
    x.(x_escrowDestination) x.(x_escrowOfferSequence) x.(x_escrowSubmitterAccount).

Record NotificationEvent := mkNotification {
  n_id : string; n_eventType : string; n_recipientId : string; n_channel : NotificationChannel;
  n_status : NotificationStatus; n_payload : list (string * JsVal); n_createdAt : string;
  n_updatedAt : option string; n_attemptCount : option Z; n_nextAttemptAt : option string;
  n_lastError : option string; n_deadLetter : option bool }.
#[export] Instance eta_Notification : Eta NotificationEvent := fun n =>
  mkNotification n.(n_id) n.(n_eventType) n.(n_recipientId) n.(n_channel) n.(n_status)
    n.(n_payload) n.(n_createdAt) n.(n_updatedAt) n.(n_attemptCount) n.(n_nextAttemptAt)
    n.(n_lastError) n.(n_deadLetter).

Record NotificationOutboxRecord := mkOutbox {
  o_id : string; o_idempotencyKey : string; o_eventType : string; o_recipientId : string;
  o_channel : NotificationChannel; o_payload : list (string * JsVal);
  o_status : NotificationOutboxStatus; o_attempts : Z; o_lastError : option string;
  o_createdAt : string; o_updatedAt : string; o_processingStartedAt : option string;
  o_dispatchedNotificationId : option string }.
#[export] Instance eta_Outbox : Eta NotificationOutboxRecord := fun o =>
  mkOutbox o.(o_id) o.(o_idempotencyKey) o.(o_eventType) o.(o_recipientId) o.(o_channel)
    o.(o_payload) o.(o_status) o.(o_attempts) o.(o_lastError) o.(o_createdAt) o.(o_updatedAt)
    o.(o_processingStartedAt) o.(o_dispatchedNotificationId).

Record AuditLog := mkAudit {
  a_id : string; a_entityType : string; a_entityId : string; a_action : string;
  a_actorId : string; a_before : option JsVal; a_after : option JsVal;
  a_metadata : option JsVal; a_createdAt : string }.

Record EventEnvelope := mkEvent {
  ev_eventId : string; ev_eventType : string; ev_occurredAt : string; ev_entityType : string;
  ev_entityId : string; ev_payload : list (string * JsVal); ev_traceId : string }.

(** * Repository records (repository/app-repository.ts) *)

Record AuditFilter := mkAuditFilter {
  af_entityType : option string; af_entityId : option string;
  af_from : option string; af_to : option string }.
Record EventFilter := mkEventFilter {
  ef_entityType : option string; ef_entityId : option string; ef_eventType : option string }.

Record DelayedJob := mkJob {
  j_id : string; j_kind : string; j_payload : list (string * JsVal); j_runAfter : string;
  j_attempts : Z; j_maxAttempts : Z; j_lockedUntil : option string; j_lastError : option string;
  j_createdAt : string; j_updatedAt : string }.
#[export] Instance eta_Job : Eta DelayedJob := fun j =>
  mkJob j.(j_id) j.(j_kind) j.(j_payload) j.(j_runAfter) j.(j_attempts) j.(j_maxAttempts)
    j.(j_lockedUntil) j.(j_lastError) j.(j_createdAt) j.(j_updatedAt).

Record ListParams := mkListParams { lp_limit : nat; lp_offset : nat }.
Record ContractListFilter := mkContractFilter {
  cf_status : option string; cf_tenantId : option string; cf_landlordId : option string;
  cf_updatedFrom : option string; cf_updatedTo : option string }.
#[export] Instance eta_ContractFilter : Eta ContractListFilter := fun f =>
  mkContractFilter f.(cf_status) f.(cf_tenantId) f.(cf_landlordId) f.(cf_updatedFrom) f.(cf_updatedTo).
Record DisputeListFilter := mkDisputeFilter {
  df_contractId : option string; df_status : option string;
  df_updatedFrom : option string; df_updatedTo : option string }.
Record XrplTxListFilter := mkXrplFilter {
  xf_account : option string; xf_trackingStatus : option string;
  xf_validated : option bool; xf_network : option string }.
Record SettlementListFilter := mkSettlementFilter {
  sf_contractId : option string; sf_status : option string;
  sf_periodYear : option Z; sf_periodMonth : option Z }.
Record NotificationOutboxListFilter := mkOutboxFilter { of_status : option NotificationOutboxStatus }.
Record TouchParams := mkTouch {
  tp_periodYear : Z; tp_periodMonth : Z; tp_ledgerIndex : Z; tp_nowIso : string }.
Record Paginated (T : Type) := mkPage { pg_items : list T; pg_total : nat; pg_limit : nat; pg_offset : nat }.
Arguments mkPage {T}. Arguments pg_items {T}. Arguments pg_total {T}.
Arguments pg_limit {T}. Arguments pg_offset {T}.
Record AuditKeysetPage := mkKeyset { ak_items : list AuditLog; ak_nextCursor : option string }.

(** A [Record<string, number>] of counts. *)
Abbreviation Counts := (list (string * Z)) (only parsing).
Record OperatorStatsSummary := mkStats {
  st_contractsByStatus : Counts; st_disputesByStatus : Counts; st_xrplByTracking : Counts;
  st_notificationsByStatus : Counts; st_evidencesTotal : nat; st_settlementsByStatus : Counts }.
Record ReportSummaryParams := mkReportParams {
  rp_from : option string; rp_to : option string;
  rp_tenantId : option string; rp_landlordId : option string }.
Record ReportScopedBucket := mkScoped {
  sb_contractsByStatus : Counts; sb_disputesByStatus : Counts; sb_settlementsByStatus : Counts;
  sb_xrplByTracking : Counts; sb_auditsCount : nat }.
Record ReportSummary := mkReport {
  rs_generatedAt : string; rs_window : ReportSummaryParams;
  rs_global : OperatorStatsSummary; rs_scoped : ReportScopedBucket }.

Record ExportJobRecord := mkExport {
  x_jobId : string; x_kind : string; x_status : ExportJobStatus; x_filter : AuditFilter;
  x_maxExport : nat; x_resultNdjson : option string; x_error : option string;
  x_createdAt : string; x_updatedAt : string }.
#[export] Instance eta_Export : Eta ExportJobRecord := fun j =>
  mkExport j.(x_jobId) j.(x_kind) j.(x_status) j.(x_filter) j.(x_maxExport)
    j.(x_resultNdjson) j.(x_error) j.(x_createdAt) j.(x_updatedAt).

(** * Reputation deliveries (schemas.ts, services/reputation-dlq.ts) *)

Record ReputationOutboundBody := mkReputation {
  rep_idempotencyKey : string; rep_eventType : string; rep_subjectType : string;
  rep_subjectId : string; rep_payload : option (list (string * JsVal));
  rep_tokenStandardRefs : option (list string) }.
Record ReputationDlqEntry := mkDlqEntry {
  dlq_idempotencyKey : string; dlq_body : ReputationOutboundBody; dlq_failedAt : string;
  dlq_lastHttpStatus : option Z; dlq_lastError : option string; dlq_attempts : Z }.
