(* ===== verification/Config.v ===== *)
(** The service configuration ([config.ts]), read once from the process
    environment, and the bounds its [Math.max]/[Math.min] clamps give every
    numeric setting.  The parsing of the environment strings ([Number]) is not
    modelled: [clampConfig] is the function of the values it receives. *)
From S2P Require Import Prelude JsString.

Inductive IpfsMode := IM_mock | IM_pinata.
Inductive Topology := Top_public_hub | Top_dedicated | Top_clio.
Inductive DeploymentTier := Tier_dev | Tier_strict.

#[export] Instance IpfsMode_eq : EqDecision IpfsMode. Proof. solve_decision. Defined.
#[export] Instance Topology_eq : EqDecision Topology. Proof. solve_decision. Defined.
#[export] Instance DeploymentTier_eq : EqDecision DeploymentTier. Proof. solve_decision. Defined.

Record Config := mkConfig {
  (* api *)
  cfg_v1BearerToken : string;
  cfg_mtlsClientCertSubjectHeader : string;
  (* ipfs *)
  cfg_ipfsMode : IpfsMode;
  cfg_pinataJwt : string;
  cfg_pinataEndpoint : string;
  cfg_pinataUnpinBaseUrl : string;
  cfg_pinataMaxAttempts : Z;
  cfg_pinataRetryInitialMs : Z;
  cfg_pinataRetryMaxMs : Z;
  (* xrpl *)
  cfg_xrplEnabled : bool;
  cfg_wssUrl : string;
  cfg_topologyProfile : Topology;
  cfg_drRunbookUrl : string;
  (* xrplSubscribe *)
  cfg_subscribeDisabled : bool;
  cfg_subscribeMaxAccounts : Z;
  cfg_accountsRefreshMs : Z;
  cfg_transactionsStream : bool;
  cfg_subscribeLogReconnects : bool;
  cfg_transactionStreamMaxPerSec : Z;
  (* xrplTxPolicy *)
  cfg_policyWorkerDisabled : bool;
  cfg_policyIntervalMs : Z;
  cfg_pendingTimeoutMs : Z;
  cfg_policyBatchSize : Z;
  cfg_maxNotFoundProbes : Z;
  cfg_accountBackfillPerTick : Z;
  cfg_logSummaryTick : bool;
  cfg_maxBackoffMs : Z;
  (* health *)
  cfg_deepDefault : bool;
  (* notification *)
  cfg_notifMaxAttempts : Z;
  cfg_notifIntervalMs : Z;
  cfg_notifBatchSize : Z;
  cfg_notifWorkerDisabled : bool;
  cfg_emailWebhookUrl : string;
  cfg_pushWebhookUrl : string;
  cfg_fcmStubLog : bool;
  cfg_retryInitialBackoffMs : Z;
  cfg_retryMaxBackoffMs : Z;
  cfg_autoDomainEnqueue : bool;
  cfg_domainOutbox : bool;
  cfg_outboxFanoutWorkerDisabled : bool;
  cfg_outboxFanoutIntervalMs : Z;
  cfg_outboxFanoutBatchSize : Z;
  cfg_outboxStaleProcessingMs : Z;
  cfg_outboxDispatchMaxAttempts : Z;
  (* exportJobs *)
  cfg_exportWorkerDisabled : bool;
  cfg_exportIntervalMs : Z;
  cfg_exportBatchSize : Z;
  cfg_artifactSigningSecret : string;
  cfg_artifactUrlTtlSec : Z;
  (* reputation *)
  cfg_outboundWebhookUrl : string;
  cfg_outboundWebhookSecret : string;
  cfg_xlsAllowlist : list string;
  (* auth *)
  cfg_authEnabled : bool;
  cfg_operatorConsoleScopesEnabled : bool;
  (* execution *)
  cfg_syntheticExecutionHashEnabled : bool;
  cfg_deploymentTier : DeploymentTier;
  cfg_submitEnabled : bool;
  cfg_submitSeed : string;
  (* dispute *)
  cfg_verifierQuorumK : Z;
  cfg_reviewDeadlineDays : Z;
  cfg_slaAutoEscalate : bool;
  (* settlement *)
  cfg_ledgerCloseTouchEnabled : bool;
  cfg_autoNotifyOnConfirmed : bool;
  (* evidenceVault *)
  cfg_maxUploadBytes : Z;
  cfg_maxRetentionDays : Z;
  cfg_encryptionKeyBase64 : string;
  cfg_ipfsGatewayBase : string;
  cfg_kmsKeyRef : string;
  cfg_kmsStubDekBase64 : string;
  cfg_kmsHttpUnwrapUrl : string;
  cfg_kmsHttpUnwrapBearer : string;
  cfg_kmsWrappedDekBase64 : string;
  cfg_kmsHttpUnwrapTimeoutMs : Z;
  (* process.env settings read outside config.ts *)
  cfg_metricsScrapeToken : option string;
  cfg_notificationProviderMode : option string }.
#[export] Instance eta_Config : Eta Config := fun c =>
  mkConfig
    c.(cfg_v1BearerToken) c.(cfg_mtlsClientCertSubjectHeader) c.(cfg_ipfsMode)
    c.(cfg_pinataJwt) c.(cfg_pinataEndpoint) c.(cfg_pinataUnpinBaseUrl)
    c.(cfg_pinataMaxAttempts) c.(cfg_pinataRetryInitialMs) c.(cfg_pinataRetryMaxMs)
    c.(cfg_xrplEnabled) c.(cfg_wssUrl) c.(cfg_topologyProfile) c.(cfg_drRunbookUrl)
    c.(cfg_subscribeDisabled) c.(cfg_subscribeMaxAccounts) c.(cfg_accountsRefreshMs)
    c.(cfg_transactionsStream) c.(cfg_subscribeLogReconnects)
    c.(cfg_transactionStreamMaxPerSec) c.(cfg_policyWorkerDisabled) c.(cfg_policyIntervalMs)
    c.(cfg_pendingTimeoutMs) c.(cfg_policyBatchSize) c.(cfg_maxNotFoundProbes)
    c.(cfg_accountBackfillPerTick) c.(cfg_logSummaryTick) c.(cfg_maxBackoffMs)
    c.(cfg_deepDefault) c.(cfg_notifMaxAttempts) c.(cfg_notifIntervalMs) c.(cfg_notifBatchSize)
    c.(cfg_notifWorkerDisabled) c.(cfg_emailWebhookUrl) c.(cfg_pushWebhookUrl)
    c.(cfg_fcmStubLog) c.(cfg_retryInitialBackoffMs) c.(cfg_retryMaxBackoffMs)
    c.(cfg_autoDomainEnqueue) c.(cfg_domainOutbox) c.(cfg_outboxFanoutWorkerDisabled)
    c.(cfg_outboxFanoutIntervalMs) c.(cfg_outboxFanoutBatchSize)
    c.(cfg_outboxStaleProcessingMs) c.(cfg_outboxDispatchMaxAttempts)
    c.(cfg_exportWorkerDisabled) c.(cfg_exportIntervalMs) c.(cfg_exportBatchSize)
    c.(cfg_artifactSigningSecret) c.(cfg_artifactUrlTtlSec) c.(cfg_outboundWebhookUrl)
    c.(cfg_outboundWebhookSecret) c.(cfg_xlsAllowlist) c.(cfg_authEnabled)
    c.(cfg_operatorConsoleScopesEnabled) c.(cfg_syntheticExecutionHashEnabled)
    c.(cfg_deploymentTier) c.(cfg_submitEnabled) c.(cfg_submitSeed) c.(cfg_verifierQuorumK)
    c.(cfg_reviewDeadlineDays) c.(cfg_slaAutoEscalate) c.(cfg_ledgerCloseTouchEnabled)
    c.(cfg_autoNotifyOnConfirmed) c.(cfg_maxUploadBytes) c.(cfg_maxRetentionDays)
    c.(cfg_encryptionKeyBase64) c.(cfg_ipfsGatewayBase) c.(cfg_kmsKeyRef)
    c.(cfg_kmsStubDekBase64) c.(cfg_kmsHttpUnwrapUrl) c.(cfg_kmsHttpUnwrapBearer)
    c.(cfg_kmsWrappedDekBase64) c.(cfg_kmsHttpUnwrapTimeoutMs) c.(cfg_metricsScrapeToken)
    c.(cfg_notificationProviderMode).

(** [Math.max(lo, n)] and [Math.max(lo, Math.min(hi, n))]. *)
Definition at_least (lo n : Z) : Z := Z.max lo n.
Definition clamp (lo hi n : Z) : Z := Z.max lo (Z.min hi n).
(** [Math.min(hi, Math.max(lo, n))], the order [evidenceVault] uses. *)
Definition clamp' (lo hi n : Z) : Z := Z.min hi (Z.max lo n).

Lemma clamp_same lo hi n : (lo <= hi)%Z -> clamp lo hi n = clamp' lo hi n.
Proof. unfold clamp, clamp'. lia. Qed.

(** The settings after the clamps and trims of [config.ts]; the argument
    carries the values read from the environment, or their defaults. *)
Definition clampConfig (c : Config) : Config :=
  mkConfig
    (trim c.(cfg_v1BearerToken)) (trim c.(cfg_mtlsClientCertSubjectHeader)) c.(cfg_ipfsMode)
    c.(cfg_pinataJwt) c.(cfg_pinataEndpoint) c.(cfg_pinataUnpinBaseUrl)
    (clamp 1 10 c.(cfg_pinataMaxAttempts)) (at_least 50 c.(cfg_pinataRetryInitialMs))
    (at_least 200 c.(cfg_pinataRetryMaxMs)) c.(cfg_xrplEnabled) c.(cfg_wssUrl)
    c.(cfg_topologyProfile) (trim c.(cfg_drRunbookUrl)) c.(cfg_subscribeDisabled)
    (clamp 1 100 c.(cfg_subscribeMaxAccounts)) (at_least 10000 c.(cfg_accountsRefreshMs))
    c.(cfg_transactionsStream) c.(cfg_subscribeLogReconnects)
    (at_least 0 c.(cfg_transactionStreamMaxPerSec)) c.(cfg_policyWorkerDisabled)
    (at_least 5000 c.(cfg_policyIntervalMs)) (at_least 10000 c.(cfg_pendingTimeoutMs))
    (at_least 1 c.(cfg_policyBatchSize)) (at_least 1 c.(cfg_maxNotFoundProbes))
    (at_least 0 c.(cfg_accountBackfillPerTick)) c.(cfg_logSummaryTick)
    (at_least 5000 c.(cfg_maxBackoffMs)) c.(cfg_deepDefault)
    (at_least 1 c.(cfg_notifMaxAttempts)) (at_least 50 c.(cfg_notifIntervalMs))
    (at_least 1 c.(cfg_notifBatchSize)) c.(cfg_notifWorkerDisabled) c.(cfg_emailWebhookUrl)
    c.(cfg_pushWebhookUrl) c.(cfg_fcmStubLog) (at_least 100 c.(cfg_retryInitialBackoffMs))
    (at_least 1000 c.(cfg_retryMaxBackoffMs)) c.(cfg_autoDomainEnqueue) c.(cfg_domainOutbox)
    c.(cfg_outboxFanoutWorkerDisabled) (at_least 100 c.(cfg_outboxFanoutIntervalMs))
    (at_least 1 c.(cfg_outboxFanoutBatchSize)) (at_least 10000 c.(cfg_outboxStaleProcessingMs))
    (at_least 1 c.(cfg_outboxDispatchMaxAttempts)) c.(cfg_exportWorkerDisabled)
    (at_least 500 c.(cfg_exportIntervalMs)) (at_least 1 c.(cfg_exportBatchSize))
    (trim c.(cfg_artifactSigningSecret)) (clamp 60 86400 c.(cfg_artifactUrlTtlSec))
    (trim c.(cfg_outboundWebhookUrl)) (trim c.(cfg_outboundWebhookSecret)) c.(cfg_xlsAllowlist)
    c.(cfg_authEnabled) c.(cfg_operatorConsoleScopesEnabled)
    c.(cfg_syntheticExecutionHashEnabled) c.(cfg_deploymentTier) c.(cfg_submitEnabled)
    c.(cfg_submitSeed) (at_least 1 c.(cfg_verifierQuorumK))
    (at_least 1 c.(cfg_reviewDeadlineDays)) c.(cfg_slaAutoEscalate)
    c.(cfg_ledgerCloseTouchEnabled) c.(cfg_autoNotifyOnConfirmed)
    (clamp' 4096 104857600 c.(cfg_maxUploadBytes)) (clamp' 1 3650 c.(cfg_maxRetentionDays))
    c.(cfg_encryptionKeyBase64) c.(cfg_ipfsGatewayBase) (trim c.(cfg_kmsKeyRef))
    (trim c.(cfg_kmsStubDekBase64)) (trim c.(cfg_kmsHttpUnwrapUrl))
    (trim c.(cfg_kmsHttpUnwrapBearer)) (trim c.(cfg_kmsWrappedDekBase64))
    (at_least 1000 c.(cfg_kmsHttpUnwrapTimeoutMs)) c.(cfg_metricsScrapeToken)
    c.(cfg_notificationProviderMode).

(** What the clamps give. *)
Record config_wf (c : Config) : Prop := mkConfigWf {
  wf_pinataMaxAttempts : (1 <= c.(cfg_pinataMaxAttempts) <= 10)%Z;
  wf_pinataRetryInitialMs : (50 <= c.(cfg_pinataRetryInitialMs))%Z;
  wf_pinataRetryMaxMs : (200 <= c.(cfg_pinataRetryMaxMs))%Z;
  wf_subscribeMaxAccounts : (1 <= c.(cfg_subscribeMaxAccounts) <= 100)%Z;
  wf_accountsRefreshMs : (10000 <= c.(cfg_accountsRefreshMs))%Z;
  wf_transactionStreamMaxPerSec : (0 <= c.(cfg_transactionStreamMaxPerSec))%Z;
  wf_policyIntervalMs : (5000 <= c.(cfg_policyIntervalMs))%Z;
  wf_pendingTimeoutMs : (10000 <= c.(cfg_pendingTimeoutMs))%Z;
  wf_policyBatchSize : (1 <= c.(cfg_policyBatchSize))%Z;
  wf_maxNotFoundProbes : (1 <= c.(cfg_maxNotFoundProbes))%Z;
  wf_accountBackfillPerTick : (0 <= c.(cfg_accountBackfillPerTick))%Z;
  wf_maxBackoffMs : (5000 <= c.(cfg_maxBackoffMs))%Z;
  wf_notifMaxAttempts : (1 <= c.(cfg_notifMaxAttempts))%Z;
  wf_notifIntervalMs : (50 <= c.(cfg_notifIntervalMs))%Z;
  wf_notifBatchSize : (1 <= c.(cfg_notifBatchSize))%Z;
  wf_retryInitialBackoffMs : (100 <= c.(cfg_retryInitialBackoffMs))%Z;
  wf_retryMaxBackoffMs : (1000 <= c.(cfg_retryMaxBackoffMs))%Z;
  wf_outboxFanoutIntervalMs : (100 <= c.(cfg_outboxFanoutIntervalMs))%Z;
  wf_outboxFanoutBatchSize : (1 <= c.(cfg_outboxFanoutBatchSize))%Z;
  wf_outboxStaleProcessingMs : (10000 <= c.(cfg_outboxStaleProcessingMs))%Z;
  wf_outboxDispatchMaxAttempts : (1 <= c.(cfg_outboxDispatchMaxAttempts))%Z;
  wf_exportIntervalMs : (500 <= c.(cfg_exportIntervalMs))%Z;
  wf_exportBatchSize : (1 <= c.(cfg_exportBatchSize))%Z;
  wf_artifactUrlTtlSec : (60 <= c.(cfg_artifactUrlTtlSec) <= 86400)%Z;
  wf_verifierQuorumK : (1 <= c.(cfg_verifierQuorumK))%Z;
  wf_reviewDeadlineDays : (1 <= c.(cfg_reviewDeadlineDays))%Z;
  wf_maxUploadBytes : (4096 <= c.(cfg_maxUploadBytes) <= 104857600)%Z;
  wf_maxRetentionDays : (1 <= c.(cfg_maxRetentionDays) <= 3650)%Z;
  wf_kmsHttpUnwrapTimeoutMs : (1000 <= c.(cfg_kmsHttpUnwrapTimeoutMs))%Z }.

Lemma clampConfig_wf c : config_wf (clampConfig c).
Proof.
  constructor; unfold clamp, clamp', at_least; cbv beta iota delta [clampConfig
    cfg_pinataMaxAttempts cfg_pinataRetryInitialMs cfg_pinataRetryMaxMs
    cfg_subscribeMaxAccounts cfg_accountsRefreshMs cfg_transactionStreamMaxPerSec
    cfg_policyIntervalMs cfg_pendingTimeoutMs cfg_policyBatchSize cfg_maxNotFoundProbes
    cfg_accountBackfillPerTick cfg_maxBackoffMs cfg_notifMaxAttempts cfg_notifIntervalMs
    cfg_notifBatchSize cfg_retryInitialBackoffMs cfg_retryMaxBackoffMs
    cfg_outboxFanoutIntervalMs cfg_outboxFanoutBatchSize cfg_outboxStaleProcessingMs
    cfg_outboxDispatchMaxAttempts cfg_exportIntervalMs cfg_exportBatchSize
    cfg_artifactUrlTtlSec cfg_verifierQuorumK cfg_reviewDeadlineDays cfg_maxUploadBytes
    cfg_maxRetentionDays cfg_kmsHttpUnwrapTimeoutMs
    clamp clamp' at_least]; lia.
Qed.

(** The defaults of [config.ts] under an empty process environment. *)
Definition defaultConfig : Config :=
  clampConfig (mkConfig
    "" "" IM_mock "" "https://api.pinata.cloud/pinning/pinFileToIPFS"
    "https://api.pinata.cloud/pinning/unpin" 4 400 10000 false "" Top_public_hub "" false 50
    45000 false false 0 false 30000 120000 10 5 8 false 300000 false 5 2000 20 false "" ""
    false 1000 60000 true false false 750 25 120000 8 false 2000 3 "" 3600 "" "" [] false false
    true Tier_dev false "" 1 14 false true true 15728640 2555 ""
    "https://gateway.pinata.cloud/ipfs" "" "" "" "" "" 10000 None None).
