(* ===== verification/World.v ===== *)
(** The state of the service and the effects of its code: the in-memory store
    of [store.ts], the environment the code reads (configuration, clock,
    random identifiers, the network), a state-and-exception monad in which a
    thrown error keeps the writes made before it, and the rules with which
    relations between the stores before and after a computation are proved. *)
From S2P Require Import Prelude JsString JsMap JsDate Types Config.

(** * The store ([store.ts]) *)

Record Db := mkDb {
  contracts : JsMap Contract;
  evidences : JsMap EvidenceFile;
  disputes : JsMap DisputeCase;
  decisions : JsMap CaseDecision;
  xrplTxs : JsMap XrplTransaction;
  notifications : JsMap NotificationEvent;
  notificationOutboxById : JsMap NotificationOutboxRecord;
  notificationOutboxIdempotency : JsMap string;
  audits : list AuditLog;
  events : list EventEnvelope;
  xrplIngestionDedup : list string;
  delayedJobs : JsMap DelayedJob;
  disputeVerifierVotes : JsMap (list DisputeVerifierVoteRecord);
  disputeVerifierRegistry : JsMap DisputeVerifierRegistryEntry;
  settlements : JsMap SettlementRecord;
  exportJobs : JsMap ExportJobRecord }.
#[export] Instance eta_Db : Eta Db := fun d =>
  mkDb d.(contracts) d.(evidences) d.(disputes) d.(decisions) d.(xrplTxs) d.(notifications)
    d.(notificationOutboxById) d.(notificationOutboxIdempotency) d.(audits) d.(events)
    d.(xrplIngestionDedup) d.(delayedJobs) d.(disputeVerifierVotes)
    d.(disputeVerifierRegistry) d.(settlements) d.(exportJobs).

Definition emptyDb : Db := mkDb [] [] [] [] [] [] [] [] [] [] [] [] [] [] [] [].

(** * The environment *)

(** What a rippled request gives: an error (connection or request), or the
    [result] object of the response. *)
Inductive RippledReply :=
  | RR_connect_error (msg : string)
  | RR_error (msg : string)
  | RR_ok (result : JsVal).

(** What [fetch] gives: a rejection, or a status with the body as text and,
    when it is JSON, as a value. *)
Inductive FetchReply :=
  | FR_error (msg : string)
  | FR_resp (status : Z) (text : string) (json : option JsVal).

(** The code outside [src/] and the outside world.  The [nat] argument counts
    the draws (of the clock, of identifiers, of network exchanges) made so
    far, so that each exchange may have a different outcome. *)
Record Env := mkEnv {
  env_cfg : Config;
  env_clock : nat -> Z;                    (* Date.now(), milliseconds *)
  env_uuid : nat -> string;                (* crypto.randomUUID() *)
  env_sha256 : string -> string;           (* hex digest *)
  env_hmac : string -> string -> string;   (* secret, data: base64url digest *)
  env_legacyDate : string -> option Z;     (* Date.parse off the ISO formats *)
  env_rippled : nat -> JsVal -> RippledReply;          (* xrpl Client.request *)
  env_submit : nat -> JsVal -> string -> RippledReply; (* Client.submitAndWait *)
  env_walletAddress : string -> option string;         (* Wallet.fromSeed *)
  env_fetch : nat -> string -> JsVal -> FetchReply;
  env_base64 : string -> string;           (* Buffer.from(s, "base64") *)
  env_encrypt : nat -> string -> string -> string;     (* AES-256-GCM, fresh IV *)
  env_decrypt : string -> string -> option string }.

(** The world: the store, the draws made so far, the in-process counters of
    the [*-metrics.ts] modules, the dead-letter queue of the reputation
    deliveries and the deliveries scheduled with [setImmediate]. *)
Record World := mkWorld {
  w_db : Db;
  w_clk : nat;
  w_rnd : nat;
  w_io : nat;
  w_metrics : JsMap Z;
  w_dlq : JsMap ReputationDlqEntry;
  w_scheduled : list ReputationOutboundBody }.
#[export] Instance eta_World : Eta World := fun w =>
  mkWorld w.(w_db) w.(w_clk) w.(w_rnd) w.(w_io) w.(w_metrics) w.(w_dlq) w.(w_scheduled).

Definition initWorld : World := mkWorld emptyDb 0 0 0 [] [] [].

(** * The monad *)

(** A thrown [Error]: its [message], and the [code] some errors carry. *)
Record Exn := mkExn { exn_message : string; exn_code : option string }.

Definition M (A : Type) : Type := Env -> World -> (Exn + A) * World.

#[export] Instance M_ret : MRet M := fun A a _ w => (inr a, w).
#[export] Instance M_bind : MBind M := fun A B k m env w =>
  match m env w with
  | (inr a, w') => k a env w'
  | (inl e, w') => (inl e, w')
  end.
#[export] Instance M_map : FMap M := fun A B f m => m ≫= fun a => mret (f a).

Definition throw {A} (msg : string) : M A := fun _ w => (inl (mkExn msg None), w).
Definition throwCode {A} (msg code : string) : M A := fun _ w => (inl (mkExn msg (Some code)), w).
Definition rethrow {A} (e : Exn) : M A := fun _ w => (inl e, w).
Definition try_catch {A} (m : M A) (h : Exn -> M A) : M A := fun env w =>
  match m env w with
  | (inr a, w') => (inr a, w')
  | (inl e, w') => h e env w'
  end.

Definition asks {A} (f : Db -> A) : M A := fun _ w => (inr (f w.(w_db)), w).
Definition modify (f : Db -> Db) : M unit := fun _ w => (inr tt, w <| w_db := f w.(w_db) |>).
Definition askEnv {A} (f : Env -> A) : M A := fun env w => (inr (f env), w).
Definition askCfg {A} (f : Config -> A) : M A := askEnv (fun env => f env.(env_cfg)).

(** [Date.now()] / [new Date()]. *)
Definition dateNow : M Z := fun env w =>
  (inr (env.(env_clock) w.(w_clk)), w <| w_clk := S w.(w_clk) |>).
(** [crypto.randomUUID()] *)
Definition randomUUID : M string := fun env w =>
  (inr (env.(env_uuid) w.(w_rnd)), w <| w_rnd := S w.(w_rnd) |>).
(** One exchange with the outside. *)
Definition io {A} (f : Env -> nat -> A) : M A := fun env w =>
  (inr (f env w.(w_io)), w <| w_io := S w.(w_io) |>).

(** The counters of the metrics modules. *)
Definition metric (name : string) (by_ : Z) : M unit := fun _ w =>
  (inr tt, w <| w_metrics := jm_set name (default 0%Z (jm_get name w.(w_metrics)) + by_)%Z
                                   w.(w_metrics) |>).

(** [for (const x of l) await f(x)] *)
Fixpoint forEach {A} (f : A -> M unit) (l : list A) : M unit :=
  match l with
  | [] => mret tt
  | x :: l' => f x;; forEach f l'
  end.
(** The same with an accumulated value. *)
Fixpoint foldM {A B} (f : B -> A -> M B) (b : B) (l : list A) : M B :=
  match l with
  | [] => mret b
  | x :: l' => b' ← f b x; foldM f b' l'
  end.

(** * Running through a computation *)

Lemma bind_ret {A B} (a : A) (k : A -> M B) env w : (mret a ≫= k) env w = k a env w.
Proof. done. Qed.
Lemma bind_asks {A B} (f : Db -> A) (k : A -> M B) env w :
  (asks f ≫= k) env w = k (f w.(w_db)) env w.
Proof. done. Qed.
Lemma bind_askEnv {A B} (f : Env -> A) (k : A -> M B) env w :
  (askEnv f ≫= k) env w = k (f env) env w.
Proof. done. Qed.
Lemma bind_askCfg {A B} (f : Config -> A) (k : A -> M B) env w :
  (askCfg f ≫= k) env w = k (f env.(env_cfg)) env w.
Proof. done. Qed.
Lemma bind_modify {B} f (k : unit -> M B) env w :
  (modify f ≫= k) env w = k tt env (w <| w_db := f w.(w_db) |>).
Proof. done. Qed.
Lemma bind_throw {A B} msg (k : A -> M B) env w :
  (throw msg ≫= k) env w = (inl (mkExn msg None), w).
Proof. done. Qed.
Lemma bind_dateNow {B} (k : Z -> M B) env w :
  (dateNow ≫= k) env w = k (env.(env_clock) w.(w_clk)) env (w <| w_clk := S w.(w_clk) |>).
Proof. done. Qed.
Lemma bind_randomUUID {B} (k : string -> M B) env w :
  (randomUUID ≫= k) env w = k (env.(env_uuid) w.(w_rnd)) env (w <| w_rnd := S w.(w_rnd) |>).
Proof. done. Qed.
Lemma bind_io {A B} (f : Env -> nat -> A) (k : A -> M B) env w :
  (io f ≫= k) env w = k (f env w.(w_io)) env (w <| w_io := S w.(w_io) |>).
Proof. done. Qed.
Lemma bind_assoc {A B C} (m : M A) (f : A -> M B) (g : B -> M C) env w :
  ((m ≫= f) ≫= g) env w = (m ≫= fun a => f a ≫= g) env w.
Proof. unfold mbind, M_bind. by destruct (m env w) as [[?|?] ?]. Qed.

(** * Relations between the worlds before and after *)

(** [keeps R m]: whatever [m] returns or throws, the world before and the
    world after are related by [R].  [keeps_at] is the same at one start. *)
Definition keeps_at {A} (R : Env -> relation World) (m : M A) (env : Env) (w : World) : Prop :=
  R env w (m env w).2.
Definition keeps {A} (R : Env -> relation World) (m : M A) : Prop :=
  forall env w, keeps_at R m env w.

(** A relation that only looks at the store. *)
Definition on_db (R : relation Db) : Env -> relation World := fun _ w w' => R w.(w_db) w'.(w_db).
#[export] Instance on_db_preorder (R : relation Db) env : PreOrder R -> PreOrder (on_db R env).
Proof.
  intros [Hr Ht]. split; [intros w; apply Hr|].
  intros w1 w2 w3. unfold on_db. by apply Ht.
Qed.

Section keeps.
Context (R : Env -> relation World) `{HR : !forall env, PreOrder (R env)}.

Lemma keeps_at_bind {A B} (m : M A) (k : A -> M B) env w :
  keeps_at R m env w ->
  (forall a w', m env w = (inr a, w') -> R env w w' -> keeps_at R (k a) env w') ->
  keeps_at R (m ≫= k) env w.
Proof.
  unfold keeps_at, mbind, M_bind. intros Hm Hk.
  destruct (m env w) as [[e|a] w'] eqn:E; simpl in *; [done|].
  etrans; [exact Hm|]. by apply Hk.
Qed.
Lemma keeps_ret {A} (a : A) : keeps R (mret a).
Proof. intros env w. unfold keeps_at. simpl. reflexivity. Qed.
Lemma keeps_throw {A} msg : keeps R (throw (A := A) msg).
Proof. intros env w. unfold keeps_at. simpl. reflexivity. Qed.
Lemma keeps_rethrow {A} e : keeps R (rethrow (A := A) e).
Proof. intros env w. unfold keeps_at. simpl. reflexivity. Qed.
Lemma keeps_throwCode {A} msg code : keeps R (throwCode (A := A) msg code).
Proof. intros env w. unfold keeps_at. simpl. reflexivity. Qed.
Lemma keeps_bind {A B} (m : M A) (k : A -> M B) :
  keeps R m -> (forall a, keeps R (k a)) -> keeps R (m ≫= k).
Proof. intros Hm Hk env w. apply keeps_at_bind; [apply Hm|]. intros. apply Hk. Qed.
Lemma keeps_asks {A} (f : Db -> A) : keeps R (asks f).
Proof. intros env w. unfold keeps_at. simpl. reflexivity. Qed.
Lemma keeps_askEnv {A} (f : Env -> A) : keeps R (askEnv f).
Proof. intros env w. unfold keeps_at. simpl. reflexivity. Qed.
Lemma keeps_askCfg {A} (f : Config -> A) : keeps R (askCfg f).
Proof. apply keeps_askEnv. Qed.
Lemma keeps_try {A} (m : M A) (h : Exn -> M A) :
  keeps R m -> (forall e, keeps R (h e)) -> keeps R (try_catch m h).
Proof.
  intros Hm Hh env w. unfold keeps_at, try_catch.
  specialize (Hm env w). unfold keeps_at in Hm.
  destruct (m env w) as [[e|a] w']; simpl in *; [|done].
  etrans; [exact Hm|]. apply Hh.
Qed.
Lemma keeps_forEach {A} (f : A -> M unit) l :
  (forall x, x ∈ l -> keeps R (f x)) -> keeps R (forEach f l).
Proof.
  induction l as [|x l IH]; simpl; intros H; [apply keeps_ret|].
  apply keeps_bind; [apply H; by left|]. intros _. apply IH. intros y ?. apply H. by right.
Qed.
Lemma keeps_foldM {A B} (f : B -> A -> M B) b l :
  (forall b x, x ∈ l -> keeps R (f b x)) -> keeps R (foldM f b l).
Proof.
  revert b. induction l as [|x l IH]; simpl; intros b H; [apply keeps_ret|].
  apply keeps_bind; [apply H; by left|]. intros ?. apply IH. intros ? y ?. apply H. by right.
Qed.
End keeps.
