(* ===== verification/Utils.v ===== *)
(** The pure helpers of the service: audit cursors, [utils.ts], the retention
    of evidence and the periods of settlements. *)
From S2P Require Import Prelude JsString JsMap JsDate Json Base64 Types Config World.
From Stdlib Require Import Ascii.

(** The keyset cursor of the audit listing ([services/audit-cursor.ts]): the
    sort key of the last row, as base64url of a small JSON object. *)

Record AuditCursorPayload := mkCursor { cur_createdAt : string; cur_id : string }.

Definition encodeAuditCursor (p : AuditCursorPayload) : string :=
  base64url_encode (json_stringify (JObj [("c", JStr p.(cur_createdAt)); ("i", JStr p.(cur_id))])).

(** A malformed cursor is [null]. *)
Definition decodeAuditCursor (raw : string) : option AuditCursorPayload :=
  match json_parse (base64url_decode raw) with
  | Some o =>
      match jget "c" o, jget "i" o with
      | JStr c, JStr i =>
          if truthy (Some c) && truthy (Some i) then Some (mkCursor c i) else None
      | _, _ => None
      end
  | None => None
  end.

Lemma decode_encode_cursor p :
  p.(cur_createdAt) <> "" -> p.(cur_id) <> "" ->
  decodeAuditCursor (encodeAuditCursor p) = Some p.
Proof.
  destruct p as [c i]. simpl. intros Hc Hi. unfold decodeAuditCursor, encodeAuditCursor.
  rewrite base64url_decode_encode, json_parse_stringify; simpl.
  - by rewrite !bool_decide_eq_false_2.
  - repeat split. repeat constructor; set_solver.
Qed.

(** The helpers of [utils.ts] that do not write the store: clock, random
    identifiers, digests, and the classification of XRPL engine results. *)

Definition nowIso : M string := t ← dateNow; mret (toISOString t).

(** [`${prefix}_${uuid.replace(/-/g, "").slice(0, 16)}`] *)
Definition idOfUuid (prefix uuid : string) : string :=
  prefix +:+ "_" +:+ str_take 16 (remove_char "-"%char uuid).
Definition randomId (prefix : string) : M string :=
  u ← randomUUID; mret (idOfUuid prefix u).

Definition sha256 (content : string) : M string := askEnv (fun env => env.(env_sha256) content).

Definition generateCidFromHash (hashValue : string) : string := "bafy" +:+ str_take 32 hashValue.

Definition classifyXrplResultCode (resultCode : option string) : OutcomeClass :=
  match resultCode with
  | Some rc =>
      if negb (truthy resultCode) then OC_manual_review
      else if startsWith rc "tes" then OC_success
      else if startsWith rc "ter" then OC_retryable
      else if startsWith rc "tem" then OC_final_fail
      else if startsWith rc "tec" then OC_manual_review
      else OC_manual_review
  | None => OC_manual_review
  end.

(** The stable client-facing copy for a tracked transaction. *)
Record PolicyHint := mkHint { hint_code : string; hint_message : string }.

Definition xrplTxClientPolicyHint (trackingStatus : TxTrackingStatus) (validated : bool)
    (outcomeClass : OutcomeClass) (resultCode : option string) : PolicyHint :=
  let rc := trim (default "" resultCode) in
  if bool_decide (rc = "not_found_after_policy") then
    mkHint "B2_XRPL_TX_POLICY_EXHAUSTED"
      "This hash was not confirmed on ledger after repeated policy probes; have an operator verify the hash and network."
  else if validated && bool_decide (outcomeClass = OC_success)
          && bool_decide (trackingStatus = TS_validated_success) then
    mkHint "B2_XRPL_TX_VALIDATED_SUCCESS"
      "Ledger-validated transaction with a successful engine result."
  else if validated && bool_decide (outcomeClass = OC_final_fail) then
    mkHint "B2_XRPL_TX_TERMINAL_FAILURE"
      "Validated failure (non-retryable / tem-class); do not expect automatic success."
  else if bool_decide (outcomeClass = OC_retryable)
          || bool_decide (trackingStatus = TS_retry_scheduled) then
    mkHint "B2_XRPL_TX_RETRYABLE"
      "Retryable XRPL outcome; Backend2 will re-probe on the policy schedule."
  else if bool_decide (outcomeClass = OC_manual_review)
          || bool_decide (trackingStatus = TS_validated_fail) then
    mkHint "B2_XRPL_TX_MANUAL_REVIEW"
      "Human review recommended (tec-class, exhausted probes, or ambiguous engine result)."
  else
    mkHint "B2_XRPL_TX_PENDING"
      "Reconciliation in progress (subscribe stream + tx / account_tx policy).".

(** * Running the helpers *)

Lemma bind_nowIso {B} (k : string -> M B) env w :
  (nowIso ≫= k) env w = k (toISOString (env.(env_clock) w.(w_clk))) env (w <| w_clk := S w.(w_clk) |>).
Proof. done. Qed.
Lemma bind_randomId {B} p (k : string -> M B) env w :
  (randomId p ≫= k) env w = k (idOfUuid p (env.(env_uuid) w.(w_rnd))) env (w <| w_rnd := S w.(w_rnd) |>).
Proof. done. Qed.

(** Which evidence rows the retention purge may delete
    ([services/evidence-retention.ts] and the selection in
    [listEvidencesPastRetention]). *)

(** True when the purge must not delete the row. *)
Definition evidenceBlockedFromRetentionPurge (ev : EvidenceFile) (nowIso : string) : bool :=
  let cls := default RC_standard ev.(e_retentionClass) in
  if decide (cls = RC_legal_hold) then
    match ev.(e_legalHoldUntil) with
    | Some h => if truthy (Some h) then str_le nowIso h else true
    | None => true
    end
  else
    match ev.(e_legalHoldUntil) with
    | Some h => str_le nowIso h
    | None => false
    end.

(** The body of the selection loop. *)
Definition evidencePastRetention (nowIso : string) (e : EvidenceFile) : bool :=
  match e.(e_retainUntil) with
  | Some r =>
      truthy (Some r) && negb (str_le nowIso r) && negb (evidenceBlockedFromRetentionPurge e nowIso)
  | None => false
  end.

(** With stamps as [toISOString] writes them, a row is selected exactly when
    its retention date has passed and no hold covers the instant. *)
Definition holds_at (e : EvidenceFile) (hold : option Z) (now : Z) : Prop :=
  match hold with
  | Some h => (now <= h)%Z
  | None => e.(e_retentionClass) = Some RC_legal_hold
  end.

Lemma toISOString_nonempty t : toISOString t <> "".
Proof.
  unfold toISOString, iso_chars. destruct (civil_of_days (t / 86400000)) as [[y m] d].
  intros H. apply (f_equal (fun s => length (chars s))) in H.
  rewrite chars_of_chars in H. cbn [chars] in H. rewrite !length_app in H. simpl in H. lia.
Qed.

Lemma toISOString_truthy t : truthy (Some (toISOString t)) = true.
Proof. simpl. rewrite bool_decide_eq_false_2; [done|apply toISOString_nonempty]. Qed.

Lemma blocked_iso e hold now :
  e.(e_legalHoldUntil) = toISOString <$> hold -> iso_range now ->
  (forall h, hold = Some h -> iso_range h) ->
  evidenceBlockedFromRetentionPurge e (toISOString now) = true <-> holds_at e hold now.
Proof.
  intros Hh Hnow Hr. unfold evidenceBlockedFromRetentionPurge, holds_at. rewrite Hh.
  destruct hold as [h|]; cbn [fmap option_fmap option_map].
  - rewrite toISOString_truthy, iso_le, <-Z.leb_le by auto. by case_decide.
  - case_decide as Hc; destruct (e_retentionClass e) as [[]|]; naive_solver.
Qed.

Lemma past_retention_iso e r hold now :
  e.(e_retainUntil) = Some (toISOString r) -> e.(e_legalHoldUntil) = toISOString <$> hold ->
  iso_range now -> iso_range r -> (forall h, hold = Some h -> iso_range h) ->
  evidencePastRetention (toISOString now) e = true <-> (r < now)%Z /\ ~ holds_at e hold now.
Proof.
  intros He Hh Hnow Hr Hhr. unfold evidencePastRetention. rewrite He, toISOString_truthy.
  rewrite iso_le, !andb_true_iff, !negb_true_iff by done. rewrite Z.leb_gt.
  rewrite <-(blocked_iso e hold now Hh Hnow Hhr), <-not_true_iff_false. tauto.
Qed.

(** Settlement identifiers and calendar months ([services/settlement-ledger.ts],
    the pure part). *)

Definition RIPPLE_EPOCH_UNIX_SEC : Z := 946684800.

(** The class [[a-zA-Z0-9_]]. *)
Definition id_char (c : ascii) : bool :=
  is_lower c || is_upper c || is_digit c || bool_decide (c = "_"%char).
Definition sanitize (c : ascii) : ascii := if id_char c then c else "_"%char.

Definition settlementDeterministicId (contractId : string) (year month : Z) : string :=
  "stl_" +:+ map_chars sanitize contractId +:+ "_" +:+ num_str year +:+ "_" +:+ num_str month.

(** Milliseconds of [utcDateFromRippleLedgerTime]; [now] is [new Date()] for a
    stream without a ledger time. *)
Definition utcDateFromRippleLedgerTime (ledgerTime : option Z) (now : Z) : Z :=
  match ledgerTime with
  | Some t => (RIPPLE_EPOCH_UNIX_SEC + t) * 1000
  | None => now
  end%Z.

(** [getUTCFullYear()] and [getUTCMonth() + 1]. *)
Definition calendarMonth (ms : Z) : Z * Z :=
  let '(y, m, _) := civil_of_days (ms / 86400000) in (y, m).
Definition calendarMonthFromLedgerStream (ledgerTime : option Z) (now : Z) : Z * Z :=
  calendarMonth (utcDateFromRippleLedgerTime ledgerTime now).
