(* ===== verification/MemoryRepo.v ===== *)
(** The in-memory implementation of the repository
    ([repository/memory-repository.ts] over [store.ts]).  Every method runs to
    completion before another starts: its only awaits are on values that are
    already there.  A getter returns the stored object. *)
From S2P Require Import Prelude JsString JsMap JsDate Types Config World Utils.

Definition withSettlementDefaults (s : SettlementRecord) : SettlementRecord :=
  s <| s_currencyCode := Some (default "XRP" s.(s_currencyCode)) |>
    <| s_periodMode := Some (default PM_calendar_utc s.(s_periodMode)) |>
    <| s_ledgerCloseCount := Some (default 0%Z s.(s_ledgerCloseCount)) |>.

(** [rows.slice(params.offset, params.offset + params.limit)] with the counts. *)
Definition paginate {A} (rows : list A) (params : ListParams) : Paginated A :=
  mkPage (slice params.(lp_offset) params.(lp_limit) rows) (length rows)
    params.(lp_limit) params.(lp_offset).

(** [localeCompare] of a field, ascending and descending. *)
Definition by_asc {A} (f : A -> string) : A -> A -> comparison := asc localeCompare f.
Definition by_desc {A} (f : A -> string) : A -> A -> comparison := desc localeCompare f.

(** [if (from && iso < from) return false; if (to && iso > to) return false;] *)
Definition inWindow (from to : option string) (iso : string) : bool :=
  (if truthy from then negb (str_lt iso (default "" from)) else true) &&
  (if truthy to then negb (str_lt (default "" to) iso) else true).

(** [out[key] = (out[key] ?? 0) + 1] over a list. *)
Definition countBy {A} (key : A -> string) (l : list A) : JsMap Z :=
  fold_left (fun m x => jm_set (key x) (default 0%Z (jm_get (key x) m) + 1)%Z m) l [].

(** * Contracts, evidence, disputes *)

Definition pingStorage : M (bool * option string) := mret (true, None).

Definition getContract (id : string) : M (option Contract) := asks (fun db => jm_get id db.(contracts)).
Definition saveContract (c : Contract) : M unit :=
  modify (fun db => db <| contracts := jm_set c.(c_id) c db.(contracts) |>).
Definition hasContract (id : string) : M bool := asks (fun db => jm_has id db.(contracts)).

Definition getEvidence (id : string) : M (option EvidenceFile) := asks (fun db => jm_get id db.(evidences)).
Definition saveEvidence (e : EvidenceFile) : M unit :=
  modify (fun db => db <| evidences := jm_set e.(e_id) e db.(evidences) |>).
Definition findEvidenceByCid (cid : string) : M (option EvidenceFile) :=
  asks (fun db => snd <$> list_find (fun it => it.(e_cid) = cid) (jm_values db.(evidences))).
Definition sameVersionSeries (contractId : string) (disputeId : option string) (category : string)
    (it : EvidenceFile) : bool :=
  bool_decide (it.(e_contractId) = contractId) && bool_decide (it.(e_disputeId) = disputeId)
  && bool_decide (category_str it.(e_category) = category).
Definition countEvidenceVersions (contractId : string) (disputeId : option string)
    (category : string) : M Z :=
  asks (fun db => Z.of_nat (length (filter (fun it => sameVersionSeries contractId disputeId category it)
                                      (jm_values db.(evidences))))).
Definition hasEvidence (id : string) : M bool := asks (fun db => jm_has id db.(evidences)).
Definition listEvidencesPastRetention (nowIso : string) : M (list EvidenceFile) :=
  asks (fun db => filter (fun e => evidencePastRetention nowIso e) (jm_values db.(evidences))).
Definition deleteEvidence (id : string) : M unit :=
  modify (fun db => db <| evidences := jm_delete id db.(evidences) |>).

Definition getDispute (id : string) : M (option DisputeCase) := asks (fun db => jm_get id db.(disputes)).
Definition saveDispute (d : DisputeCase) : M unit :=
  modify (fun db => db <| disputes := jm_set d.(d_id) d db.(disputes) |>).

Definition appendDisputeVerifierVote (v : DisputeVerifierVoteRecord) : M unit :=
  modify (fun db =>
    let cur := default [] (jm_get v.(v_disputeId) db.(disputeVerifierVotes)) in
    db <| disputeVerifierVotes := jm_set v.(v_disputeId) (cur ++ [v]) db.(disputeVerifierVotes) |>).
Definition listDisputeVerifierVotes (disputeId : string) : M (list DisputeVerifierVoteRecord) :=
  asks (fun db => default [] (jm_get disputeId db.(disputeVerifierVotes))).
Definition listDisputeVerifierRegistry : M (list DisputeVerifierRegistryEntry) :=
  asks (fun db => js_sort (by_asc r_createdAt) (jm_values db.(disputeVerifierRegistry))).
Definition upsertDisputeVerifierRegistryEntry (e : DisputeVerifierRegistryEntry) : M unit :=
  modify (fun db => db <| disputeVerifierRegistry := jm_set e.(r_verifierId) e db.(disputeVerifierRegistry) |>).
Definition saveDecision (d : CaseDecision) : M unit :=
  modify (fun db => db <| decisions := jm_set d.(cd_id) d db.(decisions) |>).

(** * XRPL transactions *)

Definition getXrplTx (txHash : string) : M (option XrplTransaction) :=
  asks (fun db => jm_get txHash db.(xrplTxs)).
Definition saveXrplTx (t : XrplTransaction) : M unit :=
  modify (fun db => db <| xrplTxs := jm_set t.(x_txHash) t db.(xrplTxs) |>).
Definition listXrplTxs : M (list XrplTransaction) := asks (fun db => jm_values db.(xrplTxs)).

(** The loop of [listXrplSubscribeAccounts]: [out] holds the accounts seen. *)
Fixpoint subscribeAccounts (max : Z) (out : list string) (l : list XrplTransaction) : list string :=
  match l with
  | [] => out
  | t :: l' =>
      match t.(x_account) with
      | Some a =>
          if t.(x_validated) || negb (truthy (Some a)) then subscribeAccounts max out l'
          else if bool_decide (a ∈ out) then subscribeAccounts max out l'
          else if (max <=? Z.of_nat (length (out ++ [a])))%Z then out ++ [a]
          else subscribeAccounts max (out ++ [a]) l'
      | None => subscribeAccounts max out l'
      end
  end.
Definition listXrplSubscribeAccounts (max : Z) : M (list string) :=
  asks (fun db => subscribeAccounts max [] (jm_values db.(xrplTxs))).

Definition ingestionKey (ledgerIndex : Z) (txHash eventSource : string) : string :=
  num_str ledgerIndex +:+ ":" +:+ txHash +:+ ":" +:+ eventSource.
Definition tryRecordXrplIngestionEvent (ledgerIndex : Z) (txHash eventSource : string) : M bool :=
  let key := ingestionKey ledgerIndex txHash eventSource in
  seen ← asks (fun db => bool_decide (key ∈ db.(xrplIngestionDedup)));
  if seen : bool then mret false
  else modify (fun db => db <| xrplIngestionDedup := db.(xrplIngestionDedup) ++ [key] |>);; mret true.

(** * Notifications and their outbox *)

Definition saveNotification (n : NotificationEvent) : M unit :=
  modify (fun db => db <| notifications := jm_set n.(n_id) n db.(notifications) |>).
Definition getNotification (id : string) : M (option NotificationEvent) :=
  asks (fun db => jm_get id db.(notifications)).
Definition notificationDue (nowIso : string) (n : NotificationEvent) : bool :=
  if default false n.(n_deadLetter) then false
  else match n.(n_status) with
       | NS_queued => true
       | NS_retry_scheduled =>
           if truthy n.(n_nextAttemptAt) then str_le (default "" n.(n_nextAttemptAt)) nowIso else true
       | _ => false
       end.
Definition listDueNotifications (nowIso : string) (limit : nat) : M (list NotificationEvent) :=
  asks (fun db => take limit (js_sort (by_asc n_createdAt)
                    (filter (fun n => notificationDue nowIso n) (jm_values db.(notifications))))).

Definition appendNotificationOutbox (row : NotificationOutboxRecord) : M bool :=
  present ← asks (fun db => jm_has row.(o_idempotencyKey) db.(notificationOutboxIdempotency));
  if present : bool then mret false
  else
    modify (fun db =>
      db <| notificationOutboxById := jm_set row.(o_id) row db.(notificationOutboxById) |>
         <| notificationOutboxIdempotency :=
              jm_set row.(o_idempotencyKey) row.(o_id) db.(notificationOutboxIdempotency) |>);;
    mret true.

Definition putOutbox (r : NotificationOutboxRecord) : M unit :=
  modify (fun db => db <| notificationOutboxById := jm_set r.(o_id) r db.(notificationOutboxById) |>).

Definition claimedOutbox (nowIsoStr : string) (r : NotificationOutboxRecord) : NotificationOutboxRecord :=
  r <| o_status := OS_processing |> <| o_processingStartedAt := Some nowIsoStr |>
    <| o_updatedAt := nowIsoStr |>.
Definition claimNotificationOutboxPending (limit : nat) (nowIsoStr : string) :
    M (list NotificationOutboxRecord) :=
  pending ← asks (fun db =>
    take limit (js_sort (by_asc o_createdAt)
      (filter (fun r => r.(o_status) = OS_pending) (jm_values db.(notificationOutboxById)))));
  forEach (fun r => putOutbox (claimedOutbox nowIsoStr r)) pending;;
  mret (claimedOutbox nowIsoStr <$> pending).

Definition updateNotificationOutbox (row : NotificationOutboxRecord) : M unit :=
  prev ← asks (fun db => jm_get row.(o_id) db.(notificationOutboxById));
  (match prev with
   | Some p =>
       if bool_decide (p.(o_idempotencyKey) <> row.(o_idempotencyKey)) then
         modify (fun db => db <| notificationOutboxIdempotency :=
           jm_set row.(o_idempotencyKey) row.(o_id)
             (jm_delete p.(o_idempotencyKey) db.(notificationOutboxIdempotency)) |>)
       else mret tt
   | None => mret tt
   end);;
  putOutbox row.
Definition getNotificationOutbox (id : string) : M (option NotificationOutboxRecord) :=
  asks (fun db => jm_get id db.(notificationOutboxById)).
Definition outboxFilter (filter : NotificationOutboxListFilter) (r : NotificationOutboxRecord) : bool :=
  match filter.(of_status) with Some s => bool_decide (r.(o_status) = s) | None => true end.
Definition listNotificationOutboxPage (filter_ : NotificationOutboxListFilter) (params : ListParams) :
    M (Paginated NotificationOutboxRecord) :=
  asks (fun db => paginate (js_sort (by_desc o_createdAt)
    (filter (fun r => outboxFilter filter_ r) (jm_values db.(notificationOutboxById)))) params).

Definition outboxStale (staleBeforeIso : string) (r : NotificationOutboxRecord) : bool :=
  bool_decide (r.(o_status) = OS_processing) && truthy r.(o_processingStartedAt)
  && str_lt (default "" r.(o_processingStartedAt)) staleBeforeIso.
Definition recoveredOutbox (nowIsoStr : string) (r : NotificationOutboxRecord) : NotificationOutboxRecord :=
  r <| o_status := OS_pending |> <| o_processingStartedAt := None |> <| o_updatedAt := nowIsoStr |>.
Definition recoverStaleNotificationOutboxProcessing (staleBeforeIso nowIsoStr : string) : M Z :=
  stale ← asks (fun db => filter (fun r => outboxStale staleBeforeIso r)
                            (jm_values db.(notificationOutboxById)));
  forEach (fun r => putOutbox (recoveredOutbox nowIsoStr r)) stale;;
  mret (Z.of_nat (length stale)).

(** * Audit log and events *)

Definition appendAudit (log : AuditLog) : M unit :=
  modify (fun db => db <| audits := db.(audits) ++ [log] |>).
Definition appendEvent (ev : EventEnvelope) : M unit :=
  modify (fun db => db <| events := db.(events) ++ [ev] |>).

Definition auditFilter (filter : AuditFilter) (log : AuditLog) : bool :=
  flt_eq filter.(af_entityType) log.(a_entityType) && flt_eq filter.(af_entityId) log.(a_entityId)
  && inWindow filter.(af_from) filter.(af_to) log.(a_createdAt).
Definition auditOrder : AuditLog -> AuditLog -> comparison :=
  then_by (by_asc a_createdAt) (by_asc a_id).
Definition filteredAudits (filter_ : AuditFilter) (l : list AuditLog) : list AuditLog :=
  js_sort auditOrder (filter (fun log => auditFilter filter_ log) l).

Definition listAudits (filter : AuditFilter) : M (list AuditLog) :=
  asks (fun db => filteredAudits filter db.(audits)).
Definition listAuditsPage (filter : AuditFilter) (params : ListParams) : M (Paginated AuditLog) :=
  asks (fun db => paginate (filteredAudits filter db.(audits)) params).

(** The rows strictly after the cursor. *)
Definition afterCursor (dec : AuditCursorPayload) (x : AuditLog) : bool :=
  str_lt dec.(cur_createdAt) x.(a_createdAt)
  || (bool_decide (x.(a_createdAt) = dec.(cur_createdAt)) && str_lt dec.(cur_id) x.(a_id)).
Definition startAfter (dec : AuditCursorPayload) (filtered : list AuditLog) : nat :=
  match list_find (fun x => afterCursor dec x) filtered with
  | Some (i, _) => i
  | None => length filtered
  end.
Definition keysetPage (filtered : list AuditLog) (start limit : nat) : AuditKeysetPage :=
  let window := slice start (limit + 1) filtered in
  let hasMore := (limit <? length window)%nat in
  let items := if hasMore then take limit window else window in
  mkKeyset items
    (match last items with
     | Some l => if hasMore then Some (encodeAuditCursor (mkCursor l.(a_createdAt) l.(a_id))) else None
     | None => None
     end).
Definition listAuditsAfterCursor (filter : AuditFilter) (limit : nat) (cursor : option string) :
    M AuditKeysetPage :=
  filtered ← listAudits filter;
  match cursor with
  | Some c =>
      if truthy cursor then
        match decodeAuditCursor c with
        | Some dec => mret (keysetPage filtered (startAfter dec filtered) limit)
        | None => throwCode "INVALID_AUDIT_CURSOR" "INVALID_AUDIT_CURSOR"
        end
      else mret (keysetPage filtered 0 limit)
  | None => mret (keysetPage filtered 0 limit)
  end.

Definition eventFilter (filter : EventFilter) (event : EventEnvelope) : bool :=
  flt_eq filter.(ef_entityType) event.(ev_entityType)
  && flt_eq filter.(ef_entityId) event.(ev_entityId)
  && flt_eq filter.(ef_eventType) event.(ev_eventType).
Definition listEvents (filter_ : EventFilter) : M (list EventEnvelope) :=
  asks (fun db => filter (fun e => eventFilter filter_ e) db.(events)).

(** * Delayed jobs *)

Definition createDelayedJobIfAbsent (job : DelayedJob) : M bool :=
  present ← asks (fun db => jm_has job.(j_id) db.(delayedJobs));
  if present : bool then mret false
  else modify (fun db => db <| delayedJobs := jm_set job.(j_id) job db.(delayedJobs) |>);; mret true.

(** [Date.parse(s) <= ms]; a comparison with [NaN] is false. *)
Definition parsedLe (legacy : string -> option Z) (s : string) (ms : Z) : bool :=
  match date_parse legacy s with Some t => (t <=? ms)%Z | None => false end.
Definition jobClaimable (legacy : string -> option Z) (kind : string) (nowMs : Z) (j : DelayedJob) : bool :=
  bool_decide (j.(j_kind) = kind) && parsedLe legacy j.(j_runAfter) nowMs
  && (if truthy j.(j_lockedUntil) then parsedLe legacy (default "" j.(j_lockedUntil)) nowMs else true).
Definition claimedJob (lockUntil nowIsoStr : string) (j : DelayedJob) : DelayedJob :=
  j <| j_lockedUntil := Some lockUntil |> <| j_updatedAt := nowIsoStr |>.
Definition putJob (j : DelayedJob) : M unit :=
  modify (fun db => db <| delayedJobs := jm_set j.(j_id) j db.(delayedJobs) |>).
Definition claimDueDelayedJobs (kind nowIsoStr : string) (limit : nat) (lockTtlMs : Z) :
    M (list DelayedJob) :=
  legacy ← askEnv env_legacyDate;
  match date_parse legacy nowIsoStr with
  | None => mret []
  | Some nowMs =>
      let lockUntil := toISOString (nowMs + lockTtlMs) in
      candidates ← asks (fun db =>
        take limit (js_sort (by_asc j_runAfter)
          (filter (fun j => jobClaimable legacy kind nowMs j) (jm_values db.(delayedJobs)))));
      forEach (fun j => putJob (claimedJob lockUntil nowIsoStr j)) candidates;;
      mret (claimedJob lockUntil nowIsoStr <$> candidates)
  end.
Definition deleteDelayedJob (id : string) : M unit :=
  modify (fun db => db <| delayedJobs := jm_delete id db.(delayedJobs) |>).
Definition bumpDelayedJob (id runAfter : string) (attempts : Z) (lastError : option string)
    (updatedAt : string) : M unit :=
  j ← asks (fun db => jm_get id db.(delayedJobs));
  match j with
  | None => mret tt
  | Some j =>
      modify (fun db => db <| delayedJobs := jm_set id
        (j <| j_runAfter := runAfter |> <| j_attempts := attempts |> <| j_lastError := lastError |>
           <| j_updatedAt := updatedAt |> <| j_lockedUntil := None |>) db.(delayedJobs) |>)
  end.

(** * Pages *)

Definition contractFilter (filter : ContractListFilter) (c : Contract) : bool :=
  flt_eq filter.(cf_status) (contractStatus_str c.(c_status))
  && flt_eq filter.(cf_tenantId) c.(c_tenantId) && flt_eq filter.(cf_landlordId) c.(c_landlordId)
  && inWindow filter.(cf_updatedFrom) filter.(cf_updatedTo) c.(c_updatedAt).
Definition listContractsPage (filter_ : ContractListFilter) (params : ListParams) :
    M (Paginated Contract) :=
  asks (fun db => paginate (js_sort (by_desc c_updatedAt)
    (filter (fun c => contractFilter filter_ c) (jm_values db.(contracts)))) params).

Definition disputeFilter (filter : DisputeListFilter) (d : DisputeCase) : bool :=
  flt_eq filter.(df_contractId) d.(d_contractId)
  && flt_eq filter.(df_status) (disputeStatus_str d.(d_status))
  && inWindow filter.(df_updatedFrom) filter.(df_updatedTo) d.(d_updatedAt).
Definition listDisputesPage (filter_ : DisputeListFilter) (params : ListParams) :
    M (Paginated DisputeCase) :=
  asks (fun db => paginate (js_sort (by_desc d_updatedAt)
    (filter (fun d => disputeFilter filter_ d) (jm_values db.(disputes)))) params).

Definition xrplTxFilter (filter : XrplTxListFilter) (t : XrplTransaction) : bool :=
  flt_eq_opt filter.(xf_account) t.(x_account)
  && flt_eq filter.(xf_trackingStatus) (trackingStatus_str t.(x_trackingStatus))
  && (match filter.(xf_validated) with Some v => Bool.eqb t.(x_validated) v | None => true end)
  && flt_eq filter.(xf_network) (network_str t.(x_network)).
Definition listXrplTxsPage (filter_ : XrplTxListFilter) (params : ListParams) :
    M (Paginated XrplTransaction) :=
  asks (fun db => paginate (js_sort (by_desc x_lastCheckedAt)
    (filter (fun t => xrplTxFilter filter_ t) (jm_values db.(xrplTxs)))) params).

(** * Reports *)

Definition operatorStats (db : Db) : OperatorStatsSummary :=
  mkStats
    (countBy (fun c => contractStatus_str c.(c_status)) (jm_values db.(contracts)))
    (countBy (fun d => disputeStatus_str d.(d_status)) (jm_values db.(disputes)))
    (countBy (fun t => trackingStatus_str t.(x_trackingStatus)) (jm_values db.(xrplTxs)))
    (countBy (fun n => notificationStatus_str n.(n_status)) (jm_values db.(notifications)))
    (jm_size db.(evidences))
    (countBy (fun s => settlementStatus_str s.(s_status)) (jm_values db.(settlements))).
Definition getOperatorStatsSummary : M OperatorStatsSummary := asks operatorStats.

Definition contractScope (params : ReportSummaryParams) (c : Contract) : bool :=
  flt_eq params.(rp_tenantId) c.(c_tenantId) && flt_eq params.(rp_landlordId) c.(c_landlordId).
(** [const c = db.contracts.get(id); if (!c || !contractScope(c)) continue;] *)
Definition contractInScope (params : ReportSummaryParams) (db : Db) (contractId : string) : bool :=
  match jm_get contractId db.(contracts) with Some c => contractScope params c | None => false end.
Definition xrplInScope (params : ReportSummaryParams) (db : Db) (x : XrplTransaction) : bool :=
  if truthy params.(rp_tenantId) || truthy params.(rp_landlordId) then
    match x.(x_disputeId) with
    | Some did =>
        truthy (Some did) &&
        match jm_get did db.(disputes) with
        | Some d => contractInScope params db d.(d_contractId)
        | None => false
        end
    | None => false
    end
  else true.
Definition scopedReport (params : ReportSummaryParams) (db : Db) : ReportScopedBucket :=
  let within := inWindow params.(rp_from) params.(rp_to) in
  mkScoped
    (countBy (fun c => contractStatus_str c.(c_status))
       (filter (fun c => contractScope params c && within c.(c_updatedAt)) (jm_values db.(contracts))))
    (countBy (fun d => disputeStatus_str d.(d_status))
       (filter (fun d => contractInScope params db d.(d_contractId) && within d.(d_updatedAt))
          (jm_values db.(disputes))))
    (countBy (fun s => settlementStatus_str s.(s_status))
       (filter (fun s => contractInScope params db s.(s_contractId) && within s.(s_updatedAt))
          (jm_values db.(settlements))))
    (countBy (fun x => trackingStatus_str x.(x_trackingStatus))
       (filter (fun x => within x.(x_lastCheckedAt) && xrplInScope params db x) (jm_values db.(xrplTxs))))
    (length (filter (fun a => within a.(a_createdAt)) db.(audits))).
Definition getReportsSummary (params : ReportSummaryParams) : M ReportSummary :=
  global ← getOperatorStatsSummary;
  scoped ← asks (scopedReport params);
  generatedAt ← nowIso;
  mret (mkReport generatedAt params global scoped).

(** * Settlements *)

Definition getSettlement (id : string) : M (option SettlementRecord) :=
  asks (fun db => withSettlementDefaults <$> jm_get id db.(settlements)).
Definition saveSettlement (s : SettlementRecord) : M unit :=
  modify (fun db => db <| settlements := jm_set s.(s_id) (withSettlementDefaults s) db.(settlements) |>).

Definition settlementFilter (filter : SettlementListFilter) (it : SettlementRecord) : bool :=
  flt_eq filter.(sf_contractId) it.(s_contractId)
  && flt_eq filter.(sf_status) (settlementStatus_str it.(s_status))
  && (match filter.(sf_periodYear) with Some y => (it.(s_periodYear) =? y)%Z | None => true end)
  && (match filter.(sf_periodMonth) with Some m => (it.(s_periodMonth) =? m)%Z | None => true end).
(** Year descending, month descending, contract ascending. *)
Definition settlementOrder : SettlementRecord -> SettlementRecord -> comparison :=
  then_by (desc Z.compare s_periodYear)
    (then_by (desc Z.compare s_periodMonth) (by_asc s_contractId)).
Definition listSettlementsPage (filter_ : SettlementListFilter) (params : ListParams) :
    M (Paginated SettlementRecord) :=
  asks (fun db => paginate (js_sort settlementOrder
    (filter (fun it => settlementFilter filter_ it)
       (withSettlementDefaults <$> jm_values db.(settlements)))) params).

(** The body of the loop of [touchSettlementsOnLedgerClose]: the settlements
    map and the count of touched rows after one contract. *)
Definition touchEligible (c : Contract) : bool :=
  bool_decide (c.(c_status) = CS_active) || bool_decide (c.(c_status) = CS_escrow_validated).
Definition touchSettlement (p : TouchParams) (contractId : string) (existing : option SettlementRecord)
    : option SettlementRecord :=
  match existing with
  | Some s =>
      if bool_decide (s.(s_status) = SS_archived) then None
      else
        let base := withSettlementDefaults s in
        Some (base <| s_lastLedgerIndex := Some p.(tp_ledgerIndex) |>
                   <| s_ledgerCloseCount := Some (default 0%Z base.(s_ledgerCloseCount) + 1)%Z |>
                   <| s_updatedAt := p.(tp_nowIso) |>)
  | None =>
      Some (mkSettlement (settlementDeterministicId contractId p.(tp_periodYear) p.(tp_periodMonth))
              contractId p.(tp_periodYear) p.(tp_periodMonth) SS_collecting
              (Some p.(tp_ledgerIndex)) (Some 1%Z) p.(tp_nowIso) p.(tp_nowIso)
              None (Some "XRP") None (Some PM_calendar_utc) None)
  end.
Definition touchStep (p : TouchParams) (st : JsMap SettlementRecord * Z) (c : Contract) :
    JsMap SettlementRecord * Z :=
  let '(m, n) := st in
  if touchEligible c then
    let id := settlementDeterministicId c.(c_id) p.(tp_periodYear) p.(tp_periodMonth) in
    match touchSettlement p c.(c_id) (jm_get id m) with
    | Some s => (jm_set id s m, n + 1)%Z
    | None => (m, n)
    end
  else (m, n).
Definition touchSettlementsOnLedgerClose (p : TouchParams) : M Z :=
  st ← asks (fun db => fold_left (touchStep p) (jm_values db.(contracts)) (db.(settlements), 0%Z));
  modify (fun db => db <| settlements := st.1 |>);;
  mret st.2.

(** * Export jobs *)

Definition createExportJob (job : ExportJobRecord) : M unit :=
  modify (fun db => db <| exportJobs := jm_set job.(x_jobId) job db.(exportJobs) |>).
Definition getExportJob (id : string) : M (option ExportJobRecord) :=
  asks (fun db => jm_get id db.(exportJobs)).
Definition claimedExport (nowIso : string) (j : ExportJobRecord) : ExportJobRecord :=
  j <| x_status := ES_running |> <| x_updatedAt := nowIso |>.
Definition updateExportJob (job : ExportJobRecord) : M unit :=
  modify (fun db => db <| exportJobs := jm_set job.(x_jobId) job db.(exportJobs) |>).
Definition claimExportJobsPending (limit : nat) (nowIso : string) : M (list ExportJobRecord) :=
  pending ← asks (fun db => take limit (js_sort (by_asc x_createdAt)
    (filter (fun j => j.(x_status) = ES_pending) (jm_values db.(exportJobs)))));
  forEach (fun j => updateExportJob (claimedExport nowIso j)) pending;;
  mret (claimedExport nowIso <$> pending).
