(* ===== verification/RepoFacts.v ===== *)
(** What the queries of the repository compute: counts, windows of a sorted
    listing, and the keyset walk over the audit log. *)
From S2P Require Import Prelude JsString JsMap JsDate Json Base64 Types Config World Utils MemoryRepo.

#[export] Instance by_asc_total {A} (f : A -> string) : TotalCmp (by_asc f) := asc_total f _ _.
#[export] Instance by_desc_total {A} (f : A -> string) : TotalCmp (by_desc f) := desc_total f _ _.
#[export] Instance auditOrder_total : TotalCmp auditOrder := then_total _ _ _ _.
#[export] Instance settlementOrder_total : TotalCmp settlementOrder := then_total _ _ _ _.

(** * Counting by a key *)

Definition count_of {A} (key : A -> string) (k : string) (l : list A) : Z :=
  Z.of_nat (length (filter (fun x => key x = k) l)).

Lemma countBy_get {A} (key : A -> string) l k :
  default 0%Z (jm_get k (countBy key l)) = count_of key k l.
Proof.
  unfold countBy. assert (forall m,
    default 0%Z (jm_get k (fold_left (fun m x =>
      jm_set (key x) (default 0%Z (jm_get (key x) m) + 1)%Z m) l m))
    = (default 0%Z (jm_get k m) + count_of key k l)%Z) as H.
  { induction l as [|x l IH]; intros m; simpl; [unfold count_of; simpl; lia|].
    rewrite IH, jm_get_set. unfold count_of. rewrite filter_cons.
    repeat case_decide; simplify_eq/=; try done; lia. }
  rewrite H. simpl. lia.
Qed.

Lemma countBy_sum {A} (key : A -> string) l :
  foldr Z.add 0%Z (jm_values (countBy key l)) = Z.of_nat (length l).
Proof.
  unfold countBy. assert (forall m, jm_wf m ->
    foldr Z.add 0%Z (jm_values (fold_left (fun m x =>
      jm_set (key x) (default 0%Z (jm_get (key x) m) + 1)%Z m) l m))
    = (foldr Z.add 0%Z (jm_values m) + Z.of_nat (length l))%Z) as H.
  { induction l as [|x l IH]; intros m Hm; simpl; [lia|].
    rewrite IH by auto with bs.
    assert (foldr Z.add 0%Z (jm_values (jm_set (key x) (default 0%Z (jm_get (key x) m) + 1)%Z m))
      = foldr Z.add 0%Z (jm_values m) + 1)%Z as ->; [|lia].
    generalize (key x). clear. intros k. unfold jm_values.
    induction m as [|[k' v] m IH]; csimpl; [lia|].
    case_decide; csimpl; [lia|]. rewrite IH. lia. }
  rewrite H; [simpl; lia|constructor].
Qed.

(** * Offset pages *)

(** The pages [0, 1, ..., n-1] of size [L], one after the other. *)
Definition pages {A} (rows : list A) (L n : nat) : list A :=
  flat_map (fun i => pg_items (paginate rows (mkListParams L (i * L)))) (seq 0 n).

Lemma pages_take {A} (rows : list A) L n : pages rows L n = take (n * L) rows.
Proof.
  unfold pages. induction n as [|n IH]; [done|].
  rewrite seq_S, flat_map_app, IH. cbn [flat_map plus]. rewrite app_nil_r.
  change (take (n * L) rows) with (slice 0 (n * L) rows).
  change (pg_items (paginate rows (mkListParams L (n * L)))) with (slice (0 + n * L) L rows).
  rewrite slice_app. unfold slice. simpl. f_equal. lia.
Qed.

(** * The keyset walk *)

(** What the log holds when [writeAudit] wrote it: ISO stamps, and distinct
    identifiers of one layout. *)
Record audits_canonical (l : list AuditLog) : Prop := mkCanonical {
  can_stamp : forall a, a ∈ l -> exists t, iso_range t /\ a.(a_createdAt) = toISOString t;
  can_layout : forall a b, a ∈ l -> b ∈ l -> same_layout a.(a_id) b.(a_id);
  can_ids : NoDup (a_id <$> l);
  can_nonempty : forall a, a ∈ l -> a.(a_id) <> "" }.

Definition cursor_of (a : AuditLog) : AuditCursorPayload := mkCursor a.(a_createdAt) a.(a_id).

Lemma filteredAudits_perm f l : filteredAudits f l ≡ₚ filter (fun a => auditFilter f a) l.
Proof. apply js_sort_perm. Qed.

Lemma elem_of_filteredAudits f l a : a ∈ filteredAudits f l -> a ∈ l.
Proof. rewrite filteredAudits_perm. by intros [_ ?]%list_elem_of_filter. Qed.

(** In a canonical log a later row of the listing is after the cursor of an
    earlier one, and not conversely. *)
Lemma auditOrder_cursor l a b :
  audits_canonical l -> a ∈ l -> b ∈ l ->
  afterCursor (cursor_of a) b = bool_decide (auditOrder a b = Lt).
Proof.
  intros [Hs Hl _ _] Ha Hb. destruct (Hs a Ha) as (ta & Hta & Ea), (Hs b Hb) as (tb & Htb & Eb).
  unfold afterCursor, auditOrder, then_by, by_asc, asc, cursor_of. simpl.
  rewrite !localeCompare_layout by (rewrite ?Ea, ?Eb; auto using iso_layout).
  unfold str_lt. destruct (str_compare (a_createdAt a) (a_createdAt b)) eqn:E; simpl.
  - apply lex_compare_eq, (inj codes) in E. rewrite bool_decide_true by done. simpl.
    by destruct (str_compare (a_id a) (a_id b)).
  - done.
  - rewrite bool_decide_false; [done|].
    intros Heq. rewrite Heq in E. unfold str_compare in E. by rewrite lex_compare_refl in E.
Qed.

Lemma auditOrder_strict l a b :
  audits_canonical l -> a ∈ l -> b ∈ l -> auditOrder a b = Eq -> a.(a_id) = b.(a_id).
Proof.
  intros [Hs Hl _ _] Ha Hb. unfold auditOrder, then_by, by_asc, asc.
  destruct (localeCompare (a_createdAt a) _); try done.
  rewrite localeCompare_layout by auto. intros E.
  by apply lex_compare_eq, (inj codes) in E.
Qed.

(** Positions in the listing are ordered as their cursors. *)
Lemma filteredAudits_after f l i j a b :
  audits_canonical l ->
  filteredAudits f l !! i = Some a -> filteredAudits f l !! j = Some b ->
  afterCursor (cursor_of a) b = bool_decide (i < j).
Proof.
  intros Hc Hi Hj.
  assert (a ∈ l /\ b ∈ l) as [Ha Hb].
  { split; eapply elem_of_filteredAudits; by eapply list_elem_of_lookup_2. }
  rewrite (auditOrder_cursor l) by done.
  pose proof (js_sort_total auditOrder (filter (fun a => auditFilter f a) l)) as Hsort.
  change (js_sort auditOrder _) with (filteredAudits f l) in Hsort.
  assert (NoDup (a_id <$> filteredAudits f l)) as Hnd.
  { rewrite filteredAudits_perm. eapply sublist_NoDup; [apply Hc|].
    apply fmap_sublist, sublist_filter. }
  assert (forall i j a b, filteredAudits f l !! i = Some a -> filteredAudits f l !! j = Some b ->
    i < j -> cmp_le auditOrder a b) as Hle.
  { intros ? ? ? ? H1 H2 Hlt. by eapply (StronglySorted_lookup _ _ _ _ _ _ Hsort). }
  apply bool_decide_ext. split; intros H.
  - destruct (decide (i < j)) as [|Hn]; [done|]. exfalso.
    destruct (decide (i = j)) as [->|Hij].
    + rewrite Hi in Hj. injection Hj as ->. by rewrite (tc_refl auditOrder) in H.
    + apply (Hle j i b a Hj Hi ltac:(lia)). by rewrite (tc_anti (cmp := auditOrder)), H.
  - specialize (Hle i j a b Hi Hj H). unfold cmp_le in Hle.
    destruct (auditOrder a b) eqn:E; [|done|done]. exfalso.
    apply (auditOrder_strict l) in E; [|done..].
    assert (i = j); [|lia]. eapply (NoDup_lookup _ i j a.(a_id) Hnd).
    + by rewrite list_lookup_fmap, Hi.
    + rewrite list_lookup_fmap, Hj. simpl. by rewrite E.
Qed.

(** The walk resumes right behind the row the cursor was taken from. *)
Lemma startAfter_cursor f l i a :
  audits_canonical l -> filteredAudits f l !! i = Some a ->
  startAfter (cursor_of a) (filteredAudits f l) = S i.
Proof.
  intros Hc Hi. unfold startAfter.
  pose proof (lookup_lt_Some _ _ _ Hi) as Hlt.
  destruct (filteredAudits f l !! S i) as [b|] eqn:Hb.
  - rewrite (proj2 (list_find_Some _ _ (S i) b)); [done|]. split_and!; [done| |].
    + rewrite (filteredAudits_after f l i (S i) a b), bool_decide_true by (done || lia). done.
    + intros j y Hj Hlt'. rewrite (filteredAudits_after f l i j a y) by done.
      rewrite bool_decide_false by lia. auto.
  - apply lookup_ge_None in Hb. rewrite (proj2 (list_find_None _ _)); [lia|].
    apply Forall_lookup. intros j y Hj. rewrite (filteredAudits_after f l i j a y) by done.
    rewrite bool_decide_false; [auto|]. apply lookup_lt_Some in Hj. lia.
Qed.

(** Every page has at most [limit] rows, and starts where the walk is. *)
Lemma keysetPage_items filtered start limit :
  ak_items (keysetPage filtered start limit) = slice start limit filtered.
Proof.
  unfold keysetPage. cbn [ak_items]. destruct (Nat.ltb_spec limit (length (slice start (limit + 1) filtered))).
  - unfold slice. rewrite take_take. f_equal. lia.
  - unfold slice in *. rewrite length_take in *. rewrite !take_ge by lia. done.
Qed.

Lemma keysetPage_next filtered start limit :
  0 < limit ->
  ak_nextCursor (keysetPage filtered start limit) =
    if decide (start + limit < length filtered)
    then encodeAuditCursor <$> (cursor_of <$> filtered !! (start + limit - 1)) else None.
Proof.
  intros Hlim. unfold keysetPage. cbn [ak_nextCursor].
  set (items := if (limit <? _)%nat then _ else _).
  assert (items = slice start limit filtered) as -> by exact (keysetPage_items filtered start limit).
  rewrite slice_length. rewrite last_lookup, slice_length.
  destruct (decide (start + limit < length filtered)) as [Hlt|Hge].
  - rewrite (proj2 (Nat.ltb_lt _ _)) by lia.
    replace (Nat.pred (limit `min` (length filtered - start))) with (limit - 1) by lia.
    unfold slice. rewrite lookup_take_lt, lookup_drop by lia.
    replace (start + (limit - 1)) with (start + limit - 1) by lia.
    by destruct (filtered !! _).
  - rewrite (proj2 (Nat.ltb_ge _ _)) by lia. by case_match.
Qed.

Lemma encodeAuditCursor_truthy p : truthy (Some (encodeAuditCursor p)) = true.
Proof.
  unfold truthy. rewrite bool_decide_eq_false_2; [done|]. intros H.
  pose proof (base64url_decode_encode
    (json_stringify (JObj [("c", JStr p.(cur_createdAt)); ("i", JStr p.(cur_id))]))) as Hd.
  unfold encodeAuditCursor in H. rewrite H in Hd. by destruct p.
Qed.

Lemma cursor_roundtrip l a :
  audits_canonical l -> a ∈ l -> decodeAuditCursor (encodeAuditCursor (cursor_of a)) = Some (cursor_of a).
Proof.
  intros [Hs _ _ Hne] Ha. apply decode_encode_cursor; simpl; [|by apply Hne].
  destruct (Hs a Ha) as (t & _ & ->). apply toISOString_nonempty.
Qed.

(** One request with the cursor of the row before position [s]. *)
Lemma listAuditsAfterCursor_at f limit s a env w :
  let F := filteredAudits f w.(w_db).(audits) in
  audits_canonical w.(w_db).(audits) -> F !! s = Some a ->
  listAuditsAfterCursor f limit (Some (encodeAuditCursor (cursor_of a))) env w
    = (inr (keysetPage F (S s) limit), w).
Proof.
  intros F Hc Ha. unfold listAuditsAfterCursor, listAudits. rewrite bind_asks. fold F.
  rewrite encodeAuditCursor_truthy, (cursor_roundtrip w.(w_db).(audits)).
  - unfold F. by rewrite (startAfter_cursor f _ s a Hc Ha).
  - done.
  - eapply elem_of_filteredAudits, list_elem_of_lookup_2, Ha.
Qed.

(** Where a walk stands: at the start, or behind the row its cursor names. *)
Definition walk_at (F : list AuditLog) (s : nat) (cursor : option string) : Prop :=
  s = 0 /\ cursor = None \/
  exists s' a, s = S s' /\ F !! s' = Some a /\ cursor = Some (encodeAuditCursor (cursor_of a)).

Section walk.
Context (f : AuditFilter) (limit : nat) (env : Env) (w : World).
Let F := filteredAudits f w.(w_db).(audits).
Context (Hc : audits_canonical w.(w_db).(audits)).

Lemma listAuditsAfterCursor_walk s cursor :
  walk_at F s cursor -> listAuditsAfterCursor f limit cursor env w = (inr (keysetPage F s limit), w).
Proof using Hc.
  intros [[-> ->]|(s' & a & -> & Ha & ->)]; [done|]. by apply listAuditsAfterCursor_at.
Qed.
(** A returned cursor stands [limit] rows further; without one the page was
    the rest of the listing. *)
Lemma keysetPage_walk s :
  0 < limit ->
  match ak_nextCursor (keysetPage F s limit) with
  | Some c => walk_at F (s + limit) (Some c) /\ s + limit < length F
  | None => slice s limit F = drop s F
  end.
Proof using Type.
  intros Hlim. rewrite keysetPage_next by done. case_decide as Hlt.
  - destruct (lookup_lt_is_Some_2 F (s + limit - 1)) as [a Ha]; [lia|]. rewrite Ha. simpl.
    split; [|done]. right. exists (s + limit - 1), a. split_and!; [lia|done..].
  - unfold slice. rewrite take_ge; [done|]. rewrite length_drop. lia.
Qed.
End walk.
