(* ===== verification/Http.v ===== *)
(** Requests and responses of the HTTP handlers, the error bodies, the JSON
    form of the stored records, and the outcome of a schema's [safeParse]. *)
From S2P Require Import Prelude JsString JsMap Json Types Config World.
From Stdlib Require Import Ascii.

(** A response: status and JSON body.  Bodies sent as text or bytes are
    [JStr]; the headers a handler sets are kept. *)
Record Response := mkResponse {
  rs_status : Z; rs_body : JsVal; rs_headers : list (string * string) }.

Definition json (status : Z) (body : JsVal) : Response := mkResponse status body [].

(** [res.status(status).json({ errorCode, message })] *)
Definition error_json (status : Z) (errorCode : string) (message : JsVal) : Response :=
  json status (JObj [("errorCode", JStr errorCode); ("message", message)]).
Definition err (status : Z) (errorCode message : string) : Response :=
  error_json status errorCode (JStr message).
Definition validation_error (flat : JsVal) : Response := error_json 400 "B2_VALIDATION_ERROR" flat.

(** [schema.safeParse(input)]: the flattened error, or the parsed data.  The
    parser is zod; each handler receives its outcome. *)
Inductive Parsed (A : Type) :=
  | Invalid (flat : JsVal)
  | Valid (data : A).
Arguments Invalid {A}. Arguments Valid {A}.

Inductive BluesafeRole := R_tenant | R_landlord | R_operator | R_verifier | R_auditor.
#[export] Instance BluesafeRole_eq : EqDecision BluesafeRole. Proof. solve_decision. Defined.

Definition role_str (r : BluesafeRole) : string :=
  match r with
  | R_tenant => "tenant" | R_landlord => "landlord" | R_operator => "operator"
  | R_verifier => "verifier" | R_auditor => "auditor"
  end.

(** What [bluesafeAuthMiddleware] attaches to the request. *)
Record BluesafeAuth := mkAuth {
  au_role : BluesafeRole; au_tenantId : option string; au_landlordId : option string }.

(** The part of an Express request the middlewares read; header names are in
    lower case. *)
Record Request := mkRequest {
  rq_method : string;
  rq_headers : JsMap string;
  rq_bluesafeAuth : option BluesafeAuth }.
#[export] Instance eta_Request : Eta Request := fun r =>
  mkRequest r.(rq_method) r.(rq_headers) r.(rq_bluesafeAuth).

Definition header (req : Request) (name : string) : option string :=
  jm_get (toLowerCase name) req.(rq_headers).

(** * JSON of the stored records *)

Definition jbool_opt (o : option bool) : JsVal := match o with Some b => JBool b | None => JUndef end.

Definition contract_json (c : Contract) : JsVal :=
  JObj [("id", JStr c.(c_id)); ("tenantId", JStr c.(c_tenantId));
        ("landlordId", JStr c.(c_landlordId)); ("status", JStr (contractStatus_str c.(c_status)));
        ("escrowCreateTxHash", jopt c.(c_escrowCreateTxHash));
        ("depositAmount", jopt c.(c_depositAmount)); ("stakeAmount", jopt c.(c_stakeAmount));
        ("startsAt", jopt c.(c_startsAt)); ("endsAt", jopt c.(c_endsAt));
        ("createdAt", JStr c.(c_createdAt)); ("updatedAt", JStr c.(c_updatedAt))].

Definition retention_json (r : option EvidenceRetentionClass) : JsVal :=
  match r with Some c => JStr (retentionClass_str c) | None => JUndef end.

(** Every field of a row. *)
Definition evidence_fields (e : EvidenceFile) : list (string * JsVal) :=
  [("id", JStr e.(e_id)); ("contractId", JStr e.(e_contractId)); ("disputeId", jopt e.(e_disputeId));
   ("uploaderId", JStr e.(e_uploaderId)); ("category", JStr (category_str e.(e_category)));
   ("cid", JStr e.(e_cid)); ("sha256", JStr e.(e_sha256)); ("mimeType", JStr e.(e_mimeType));
   ("sizeBytes", JNum e.(e_sizeBytes)); ("version", JNum e.(e_version));
   ("isEncrypted", JBool e.(e_isEncrypted)); ("encryptionScheme", jopt e.(e_encryptionScheme));
   ("retainUntil", jopt e.(e_retainUntil)); ("retentionClass", retention_json e.(e_retentionClass));
   ("jurisdiction", jopt e.(e_jurisdiction)); ("legalHoldUntil", jopt e.(e_legalHoldUntil));
   ("storageProvider", JStr (provider_str e.(e_storageProvider)));
   ("createdAt", JStr e.(e_createdAt)); ("localContentHashSeed", JStr e.(e_localContentHashSeed))].
Definition evidence_json (e : EvidenceFile) : JsVal := JObj (evidence_fields e).
(** [const { localContentHashSeed: _hidden, ...response } = evidence] *)
Definition evidence_response (e : EvidenceFile) : JsVal :=
  JObj (filter (fun kv => kv.1 <> "localContentHashSeed") (evidence_fields e)).

Definition dispute_json (d : DisputeCase) : JsVal :=
  JObj [("id", JStr d.(d_id)); ("contractId", JStr d.(d_contractId));
        ("raisedBy", JStr (party_str d.(d_raisedBy))); ("reasonCode", JStr d.(d_reasonCode));
        ("status", JStr (disputeStatus_str d.(d_status)));
        ("evidenceBundle", JArr (JStr <$> d.(d_evidenceBundle)));
        ("createdAt", JStr d.(d_createdAt)); ("updatedAt", JStr d.(d_updatedAt));
        ("reviewDeadlineAt", jopt d.(d_reviewDeadlineAt)); ("escalatedAt", jopt d.(d_escalatedAt))].

Definition vote_json (v : DisputeVerifierVoteRecord) : JsVal :=
  JObj [("id", JStr v.(v_id)); ("disputeId", JStr v.(v_disputeId));
        ("verifierId", JStr v.(v_verifierId));
        ("recommendation", JStr (decision_str v.(v_recommendation)));
        ("createdAt", JStr v.(v_createdAt))].

Definition outcome_json (o : option OutcomeClass) : JsVal :=
  match o with Some c => JStr (outcomeClass_str c) | None => JUndef end.

Definition xrplTx_fields (x : XrplTransaction) : list (string * JsVal) :=
  [("id", JStr x.(x_id)); ("txHash", JStr x.(x_txHash)); ("txType", JStr x.(x_txType));
   ("account", jopt x.(x_account)); ("disputeId", jopt x.(x_disputeId));
   ("network", JStr (network_str x.(x_network)));
   ("trackingStatus", JStr (trackingStatus_str x.(x_trackingStatus)));
   ("validated", JBool x.(x_validated)); ("retries", JNum x.(x_retries));
   ("resultCode", jopt x.(x_resultCode)); ("outcomeClass", outcome_json x.(x_outcomeClass));
   ("ledgerIndex", jopt_num x.(x_ledgerIndex)); ("lastCheckedAt", JStr x.(x_lastCheckedAt));
   ("escrowOwner", jopt x.(x_escrowOwner)); ("escrowDestination", jopt x.(x_escrowDestination));
   ("escrowOfferSequence", jopt_num x.(x_escrowOfferSequence));
   ("escrowSubmitterAccount", jopt x.(x_escrowSubmitterAccount))].
Definition xrplTx_json (x : XrplTransaction) : JsVal := JObj (xrplTx_fields x).

Definition notification_json (n : NotificationEvent) : JsVal :=
  JObj [("id", JStr n.(n_id)); ("eventType", JStr n.(n_eventType));
        ("recipientId", JStr n.(n_recipientId)); ("channel", JStr (channel_str n.(n_channel)));
        ("status", JStr (notificationStatus_str n.(n_status))); ("payload", JObj n.(n_payload));
        ("createdAt", JStr n.(n_createdAt)); ("updatedAt", jopt n.(n_updatedAt));
        ("attemptCount", jopt_num n.(n_attemptCount)); ("nextAttemptAt", jopt n.(n_nextAttemptAt));
        ("lastError", jopt n.(n_lastError)); ("deadLetter", jbool_opt n.(n_deadLetter))].

Definition outbox_json (o : NotificationOutboxRecord) : JsVal :=
  JObj [("id", JStr o.(o_id)); ("idempotencyKey", JStr o.(o_idempotencyKey));
        ("eventType", JStr o.(o_eventType)); ("recipientId", JStr o.(o_recipientId));
        ("channel", JStr (channel_str o.(o_channel))); ("payload", JObj o.(o_payload));
        ("status", JStr (outboxStatus_str o.(o_status))); ("attempts", JNum o.(o_attempts));
        ("lastError", jopt o.(o_lastError)); ("createdAt", JStr o.(o_createdAt));
        ("updatedAt", JStr o.(o_updatedAt)); ("processingStartedAt", jopt o.(o_processingStartedAt));
        ("dispatchedNotificationId", jopt o.(o_dispatchedNotificationId))].

Definition settlement_json (s : SettlementRecord) : JsVal :=
  JObj [("id", JStr s.(s_id)); ("contractId", JStr s.(s_contractId));
        ("periodYear", JNum s.(s_periodYear)); ("periodMonth", JNum s.(s_periodMonth));
        ("status", JStr (settlementStatus_str s.(s_status)));
        ("lastLedgerIndex", jopt_num s.(s_lastLedgerIndex));
        ("ledgerCloseCount", jopt_num s.(s_ledgerCloseCount));
        ("createdAt", JStr s.(s_createdAt)); ("updatedAt", JStr s.(s_updatedAt));
        ("amountMinor", jopt_num s.(s_amountMinor)); ("currencyCode", jopt s.(s_currencyCode));
        ("batchId", jopt s.(s_batchId));
        ("periodMode", match s.(s_periodMode) with Some _ => JStr "calendar_utc" | None => JUndef end);
        ("confirmedAt", jopt s.(s_confirmedAt))].

Definition jval_opt (o : option JsVal) : JsVal := default JUndef o.
Definition audit_json (a : AuditLog) : JsVal :=
  JObj [("id", JStr a.(a_id)); ("createdAt", JStr a.(a_createdAt));
        ("entityType", JStr a.(a_entityType)); ("entityId", JStr a.(a_entityId));
        ("action", JStr a.(a_action)); ("actorId", JStr a.(a_actorId));
        ("before", jval_opt a.(a_before)); ("after", jval_opt a.(a_after));
        ("metadata", jval_opt a.(a_metadata))].
Definition event_json (e : EventEnvelope) : JsVal :=
  JObj [("eventId", JStr e.(ev_eventId)); ("traceId", JStr e.(ev_traceId));
        ("occurredAt", JStr e.(ev_occurredAt)); ("eventType", JStr e.(ev_eventType));
        ("entityType", JStr e.(ev_entityType)); ("entityId", JStr e.(ev_entityId));
        ("payload", JObj e.(ev_payload))].
Definition registry_json (r : DisputeVerifierRegistryEntry) : JsVal :=
  JObj [("id", JStr r.(r_id)); ("verifierId", JStr r.(r_verifierId));
        ("displayLabel", jopt r.(r_displayLabel)); ("active", JBool r.(r_active));
        ("createdAt", JStr r.(r_createdAt))].
Definition export_json (j : ExportJobRecord) : JsVal :=
  JObj [("id", JStr j.(x_jobId)); ("kind", JStr j.(x_kind));
        ("status", JStr (exportStatus_str j.(x_status)));
        ("createdAt", JStr j.(x_createdAt)); ("updatedAt", JStr j.(x_updatedAt));
        ("error", jopt j.(x_error))].

Definition page_json {A} (f : A -> JsVal) (p : Paginated A) : JsVal :=
  JObj [("items", JArr (f <$> p.(pg_items))); ("total", JNum (Z.of_nat p.(pg_total)));
        ("limit", JNum (Z.of_nat p.(pg_limit))); ("offset", JNum (Z.of_nat p.(pg_offset)))].
Definition counts_json (c : JsMap Z) : JsVal := JObj ((fun kv => (kv.1, JNum kv.2)) <$> c).
