(* ===== verification/Auth.v ===== *)
(** Access control of the [/v1] routes: transport guard, role headers, the
    read-only auditor, role and operator-scope requirements ([auth.ts],
    [services/operator-console-scopes.ts]), and the scope checks of
    [index.ts]. *)
From S2P Require Import Prelude JsString JsMap Types Config World Http.
From Stdlib Require Import Ascii.

(** A middleware passes a request on ([inr]) or answers it ([inl]). *)
Definition Middleware : Type := Config -> Request -> Response + Request.

(** One middleware after the other. *)
Fixpoint chain (ms : list Middleware) (cfg : Config) (req : Request) : Response + Request :=
  match ms with
  | [] => inr req
  | m :: ms' => match m cfg req with inl res => inl res | inr req' => chain ms' cfg req' end
  end.

Definition nonblank (s : string) : bool := truthy (Some s).

Definition v1ApiTransportGuard : Middleware := fun cfg req =>
  let bearer := trim cfg.(cfg_v1BearerToken) in
  let mtlsHeader := trim cfg.(cfg_mtlsClientCertSubjectHeader) in
  if negb (nonblank bearer) && negb (nonblank mtlsHeader) then inr req
  else
    let bearerOk := nonblank bearer
                    && bool_decide (header req "authorization" = Some ("Bearer " +:+ bearer)) in
    let mtlsOk := nonblank mtlsHeader && truthy (trim <$> header req mtlsHeader) in
    let pass :=
      if nonblank bearer && nonblank mtlsHeader then bearerOk || mtlsOk
      else if nonblank bearer then bearerOk
      else mtlsOk in
    if pass then inr req
    else inl (err 401 "B2_UNAUTHORIZED"
                "Bearer API token or mTLS proxy subject header required for /v1").

Definition ROLES : list BluesafeRole := [R_tenant; R_landlord; R_operator; R_verifier; R_auditor].

Definition parseRole (raw : option string) : option BluesafeRole :=
  match raw with
  | Some s =>
      if truthy raw then
        let r := trim (toLowerCase s) in
        snd <$> list_find (fun x => role_str x = r) ROLES
      else None
  | None => None
  end.

(** [req.header(name)?.trim() || undefined] *)
Definition headerId (req : Request) (name : string) : option string :=
  nonempty (trim <$> header req name).

Definition bluesafeAuthMiddleware : Middleware := fun cfg req =>
  if negb cfg.(cfg_authEnabled) then inr req
  else
    match parseRole (header req "x-bluesafe-role") with
    | None => inl (err 401 "B2_UNAUTHORIZED"
                "Missing or invalid X-Bluesafe-Role (tenant|landlord|operator|verifier|auditor)")
    | Some role =>
        let tenantId := headerId req "x-bluesafe-tenant-id" in
        let landlordId := headerId req "x-bluesafe-landlord-id" in
        if bool_decide (role = R_tenant) && negb (truthy tenantId) then
          inl (err 401 "B2_UNAUTHORIZED" "X-Bluesafe-Tenant-Id is required when role is tenant")
        else if bool_decide (role = R_landlord) && negb (truthy landlordId) then
          inl (err 401 "B2_UNAUTHORIZED" "X-Bluesafe-Landlord-Id is required when role is landlord")
        else inr (req <| rq_bluesafeAuth := Some (mkAuth role tenantId landlordId) |>)
    end.

Definition roleOf (req : Request) : option BluesafeRole := au_role <$> req.(rq_bluesafeAuth).

(** V6-E: [auditor] may only use read-only methods. *)
Definition readMethod (method : string) : bool :=
  let m := toUpperCase method in bool_decide (m = "GET") || bool_decide (m = "HEAD").
Definition blockAuditorWriteOperations : Middleware := fun cfg req =>
  if negb cfg.(cfg_authEnabled) then inr req
  else if negb (bool_decide (roleOf req = Some R_auditor)) then inr req
  else if readMethod req.(rq_method) then inr req
  else inl (err 403 "B2_FORBIDDEN" "Auditor role is read-only (GET/HEAD only on /v1)").

Fixpoint join (sep : string) (l : list string) : string :=
  match l with
  | [] => ""
  | [x] => x
  | x :: l' => x +:+ sep +:+ join sep l'
  end.

Definition requireRoles (allowed : list BluesafeRole) : Middleware := fun cfg req =>
  if negb cfg.(cfg_authEnabled) then inr req
  else
    match roleOf req with
    | Some role =>
        if bool_decide (role ∈ allowed) then inr req
        else inl (err 403 "B2_FORBIDDEN"
                    ("Role not allowed for this operation (need one of: "
                     +:+ join ", " (role_str <$> allowed) +:+ ")"))
    | None => inl (err 403 "B2_FORBIDDEN"
                    ("Role not allowed for this operation (need one of: "
                     +:+ join ", " (role_str <$> allowed) +:+ ")"))
    end.

(** ** Operator console scopes (V8-D) *)

Definition KNOWN : list string :=
  ["all"; "export"; "purge"; "registry"; "sla"; "outbox"; "evidence"; "dispatch"; "settlements";
   "disputes"].

Inductive Granted := G_all | G_none | G_set (scopes : list string).

Definition parseOperatorConsoleScopes (req : Request) : Granted :=
  match nonempty (trim <$> header req "x-bluesafe-operator-scopes") with
  | None => G_all
  | Some raw =>
      let parts := filter (fun s => nonblank s)
                     ((fun s => toLowerCase (trim s)) <$> split_on ","%char raw) in
      match filter (fun p => p ∈ KNOWN) parts with
      | [] => G_none
      | out => G_set out
      end
  end.

Definition operatorHasConsoleScope (granted : Granted) (required : string) : bool :=
  match granted with
  | G_all => true
  | G_none => false
  | G_set s => bool_decide ("all" ∈ s) || bool_decide (required ∈ s)
  end.

Fixpoint checkScopes (granted : Granted) (required : list string) (req : Request) : Response + Request :=
  match required with
  | [] => inr req
  | r :: rs =>
      if operatorHasConsoleScope granted r then checkScopes granted rs req
      else inl (err 403 "B2_FORBIDDEN"
        ("Operator console scope '" +:+ r
         +:+ "' required (send X-Bluesafe-Operator-Scopes including '" +:+ r +:+ "' or 'all')"))
  end.
Definition requireOperatorScopes (required : list string) : Middleware := fun cfg req =>
  if negb cfg.(cfg_authEnabled) || negb cfg.(cfg_operatorConsoleScopesEnabled) then inr req
  else if negb (bool_decide (roleOf req = Some R_operator)) then inr req
  else checkScopes (parseOperatorConsoleScopes req) required req.

(** The middlewares every [/v1] route runs first, and those of a route. *)
Definition v1_middlewares : list Middleware :=
  [v1ApiTransportGuard; bluesafeAuthMiddleware; blockAuditorWriteOperations].
Definition route_middlewares (roles : list BluesafeRole) (scopes : list string) : list Middleware :=
  v1_middlewares ++ [requireRoles roles] ++
  (match scopes with [] => [] | _ => [requireOperatorScopes scopes] end).

(** * Scope checks of the handlers (index.ts) *)

(** [a.tenantId === x]: an optional identifier compared with a string. *)
Definition same_id (o : option string) (s : string) : bool := bool_decide (o = Some s).

Definition canAccess (cfg : Config) (auth : option BluesafeAuth) (tenantId landlordId : string) : bool :=
  if negb cfg.(cfg_authEnabled) then true
  else match auth with
       | None => false
       | Some a =>
           match a.(au_role) with
           | R_auditor | R_operator | R_verifier => true
           | R_tenant => same_id a.(au_tenantId) tenantId
           | R_landlord => same_id a.(au_landlordId) landlordId
           end
       end.
Definition canAccessContract (cfg : Config) (req : Request) (c : Contract) : bool :=
  canAccess cfg req.(rq_bluesafeAuth) c.(c_tenantId) c.(c_landlordId).

Definition assertCreateContractAllowed (cfg : Config) (req : Request) (tenantId landlordId : string) : bool :=
  if negb cfg.(cfg_authEnabled) then true
  else match req.(rq_bluesafeAuth) with
       | None => false
       | Some a =>
           match a.(au_role) with
           | R_auditor => false
           | R_operator | R_verifier => true
           | R_tenant => same_id a.(au_tenantId) tenantId
           | R_landlord => same_id a.(au_landlordId) landlordId
           end
       end.
