(* ===== verification/Notify.v ===== *)
(** The audit log and event stream writers of [utils.ts], and notifications:
    channel routing, idempotency keys, the fan-out of domain events to the outbox
    or the delivery queue, the outbox worker and the delivery worker
    ([services/notification-*.ts], [services/domain-notifications.ts],
    [services/settlement-notifications.ts]). *)
From S2P Require Import Prelude JsString JsMap JsDate Json Types Config World Utils MemoryRepo.
From Stdlib Require Import Ascii.

Definition writeAudit (entityType entityId action actorId : string)
    (before after metadata : option JsVal) : M AuditLog :=
  id ← randomId "aud";
  createdAt ← nowIso;
  let log := mkAudit id entityType entityId action actorId before after metadata createdAt in
  appendAudit log;;
  mret log.

Definition emitEvent (eventType entityType entityId : string) (payload : list (string * JsVal)) :
    M EventEnvelope :=
  eventId ← randomId "evt";
  traceId ← randomId "trc";
  occurredAt ← nowIso;
  let event := mkEvent eventId eventType occurredAt entityType entityId payload traceId in
  appendEvent event;;
  mret event.

(** As statements. *)
Definition audit (entityType entityId action actorId : string)
    (before after metadata : option JsVal) : M unit :=
  _ ← writeAudit entityType entityId action actorId before after metadata; mret tt.
Definition emit (eventType entityType entityId : string) (payload : list (string * JsVal)) : M unit :=
  _ ← emitEvent eventType entityType entityId payload; mret tt.

(** * Notifications *)

(** * Routing (notification-routing.ts) *)

Definition routedChannelsForEventType (eventType : string) : list NotificationChannel :=
  let et := toLowerCase eventType in
  if startsWith et "notification." then [Ch_inapp]
  else if startsWith et "refund." || includes et ".refund" || includes et "refund_" then
    [Ch_inapp; Ch_email; Ch_push]
  else if startsWith et "settlement." then [Ch_inapp; Ch_email]
  else if startsWith et "contract." then [Ch_inapp; Ch_email]
  else if startsWith et "dispute." then [Ch_inapp; Ch_push]
  else if includes et "expir" || endsWith et ".expired" || includes et "expiry" then
    [Ch_inapp; Ch_email; Ch_push]
  else if startsWith et "xrpl." then [Ch_inapp]
  else [Ch_inapp].

(** * Templates (notification-templates.ts) *)

Definition subjectPrefix (et : string) : option string :=
  if startsWith et "refund." || includes et ".refund" || includes et "refund_" then Some "[환급]"
  else if startsWith et "settlement." then Some "[정산]"
  else if startsWith et "dispute." then Some "[분쟁]"
  else if includes et "expir" || endsWith et ".expired" then Some "[만료]"
  else if startsWith et "xrpl." then Some "[XRPL]"
  else None.
Definition notificationSubjectForEventType (eventType : string) : string :=
  let et := trim eventType in
  default "[알림]" (subjectPrefix (toLowerCase et)) +:+ " " +:+ et.

Definition renderPart (kv : string * JsVal) : string :=
  kv.1 +:+ "=" +:+ match kv.2 with
                   | JStr s => s
                   | JUndef => "undefined"
                   | v => json_stringify v
                   end.
Fixpoint join_str (sep : string) (l : list string) : string :=
  match l with
  | [] => ""
  | [x] => x
  | x :: l' => x +:+ sep +:+ join_str sep l'
  end.
Definition renderNotificationBody (eventType : string) (payload : list (string * JsVal)) : string :=
  let parts := renderPart <$> take 12 (filter (fun kv => negb (startsWith kv.1 "_")) payload) in
  let body := join_str "; " parts in
  notificationSubjectForEventType eventType +:+ String (ascii_of_N 10)
    (if truthy (Some body) then body else "(empty payload)").

(** * Idempotency keys (notification-idempotency.ts) *)

(** [Object.keys(payload).sort()], then the object rebuilt in that order. *)
Definition keyOrder : string * JsVal -> string * JsVal -> comparison := asc str_compare fst.
Definition stablePayloadFingerprint (payload : list (string * JsVal)) : string :=
  json_stringify (JObj (js_sort keyOrder payload)).
Definition idempotencyBody (eventType recipientId channel : string)
    (payload : list (string * JsVal)) : string :=
  let nl := String (ascii_of_N 10) "" in
  eventType +:+ nl +:+ recipientId +:+ nl +:+ channel +:+ nl +:+ stablePayloadFingerprint payload.
Definition domainNotificationIdempotencyKey (eventType recipientId channel : string)
    (payload : list (string * JsVal)) : M string :=
  sha256 (idempotencyBody eventType recipientId channel payload).

(** * Fan-out (notification-fanout-enqueue.ts) *)

Record FanoutNotificationItem := mkItem {
  it_eventType : string; it_recipientId : string; it_channel : NotificationChannel;
  it_payload : list (string * JsVal); it_requestedEmitExtra : option (list (string * JsVal)) }.

Definition enqueueOutboxItem (now : string) (it : FanoutNotificationItem) : M unit :=
  idempotencyKey ← domainNotificationIdempotencyKey it.(it_eventType) it.(it_recipientId)
                     (channel_str it.(it_channel)) it.(it_payload);
  id ← randomId "nox";
  inserted ← appendNotificationOutbox
    (mkOutbox id idempotencyKey it.(it_eventType) it.(it_recipientId) it.(it_channel)
       it.(it_payload) OS_pending 0 None now now None None);
  if inserted : bool then
    emit "notification.outbox_enqueued" "notification_outbox" id
      ([("channel", JStr (channel_str it.(it_channel))); ("eventType", JStr it.(it_eventType));
        ("idempotencyKey", JStr idempotencyKey)] ++ default [] it.(it_requestedEmitExtra))
  else mret tt.

Definition queuedNotification (id eventType recipientId : string) (channel : NotificationChannel)
    (payload : list (string * JsVal)) (t : string) : NotificationEvent :=
  mkNotification id eventType recipientId channel NS_queued payload t (Some t) (Some 0%Z) None None
    (Some false).

Definition enqueueDirectItem (now : string) (it : FanoutNotificationItem) : M unit :=
  id ← randomId "ntf";
  saveNotification (queuedNotification id it.(it_eventType) it.(it_recipientId) it.(it_channel)
                      it.(it_payload) now);;
  emit "notification.requested" "notification" id
    ([("channel", JStr (channel_str it.(it_channel))); ("eventType", JStr it.(it_eventType))]
     ++ default [] it.(it_requestedEmitExtra)).

Definition enqueueFanoutNotificationItems (items : list FanoutNotificationItem) : M unit :=
  now ← nowIso;
  outbox ← askCfg cfg_domainOutbox;
  if outbox : bool then forEach (enqueueOutboxItem now) items
  else forEach (enqueueDirectItem now) items.

Definition expandRecipientChannels (eventType : string) (recipientIds : list string)
    (payload : list (string * JsVal)) (requestedEmitExtra : option (list (string * JsVal))) :
    list FanoutNotificationItem :=
  flat_map (fun recipientId =>
    (fun channel => mkItem eventType recipientId channel payload requestedEmitExtra)
      <$> routedChannelsForEventType eventType) recipientIds.

(** ** Domain and settlement events *)

Definition contractPartyRecipientIds (c : Contract) : list string := [c.(c_tenantId); c.(c_landlordId)].

Definition maybeEnqueueDomainNotifications (eventType : string) (recipientIds : list string)
    (payload : list (string * JsVal)) : M unit :=
  auto ← askCfg cfg_autoDomainEnqueue;
  if negb auto then mret tt
  else enqueueFanoutNotificationItems
         (expandRecipientChannels eventType recipientIds payload (Some [("domainAuto", JBool true)])).

Definition settlementItems (settlement : SettlementRecord) (contract : Contract) :
    list FanoutNotificationItem :=
  let payload := [("settlementId", JStr settlement.(s_id)); ("contractId", JStr contract.(c_id));
                  ("periodYear", JNum settlement.(s_periodYear));
                  ("periodMonth", JNum settlement.(s_periodMonth))] in
  flat_map (fun recipientId =>
    (fun channel => mkItem "settlement.confirmed" recipientId channel payload
                      (Some [("settlementAuto", JBool true)]))
      <$> routedChannelsForEventType "settlement.confirmed")
    [contract.(c_tenantId); contract.(c_landlordId)].
Definition enqueueSettlementConfirmedNotifications (settlement : SettlementRecord)
    (contract : Contract) : M unit :=
  enqueueFanoutNotificationItems (settlementItems settlement contract).

(** * The outbox worker (notification-outbox.worker.ts) *)

Definition dispatchedOutbox (t safeId : string) (row : NotificationOutboxRecord) :=
  row <| o_status := OS_dispatched |> <| o_updatedAt := t |>
      <| o_dispatchedNotificationId := Some safeId |> <| o_processingStartedAt := None |>
      <| o_lastError := None |>.
Definition failedOutbox (status : NotificationOutboxStatus) (t msg : string) (attempts : Z)
    (row : NotificationOutboxRecord) :=
  row <| o_status := status |> <| o_attempts := attempts |> <| o_lastError := Some msg |>
      <| o_updatedAt := t |> <| o_processingStartedAt := None |>.

Definition dispatchOneOutboxRow (row : NotificationOutboxRecord) (maxDispatchAttempts : Z)
    (t : string) : M unit :=
  safeId ← randomId "ntf";
  try_catch
    (saveNotification (queuedNotification safeId row.(o_eventType) row.(o_recipientId)
                         row.(o_channel) row.(o_payload) t);;
     emit "notification.requested" "notification" safeId
       [("channel", JStr (channel_str row.(o_channel))); ("eventType", JStr row.(o_eventType));
        ("fromOutbox", JBool true); ("outboxId", JStr row.(o_id))];;
     updateNotificationOutbox (dispatchedOutbox t safeId row))
    (fun e =>
      let msg := exn_message e in
      let nextAttempts := (row.(o_attempts) + 1)%Z in
      if (maxDispatchAttempts <=? nextAttempts)%Z then
        updateNotificationOutbox (failedOutbox OS_dead t msg nextAttempts row);;
        emit "notification.outbox_dead" "notification_outbox" row.(o_id)
          [("eventType", JStr row.(o_eventType)); ("attempts", JNum nextAttempts);
           ("error", JStr msg)]
      else updateNotificationOutbox (failedOutbox OS_pending t msg nextAttempts row)).

Definition runOutboxFanoutTick (batchSize staleProcessingMs maxDispatchAttempts : Z) : M unit :=
  now ← nowIso;
  ms ← dateNow;
  _ ← recoverStaleNotificationOutboxProcessing (toISOString (ms - staleProcessingMs)) now;
  claimed ← claimNotificationOutboxPending (Z.to_nat batchSize) now;
  forEach (fun row => dispatchOneOutboxRow row maxDispatchAttempts now) claimed.

(** * Delivery (notification.provider.ts, notification.worker.ts) *)

(** [{ ok, error? }] *)
Record Delivery := mkDelivery { dl_ok : bool; dl_error : option string }.
Definition delivered : Delivery := mkDelivery true None.
Definition undelivered (error : string) : Delivery := mkDelivery false (Some error).

Definition deliverInappMock (event : NotificationEvent) : M Delivery :=
  raw ← askCfg cfg_notificationProviderMode;
  let mode := toLowerCase (trim (default "success" (nonempty raw))) in
  mret (if bool_decide (mode = "fail_always") then undelivered "simulated_permanent_failure"
        else if bool_decide (mode = "fail_first")
                && (default 0 event.(n_attemptCount) <? 1)%Z then
          undelivered "simulated_transient_failure"
        else delivered).

Definition payloadSubject (event : NotificationEvent) : string :=
  default event.(n_eventType) (jstr (jget "_subject" (JObj event.(n_payload)))).
Definition payloadText (event : NotificationEvent) : string :=
  default ("[" +:+ event.(n_eventType) +:+ "] notification")
    (jstr (jget "_rendered" (JObj event.(n_payload)))).

Definition webhookMeta (event : NotificationEvent) : JsVal :=
  JObj [("notificationId", JStr event.(n_id)); ("eventType", JStr event.(n_eventType));
        ("payload", JObj event.(n_payload))].
Definition postWebhook (url : string) (body : JsVal) (errPrefix : string) : M Delivery :=
  reply ← io (fun env n => env.(env_fetch) n url body);
  mret match reply with
       | FR_error msg => undelivered msg
       | FR_resp status _ _ =>
           if ((200 <=? status) && (status <=? 299))%Z then delivered
           else undelivered (errPrefix +:+ num_str status)
       end.

Definition deliver (event : NotificationEvent) : M Delivery :=
  match event.(n_channel) with
  | Ch_push =>
      url ← askCfg (fun c => trim c.(cfg_pushWebhookUrl));
      if truthy (Some url) then
        postWebhook url (JObj [("to", JStr event.(n_recipientId)); ("title", JStr (payloadSubject event));
                               ("body", JStr (payloadText event)); ("meta", webhookMeta event)])
          "push_webhook_"
      else deliverInappMock event
  | Ch_email =>
      url ← askCfg (fun c => trim c.(cfg_emailWebhookUrl));
      if truthy (Some url) then
        postWebhook url (JObj [("to", JStr event.(n_recipientId)); ("subject", JStr (payloadSubject event));
                               ("text", JStr (payloadText event)); ("meta", webhookMeta event)])
          "email_webhook_"
      else mret delivered
  | Ch_inapp => deliverInappMock event
  end.

Record NotificationWorkerOptions := mkWorkerOptions {
  wo_maxAttempts : Z; wo_batchSize : Z;
  wo_retryInitialBackoffMs : option Z; wo_retryMaxBackoffMs : option Z }.

Definition backoffMs (attemptsAfterFailure initialMs maxMs : Z) : Z :=
  Z.min maxMs (initialMs * 2 ^ attemptsAfterFailure).

Definition sentNotification (t : string) (n : NotificationEvent) : NotificationEvent :=
  n <| n_status := NS_sent |> <| n_updatedAt := Some t |> <| n_lastError := None |>
    <| n_nextAttemptAt := None |>.
Definition deadNotification (t err : string) (attempts : Z) (n : NotificationEvent) : NotificationEvent :=
  n <| n_status := NS_failed |> <| n_deadLetter := Some true |> <| n_attemptCount := Some attempts |>
    <| n_lastError := Some err |> <| n_nextAttemptAt := None |> <| n_updatedAt := Some t |>.
Definition retryNotification (t err nextAt : string) (attempts : Z) (n : NotificationEvent) : NotificationEvent :=
  n <| n_status := NS_retry_scheduled |> <| n_attemptCount := Some attempts |>
    <| n_lastError := Some err |> <| n_nextAttemptAt := Some nextAt |> <| n_updatedAt := Some t |>.

Definition channelMeta (n : NotificationEvent) : list (string * JsVal) :=
  [("channel", JStr (channel_str n.(n_channel))); ("eventType", JStr n.(n_eventType))].

(** What is delivered: the payload with its subject line and text. *)
Definition renderedNotification (n : NotificationEvent) : NotificationEvent :=
  n <| n_payload :=
    jm_set "_rendered" (JStr (renderNotificationBody n.(n_eventType) n.(n_payload)))
      (jm_set "_subject" (JStr (notificationSubjectForEventType n.(n_eventType))) n.(n_payload)) |>.

Definition processOne (opts : NotificationWorkerOptions) (n : NotificationEvent) : M unit :=
  let initial := default 1000%Z opts.(wo_retryInitialBackoffMs) in
  let maxB := default 60000%Z opts.(wo_retryMaxBackoffMs) in
  result ← deliver (renderedNotification n);
  t ← nowIso;
  if result.(dl_ok) then
    saveNotification (sentNotification t n);;
    audit "notification" n.(n_id) "notification.sent" "system" None None (Some (JObj (channelMeta n)));;
    emit "notification.sent" "notification" n.(n_id) (channelMeta n)
  else
    let failedDeliveries := (default 0 n.(n_attemptCount) + 1)%Z in
    let err := default "delivery_failed" result.(dl_error) in
    if (opts.(wo_maxAttempts) <=? failedDeliveries)%Z then
      saveNotification (deadNotification t err failedDeliveries n);;
      audit "notification" n.(n_id) "notification.failed" "system" None None
        (Some (JObj (channelMeta n ++ [("deadLetter", JBool true); ("lastError", jopt result.(dl_error))])));;
      emit "notification.failed" "notification" n.(n_id)
        (channelMeta n ++ [("deadLetter", JBool true)])
    else
      ms ← dateNow;
      saveNotification (retryNotification t err
        (toISOString (ms + backoffMs failedDeliveries initial maxB)) failedDeliveries n).

Definition processBatch (opts : NotificationWorkerOptions) : M unit :=
  now ← nowIso;
  due ← listDueNotifications now (Z.to_nat opts.(wo_batchSize));
  forEach (processOne opts) due.
