(* ===== verification/Logic.v ===== *)
(** Proof rules for the effects: [Frame], the relations on worlds that ignore
    the draws of the environment; [Quiet], those that also ignore what every
    operation leaves behind (audit rows, events, notifications).  A property
    of an operation is proved for the writes it makes; the rest of its body is
    discharged through these interfaces. *)
From S2P Require Import Prelude JsString JsMap JsDate Types Config World Utils MemoryRepo Notify.

(** * Relations that ignore the environment draws *)

Class Frame (R : Env -> relation World) := mkFrame {
  frame_pre env :: PreOrder (R env);
  frame_clk env w n : n = S w.(w_clk) -> R env w (w <| w_clk := n |>);
  frame_rnd env w n : n = S w.(w_rnd) -> R env w (w <| w_rnd := n |>);
  frame_io env w n : R env w (w <| w_io := n |>);
  frame_metrics env w m : R env w (w <| w_metrics := m |>);
  frame_dlq env w m : R env w (w <| w_dlq := m |>);
  frame_scheduled env w l : R env w (w <| w_scheduled := l |>) }.

#[export] Instance frame_on_db (R : relation Db) : PreOrder R -> Frame (on_db R).
Proof.
  intros HR. split; try (intros; apply _); intros; unfold on_db; simpl; reflexivity.
Qed.

Section frame.
Context (R : Env -> relation World) `{HF : !Frame R}.

Lemma keeps_dateNow : keeps R dateNow.
Proof using HF. intros env w. by apply frame_clk. Qed.
Lemma keeps_randomUUID : keeps R randomUUID.
Proof using HF. intros env w. by apply frame_rnd. Qed.
Lemma keeps_io {A} (f : Env -> nat -> A) : keeps R (io f).
Proof using HF. intros env w. apply frame_io. Qed.
Lemma keeps_metric name n : keeps R (metric name n).
Proof using HF. intros env w. apply frame_metrics. Qed.
Lemma keeps_nowIso : keeps R nowIso.
Proof using HF. apply keeps_bind; [apply _|apply keeps_dateNow|intros; apply keeps_ret, _]. Qed.
Lemma keeps_randomId p : keeps R (randomId p).
Proof using HF. apply keeps_bind; [apply _|apply keeps_randomUUID|intros; apply keeps_ret, _]. Qed.

(** ** Stepping through the reads at a known world *)
Lemma at_asks {A B} (f : Db -> A) (k : A -> M B) env w :
  keeps_at R (k (f w.(w_db))) env w -> keeps_at R (asks f ≫= k) env w.
Proof using. done. Qed.
Lemma at_askEnv {A B} (f : Env -> A) (k : A -> M B) env w :
  keeps_at R (k (f env)) env w -> keeps_at R (askEnv f ≫= k) env w.
Proof using. done. Qed.
Lemma at_ret {A B} (a : A) (k : A -> M B) env w :
  keeps_at R (k a) env w -> keeps_at R (mret a ≫= k) env w.
Proof using. done. Qed.
Lemma at_assoc {A B C} (m : M A) (f : A -> M B) (g : B -> M C) env w :
  keeps_at R (m ≫= fun a => f a ≫= g) env w -> keeps_at R ((m ≫= f) ≫= g) env w.
Proof using. unfold keeps_at. by rewrite bind_assoc. Qed.
Lemma at_dateNow {B} (k : Z -> M B) env w :
  keeps_at R (k (env.(env_clock) w.(w_clk))) env (w <| w_clk := S w.(w_clk) |>) ->
  keeps_at R (dateNow ≫= k) env w.
Proof using HF. unfold keeps_at. rewrite bind_dateNow. intros H. etrans; [by apply frame_clk|exact H]. Qed.
Lemma at_nowIso {B} (k : string -> M B) env w :
  keeps_at R (k (toISOString (env.(env_clock) w.(w_clk)))) env (w <| w_clk := S w.(w_clk) |>) ->
  keeps_at R (nowIso ≫= k) env w.
Proof using HF. unfold keeps_at. rewrite bind_nowIso. intros H. etrans; [by apply frame_clk|exact H]. Qed.
Lemma at_randomId {B} p (k : string -> M B) env w :
  keeps_at R (k (idOfUuid p (env.(env_uuid) w.(w_rnd)))) env (w <| w_rnd := S w.(w_rnd) |>) ->
  keeps_at R (randomId p ≫= k) env w.
Proof using HF. unfold keeps_at. rewrite bind_randomId. intros H. etrans; [by apply frame_rnd|exact H]. Qed.
Lemma at_io {A B} (f : Env -> nat -> A) (k : A -> M B) env w :
  keeps_at R (k (f env w.(w_io))) env (w <| w_io := S w.(w_io) |>) ->
  keeps_at R (io f ≫= k) env w.
Proof using HF. unfold keeps_at. rewrite bind_io. intros H. etrans; [by apply frame_io|exact H]. Qed.
Lemma at_metric {B} name n (k : unit -> M B) env w :
  (forall w', w'.(w_db) = w.(w_db) -> w'.(w_rnd) = w.(w_rnd) -> keeps_at R (k tt) env w') ->
  keeps_at R (metric name n ≫= k) env w.
Proof using HF.
  intros H. unfold keeps_at, mbind, M_bind, metric.
  etrans; [apply frame_metrics|]. by apply H.
Qed.
(** A write whose step is known, then the rest. *)
Lemma at_bind {A B} (m : M A) (k : A -> M B) env w :
  keeps_at R m env w ->
  (forall a w', m env w = (inr a, w') -> R env w w' -> keeps_at R (k a) env w') ->
  keeps_at R (m ≫= k) env w.
Proof using HF. apply keeps_at_bind, _. Qed.
(** A write followed by what keeps [R] anyway. *)
Lemma at_bind_rest {A B} (m : M A) (k : A -> M B) env w :
  keeps_at R m env w -> (forall a, keeps R (k a)) -> keeps_at R (m ≫= k) env w.
Proof using HF. intros Hm Hk. apply at_bind; [done|]. intros. apply Hk. Qed.
Lemma at_keeps {A} (m : M A) env w : keeps R m -> keeps_at R m env w.
Proof using. auto. Qed.
End frame.

(** * Relations that ignore audit rows, events and notifications *)

Class Logs (R : Env -> relation World) := mkLogs {
  logs_frame :: Frame R;
  logs_writeAudit et ei ac ai b a m : keeps R (writeAudit et ei ac ai b a m);
  logs_emitEvent ty et ei p : keeps R (emitEvent ty et ei p) }.

Class Quiet (R : Env -> relation World) := mkQuiet {
  quiet_logs :: Logs R;
  quiet_enqueue items : keeps R (enqueueFanoutNotificationItems items) }.

Lemma keeps_audit R `{!Logs R} et ei ac ai b a m : keeps R (audit et ei ac ai b a m).
Proof. apply keeps_bind; [apply _|apply logs_writeAudit|intros; apply keeps_ret, _]. Qed.
Lemma keeps_emit R `{!Logs R} ty et ei p : keeps R (emit ty et ei p).
Proof. apply keeps_bind; [apply _|apply logs_emitEvent|intros; apply keeps_ret, _]. Qed.
Lemma keeps_domain R `{!Quiet R} ty ids p : keeps R (maybeEnqueueDomainNotifications ty ids p).
Proof.
  apply keeps_bind; [apply _|apply keeps_askCfg, _|]. intros [|]; simpl.
  - apply quiet_enqueue.
  - apply keeps_ret, _.
Qed.
Lemma keeps_settlement_notifications R `{!Quiet R} s c :
  keeps R (enqueueSettlementConfirmedNotifications s c).
Proof. apply quiet_enqueue. Qed.

(** * Automation

    [keeps_auto] walks through a body: binds, branches and loops are split,
    the leaves are the lemmas of the hint database [keeps]. *)
Create HintDb keeps discriminated.
#[export] Hint Resolve keeps_dateNow keeps_randomUUID keeps_io keeps_metric keeps_nowIso keeps_randomId
  keeps_audit keeps_emit keeps_domain keeps_settlement_notifications quiet_enqueue logs_writeAudit
  logs_emitEvent : keeps.
#[export] Hint Extern 1 (keeps _ (mret _)) => apply keeps_ret; apply _ : keeps.
#[export] Hint Extern 1 (keeps _ (throw _)) => apply keeps_throw; apply _ : keeps.
#[export] Hint Extern 1 (keeps _ (throwCode _ _)) => apply keeps_throwCode; apply _ : keeps.
#[export] Hint Extern 1 (keeps _ (rethrow _)) => apply keeps_rethrow; apply _ : keeps.
#[export] Hint Extern 1 (keeps _ (asks _)) => apply keeps_asks; apply _ : keeps.
#[export] Hint Extern 1 (keeps _ (askEnv _)) => apply keeps_askEnv; apply _ : keeps.
#[export] Hint Extern 1 (keeps _ (askCfg _)) => apply keeps_askCfg; apply _ : keeps.

(** Rules the later files add. *)
Ltac keeps_rule := fail.
Ltac keeps_step :=
  lazymatch goal with
  | |- keeps_at _ _ _ _ => apply at_keeps
  | |- keeps _ (_ ≫= _) => apply keeps_bind; [apply _| |intros ?]
  | |- keeps _ (try_catch _ _) => apply keeps_try; [apply _| |intros ?]
  | |- keeps _ (forEach _ _) => apply keeps_forEach; [apply _|intros ? ?]
  | |- keeps _ (foldM _ _ _) => apply keeps_foldM; [apply _|intros ? ? ?]
  | |- keeps _ (let '(_, _) := ?x in _) => destruct x
  | |- keeps _ (match ?x with _ => _ end) => destruct x eqn:?
  end.
Ltac keeps_auto := repeat first [solve [eauto with keeps typeclass_instances] | keeps_rule | progress keeps_step].

(** Reads and draws at a known world. *)
Ltac at_step :=
  lazymatch goal with
  | |- keeps_at _ (asks _ ≫= _) _ _ => apply at_asks
  | |- keeps_at _ (askEnv _ ≫= _) _ _ => apply at_askEnv
  | |- keeps_at _ (askCfg _ ≫= _) _ _ => unfold askCfg; apply at_askEnv
  | |- keeps_at _ (mret _ ≫= _) _ _ => apply at_ret
  | |- keeps_at _ (nowIso ≫= _) _ _ => apply at_nowIso; [apply _|]
  | |- keeps_at _ (dateNow ≫= _) _ _ => apply at_dateNow; [apply _|]
  | |- keeps_at _ (randomId _ ≫= _) _ _ => apply at_randomId; [apply _|]
  | |- keeps_at _ (io _ ≫= _) _ _ => apply at_io; [apply _|]
  | |- keeps_at _ ((_ ≫= _) ≫= _) _ _ => apply at_assoc
  end; cbv beta.

(** Answering without a write. *)
Lemma keeps_at_answer {A} (R : Env -> relation World) `{!Frame R} (a : A) env w : keeps_at R (mret a) env w.
Proof. apply keeps_ret, _. Qed.
#[export] Hint Resolve keeps_at_answer : keeps.

(** The store after the writes of the background, component by component. *)
Definition background (db db' : Db) : Prop :=
  db'.(contracts) = db.(contracts) /\ db'.(evidences) = db.(evidences) /\
  db'.(disputes) = db.(disputes) /\ db'.(decisions) = db.(decisions) /\
  db'.(xrplTxs) = db.(xrplTxs) /\ db'.(xrplIngestionDedup) = db.(xrplIngestionDedup) /\
  db'.(delayedJobs) = db.(delayedJobs) /\ db'.(disputeVerifierVotes) = db.(disputeVerifierVotes) /\
  db'.(disputeVerifierRegistry) = db.(disputeVerifierRegistry) /\
  db'.(settlements) = db.(settlements) /\ db'.(exportJobs) = db.(exportJobs).

#[export] Instance background_preorder : PreOrder background.
Proof.
  split; [intros db; repeat split|].
  intros a b c. unfold background. intuition congruence.
Qed.

Lemma keeps_background_modify f : (forall db, background db (f db)) -> keeps (on_db background) (modify f).
Proof. intros H env w. apply H. Qed.

(** Only the audit log and the event stream grow. *)
Definition logged (db db' : Db) : Prop :=
  background db db' /\ db'.(notifications) = db.(notifications) /\
  db'.(notificationOutboxById) = db.(notificationOutboxById) /\
  db'.(notificationOutboxIdempotency) = db.(notificationOutboxIdempotency).
#[export] Instance logged_preorder : PreOrder logged.
Proof.
  split; [intros db; by split|].
  intros a b c [? ?] [? ?]. split; [by etrans|]. intuition congruence.
Qed.
Lemma keeps_logged_modify f : (forall db, logged db (f db)) -> keeps (on_db logged) (modify f).
Proof. intros H env w. apply H. Qed.

#[export] Instance logs_logged : Logs (on_db logged).
Proof.
  split; [apply _| |].
  - intros. unfold writeAudit, appendAudit. keeps_auto.
    apply keeps_logged_modify. intros db; repeat split.
  - intros. unfold emitEvent, appendEvent. keeps_auto.
    apply keeps_logged_modify. intros db; repeat split.
Qed.
Lemma logs_of_logged (R : relation Db) :
  PreOrder R -> (forall db db', logged db db' -> R db db') -> Logs (on_db R).
Proof.
  intros HR Hb. split; [apply _| |]; intros; intros env w; apply Hb.
  - apply (logs_writeAudit (R := on_db logged)).
  - apply (logs_emitEvent (R := on_db logged)).
Qed.

#[export] Instance quiet_background : Quiet (on_db background).
Proof.
  split; [by apply logs_of_logged; [apply _|intros ?? []]|].
  intros. unfold enqueueFanoutNotificationItems, enqueueOutboxItem, enqueueDirectItem,
    domainNotificationIdempotencyKey, sha256, appendNotificationOutbox, saveNotification.
  pose proof (logs_of_logged background _ (fun db db' H => proj1 H)).
  keeps_auto; apply keeps_background_modify; intros db; repeat split.
Qed.

(** A relation on the other components is quiet. *)
Lemma quiet_of_background (R : relation Db) :
  PreOrder R -> (forall db db', background db db' -> R db db') -> Quiet (on_db R).
Proof.
  intros HR Hb. split; [by apply logs_of_logged; [|intros ?? [??]; apply Hb]|].
  intros; intros env w; apply Hb, (quiet_enqueue (R := on_db background)).
Qed.
