(* ===== verification/XrplTrack.v ===== *)
(** XRPL: the rippled client ([services/xrpl.service.ts]), the mapping of
    escrow transactions ([services/xrpl-escrow-protocol.ts]), the tracking of
    transactions ([upsertTrackedTx] of [index.ts]) and their reconciliation
    with the ledger ([services/xrpl-tx-reconcile.ts]). *)
From S2P Require Import Prelude JsString JsMap JsDate Types Config World Utils MemoryRepo Notify.

(** * Escrow protocol fields *)

Record EscrowProtocolFields := mkEscrowFields {
  ef_owner : option string; ef_destination : option string;
  ef_offerSequence : option Z; ef_submitterAccount : option string }.
Definition noEscrowFields : EscrowProtocolFields := mkEscrowFields None None None None.

(** [typeof v === "string" && v.startsWith("r") ? v : undefined] *)
Definition classicAddress (v : JsVal) : option string :=
  match v with JStr s => if startsWith s "r" then Some s else None | _ => None end.

(** [Number(v)] of a string of digits. *)
Definition digitsNumber (s : string) : Z :=
  fold_left (fun acc c => acc * 10 + (Z.of_N (code c) - 48))%Z (chars s) 0%Z.
Definition sequenceNumber (v : JsVal) : option Z :=
  match v with
  | JNum n => Some n
  | JStr s => if truthy (Some s) && all_chars is_digit s then Some (digitsNumber s) else None
  | _ => None
  end.

(** [{ ...base, ...over }] *)
Definition spread (base over : list (string * JsVal)) : list (string * JsVal) :=
  fold_left (fun m kv => jm_set kv.1 kv.2 m) over base.

(** Fields may live on the root or under [tx_json]; the root wins. *)
Definition mergeTxJsonLayers (root : JsVal) : JsVal :=
  match root, jget "tx_json" root with
  | JObj fields, JObj nested => JObj (spread nested fields)
  | _, _ => root
  end.

Definition escrowProtocolFieldsFromTxJson (tx : JsVal) : EscrowProtocolFields :=
  let tt := jstr (jget "TransactionType" tx) in
  if bool_decide (tt = Some "EscrowCreate") then
    mkEscrowFields (classicAddress (jget "Account" tx)) (classicAddress (jget "Destination" tx))
      (sequenceNumber (jget "Sequence" tx)) (classicAddress (jget "Account" tx))
  else if bool_decide (tt = Some "EscrowFinish") || bool_decide (tt = Some "EscrowCancel") then
    mkEscrowFields (classicAddress (jget "Owner" tx)) None
      (sequenceNumber (jget "OfferSequence" tx)) (classicAddress (jget "Account" tx))
  else noEscrowFields.

(** * The rippled client *)

Record LiveTxStatus := mkLive {
  lt_txHash : string; lt_validated : bool; lt_ledgerIndex : option Z; lt_resultCode : option string;
  lt_transactionType : option string; lt_account : option string; lt_escrow : EscrowProtocolFields }.

Definition xrplEnabled : M bool := askCfg cfg_xrplEnabled.

(** [getClient] and one request: the live mode must be configured; a failed
    connection is thrown, a failed request is the reply [RR_error]. *)
Definition clientRequest (req : JsVal) : M RippledReply :=
  enabled ← xrplEnabled;
  wss ← askCfg cfg_wssUrl;
  if negb enabled || negb (truthy (Some wss)) then throw "XRPL live mode is disabled"
  else
    reply ← io (fun env n => env.(env_rippled) n req);
    match reply with
    | RR_connect_error msg => throw msg
    | _ => mret reply
    end.
(** A request whose failure is thrown. *)
Definition clientRequestOrThrow (req : JsVal) : M JsVal :=
  reply ← clientRequest req;
  match reply with
  | RR_ok result => mret result
  | RR_error msg | RR_connect_error msg => throw msg
  end.

Definition startsR (v : JsVal) : option string := classicAddress v.
(** The status a [tx] response carries. *)
Definition liveOfTxResult (txHash : string) (result : JsVal) : LiveTxStatus :=
  let flat := mergeTxJsonLayers result in
  mkLive (default txHash (nonempty (jstr (jget "hash" flat))))
    (jtruthy (jget "validated" result)) (jnum (jget "ledger_index" result))
    (jstr (jget "TransactionResult" (jget "meta" result)))
    (jstr (jget "TransactionType" flat)) (startsR (jget "Account" flat))
    (escrowProtocolFieldsFromTxJson flat).

Definition getTxStatus (txHash : string) : M (option LiveTxStatus) :=
  reply ← clientRequest (JObj [("command", JStr "tx"); ("transaction", JStr txHash)]);
  match reply with
  | RR_ok result => mret (Some (liveOfTxResult txHash result))
  | _ => mret None
  end.

(** One entry of an [account_tx] response; entries without a hash are skipped. *)
Definition liveOfAccountTx (entry : JsVal) : option LiveTxStatus :=
  let tx := jget "tx" entry in
  match jget "hash" tx with
  | JStr hash =>
      if truthy (Some hash) then
        let flat := mergeTxJsonLayers tx in
        Some (mkLive hash (jtruthy (jget "validated" entry)) (jnum (jget "ledger_index" entry))
          (jstr (jget "TransactionResult" (jget "meta" entry)))
          (jstr (jget "TransactionType" flat)) (startsR (jget "Account" flat))
          (escrowProtocolFieldsFromTxJson flat))
      else None
  | _ => None
  end.
Definition jarr (v : JsVal) : list JsVal := match v with JArr l => l | _ => [] end.
Definition getAccountTxResults (account : string) : M (JsMap LiveTxStatus) :=
  result ← clientRequestOrThrow
    (JObj [("command", JStr "account_tx"); ("account", JStr account);
           ("ledger_index_min", JNum (-1)); ("ledger_index_max", JNum (-1)); ("limit", JNum 50)]);
  mret (fold_left (fun out entry =>
    match liveOfAccountTx entry with Some l => jm_set l.(lt_txHash) l out | None => out end)
    (jarr (jget "transactions" result)) []).

(** [submitAndWaitFromWallet] *)
Definition submitAndWaitFromWallet (tx : JsVal) (seed : string) : M string :=
  enabled ← xrplEnabled;
  wss ← askCfg cfg_wssUrl;
  if negb enabled || negb (truthy (Some wss)) then throw "XRPL live mode is disabled"
  else
    reply ← io (fun env n => env.(env_submit) n tx seed);
    match reply with
    | RR_ok result =>
        match jget "hash" result with
        | JStr h => if truthy (Some h) then mret (toUpperCase h)
                    else throw "XRPL submitAndWait response missing result.hash"
        | _ => throw "XRPL submitAndWait response missing result.hash"
        end
    | RR_error msg | RR_connect_error msg => throw msg
    end.

Definition pingRippled : M (bool * option string) :=
  enabled ← xrplEnabled;
  wss ← askCfg cfg_wssUrl;
  if negb enabled || negb (truthy (Some wss)) then mret (true, Some "disabled")
  else try_catch (_ ← clientRequestOrThrow (JObj [("command", JStr "server_info")]); mret (true, None))
         (fun e => mret (false, Some (exn_message e))).

(** ** Escrow objects of an account *)

Record EscrowLedgerObject := mkEscrowObject {
  eo_ledgerEntryIndex : JsVal; eo_account : JsVal; eo_destination : JsVal; eo_amount : JsVal;
  eo_finishAfter : option Z; eo_cancelAfter : option Z; eo_previousTxnId : JsVal;
  eo_previousTxnLedgerSeq : option Z; eo_flags : option Z }.
Record AccountEscrowsPage := mkEscrowsPage {
  ep_escrows : list EscrowLedgerObject; ep_ledgerHash : JsVal; ep_ledgerIndex : option Z;
  ep_nextMarker : JsVal }.

Definition escrowsLimit (limit : Z) : Z := Z.min 400 (Z.max 10 limit).
Definition ledgerAmountToDisplay (amount : JsVal) : JsVal :=
  match amount with
  | JStr s => JStr s
  | JObj _ | JArr _ => JStr (Json.json_stringify amount)
  | _ => JStr ""
  end.
Definition escrowObject (o : JsVal) : EscrowLedgerObject :=
  mkEscrowObject (jget "index" o) (jget "Account" o) (jget "Destination" o)
    (ledgerAmountToDisplay (jget "Amount" o)) (jnum (jget "FinishAfter" o))
    (jnum (jget "CancelAfter" o))
    (if jtruthy (jget "PreviousTxnID" o) then jget "PreviousTxnID" o else JUndef)
    (jnum (jget "PreviousTxnLgrSeq" o)) (jnum (jget "Flags" o)).
Definition isEscrowObject (o : JsVal) : bool :=
  bool_decide (jstr (jget "LedgerEntryType" o) = Some "Escrow").
Definition getAccountEscrowsPage (account : string) (limit : Z) (marker : JsVal) : M AccountEscrowsPage :=
  result ← clientRequestOrThrow
    (JObj ([("command", JStr "account_objects"); ("account", JStr account);
            ("ledger_index", JStr "validated"); ("type", JStr "escrow");
            ("limit", JNum (escrowsLimit limit))]
           ++ match marker with JUndef | JNull => [] | m => [("marker", m)] end));
  mret (mkEscrowsPage
    (escrowObject <$> filter (fun o => isEscrowObject o) (jarr (jget "account_objects" result)))
    (jget "ledger_hash" result) (jnum (jget "ledger_index" result)) (jget "marker" result)).

(** * Tracking (index.ts) *)

Definition upsertTrackedTx (txHash txType : string) (account disputeId : option string)
    (network : Network) : M unit :=
  now ← nowIso;
  existing ← getXrplTx txHash;
  match existing with
  | Some e =>
      saveXrplTx (mkXrplTx e.(x_id) txHash txType (from_option Some e.(x_account) account)
        (from_option Some e.(x_disputeId) disputeId) network e.(x_trackingStatus) e.(x_validated)
        e.(x_ledgerIndex) e.(x_resultCode) e.(x_outcomeClass) e.(x_retries) now
        e.(x_escrowOwner) e.(x_escrowDestination) e.(x_escrowOfferSequence)
        e.(x_escrowSubmitterAccount))
  | None =>
      id ← randomId "xrt";
      saveXrplTx (mkXrplTx id txHash txType account disputeId network TS_pending_validation false
        None None None 0 now None None None None)
  end.

(** * Reconciliation *)

(** [recordXrplTxOutcomeClassified]: the counters of
    [xrpl-outcome-metrics.ts]. *)
Definition recordXrplTxOutcomeClassified (c : OutcomeClass) : M unit :=
  metric "reconcileApplyTotal" 1;; metric ("outcome_" +:+ outcomeClass_str c) 1.

(** [if (x) field = x]: a truthy value replaces the field. *)
Definition orKeep (new old : option string) : option string :=
  if truthy new then new else old.

Definition statusOfLive (validated : bool) (cls : OutcomeClass) : TxTrackingStatus :=
  if validated && bool_decide (cls = OC_success) then TS_validated_success
  else if validated then TS_validated_fail
  else TS_pending_validation.

(** The tracked row after the assignments of [applyLiveTxStatus]. *)
Definition reconciled (live : LiveTxStatus) (now : string) (t : XrplTransaction) : XrplTransaction :=
  let acct := trim <$> live.(lt_account) in
  let cls := classifyXrplResultCode live.(lt_resultCode) in
  t <| x_account := if truthy acct && negb (truthy t.(x_account)) then acct else t.(x_account) |>
    <| x_txType := default t.(x_txType) (nonempty live.(lt_transactionType)) |>
    <| x_escrowOwner := orKeep live.(lt_escrow).(ef_owner) t.(x_escrowOwner) |>
    <| x_escrowDestination := orKeep live.(lt_escrow).(ef_destination) t.(x_escrowDestination) |>
    <| x_escrowOfferSequence := from_option Some t.(x_escrowOfferSequence) live.(lt_escrow).(ef_offerSequence) |>
    <| x_escrowSubmitterAccount := orKeep live.(lt_escrow).(ef_submitterAccount) t.(x_escrowSubmitterAccount) |>
    <| x_lastCheckedAt := now |>
    <| x_validated := live.(lt_validated) |>
    <| x_ledgerIndex := live.(lt_ledgerIndex) |>
    <| x_resultCode := live.(lt_resultCode) |>
    <| x_outcomeClass := Some cls |>
    <| x_trackingStatus := statusOfLive live.(lt_validated) cls |>.

(** The dispute whose execution the transaction carries out is resolved. *)
Definition resolveDispute (tracked : XrplTransaction) (dispute : DisputeCase) : M unit :=
  let success := bool_decide (tracked.(x_outcomeClass) = Some OC_success) in
  let nextStatus := if success then DS_executed else DS_rejected in
  let outcome := match tracked.(x_outcomeClass) with
                 | Some c => JStr (outcomeClass_str c) | None => JUndef end in
  now ← nowIso;
  let d := dispute <| d_status := nextStatus |> <| d_updatedAt := now |> in
  saveDispute d;;
  let result := [("status", JStr (disputeStatus_str nextStatus));
                 ("resultCode", jopt tracked.(x_resultCode)); ("outcomeClass", outcome)] in
  audit "dispute" d.(d_id) "dispute.execution_status_updated" "system"
    (Some (JObj [("status", JStr (disputeStatus_str dispute.(d_status)))])) (Some (JObj result)) None;;
  emit "dispute.execution_status_updated" "dispute" d.(d_id) result;;
  contractN ← getContract d.(d_contractId);
  match contractN with
  | Some c =>
      maybeEnqueueDomainNotifications
        (if success then "dispute.execution_completed" else "refund.dispute_execution_failed")
        (contractPartyRecipientIds c)
        [("disputeId", JStr d.(d_id)); ("contractId", JStr d.(d_contractId));
         ("txHash", JStr tracked.(x_txHash)); ("outcomeClass", outcome)]
  | None => mret tt
  end.

Definition applyLiveTxStatus (txHash : string) (live : LiveTxStatus) : M bool :=
  tracked ← getXrplTx txHash;
  match tracked with
  | None => mret false
  | Some t =>
      now ← nowIso;
      let t' := reconciled live now t in
      recordXrplTxOutcomeClassified (classifyXrplResultCode live.(lt_resultCode));;
      saveXrplTx t';;
      (match t'.(x_disputeId) with
       | Some did =>
           if truthy (Some did) && t'.(x_validated) then
             dispute ← getDispute did;
             match dispute with
             | Some d =>
                 if bool_decide (d.(d_status) = DS_execution_pending) then resolveDispute t' d
                 else mret tt
             | None => mret tt
             end
           else mret tt
       | None => mret tt
       end);;
      mret true
  end.
