(* ===== verification/XrplWorkers.v ===== *)
(** The XRPL workers: the policy probe of pending transactions
    ([services/xrpl-tx-policy.worker.ts]), the handlers of the ledger streams
    ([services/xrpl-subscribe.worker.ts]) with their token bucket
    ([services/xrpl-subscribe-rate.ts]), and the monthly settlement touch
    ([services/settlement-ledger.ts]). *)
From S2P Require Import Prelude JsString JsMap JsDate Types Config World Utils MemoryRepo Notify XrplTrack.

(** * The policy worker *)

Definition XRPL_TX_POLICY_JOB_KIND : string := "xrpl_tx_policy_probe".
Definition xrplTxPolicyJobId (txHash : string) : string := "xrpl_policy:" +:+ txHash.

Record XrplTxPolicyWorkerOptions := mkPolicyOptions {
  po_intervalMs : Z; po_pendingTimeoutMs : Z; po_batchSize : Z; po_maxNotFoundProbes : Z;
  po_lockTtlMs : option Z; po_maxBackoffMs : Z }.

Definition policyJobBackoffMs (baseIntervalMs maxBackoffMs nextAttempts : Z) : Z :=
  let n := Z.min (Z.max 0 nextAttempts) 14 in
  let raw := (baseIntervalMs * 2 ^ n)%Z in
  Z.min maxBackoffMs (Z.max baseIntervalMs raw).

(** [ageMs(lastCheckedAt) < timeout]; a stamp that does not parse is
    infinitely old, and the clock is not read for it. *)
Definition youngerThan (lastCheckedAt : string) (timeout : Z) : M bool :=
  legacy ← askEnv env_legacyDate;
  match date_parse legacy lastCheckedAt with
  | Some t => now ← dateNow; mret (now - t <? timeout)%Z
  | None => mret false
  end.

Definition isPolicyCandidate (tx : XrplTransaction) : bool :=
  if tx.(x_validated) then false
  else if negb (bool_decide (tx.(x_trackingStatus) = TS_pending_validation))
          && negb (bool_decide (tx.(x_trackingStatus) = TS_retry_scheduled)) then false
  else if bool_decide (tx.(x_outcomeClass) = Some OC_manual_review) then false
  else true.

Record TickStats := mkTick {
  tk_accountBackfillTried : Z; tk_accountBackfillUpdated : Z; tk_jobsClaimed : Z;
  tk_jobsResolved : Z; tk_jobsRequeued : Z; tk_jobsDeletedStale : Z; tk_jobErrors : Z;
  tk_policyExhausted : Z }.
#[export] Instance eta_Tick : Eta TickStats := fun t =>
  mkTick t.(tk_accountBackfillTried) t.(tk_accountBackfillUpdated) t.(tk_jobsClaimed)
    t.(tk_jobsResolved) t.(tk_jobsRequeued) t.(tk_jobsDeletedStale) t.(tk_jobErrors)
    t.(tk_policyExhausted).
Definition tick0 : TickStats := mkTick 0 0 0 0 0 0 0 0.

(** One transaction without account: a [tx] probe fills it in. *)
Definition backfillAccount (st : TickStats) (tx : XrplTransaction) : M TickStats :=
  let st1 := st <| tk_accountBackfillTried := (st.(tk_accountBackfillTried) + 1)%Z |> in
  try_catch
    (live ← getTxStatus tx.(x_txHash);
     let account := match live with Some l => trim <$> l.(lt_account) | None => None end in
     match account with
     | Some acct =>
         if negb (truthy account) then mret st1
         else
           cur ← getXrplTx tx.(x_txHash);
           let latest := default tx cur in
           if truthy latest.(x_account) then mret st1
           else
             now ← nowIso;
             saveXrplTx (latest <| x_account := Some acct |> <| x_lastCheckedAt := now |>);;
             audit "xrpl_tx" tx.(x_txHash) "xrpl.tx_account_backfilled" "system" None None
               (Some (JObj [("account", JStr acct); ("source", JStr "tx")]));;
             mret (st1 <| tk_accountBackfillUpdated := (st1.(tk_accountBackfillUpdated) + 1)%Z |>)
     | None => mret st1
     end)
    (fun _ => mret st1).

(** A probe job for every transaction that has been pending for too long. *)
Definition scheduleProbe (opts : XrplTxPolicyWorkerOptions) (now : string) (tx : XrplTransaction) : M unit :=
  if negb (isPolicyCandidate tx) then mret tt
  else
    young ← youngerThan tx.(x_lastCheckedAt) opts.(po_pendingTimeoutMs);
    if young : bool then mret tt
    else
      _ ← createDelayedJobIfAbsent
        (mkJob (xrplTxPolicyJobId tx.(x_txHash)) XRPL_TX_POLICY_JOB_KIND
           [("txHash", JStr tx.(x_txHash))] now 0 64 None None now now);
      mret tt.

Definition requeueJob (opts : XrplTxPolicyWorkerOptions) (job : DelayedJob) (lastError : option string) : M unit :=
  let nextAttempts := (job.(j_attempts) + 1)%Z in
  let backoff := policyJobBackoffMs opts.(po_intervalMs) opts.(po_maxBackoffMs) nextAttempts in
  ms ← dateNow;
  updatedAt ← nowIso;
  bumpDelayedJob job.(j_id) (toISOString (ms + backoff)) nextAttempts lastError updatedAt.

Definition bumpResolved (st : TickStats) := st <| tk_jobsResolved := (st.(tk_jobsResolved) + 1)%Z |>.
Definition bumpStale (st : TickStats) := st <| tk_jobsDeletedStale := (st.(tk_jobsDeletedStale) + 1)%Z |>.
Definition bumpRequeued (st : TickStats) := st <| tk_jobsRequeued := (st.(tk_jobsRequeued) + 1)%Z |>.

(** The ledger does not know the hash: count the probe, and give up after
    [maxNotFoundProbes]. *)
Definition exhaustedTx (probes : Z) (now : string) (t : XrplTransaction) : XrplTransaction :=
  t <| x_retries := probes |> <| x_lastCheckedAt := now |>
    <| x_outcomeClass := Some OC_manual_review |>
    <| x_resultCode := Some (default "not_found_after_policy" t.(x_resultCode)) |>
    <| x_trackingStatus := TS_validated_fail |> <| x_validated := false |>.
Definition probedTx (probes : Z) (now : string) (t : XrplTransaction) : XrplTransaction :=
  t <| x_retries := probes |> <| x_lastCheckedAt := now |>.

Definition notFoundProbe (opts : XrplTxPolicyWorkerOptions) (job : DelayedJob) (txHash : string)
    (tx : XrplTransaction) (st : TickStats) : M TickStats :=
  cur ← getXrplTx txHash;
  let latest := default tx cur in
  let probes := (latest.(x_retries) + 1)%Z in
  now ← nowIso;
  if (opts.(po_maxNotFoundProbes) <=? probes)%Z then
    let updated := exhaustedTx probes now latest in
    saveXrplTx updated;;
    recordXrplTxOutcomeClassified OC_manual_review;;
    deleteDelayedJob job.(j_id);;
    audit "xrpl_tx" txHash "xrpl.tx_policy_exhausted" "system" None None
      (Some (JObj [("probes", JNum probes); ("account", jnull tx.(x_account))]));;
    emit "xrpl.tx_policy_exhausted" "xrpl_tx" txHash
      [("probes", JNum probes); ("account", jnull tx.(x_account));
       ("resultCode", jopt updated.(x_resultCode))];;
    mret (bumpResolved st <| tk_policyExhausted := (st.(tk_policyExhausted) + 1)%Z |>)
  else
    saveXrplTx (probedTx probes now latest);;
    requeueJob opts job None;;
    mret (bumpRequeued st).

(** The transaction on the ledger, by [tx] and then by [account_tx]. *)
Definition probeLedger (txHash : string) (account : option string) : M (option LiveTxStatus) :=
  live ← getTxStatus txHash;
  match live, account with
  | Some l, _ => mret (Some l)
  | None, Some a =>
      if truthy account then map ← getAccountTxResults a; mret (jm_get txHash map) else mret None
  | None, None => mret None
  end.

Definition runJob (opts : XrplTxPolicyWorkerOptions) (st : TickStats) (job : DelayedJob) : M TickStats :=
  let txHash := default "" (jstr (jget "txHash" (JObj job.(j_payload)))) in
  if negb (truthy (Some txHash)) then
    deleteDelayedJob job.(j_id);; mret (bumpStale st)
  else
    try_catch
      (tx ← getXrplTx txHash;
       match tx with
       | Some tx =>
           if negb (isPolicyCandidate tx) then deleteDelayedJob job.(j_id);; mret (bumpStale st)
           else
             live ← probeLedger txHash tx.(x_account);
             match live with
             | Some l =>
                 _ ← applyLiveTxStatus txHash l;
                 deleteDelayedJob job.(j_id);;
                 mret (bumpResolved st)
             | None => notFoundProbe opts job txHash tx st
             end
       | None => deleteDelayedJob job.(j_id);; mret (bumpStale st)
       end)
      (fun e =>
         requeueJob opts job (Some (exn_message e));;
         mret (bumpRequeued (st <| tk_jobErrors := (st.(tk_jobErrors) + 1)%Z |>))).

Definition recordXrplTxPolicyTickEnd (st : TickStats) : M unit :=
  metric "tickCount" 1;;
  metric "jobsClaimed" st.(tk_jobsClaimed);; metric "jobsResolved" st.(tk_jobsResolved);;
  metric "jobsRequeued" st.(tk_jobsRequeued);; metric "jobsDeletedStale" st.(tk_jobsDeletedStale);;
  metric "jobErrors" st.(tk_jobErrors);;
  metric "accountBackfillTried" st.(tk_accountBackfillTried);;
  metric "accountBackfillUpdated" st.(tk_accountBackfillUpdated);;
  metric "policyExhausted" st.(tk_policyExhausted).

(** One tick.  The list of transactions holds references to the stored rows,
    so the second pass sees the accounts and stamps the first one wrote: it
    reads the store again. *)
Definition policyTick (opts : XrplTxPolicyWorkerOptions) : M unit :=
  enabled ← xrplEnabled;
  if negb enabled then mret tt
  else
    now ← nowIso;
    txs ← listXrplTxs;
    backfillCap ← askCfg cfg_accountBackfillPerTick;
    st1 ← (if (0 <? backfillCap)%Z then
             foldM backfillAccount tick0
               (take (Z.to_nat backfillCap)
                  (filter (fun t => negb (truthy t.(x_account)) && negb t.(x_validated)
                                    && isPolicyCandidate t) txs))
           else mret tick0);
    txs' ← listXrplTxs;
    forEach (scheduleProbe opts now) txs';;
    jobs ← claimDueDelayedJobs XRPL_TX_POLICY_JOB_KIND now (Z.to_nat opts.(po_batchSize))
             (default 120000%Z opts.(po_lockTtlMs));
    st2 ← foldM (runJob opts) (st1 <| tk_jobsClaimed := Z.of_nat (length jobs) |>) jobs;
    recordXrplTxPolicyTickEnd st2.

(** * The token bucket

    Tokens are counted in thousandths: [elapsed / 1000 * refillPerSec] tokens
    are [elapsed * refillPerSec] of them, exactly. *)
Record TokenBucket := mkBucket { tb_millitokens : Z; tb_lastRefillMs : Z }.
Definition newBucket (capacity now : Z) : TokenBucket := mkBucket (capacity * 1000) now.
Definition tryConsume (capacity refillPerSec now : Z) (b : TokenBucket) : bool * TokenBucket :=
  let elapsed := (now - b.(tb_lastRefillMs))%Z in
  let b1 := if (0 <? elapsed)%Z && (0 <? refillPerSec)%Z then
              mkBucket (Z.min (capacity * 1000) (b.(tb_millitokens) + elapsed * refillPerSec)) now
            else b in
  if (1000 <=? b1.(tb_millitokens))%Z then
    (true, mkBucket (b1.(tb_millitokens) - 1000) b1.(tb_lastRefillMs))
  else (false, b1).

(** * Stream handlers *)

Definition innerTx (stream : JsVal) : JsVal :=
  match jget "transaction" stream with
  | JUndef | JNull => jget "tx_json" stream
  | v => v
  end.
Definition longHash (v : JsVal) : option string :=
  match v with JStr s => if (8 <=? str_length s)%nat then Some s else None | _ => None end.
Definition txHashFromStream (stream : JsVal) : option string :=
  match longHash (jget "hash" stream) with
  | Some h => Some h
  | None => longHash (jget "hash" (innerTx stream))
  end.
Definition accountFromStream (stream : JsVal) : option string :=
  classicAddress (jget "Account" (innerTx stream)).
Definition isObject (v : JsVal) : bool := match v with JObj _ | JArr _ => true | _ => false end.

(** The live status a validated stream message carries. *)
Definition liveOfStream (stream : JsVal) (hash : string) (ledgerIndex : Z) (resultCode : option string) :
    LiveTxStatus :=
  let flat := if isObject (innerTx stream) then mergeTxJsonLayers (innerTx stream) else JObj [] in
  mkLive hash true (Some ledgerIndex) resultCode (jstr (jget "TransactionType" flat))
    (accountFromStream stream) (escrowProtocolFieldsFromTxJson flat).
Definition streamResultCode (stream : JsVal) : option string :=
  match jstr (jget "engine_result" stream) with
  | Some r => Some r
  | None => jstr (jget "TransactionResult" (jget "meta" stream))
  end.

(** The bucket of the connection, when the rate is limited: capacity and
    refill are both [maxPerSec]. *)
Definition consumeToken (maxPerSec : Z) (bucket : option TokenBucket) : M (bool * option TokenBucket) :=
  match bucket with
  | None => mret (true, None)
  | Some b => now ← dateNow;
              let '(ok, b') := tryConsume maxPerSec maxPerSec now b in
              mret (ok, Some b')
  end.

Definition processTransaction (stream : JsVal) : M unit :=
  match txHashFromStream stream with
  | None => mret tt
  | Some hash =>
      let ledgerIndex := default (-1)%Z (jnum (jget "ledger_index" stream)) in
      if (ledgerIndex <? 0)%Z then mret tt
      else
        tracked ← getXrplTx hash;
        match tracked with
        | None => mret tt
        | Some _ =>
            inserted ← tryRecordXrplIngestionEvent ledgerIndex hash "xrpl_subscribe_transaction";
            if negb inserted then mret tt
            else
              _ ← applyLiveTxStatus hash (liveOfStream stream hash ledgerIndex (streamResultCode stream));
              metric "transactionStreamProcessed" 1
        end
  end.

Definition handleTransaction (maxPerSec : Z) (bucket : option TokenBucket) (stream : JsVal) :
    M (option TokenBucket) :=
  if negb (jtruthy (jget "validated" stream)) then mret bucket
  else
    r ← consumeToken maxPerSec bucket;
    let '(ok, bucket') := r in
    if negb ok then metric "transactionStreamThrottled" 1;; mret bucket'
    else processTransaction stream;; mret bucket'.

(** ** Ledger closes and settlements *)

Record LedgerStream := mkLedger {
  lg_ledger_index : Z; lg_ledger_hash : option string; lg_ledger_time : option Z;
  lg_txn_count : option Z }.

Definition afterSettlementLedgerClosedEvent (stream : LedgerStream) (touchEnabled : bool) : M unit :=
  if negb touchEnabled then mret tt
  else
    (* [new Date()] is only read when the stream has no ledger time *)
    ms ← (match stream.(lg_ledger_time) with Some _ => mret 0%Z | None => dateNow end);
    let '(year, month) := calendarMonthFromLedgerStream stream.(lg_ledger_time) ms in
    now ← nowIso;
    n ← touchSettlementsOnLedgerClose (mkTouch year month stream.(lg_ledger_index) now);
    metric "ledgerCloseTouchInvocations" 1;;
    metric "contractsTouchedTotal" (Z.max 0 n);;
    emit "settlement.period_touched" "xrpl_ledger" ("ledger:" +:+ num_str stream.(lg_ledger_index))
      [("periodYear", JNum year); ("periodMonth", JNum month); ("contractsTouched", JNum n);
       ("ledgerIndex", JNum stream.(lg_ledger_index)); ("ledgerHash", jnull stream.(lg_ledger_hash))].

Definition handleLedgerClosed (stream : LedgerStream) (settlementTouchEnabled : bool) : M unit :=
  let ledgerIndex := stream.(lg_ledger_index) in
  let syntheticHash := "ledger:" +:+ num_str ledgerIndex in
  inserted ← tryRecordXrplIngestionEvent ledgerIndex syntheticHash "xrpl_subscribe_ledger_closed";
  if negb inserted then mret tt
  else
    metric "ledgerClosedEvents" 1;;
    _ ← dateNow;
    emit "settlement.ledger_closed" "xrpl_ledger" syntheticHash
      [("ledgerIndex", JNum ledgerIndex); ("ledgerHash", jopt stream.(lg_ledger_hash));
       ("ledgerTime", jopt_num stream.(lg_ledger_time)); ("txnCount", jopt_num stream.(lg_txn_count))];;
    afterSettlementLedgerClosedEvent stream settlementTouchEnabled.

(** The delay before the next connection attempt. *)
Definition reconnectDelay (reconnectAttempt : Z) : Z := Z.min 60000 (1000 * 2 ^ reconnectAttempt).
