(* ===== verification/Contracts.v ===== *)
(** The contract routes of [index.ts]: creation, listing, reading, status
    transitions and the escrow anchor; with the helpers the other routes
    share. *)
From S2P Require Import Prelude JsString JsMap JsDate Types Config World Utils MemoryRepo Http Auth Notify XrplTrack.
From Stdlib Require Import Ascii.

(** A handler; a thrown error is answered by the error middleware. *)
Abbreviation Handler := (M Response) (only parsing).
Definition errorMiddleware (m : Handler) : Handler :=
  try_catch m (fun e => mret (err 500 "B2_INTERNAL_ERROR" (exn_message e))).

(** [const parsed = schema.safeParse(..); if (!parsed.success) return 400] *)
Definition withParsed {A} (parsed : Parsed A) (k : A -> Handler) : Handler :=
  match parsed with
  | Invalid flat => mret (validation_error flat)
  | Valid data => k data
  end.

(** [parseOptionalIso]: the value itself, [undefined], or the thrown message. *)
Definition parseOptionalIso (legacy : string -> option Z) (name : string) (value : option string) :
    string + option string :=
  match value with
  | None => inr None
  | Some v =>
      if truthy value then
        match date_parse legacy v with
        | None => inl (name +:+ " must be a valid ISO 8601 timestamp")
        | Some _ => inr value
        end
      else inr None
  end.
(** Two bounds; the first failure is a 400. *)
Definition withWindow (n1 n2 : string) (v1 v2 : option string)
    (k : option string -> option string -> Handler) : Handler :=
  legacy ← askEnv env_legacyDate;
  match parseOptionalIso legacy n1 v1 with
  | inl msg => mret (err 400 "B2_VALIDATION_ERROR" msg)
  | inr from =>
      match parseOptionalIso legacy n2 v2 with
      | inl msg => mret (err 400 "B2_VALIDATION_ERROR" msg)
      | inr to => k from to
      end
  end.

Definition mayAccess (req : Request) (c : Contract) : M bool :=
  askCfg (fun cfg => canAccessContract cfg req c).
(** [req.bluesafeAuth?.role ?? dflt] *)
Definition actorOf (req : Request) (dflt : string) : string :=
  match roleOf req with Some r => role_str r | None => dflt end.
Definition ifSome {A} (o : option A) (f : A -> M unit) : M unit :=
  match o with Some a => f a | None => mret tt end.

(** Load a contract the caller may access, or answer 404 / 403. *)
Definition withContract (req : Request) (contractId forbidden : string)
    (k : Contract -> Handler) : Handler :=
  contract ← getContract contractId;
  match contract with
  | None => mret (err 404 "B2_NOT_FOUND" "Contract not found")
  | Some c =>
      ok ← mayAccess req c;
      if negb ok then mret (err 403 "B2_FORBIDDEN" forbidden) else k c
  end.

(** * POST /v1/contracts *)

Record CreateContract := mkCreateContract {
  cc_tenantId : string; cc_landlordId : string; cc_depositAmount : option string;
  cc_stakeAmount : option string; cc_startsAt : option string; cc_endsAt : option string }.
(** [z.string().datetime()], as Zod documents it: a date of the calendar, hours
    and minutes, seconds with any fraction if there are some, and [Z]. *)
Definition zodFraction (l : list ascii) : bool :=
  match rev l with "Z"%char :: l' => negb (bool_decide (l' = [])) && forallb is_digit l' | _ => false end.
Definition zodSeconds (l : list ascii) : bool :=
  match l with
  | ["Z"%char] => true
  | ":"%char :: l1 =>
      match read_digits 2 0 l1 with
      | Some (s, ["Z"%char]) => (s <=? 59)%Z
      | Some (s, "."%char :: l2) => (s <=? 59)%Z && zodFraction l2
      | _ => false
      end
  | _ => false
  end.
Definition zodDatetime (s : string) : bool :=
  default false (
    '(y, l1) ← read_digits 4 0 (chars s); l2 ← read_char "-" l1; '(m, l3) ← read_digits 2 0 l2; l4 ← read_char "-" l3;
    '(d, l5) ← read_digits 2 0 l4; _ ← date_ms y m d; l6 ← read_char "T" l5;
    '(h, l7) ← read_digits 2 0 l6; l8 ← read_char ":" l7; '(mi, l9) ← read_digits 2 0 l8;
    Some ((h <=? 23)%Z && (mi <=? 59)%Z && zodSeconds l9)).
(** What [createContractSchema] accepts. *)
Definition createContractSchema (b : CreateContract) : bool :=
  truthy (Some b.(cc_tenantId)) && truthy (Some b.(cc_landlordId)) &&
  (match b.(cc_depositAmount) with Some s => truthy (Some s) && all_chars is_digit s | None => true end) &&
  (match b.(cc_stakeAmount) with Some s => truthy (Some s) && all_chars is_digit s | None => true end) &&
  (match b.(cc_startsAt) with Some s => zodDatetime s | None => true end) &&
  (match b.(cc_endsAt) with Some s => zodDatetime s | None => true end).

Definition newContract (id now : string) (b : CreateContract) : Contract :=
  mkContract id b.(cc_tenantId) b.(cc_landlordId) CS_draft None b.(cc_depositAmount)
    b.(cc_stakeAmount) b.(cc_startsAt) b.(cc_endsAt) now now.

Definition postContract (req : Request) (parsed : Parsed CreateContract) : Handler :=
  withParsed parsed (fun b =>
    allowed ← askCfg (fun cfg => assertCreateContractAllowed cfg req b.(cc_tenantId) b.(cc_landlordId));
    if negb allowed then
      mret (err 403 "B2_FORBIDDEN" "Cannot create contract for another party with the current role")
    else
      now ← nowIso;
      id ← randomId "ctr";
      saveContract (newContract id now b);;
      audit "contract" id "contract.created" "operator_local" None
        (Some (JObj [("tenantId", JStr b.(cc_tenantId)); ("landlordId", JStr b.(cc_landlordId));
                     ("status", JStr "draft"); ("depositAmount", jopt b.(cc_depositAmount));
                     ("stakeAmount", jopt b.(cc_stakeAmount)); ("startsAt", jopt b.(cc_startsAt));
                     ("endsAt", jopt b.(cc_endsAt))])) None;;
      emit "contract.created" "contract" id [("status", JStr "draft")];;
      created ← getContract id;
      mret (json 201 (match created with Some c => contract_json c | None => JUndef end))).

(** * GET /v1/contracts and /v1/contracts/:contractId *)

Record ListQuery := mkListQuery {
  lq_limit : nat; lq_offset : nat; lq_status : option string;
  lq_updatedFrom : option string; lq_updatedTo : option string }.
(** The bounds of the list schemas. *)
Definition listBounds (limit offset : nat) : bool :=
  ((1 <=? limit) && (limit <=? 200) && (offset <=? 1000000))%nat.
Record ContractListQuery := mkContractListQuery {
  clq_page : ListQuery; clq_tenantId : option string; clq_landlordId : option string }.

(** A tenant or landlord only lists its own contracts. *)
Definition scopeContractFilter (cfg : Config) (req : Request) (f : ContractListFilter) : ContractListFilter :=
  match req.(rq_bluesafeAuth) with
  | Some a =>
      if cfg.(cfg_authEnabled) then
        match a.(au_role) with
        | R_tenant => f <| cf_tenantId := a.(au_tenantId) |>
        | R_landlord => f <| cf_landlordId := a.(au_landlordId) |>
        | _ => f
        end
      else f
  | None => f
  end.

Definition getContracts (req : Request) (parsed : Parsed ContractListQuery) : Handler :=
  withParsed parsed (fun q =>
    withWindow "updatedFrom" "updatedTo" q.(clq_page).(lq_updatedFrom) q.(clq_page).(lq_updatedTo)
      (fun updatedFrom updatedTo =>
        filter ← askCfg (fun cfg => scopeContractFilter cfg req
          (mkContractFilter q.(clq_page).(lq_status) q.(clq_tenantId) q.(clq_landlordId)
             updatedFrom updatedTo));
        page ← listContractsPage filter (mkListParams q.(clq_page).(lq_limit) q.(clq_page).(lq_offset));
        mret (json 200 (page_json contract_json page)))).

Definition getContractById (req : Request) (contractId : string) : Handler :=
  withContract req contractId "Not allowed to view this contract" (fun c =>
    mret (json 200 (contract_json c))).

(** * PATCH /v1/contracts/:contractId/status *)

Definition isContractStatusTransitionAllowed (from to : ContractStatus) : bool :=
  bool_decide (to ∈ match from with
                    | CS_draft => [CS_escrow_pending; CS_cancelled]
                    | CS_escrow_pending => [CS_escrow_validated; CS_cancelled]
                    | CS_escrow_validated => [CS_active; CS_cancelled]
                    | CS_active => [CS_closed; CS_cancelled]
                    | CS_closed => []
                    | CS_cancelled => []
                    end).

Definition statusJson (s : ContractStatus) : JsVal := JStr (contractStatus_str s).

Definition notifyContractEnd (contract : Contract) : M unit :=
  contractForN ← getContract contract.(c_id);
  ifSome contractForN (fun c =>
    let payload := [("contractId", JStr contract.(c_id)); ("status", statusJson contract.(c_status))] in
    if bool_decide (contract.(c_status) = CS_closed) then
      maybeEnqueueDomainNotifications "contract.lifecycle_closed" (contractPartyRecipientIds c) payload
    else if bool_decide (contract.(c_status) = CS_cancelled) then
      maybeEnqueueDomainNotifications "refund.contract_cancelled" (contractPartyRecipientIds c) payload
    else mret tt).

Definition patchContractStatus (req : Request) (contractId : string) (parsed : Parsed ContractStatus) :
    Handler :=
  withParsed parsed (fun status =>
    withContract req contractId "Not allowed to update this contract" (fun contract =>
      if negb (isContractStatusTransitionAllowed contract.(c_status) status) then
        mret (err 409 "B2_VALIDATION_ERROR"
          ("Invalid contract status transition: " +:+ contractStatus_str contract.(c_status)
           +:+ " -> " +:+ contractStatus_str status))
      else
        now ← nowIso;
        let before := contract.(c_status) in
        let contract := contract <| c_status := status |> <| c_updatedAt := now |> in
        saveContract contract;;
        audit "contract" contract.(c_id) "contract.status_changed" "operator_local"
          (Some (JObj [("status", statusJson before)])) (Some (JObj [("status", statusJson status)])) None;;
        emit "contract.status_changed" "contract" contract.(c_id)
          [("before", statusJson before); ("after", statusJson status)];;
        notifyContractEnd contract;;
        mret (json 200 (contract_json contract)))).

(** * PATCH /v1/contracts/:contractId/escrow-anchor *)

Definition anchorBlocked (s : ContractStatus) : bool :=
  bool_decide (s = CS_active) || bool_decide (s = CS_closed) || bool_decide (s = CS_cancelled).

(** What the ledger must say of the anchor for the contract to advance. *)
Definition anchorConfirmed (live : option LiveTxStatus) : bool :=
  match live with
  | Some l => l.(lt_validated) && bool_decide (l.(lt_resultCode) = Some "tesSUCCESS")
              && bool_decide (l.(lt_transactionType) = Some "EscrowCreate")
  | None => false
  end.
(** By [tx], then by the [account_tx] of the parties. *)
Definition findAnchor (txHash : string) (parties : list string) : M (option LiveTxStatus) :=
  live ← getTxStatus txHash;
  foldM (fun live account =>
    match live with
    | Some l => mret (Some l)
    | None => if truthy (Some account)
              then map ← getAccountTxResults account; mret (jm_get txHash map)
              else mret None
    end) live parties.

Definition reconcileAnchor (txHash : string) (contract : Contract) : M (Contract * bool) :=
  enabled ← xrplEnabled;
  if negb enabled then mret (contract, false)
  else
    try_catch
      (live ← findAnchor txHash [contract.(c_tenantId); contract.(c_landlordId)];
       if anchorConfirmed live && bool_decide (contract.(c_status) = CS_escrow_pending)
          && isContractStatusTransitionAllowed CS_escrow_pending CS_escrow_validated
       then mret (contract <| c_status := CS_escrow_validated |>, true)
       else mret (contract, false))
      (fun _ => mret (contract, false)).

Definition patchEscrowAnchor (req : Request) (contractId : string) (parsed : Parsed string) : Handler :=
  withParsed parsed (fun rawTxHash =>
    withContract req contractId "Not allowed to update this contract" (fun contract =>
      if anchorBlocked contract.(c_status) then
        mret (err 409 "B2_VALIDATION_ERROR"
          ("Escrow anchor cannot be updated in status " +:+ contractStatus_str contract.(c_status)))
      else
        let txHash := trim rawTxHash in
        if bool_decide (contract.(c_status) = CS_escrow_validated)
           && truthy contract.(c_escrowCreateTxHash)
           && negb (bool_decide (contract.(c_escrowCreateTxHash) = Some txHash)) then
          mret (err 409 "B2_VALIDATION_ERROR"
            "Escrow tx hash is already validated; changing tx hash is not allowed")
        else
          let anchored := contract <| c_escrowCreateTxHash := Some txHash |> in
          if bool_decide (contract.(c_status) = CS_draft)
             && negb (isContractStatusTransitionAllowed CS_draft CS_escrow_pending) then
            saveContract anchored;;
            mret (err 409 "B2_VALIDATION_ERROR" "Invalid transition draft -> escrow_pending")
          else
            let anchored := if bool_decide (contract.(c_status) = CS_draft)
                            then anchored <| c_status := CS_escrow_pending |> else anchored in
            r ← reconcileAnchor txHash anchored;
            let '(reconciled, validated) := r in
            now ← nowIso;
            let final := reconciled <| c_updatedAt := now |> in
            saveContract final;;
            audit "contract" final.(c_id) "contract.escrow_anchor_updated" "operator_local"
              (Some (JObj [("status", statusJson contract.(c_status));
                           ("escrowCreateTxHash", jopt contract.(c_escrowCreateTxHash))]))
              (Some (JObj [("status", statusJson final.(c_status)); ("escrowCreateTxHash", JStr txHash);
                           ("reconciledToValidated", JBool validated)])) None;;
            emit "contract.escrow_anchor_updated" "contract" final.(c_id)
              [("txHash", JStr txHash); ("status", statusJson final.(c_status));
               ("reconciledToValidated", JBool validated)];;
            mret (json 200 (contract_json final)))).
