(* ===== verification/Evidence.v ===== *)
(** The evidence vault: MIME rules ([services/evidence-mime.ts]), data keys
    ([services/evidence-dek.ts], [services/evidence-crypto.ts]), storage
    ([services/ipfs.service.ts], [services/evidence-ipfs-fetch.ts]) and the
    evidence routes of [index.ts], the retention run included. *)
From S2P Require Import Prelude JsString JsMap JsDate Json Types Config World Utils MemoryRepo Http Auth Notify.
From S2P Require Import Contracts.
From Stdlib Require Import Ascii.

(** * MIME types *)

Definition allowedMimes (c : EvidenceCategory) : list string :=
  match c with
  | EC_contract_pdf => ["application/pdf"]
  | EC_utility_bill => ["application/pdf"; "image/jpeg"; "image/png"]
  | EC_photo => ["image/jpeg"; "image/png"; "image/webp"]
  | EC_receipt => ["application/pdf"; "image/jpeg"; "image/png"]
  | EC_other => ["application/pdf"; "image/jpeg"; "image/png"; "image/webp"; "text/plain";
                 "text/markdown"; "application/octet-stream"]
  end.
Definition orOctet (mime : string) : string :=
  if truthy (Some mime) then mime else "application/octet-stream".
Definition normalizedMime (mimeType : string) : string :=
  toLowerCase (trim (default "" (head (split_on ";"%char (orOctet mimeType))))).
Definition assertMimeAllowedForEvidenceCategory (mimeType : string) (c : EvidenceCategory) : M unit :=
  let normalized := normalizedMime mimeType in
  if bool_decide (normalized ∈ allowedMimes c) then mret tt
  else throw ("MIME type " +:+ String Json.dq normalized +:+ String Json.dq
              " is not allowed for evidence category " +:+ String Json.dq (category_str c)
              +:+ String Json.dq "").

(** * Keys and encryption *)

Definition EVIDENCE_ENCRYPTION_SCHEME : string := "aes-256-gcm-v1".
Definition base64Bytes (s : string) : M string := askEnv (fun env => env.(env_base64) s).

Definition getEvidenceEncryptionKey : M (option string) :=
  raw ← askCfg (fun c => trim c.(cfg_encryptionKeyBase64));
  if negb (truthy (Some raw)) then mret None
  else
    buf ← base64Bytes raw;
    if bool_decide (str_length buf = 32) then mret (Some buf)
    else throw "EVIDENCE_ENCRYPTION_KEY must be base64 encoding of exactly 32 bytes".

Record DataKey := mkDataKey { dk_key : string; dk_source : string }.

Definition httpOk (status : Z) : bool := ((200 <=? status) && (status <=? 299))%Z.

(** The HTTP unwrap sidecar. *)
Definition unwrapDataKey (httpUrl : string) : M (option DataKey) :=
  wrapped ← askCfg (fun c => trim c.(cfg_kmsWrappedDekBase64));
  if negb (truthy (Some wrapped)) then
    throw "EVIDENCE_KMS_WRAPPED_DEK_BASE64 is required when EVIDENCE_KMS_HTTP_UNWRAP_URL is set"
  else
    t0 ← dateNow;
    reply ← io (fun env n => env.(env_fetch) n httpUrl (JObj [("ciphertext", JStr wrapped)]));
    match reply with
    | FR_error msg => throw msg
    | FR_resp status text body =>
        t1 ← dateNow;
        metric "kmsHttpUnwrapMs" (t1 - t0)%Z;;
        if negb (httpOk status) then
          throw ("KMS unwrap HTTP " +:+ num_str status +:+ ": " +:+ str_take 200 text)
        else
          match body with
          | None => throw "invalid json"
          | Some b =>
              match jget "plaintextKeyBase64" b with
              | JStr s =>
                  if negb (truthy (Some s)) then throw "KMS unwrap response missing plaintextKeyBase64"
                  else
                    key ← base64Bytes s;
                    if bool_decide (str_length key = 32) then
                      metric "dek_kms_http" 1;; mret (Some (mkDataKey key "kms_http"))
                    else throw "KMS unwrap returned key that is not 32 bytes after base64 decode"
              | _ => throw "KMS unwrap response missing plaintextKeyBase64"
              end
          end
    end.

Definition resolveEvidenceDataKey : M (option DataKey) :=
  envKey ← try_catch getEvidenceEncryptionKey
             (fun e => metric "dek_env_error" 1;; rethrow e);
  match envKey with
  | Some k => metric "dek_env" 1;; mret (Some (mkDataKey k "env"))
  | None =>
      stub ← askCfg (fun c => trim c.(cfg_kmsStubDekBase64));
      if truthy (Some stub) then
        buf ← base64Bytes stub;
        if bool_decide (str_length buf = 32) then
          metric "dek_kms_stub" 1;; mret (Some (mkDataKey buf "kms_stub"))
        else throw "EVIDENCE_KMS_STUB_DEK_BASE64 must be base64 of exactly 32 bytes"
      else
        httpUrl ← askCfg (fun c => trim c.(cfg_kmsHttpUnwrapUrl));
        if truthy (Some httpUrl) then unwrapDataKey httpUrl
        else metric "dek_none" 1;; mret None
  end.

(** [iv | ciphertext | tag]; the cipher is Node's. *)
Definition encryptEvidenceBuffer (plaintext key : string) : M string :=
  io (fun env n => env.(env_encrypt) n plaintext key).
Definition decryptEvidenceBuffer (payload key : string) : M string :=
  if (str_length payload <? 28)%nat then throw "ciphertext too short"
  else
    plain ← askEnv (fun env => env.(env_decrypt) payload key);
    match plain with
    | Some p => mret p
    | None => throw "Unsupported state or unable to authenticate data"
    end.

(** * Storage *)

Record UploadResult := mkUpload { up_cid : string; up_provider : StorageProvider }.

Definition pinOnce (buffer fileName mimeType : string) : M UploadResult :=
  url ← askCfg cfg_pinataEndpoint;
  reply ← io (fun env n => env.(env_fetch) n url
    (JObj [("file", JStr buffer); ("fileName", JStr fileName); ("type", JStr (orOctet mimeType))]));
  match reply with
  | FR_error msg => throw msg
  | FR_resp status text body =>
      if negb (httpOk status) then
        throw ("Pinata upload failed: " +:+ num_str status +:+ " " +:+ text)
      else
        match body with
        | None => throw "invalid json"
        | Some b =>
            match jget "IpfsHash" b with
            | JStr h => if truthy (Some h) then mret (mkUpload h SP_pinata)
                        else throw "Pinata upload response does not include IpfsHash"
            | _ => throw "Pinata upload response does not include IpfsHash"
            end
        end
  end.
(** The attempts that are left; the last failure is thrown. *)
Fixpoint pinAttempts (left : nat) (buffer fileName mimeType : string) : M UploadResult :=
  match left with
  | O => throw "undefined"
  | S left' =>
      try_catch (pinOnce buffer fileName mimeType)
        (fun e => match left' with
                  | O => rethrow e
                  | S _ => pinAttempts left' buffer fileName mimeType
                  end)
  end.
Definition uploadViaPinata (buffer fileName mimeType : string) : M UploadResult :=
  jwt ← askCfg cfg_pinataJwt;
  if negb (truthy (Some jwt)) then throw "IPFS_PINATA_JWT is required when IPFS_MODE=pinata"
  else
    maxAttempts ← askCfg cfg_pinataMaxAttempts;
    pinAttempts (Z.to_nat maxAttempts) buffer fileName mimeType.
Definition ipfsUpload (buffer fileName mimeType sha256 : string) : M UploadResult :=
  mode ← askCfg cfg_ipfsMode;
  if bool_decide (mode = IM_pinata) then uploadViaPinata buffer fileName mimeType
  else mret (mkUpload (generateCidFromHash sha256) SP_mock).

Definition unpinIfPinata (cid : string) (storageProvider : StorageProvider) : M unit :=
  mode ← askCfg cfg_ipfsMode;
  jwt ← askCfg cfg_pinataJwt;
  if negb (bool_decide (storageProvider = SP_pinata)) || negb (bool_decide (mode = IM_pinata)) then mret tt
  else if negb (truthy (Some jwt)) then mret tt
  else
    base ← askCfg cfg_pinataUnpinBaseUrl;
    reply ← io (fun env n => env.(env_fetch) n (base +:+ "/" +:+ encodeURIComponent cid) (JObj [("method", JStr "DELETE")]));
    match reply with
    | FR_error msg => throw msg
    | FR_resp status text _ =>
        if httpOk status then mret tt
        else throw ("Pinata unpin failed: " +:+ num_str status +:+ " " +:+ text)
    end.

(** [base.replace(/\/$/, "")] *)
Definition dropTrailingSlash (s : string) : string :=
  if endsWith s "/" then str_take (str_length s - 1) s else s.
Definition fetchEvidenceBytesFromPublicGateway (cid : string) : M string :=
  base ← askCfg (fun c => dropTrailingSlash c.(cfg_ipfsGatewayBase));
  reply ← io (fun env n => env.(env_fetch) n (base +:+ "/" +:+ cid) JUndef);
  match reply with
  | FR_error msg => throw msg
  | FR_resp status text _ =>
      if httpOk status then mret text
      else throw ("IPFS gateway HTTP " +:+ num_str status +:+ " for cid")
  end.

(** * POST /v1/evidences *)

(** What the multipart parser (multer) gives. *)
Record UploadedFile := mkFile {
  fl_buffer : string; fl_originalname : string; fl_mimetype : string; fl_size : Z }.
Inductive Upload :=
  | Up_too_large
  | Up_error (msg : string)
  | Up_file (file : option UploadedFile).

Record EvidenceForm := mkEvidenceForm {
  ef_contractId : string; ef_disputeId : option string; ef_category : EvidenceCategory;
  ef_uploaderId : option string; ef_retentionDays : option Z }.
(** What [evidenceUploadFormSchema] accepts. *)
Definition evidenceUploadFormSchema (f : EvidenceForm) : bool :=
  truthy (Some f.(ef_contractId)) &&
  (match f.(ef_disputeId) with Some d => truthy (Some d) | None => true end) &&
  (match f.(ef_uploaderId) with Some u => truthy (Some u) | None => true end) &&
  (match f.(ef_retentionDays) with Some n => (1 <=? n)%Z | None => true end).

Definition disputeOnContract (disputeId : option string) (contractId : string) : M bool :=
  match disputeId with
  | None => mret true
  | Some d =>
      if truthy disputeId then
        dispute ← getDispute d;
        mret (match dispute with
              | Some x => bool_decide (x.(d_contractId) = contractId)
              | None => false
              end)
      else mret true
  end.

(** [if (m throws) return err(...)]: the outcome of a [try] block. *)
Definition attempt {A} (m : M A) : M (string + A) :=
  try_catch (a ← m; mret (inr a)) (fun e => mret (inl (exn_message e))).

Definition encryptForStorage (plaintext : string) : M (string * option string * option string) :=
  resolved ← resolveEvidenceDataKey;
  match resolved with
  | Some dk => payload ← encryptEvidenceBuffer plaintext dk.(dk_key);
               mret (payload, Some EVIDENCE_ENCRYPTION_SCHEME, Some dk.(dk_source))
  | None => mret (plaintext, None, None)
  end.

Definition dayMs : Z := 86400000.
Definition retentionStamp (retainDays : option Z) : M (option string) :=
  match retainDays with
  | Some n => ms ← dateNow; mret (Some (toISOString (ms + n * dayMs)))
  | None => mret None
  end.

(** The row is written once the content is stored. *)
Definition recordEvidence (f : EvidenceForm) (file : UploadedFile) (uploaderId hash : string)
    (scheme dekSource : option string) (up : UploadResult) : Handler :=
  let cid := if truthy (Some up.(up_cid)) then up.(up_cid) else generateCidFromHash hash in
  evidenceId ← randomId "evd";
  existing ← countEvidenceVersions f.(ef_contractId) f.(ef_disputeId) (category_str f.(ef_category));
  let version := (existing + 1)%Z in
  createdAt ← nowIso;
  maxDays ← askCfg cfg_maxRetentionDays;
  retainUntil ← retentionStamp ((fun n => Z.min n maxDays) <$> f.(ef_retentionDays));
  let evidence :=
    mkEvidence evidenceId f.(ef_contractId) f.(ef_disputeId) uploaderId f.(ef_category) cid hash
      (orOctet file.(fl_mimetype)) file.(fl_size) version
      (match scheme with Some _ => true | None => false end) scheme retainUntil (Some RC_standard)
      None None up.(up_provider) createdAt hash in
  saveEvidence evidence;;
  kmsKeyRef ← askCfg cfg_kmsKeyRef;
  audit "evidence" evidenceId "evidence.uploaded" uploaderId None
    (Some (JObj ([("cid", JStr cid); ("version", JNum version); ("contractId", JStr f.(ef_contractId));
                  ("disputeId", jopt f.(ef_disputeId)); ("category", JStr (category_str f.(ef_category)));
                  ("provider", JStr (provider_str up.(up_provider)));
                  ("encryptionScheme", jnull scheme); ("retainUntil", jnull retainUntil)]
                 ++ (if truthy (Some kmsKeyRef) then [("kmsKeyRef", JStr kmsKeyRef)] else [])
                 ++ (match dekSource with Some s => [("dekSource", JStr s)] | None => [] end)))) None;;
  emit "evidence.uploaded" "evidence" evidenceId
    [("contractId", JStr f.(ef_contractId)); ("disputeId", jopt f.(ef_disputeId)); ("cid", JStr cid);
     ("version", JNum version)];;
  mret (json 201 (JObj
    [("evidenceId", JStr evidenceId); ("cid", JStr cid); ("sha256", JStr hash);
     ("version", JNum version); ("createdAt", JStr createdAt); ("encryptionScheme", jopt scheme);
     ("retainUntil", jopt retainUntil); ("retentionClass", JStr "standard")])).

Definition storeEvidence (f : EvidenceForm) (file : UploadedFile) (uploaderId : string) : Handler :=
  hash ← sha256 file.(fl_buffer);
  enc ← attempt (encryptForStorage file.(fl_buffer));
  match enc with
  | inl msg => mret (err 500 "B2_CONFIG_ERROR" msg)
  | inr (payload, scheme, dekSource) =>
      up ← attempt (ipfsUpload payload
             (if truthy (Some file.(fl_originalname)) then file.(fl_originalname) else "evidence.bin")
             (orOctet file.(fl_mimetype)) hash);
      match up with
      | inl msg => mret (err 502 "B2_IPFS_UPLOAD_FAILED" msg)
      | inr up => recordEvidence f file uploaderId hash scheme dekSource up
      end
  end.

Definition tooManyDays (cfg : Config) (days : option Z) : bool :=
  match days with Some n => (cfg.(cfg_maxRetentionDays) <? n)%Z | None => false end.

Definition handlePostEvidence (req : Request) (file : option UploadedFile)
    (parsed : Parsed EvidenceForm) : Handler :=
  match file with
  | None => mret (err 400 "B2_VALIDATION_ERROR" "file is required")
  | Some file =>
      withParsed parsed (fun f =>
        let uploaderId := default "operator_local" (nonempty (trim <$> f.(ef_uploaderId))) in
        maxDays ← askCfg cfg_maxRetentionDays;
        tooMany ← askCfg (fun cfg => tooManyDays cfg f.(ef_retentionDays));
        if tooMany : bool then
          mret (err 400 "B2_VALIDATION_ERROR" ("retentionDays must be <= " +:+ num_str maxDays))
        else
          withContract req f.(ef_contractId) "Not allowed to upload evidence for this contract"
            (fun _ =>
              ok ← disputeOnContract f.(ef_disputeId) f.(ef_contractId);
              if negb ok then
                mret (err 400 "B2_VALIDATION_ERROR"
                  "disputeId must refer to a dispute on the given contractId")
              else
                mime ← attempt (assertMimeAllowedForEvidenceCategory (orOctet file.(fl_mimetype))
                                  f.(ef_category));
                match mime with
                | inl msg => mret (err 400 "B2_EVIDENCE_MIME_NOT_ALLOWED" msg)
                | inr _ => storeEvidence f file uploaderId
                end))
  end.

Definition postEvidence (req : Request) (upload : Upload) (parsed : Parsed EvidenceForm) : Handler :=
  match upload with
  | Up_too_large =>
      maxBytes ← askCfg cfg_maxUploadBytes;
      mret (err 413 "B2_EVIDENCE_TOO_LARGE"
              ("Evidence file exceeds limit of " +:+ num_str maxBytes +:+ " bytes"))
  | Up_error msg => throw msg
  | Up_file file => handlePostEvidence req file parsed
  end.

(** * Reading *)

(** The row, when the caller may access its contract. *)
Definition withEvidence (req : Request) (evidence : option EvidenceFile) (missing forbidden : string)
    (k : EvidenceFile -> Handler) : Handler :=
  match evidence with
  | None => mret (err 404 "B2_NOT_FOUND" missing)
  | Some e =>
      contract ← getContract e.(e_contractId);
      ok ← (match contract with Some c => mayAccess req c | None => mret false end);
      if negb ok then mret (err 403 "B2_FORBIDDEN" forbidden) else k e
  end.

Record VerifyEvidence := mkVerify { ve_cid : string; ve_expectedSha256 : string }.
(** What [verifyEvidenceSchema] accepts. *)
Definition verifyEvidenceSchema (b : VerifyEvidence) : bool :=
  ((8 <=? str_length b.(ve_cid)) && (32 <=? str_length b.(ve_expectedSha256)))%nat.

Definition postEvidenceVerify (req : Request) (parsed : Parsed VerifyEvidence) : Handler :=
  withParsed parsed (fun b =>
    evidence ← findEvidenceByCid b.(ve_cid);
    withEvidence req evidence "Evidence by cid not found" "Not allowed to verify this evidence" (fun e =>
      let verified := bool_decide (e.(e_sha256) = b.(ve_expectedSha256)) in
      audit "evidence" e.(e_id) "evidence.verified" "system" None None
        (Some (JObj [("verified", JBool verified)]));;
      mret (json 200 (JObj [("verified", JBool verified); ("cid", JStr b.(ve_cid));
                            ("actualSha256", JStr e.(e_sha256))])))).

Definition getEvidenceById (req : Request) (evidenceId : string) : Handler :=
  evidence ← getEvidence evidenceId;
  withEvidence req evidence "Evidence not found" "Not allowed to read this evidence" (fun e =>
    audit "evidence" e.(e_id) "evidence.read" "operator_local" None None None;;
    mret (json 200 (evidence_response e))).

(** ** GET /v1/evidences/:evidenceId/content *)

Definition mockContent (e : EvidenceFile) : string :=
  "mock-evidence:" +:+ e.(e_id) +:+ ":" +:+ str_take 48 e.(e_sha256).

Definition sendContent (req : Request) (e : EvidenceFile) (evidenceId body : string) : Handler :=
  audit "evidence" e.(e_id) "evidence.content_downloaded" (actorOf req "operator_local") None None
    (Some (JObj [("storageProvider", JStr (provider_str e.(e_storageProvider)))]));;
  mret (mkResponse 200 (JStr body)
    [("Content-Type", orOctet e.(e_mimeType));
     ("Content-Disposition", "inline; filename=" +:+ String Json.dq (encodeURIComponent evidenceId) +:+ String Json.dq "")]).

(** The digest of what was downloaded must be the stored one. *)
Definition checkIntegrity (req : Request) (e : EvidenceFile) (evidenceId body : string) : Handler :=
  if bool_decide (e.(e_storageProvider) = SP_mock) then sendContent req e evidenceId body
  else
    digest ← sha256 body;
    if negb (bool_decide (digest = e.(e_sha256))) then
      mret (err 502 "B2_EVIDENCE_INTEGRITY" "Downloaded content sha256 does not match stored digest")
    else sendContent req e evidenceId body.

Definition decryptContent (req : Request) (e : EvidenceFile) (evidenceId body : string) : Handler :=
  if negb (bool_decide (e.(e_encryptionScheme) = Some EVIDENCE_ENCRYPTION_SCHEME)) then
    checkIntegrity req e evidenceId body
  else
    resolved ← attempt resolveEvidenceDataKey;
    match resolved with
    | inl msg => mret (err 500 "B2_CONFIG_ERROR" msg)
    | inr None => mret (err 500 "B2_CONFIG_ERROR"
        "EVIDENCE_ENCRYPTION_KEY, KMS stub DEK, or KMS HTTP unwrap required to decrypt")
    | inr (Some dk) =>
        plain ← attempt (decryptEvidenceBuffer body dk.(dk_key));
        match plain with
        | inl msg => mret (err 502 "B2_EVIDENCE_DECRYPT_FAILED" msg)
        | inr p => checkIntegrity req e evidenceId p
        end
    end.

Definition getEvidenceContent (req : Request) (evidenceId : string) : Handler :=
  evidence ← getEvidence evidenceId;
  withEvidence req evidence "Evidence not found" "Not allowed to download this evidence" (fun e =>
    if bool_decide (e.(e_storageProvider) = SP_mock) then decryptContent req e evidenceId (mockContent e)
    else
      body ← attempt (fetchEvidenceBytesFromPublicGateway e.(e_cid));
      match body with
      | inl msg => mret (err 502 "B2_EVIDENCE_FETCH_FAILED" msg)
      | inr b => decryptContent req e evidenceId b
      end).

(** * PATCH /v1/operator/evidences/:evidenceId/metadata *)

(** A field of the patch: absent, [null], or a value. *)
Inductive Patch (A : Type) := P_absent | P_null | P_set (a : A).
Arguments P_absent {A}. Arguments P_null {A}. Arguments P_set {A}.

Record EvidenceMetadataPatch := mkMetadataPatch {
  mp_retentionClass : option EvidenceRetentionClass; mp_jurisdiction : Patch string;
  mp_legalHoldUntil : Patch string; mp_retainUntil : Patch string }.

(** A date of the patch: the new value, or the message of the 400. *)
Definition patchDate (legacy : string -> option Z) (name : string) (p : Patch string)
    (old : option string) : string + option string :=
  match p with
  | P_absent => inr old
  | P_null => inr None
  | P_set s => parseOptionalIso legacy name (Some s)
  end.
Definition patchedEvidence (p : EvidenceMetadataPatch) (legalHoldUntil retainUntil : option string)
    (e : EvidenceFile) : EvidenceFile :=
  e <| e_retentionClass := from_option Some e.(e_retentionClass) p.(mp_retentionClass) |>
    <| e_jurisdiction := match p.(mp_jurisdiction) with
                         | P_absent => e.(e_jurisdiction) | P_null => None | P_set j => Some j end |>
    <| e_legalHoldUntil := legalHoldUntil |> <| e_retainUntil := retainUntil |>.

Definition patchEvidenceMetadata (req : Request) (evidenceId : string)
    (parsed : Parsed EvidenceMetadataPatch) : Handler :=
  withParsed parsed (fun p =>
    evidence ← getEvidence evidenceId;
    withEvidence req evidence "Evidence not found" "Not allowed to update this evidence" (fun e =>
      legacy ← askEnv env_legacyDate;
      match patchDate legacy "legalHoldUntil" p.(mp_legalHoldUntil) e.(e_legalHoldUntil) with
      | inl msg => mret (err 400 "B2_VALIDATION_ERROR" msg)
      | inr legalHoldUntil =>
          match patchDate legacy "retainUntil" p.(mp_retainUntil) e.(e_retainUntil) with
          | inl msg => mret (err 400 "B2_VALIDATION_ERROR" msg)
          | inr retainUntil =>
              let next := patchedEvidence p legalHoldUntil retainUntil e in
              saveEvidence next;;
              audit "evidence" evidenceId "evidence.metadata_updated" (actorOf req "operator")
                (Some (JObj [("retentionClass", JStr (retentionClass_str (default RC_standard e.(e_retentionClass))));
                             ("jurisdiction", jnull e.(e_jurisdiction));
                             ("legalHoldUntil", jnull e.(e_legalHoldUntil));
                             ("retainUntil", jnull e.(e_retainUntil))]))
                (Some (JObj [("retentionClass", retention_json next.(e_retentionClass));
                             ("jurisdiction", jnull next.(e_jurisdiction));
                             ("legalHoldUntil", jnull next.(e_legalHoldUntil));
                             ("retainUntil", jnull next.(e_retainUntil))])) None;;
              emit "evidence.metadata_updated" "evidence" evidenceId
                [("contractId", JStr next.(e_contractId))];;
              mret (json 200 (evidence_response next))
          end
      end)).

(** * Retention *)

Definition purgeOne (req : Request) (ev : EvidenceFile) : M unit :=
  try_catch (unpinIfPinata ev.(e_cid) ev.(e_storageProvider)) (fun _ => mret tt);;
  deleteEvidence ev.(e_id);;
  audit "evidence" ev.(e_id) "evidence.retention_purged" (actorOf req "operator") None None
    (Some (JObj [("retainUntil", jopt ev.(e_retainUntil)); ("contractId", JStr ev.(e_contractId));
                 ("retentionClass", retention_json ev.(e_retentionClass));
                 ("legalHoldUntil", jnull ev.(e_legalHoldUntil))]));;
  emit "evidence.retention_purged" "evidence" ev.(e_id) [("contractId", JStr ev.(e_contractId))].

Definition postRetentionRun (req : Request) : Handler :=
  now ← nowIso;
  past ← listEvidencesPastRetention now;
  forEach (purgeOne req) past;;
  mret (json 200 (JObj [("scanned", JNum (Z.of_nat (length past)));
                        ("purgedCount", JNum (Z.of_nat (length past)));
                        ("purgedIds", JArr ((fun e => JStr e.(e_id)) <$> past))])).

Definition retentionDueItem (e : EvidenceFile) : JsVal :=
  JObj [("id", JStr e.(e_id)); ("contractId", JStr e.(e_contractId)); ("disputeId", jopt e.(e_disputeId));
        ("retainUntil", jopt e.(e_retainUntil));
        ("retentionClass", JStr (retentionClass_str (default RC_standard e.(e_retentionClass))));
        ("jurisdiction", jopt e.(e_jurisdiction)); ("legalHoldUntil", jopt e.(e_legalHoldUntil));
        ("category", JStr (category_str e.(e_category))); ("createdAt", JStr e.(e_createdAt))].
Definition getRetentionDue : Handler :=
  now ← nowIso;
  past ← listEvidencesPastRetention now;
  mret (json 200 (JObj [("count", JNum (Z.of_nat (length past)));
                        ("items", JArr (retentionDueItem <$> past))])).
