(* ===== verification/Disputes.v ===== *)
(** The dispute routes of [index.ts]: filing, review, verifier votes,
    escalation, decision and execution, with the execution policy
    ([services/execution-policy.ts], [services/execution-submit.ts]), the
    verifier registry and the review-deadline scan. *)
From S2P Require Import Prelude JsString JsMap JsDate Types Config World Utils MemoryRepo Http Auth Notify XrplTrack.
From S2P Require Import Contracts.

(** * Access *)

Definition mayAccessContractOf (req : Request) (contractId : string) : M bool :=
  contract ← getContract contractId;
  match contract with Some c => mayAccess req c | None => mret false end.
Definition canAccessDispute (req : Request) (d : DisputeCase) : M bool :=
  mayAccessContractOf req d.(d_contractId).

Definition withDispute (req : Request) (disputeId forbidden : string)
    (k : DisputeCase -> Handler) : Handler :=
  dispute ← getDispute disputeId;
  match dispute with
  | None => mret (err 404 "B2_NOT_FOUND" "Dispute not found")
  | Some d =>
      ok ← canAccessDispute req d;
      if negb ok then mret (err 403 "B2_FORBIDDEN" forbidden) else k d
  end.

Definition dsJson (s : DisputeStatus) : JsVal := JStr (disputeStatus_str s).

(** Notify the parties of the dispute's contract, when it exists. *)
Definition notifyParties (contractId eventType : string) (payload : list (string * JsVal)) : M unit :=
  contract ← getContract contractId;
  ifSome contract (fun c =>
    maybeEnqueueDomainNotifications eventType (contractPartyRecipientIds c) payload).

(** * POST /v1/disputes *)

Record CreateDispute := mkCreateDispute {
  cr_contractId : string; cr_raisedBy : DisputeParty; cr_reasonCode : string;
  cr_evidenceIds : list string }.
(** What [createDisputeSchema] accepts. *)
Definition createDisputeSchema (b : CreateDispute) : bool :=
  truthy (Some b.(cr_contractId)) && truthy (Some b.(cr_reasonCode)) &&
  forallb (fun i => truthy (Some i)) b.(cr_evidenceIds) && negb (bool_decide (b.(cr_evidenceIds) = [])).

(** The first evidence that is missing or of another contract. *)
Fixpoint checkEvidences (ids : list string) (contractId : string) : M (option Response) :=
  match ids with
  | [] => mret None
  | id :: ids' =>
      ev ← getEvidence id;
      match ev with
      | None => mret (Some (err 404 "B2_NOT_FOUND" ("Evidence missing: " +:+ id)))
      | Some e =>
          if bool_decide (e.(e_contractId) = contractId) then checkEvidences ids' contractId
          else mret (Some (err 400 "B2_VALIDATION_ERROR"
                             ("Evidence " +:+ id +:+ " does not belong to this contract")))
      end
  end.

Definition newDispute (id now : string) (b : CreateDispute) : DisputeCase :=
  mkDispute id b.(cr_contractId) b.(cr_raisedBy) b.(cr_reasonCode) DS_filed b.(cr_evidenceIds)
    now now None None.

Definition postDispute (req : Request) (parsed : Parsed CreateDispute) : Handler :=
  withParsed parsed (fun b =>
    withContract req b.(cr_contractId) "Not allowed to create dispute for this contract" (fun contract =>
      bad ← checkEvidences b.(cr_evidenceIds) b.(cr_contractId);
      match bad with
      | Some res => mret res
      | None =>
          disputeId ← randomId "dsp";
          now ← nowIso;
          saveDispute (newDispute disputeId now b);;
          audit "dispute" disputeId "dispute.filed" (party_str b.(cr_raisedBy)) None
            (Some (JObj [("contractId", JStr b.(cr_contractId));
                         ("evidenceCount", JNum (Z.of_nat (length b.(cr_evidenceIds))));
                         ("reasonCode", JStr b.(cr_reasonCode))])) None;;
          emit "dispute.filed" "dispute" disputeId
            [("contractId", JStr b.(cr_contractId)); ("raisedBy", JStr (party_str b.(cr_raisedBy)));
             ("reasonCode", JStr b.(cr_reasonCode))];;
          maybeEnqueueDomainNotifications "dispute.filed" (contractPartyRecipientIds contract)
            [("disputeId", JStr disputeId); ("contractId", JStr b.(cr_contractId));
             ("raisedBy", JStr (party_str b.(cr_raisedBy))); ("reasonCode", JStr b.(cr_reasonCode))];;
          mret (json 201 (JObj [("disputeId", JStr disputeId); ("status", JStr "filed");
                                ("createdAt", JStr now)]))
      end)).

(** * PATCH /v1/disputes/:disputeId/status *)

(** The values [disputeStatusPatchSchema] accepts. *)
Inductive ReviewStatus := RV_under_review | RV_filed.
Definition reviewStatus (r : ReviewStatus) : DisputeStatus :=
  match r with RV_under_review => DS_under_review | RV_filed => DS_filed end.

Definition isDisputeReviewStatusAllowed (from to : DisputeStatus) : bool :=
  (bool_decide (from = DS_filed) && bool_decide (to = DS_under_review))
  || (bool_decide (from = DS_under_review) && bool_decide (to = DS_filed)).

(** The row after the patch: the deadline is set on entering the review, and
    both markers are cleared on leaving it. *)
Definition patchedDispute (next : ReviewStatus) (now : string) (deadline : option string)
    (d : DisputeCase) : DisputeCase :=
  let d1 := d <| d_status := reviewStatus next |> <| d_updatedAt := now |> in
  match next with
  | RV_under_review => d1 <| d_reviewDeadlineAt := deadline |>
  | RV_filed => d1 <| d_reviewDeadlineAt := None |> <| d_escalatedAt := None |>
  end.
Definition reviewDeadline (next : ReviewStatus) : M (option string) :=
  match next with
  | RV_under_review =>
      due ← dateNow;
      days ← askCfg cfg_reviewDeadlineDays;
      mret (Some (toISOString (addUTCDays due days)))
  | RV_filed => mret None
  end.

Definition patchDisputeStatus (req : Request) (disputeId : string) (parsed : Parsed ReviewStatus) :
    Handler :=
  withParsed parsed (fun next =>
    withDispute req disputeId "Not allowed to update this dispute" (fun dispute =>
      if negb (isDisputeReviewStatusAllowed dispute.(d_status) (reviewStatus next)) then
        mret (err 409 "B2_VALIDATION_ERROR"
          ("Cannot transition dispute status " +:+ disputeStatus_str dispute.(d_status) +:+ " -> "
           +:+ disputeStatus_str (reviewStatus next)))
      else
        authEnabled ← askCfg cfg_authEnabled;
        if bool_decide (reviewStatus next = DS_filed) && authEnabled
           && negb (bool_decide (roleOf req = Some R_operator)) then
          mret (err 403 "B2_FORBIDDEN"
            "Only operator may move a dispute from under_review back to filed")
        else
          now ← nowIso;
          deadline ← reviewDeadline next;
          let before := dispute.(d_status) in
          let d := patchedDispute next now deadline dispute in
          saveDispute d;;
          audit "dispute" disputeId "dispute.status_patched" (actorOf req "system")
            (Some (JObj [("status", dsJson before)])) (Some (JObj [("status", dsJson d.(d_status))])) None;;
          (match next with
           | RV_under_review =>
               emit "dispute.review_started" "dispute" disputeId [("fromStatus", dsJson before)];;
               notifyParties d.(d_contractId) "dispute.review_started"
                 [("disputeId", JStr disputeId); ("contractId", JStr d.(d_contractId))]
           | RV_filed => mret tt
           end);;
          mret (json 200 (JObj [("disputeId", JStr disputeId); ("status", dsJson d.(d_status));
                                ("updatedAt", JStr d.(d_updatedAt))])))).

(** * Verifier votes *)

Definition openForReview (s : DisputeStatus) : bool :=
  bool_decide (s = DS_filed) || bool_decide (s = DS_under_review).

Record VerifierVote := mkVerifierVote { vv_verifierId : string; vv_recommendation : DisputeDecisionChoice }.

Definition postVerifierVote (req : Request) (disputeId : string) (parsed : Parsed VerifierVote) : Handler :=
  withParsed parsed (fun b =>
    withDispute req disputeId "Not allowed to vote on this dispute" (fun dispute =>
      if negb (openForReview dispute.(d_status)) then
        mret (err 409 "B2_VALIDATION_ERROR"
          "Verifier votes are only accepted while dispute is filed or under_review")
      else
        priorVotes ← listDisputeVerifierVotes disputeId;
        if existsb (fun v => bool_decide (v.(v_verifierId) = b.(vv_verifierId))) priorVotes then
          mret (err 409 "B2_CONFLICT"
            "This verifier has already submitted a recommendation for this dispute")
        else
          id ← randomId "dvv";
          createdAt ← nowIso;
          appendDisputeVerifierVote
            (mkVote id disputeId b.(vv_verifierId) b.(vv_recommendation) createdAt);;
          emit "dispute.verifier_vote" "dispute" disputeId
            [("verifierId", JStr b.(vv_verifierId));
             ("recommendation", JStr (decision_str b.(vv_recommendation)))];;
          audit "dispute" disputeId "dispute.verifier_vote" b.(vv_verifierId) None None
            (Some (JObj [("recommendation", JStr (decision_str b.(vv_recommendation)))]));;
          mret (json 201 (JObj [("disputeId", JStr disputeId); ("recorded", JBool true)])))).

(** ** The quorum *)

Definition tallyVotes (rows : list DisputeVerifierVoteRecord) : JsMap Z :=
  countBy (fun v => decision_str v.(v_recommendation)) rows.
(** [Math.max(0, ...Object.values(tally))] *)
Definition maxCount (tally : JsMap Z) : Z := foldr Z.max 0%Z (jm_values tally).
Definition quorumMet (quorumK : Z) (rows : list DisputeVerifierVoteRecord) : bool :=
  (quorumK <=? maxCount (tallyVotes rows))%Z.
Definition voteView (v : DisputeVerifierVoteRecord) : JsVal :=
  JObj [("verifierId", JStr v.(v_verifierId));
        ("recommendation", JStr (decision_str v.(v_recommendation)));
        ("occurredAt", JStr v.(v_createdAt)); ("eventId", JStr v.(v_id))].

Definition getReviewState (req : Request) (disputeId : string) : Handler :=
  withDispute req disputeId "Not allowed to read this dispute" (fun dispute =>
    rows ← listDisputeVerifierVotes disputeId;
    quorumK ← askCfg cfg_verifierQuorumK;
    mret (json 200 (JObj
      [("disputeId", JStr disputeId); ("status", dsJson dispute.(d_status));
       ("reviewDeadlineAt", jopt dispute.(d_reviewDeadlineAt));
       ("escalatedAt", jopt dispute.(d_escalatedAt)); ("votes", JArr (voteView <$> rows));
       ("tally", counts_json (tallyVotes rows)); ("quorumMet", JBool (quorumMet quorumK rows));
       ("quorumK", JNum quorumK)]))).

(** * Escalation *)

Definition escalated (t : string) (d : DisputeCase) : DisputeCase :=
  d <| d_escalatedAt := Some t |> <| d_updatedAt := t |>.

Definition postEscalate (req : Request) (disputeId : string) : Handler :=
  withDispute req disputeId "Not allowed to escalate this dispute" (fun dispute =>
    t ← nowIso;
    saveDispute (escalated t dispute);;
    audit "dispute" disputeId "dispute.escalated" (actorOf req "operator") None
      (Some (JObj [("escalatedAt", JStr t)])) None;;
    emit "dispute.escalated" "dispute" disputeId
      [("reviewDeadlineAt", jnull dispute.(d_reviewDeadlineAt))];;
    notifyParties dispute.(d_contractId) "dispute.escalated"
      [("disputeId", JStr disputeId); ("contractId", JStr dispute.(d_contractId))];;
    mret (json 200 (JObj [("disputeId", JStr disputeId); ("escalatedAt", JStr t)]))).

(** * Listing and reading *)

Record DisputeListQuery := mkDisputeListQuery { dlq_page : ListQuery; dlq_contractId : option string }.

Definition getDisputes (parsed : Parsed DisputeListQuery) : Handler :=
  withParsed parsed (fun q =>
    withWindow "updatedFrom" "updatedTo" q.(dlq_page).(lq_updatedFrom) q.(dlq_page).(lq_updatedTo)
      (fun updatedFrom updatedTo =>
        page ← listDisputesPage (mkDisputeFilter q.(dlq_contractId) q.(dlq_page).(lq_status)
                                   updatedFrom updatedTo)
                 (mkListParams q.(dlq_page).(lq_limit) q.(dlq_page).(lq_offset));
        mret (json 200 (page_json dispute_json page)))).

Definition getDisputeById (req : Request) (disputeId : string) : Handler :=
  withDispute req disputeId "Not allowed to read this dispute" (fun d =>
    mret (json 200 (dispute_json d))).

(** * Decision *)

Record DecisionBody := mkDecisionBody { db_decision : DisputeDecisionChoice; db_memo : option string }.

Definition postDecision (req : Request) (disputeId : string) (parsed : Parsed DecisionBody) : Handler :=
  withParsed parsed (fun b =>
    withDispute req disputeId "Not allowed to record decision for this dispute" (fun dispute =>
      if negb (openForReview dispute.(d_status)) then
        mret (err 409 "B2_VALIDATION_ERROR" "Invalid status for decision")
      else
        decisionId ← randomId "dcs";
        decidedAt ← nowIso;
        saveDecision (mkDecision decisionId dispute.(d_id) b.(db_decision) b.(db_memo) decidedAt);;
        now ← nowIso;
        let d := dispute <| d_status := DS_decided |> <| d_updatedAt := now |> in
        saveDispute d;;
        audit "dispute" d.(d_id) "dispute.decision_recorded" "verifier_mock"
          (Some (JObj [("status", dsJson dispute.(d_status))]))
          (Some (JObj [("status", dsJson d.(d_status)); ("decisionId", JStr decisionId);
                       ("decision", JStr (decision_str b.(db_decision)))])) None;;
        emit "dispute.decision_recorded" "dispute" d.(d_id)
          [("decisionId", JStr decisionId); ("decision", JStr (decision_str b.(db_decision)))];;
        notifyParties d.(d_contractId) "dispute.decision_recorded"
          [("disputeId", JStr d.(d_id)); ("contractId", JStr d.(d_contractId));
           ("decisionId", JStr decisionId); ("decision", JStr (decision_str b.(db_decision)))];;
        mret (json 200 (JObj [("disputeId", JStr d.(d_id)); ("status", dsJson d.(d_status));
                              ("decisionId", JStr decisionId)])))).

(** * Execution *)

Inductive ExecutionTxType := TX_EscrowFinish | TX_EscrowCancel.
Definition txType_str (t : ExecutionTxType) : string :=
  match t with TX_EscrowFinish => "EscrowFinish" | TX_EscrowCancel => "EscrowCancel" end.

(** [offerSequence] is a number or a string. *)
Record ExecutionBody := mkExecutionBody {
  xb_txType : ExecutionTxType; xb_owner : string; xb_offerSequence : JsVal; xb_network : Network;
  xb_txHash : option string }.
(** What [executionSchema] accepts. *)
Definition executionSchema (b : ExecutionBody) : bool :=
  (20 <=? str_length b.(xb_owner))%nat &&
  (match b.(xb_offerSequence) with
   | JNum n => (0 <=? n)%Z | JStr s => truthy (Some s) | _ => false end) &&
  (match b.(xb_txHash) with
   | Some h => bool_decide (str_length h = 64) && all_chars is_hex h | None => true end).

Definition buildExecutionTx (b : ExecutionBody) : JsVal :=
  JObj [("TransactionType", JStr (txType_str b.(xb_txType))); ("Account", JStr b.(xb_owner));
        ("Owner", JStr b.(xb_owner)); ("OfferSequence", b.(xb_offerSequence))].

Definition syntheticExecutionPathEffective (cfg : Config) : bool :=
  cfg.(cfg_syntheticExecutionHashEnabled) && bool_decide (cfg.(cfg_deploymentTier) = Tier_dev).

Definition trySubmitDisputeExecution (b : ExecutionBody) : M (option string) :=
  submitEnabled ← askCfg cfg_submitEnabled;
  seed ← askCfg (fun c => trim c.(cfg_submitSeed));
  if negb submitEnabled || negb (truthy (Some seed)) then mret None
  else
    enabled ← xrplEnabled;
    if negb enabled then mret None
    else
      wallet ← askEnv (fun env => env.(env_walletAddress) seed);
      match wallet with
      | None => throw "invalid seed"
      | Some address =>
          if negb (bool_decide (address = b.(xb_owner))) then
            throw ("BLUESAFE_EXECUTION_SUBMIT_SEED derives address " +:+ address
                   +:+ " but execution owner is " +:+ b.(xb_owner))
          else h ← submitAndWaitFromWallet (buildExecutionTx b) seed; mret (Some h)
      end.

(** Which hash the execution is tracked under, and whether the ledger backs it. *)
Record ExecutionHash := mkExecHash { eh_txHash : string; eh_ledgerBacked : bool; eh_synthetic : bool }.

Definition ledgerRequired : string :=
  "Ledger-backed execution is required: pass txHash (64 hex), or enable BLUESAFE_EXECUTION_SUBMIT_ENABLED with matching BLUESAFE_EXECUTION_SUBMIT_SEED and XRPL_WSS_URL. If BLUESAFE_EXECUTION_DEPLOYMENT_TIER=strict, synthetic placeholder hashes are never used. See docs/adr/0011-v8-execution-keys-synthetic-hash.md".

Definition executionHash (disputeId : string) (b : ExecutionBody) : M (Response + ExecutionHash) :=
  syntheticAllowed ← askCfg syntheticExecutionPathEffective;
  match nonempty b.(xb_txHash) with
  | Some h => mret (inr (mkExecHash (toUpperCase h) true false))
  | None =>
      submitted ← try_catch (r ← trySubmitDisputeExecution b; mret (inr r))
                    (fun e => mret (inl (exn_message e)));
      match submitted with
      | inl msg => mret (inl (err 502 "B2_EXECUTION_SUBMIT_FAILED" msg))
      | inr (Some h) => mret (inr (mkExecHash h true false))
      | inr None =>
          if negb syntheticAllowed then mret (inl (err 400 "B2_VALIDATION_ERROR" ledgerRequired))
          else
            ms ← dateNow;
            h ← sha256 (disputeId +:+ ":" +:+ txType_str b.(xb_txType) +:+ ":" +:+ num_str ms);
            mret (inr (mkExecHash (toUpperCase (str_take 64 h)) false true))
      end
  end.

(** Track the transaction; with a live ledger, check its type and reconcile
    it.  [Some] is the 409 answer. *)
Definition typeMismatch (b : ExecutionBody) (eh : ExecutionHash) (live : option LiveTxStatus) :
    option string :=
  match live with
  | Some l =>
      match nonempty l.(lt_transactionType) with
      | Some ty => if eh.(eh_ledgerBacked) && negb (bool_decide (ty = txType_str b.(xb_txType)))
                   then Some ty else None
      | None => None
      end
  | None => None
  end.
Definition trackExecution (disputeId : string) (b : ExecutionBody) (eh : ExecutionHash) :
    M (option Response) :=
  let track := upsertTrackedTx eh.(eh_txHash) (txType_str b.(xb_txType)) (Some b.(xb_owner))
                 (Some disputeId) b.(xb_network) in
  enabled ← xrplEnabled;
  if negb enabled then track;; mret None
  else
    live ← getTxStatus eh.(eh_txHash);
    match typeMismatch b eh live with
    | Some ty => mret (Some (err 409 "B2_VALIDATION_ERROR"
        ("Transaction at txHash is " +:+ ty +:+ ", expected " +:+ txType_str b.(xb_txType))))
    | None =>
        track;;
        (match live with
         | Some l => _ ← applyLiveTxStatus eh.(eh_txHash) l; mret tt
         | None => mret tt
         end);;
        mret None
    end.

Definition recordExecutionRequest (synthetic : bool) : M unit :=
  metric (if synthetic then "executionSynthetic" else "executionLedgerTx") 1.

(** The dispute, once its transaction is tracked. *)
Definition requestExecution (req : Request) (dispute : DisputeCase) (b : ExecutionBody)
    (eh : ExecutionHash) (now : string) : Handler :=
  recordExecutionRequest eh.(eh_synthetic);;
  let d := dispute <| d_status := DS_execution_pending |> <| d_updatedAt := now |> in
  saveDispute d;;
  let synthetic := JBool eh.(eh_synthetic) in
  let txType := JStr (txType_str b.(xb_txType)) in
  audit "dispute" d.(d_id) "dispute.execution_requested" (actorOf req "operator")
    (Some (JObj [("status", dsJson dispute.(d_status))]))
    (Some (JObj [("status", dsJson d.(d_status)); ("txHash", JStr eh.(eh_txHash)); ("txType", txType);
                 ("synthetic", synthetic)])) None;;
  emit "dispute.execution_requested" "dispute" d.(d_id)
    [("txHash", JStr eh.(eh_txHash)); ("txType", txType);
     ("network", JStr (network_str b.(xb_network))); ("synthetic", synthetic)];;
  notifyParties d.(d_contractId) "dispute.execution_requested"
    [("disputeId", JStr d.(d_id)); ("contractId", JStr d.(d_contractId));
     ("txHash", JStr eh.(eh_txHash)); ("txType", txType); ("synthetic", synthetic)];;
  requestId ← randomId "exec";
  mret (json 202 (JObj [("requestId", JStr requestId); ("status", JStr "execution_pending");
                        ("txHash", JStr eh.(eh_txHash)); ("synthetic", synthetic)])).

(** The handler up to its first wait on the network; [k] is what follows. *)
Definition executionGuards (req : Request) (disputeId : string) (parsed : Parsed ExecutionBody)
    (k : DisputeCase -> ExecutionBody -> Handler) : Handler :=
  withParsed parsed (fun b =>
    withDispute req disputeId "Not allowed to request execution for this dispute" (fun dispute =>
      if negb (bool_decide (dispute.(d_status) = DS_decided)) then
        mret (err 409 "B2_VALIDATION_ERROR" "Dispute must be decided first")
      else k dispute b)).

(** The object [dispute] as it is now: the repository handed out its own row,
    and whoever changed the dispute since changed that object in place. *)
Definition heldDispute (dispute : DisputeCase) : M DisputeCase :=
  row ← getDispute dispute.(d_id); mret (default dispute row).

(** The rest, which does not look at the status again. *)
Definition finishExecution (req : Request) (dispute : DisputeCase) (b : ExecutionBody) : Handler :=
  hash ← executionHash dispute.(d_id) b;
  match hash with
  | inl res => mret res
  | inr eh =>
      now ← nowIso;
      stop ← trackExecution dispute.(d_id) b eh;
      match stop with
      | Some res => mret res
      | None => held ← heldDispute dispute; requestExecution req held b eh now
      end
  end.

Definition postExecution (req : Request) (disputeId : string) (parsed : Parsed ExecutionBody) : Handler :=
  executionGuards req disputeId parsed (finishExecution req).

(** * The verifier registry *)

Record RegistryBody := mkRegistryBody {
  rb_verifierId : string; rb_displayLabel : option string; rb_active : bool }.

Definition getVerifierRegistry : Handler :=
  items ← listDisputeVerifierRegistry;
  mret (json 200 (JObj [("count", JNum (Z.of_nat (length items)));
                        ("items", JArr (registry_json <$> items))])).

Definition postVerifierRegistry (req : Request) (parsed : Parsed RegistryBody) : Handler :=
  withParsed parsed (fun b =>
    rows ← listDisputeVerifierRegistry;
    let existing := snd <$> list_find (fun e => e.(r_verifierId) = b.(rb_verifierId)) rows in
    t ← nowIso;
    id ← (match existing with Some e => mret e.(r_id) | None => randomId "dvr" end);
    let entry := mkRegistryEntry id b.(rb_verifierId) b.(rb_displayLabel) b.(rb_active)
                   (match existing with Some e => e.(r_createdAt) | None => t end) in
    upsertDisputeVerifierRegistryEntry entry;;
    audit "dispute_verifier_registry" id "dispute_verifier_registry.upsert" (actorOf req "operator") None
      (Some (JObj [("verifierId", JStr entry.(r_verifierId)); ("active", JBool entry.(r_active));
                   ("displayLabel", jopt entry.(r_displayLabel))])) None;;
    mret (json (match existing with Some _ => 200 | None => 201 end) (registry_json entry))).

(** * POST /v1/operator/disputes/review-sla-scan *)

(** The review deadline has passed: a deadline that is missing, does not
    parse or lies ahead is skipped. *)
Definition deadlinePassed (legacy : string -> option Z) (nowMs : Z) (d : DisputeCase) : bool :=
  match d.(d_reviewDeadlineAt) with
  | Some s =>
      if truthy (Some s) then
        match date_parse legacy s with Some t => (t <=? nowMs)%Z | None => false end
      else false
  | None => false
  end.

(** The counters: expired deadlines announced, disputes escalated. *)
Record ScanStats := mkScan { sc_deadlineExpired : Z; sc_autoEscalated : Z }.

Definition autoEscalate (d : DisputeCase) : M unit :=
  t ← nowIso;
  saveDispute (escalated t d);;
  audit "dispute" d.(d_id) "dispute.escalated" "system" None
    (Some (JObj [("escalatedAt", JStr t)])) (Some (JObj [("source", JStr "review_sla_auto")]));;
  emit "dispute.escalated" "dispute" d.(d_id)
    [("contractId", JStr d.(d_contractId)); ("reviewDeadlineAt", jopt d.(d_reviewDeadlineAt));
     ("source", JStr "review_sla_auto")];;
  notifyParties d.(d_contractId) "dispute.escalated"
    [("disputeId", JStr d.(d_id)); ("contractId", JStr d.(d_contractId))].
Definition announceExpired (d : DisputeCase) : M unit :=
  emit "dispute.review_deadline_expired" "dispute" d.(d_id)
    [("contractId", JStr d.(d_contractId)); ("reviewDeadlineAt", jopt d.(d_reviewDeadlineAt))];;
  notifyParties d.(d_contractId) "dispute.review_deadline_expired"
    [("disputeId", JStr d.(d_id)); ("contractId", JStr d.(d_contractId));
     ("reviewDeadlineAt", jopt d.(d_reviewDeadlineAt))].

Definition scanOne (nowMs : Z) (st : ScanStats) (d : DisputeCase) : M ScanStats :=
  legacy ← askEnv env_legacyDate;
  if negb (deadlinePassed legacy nowMs d) then mret st
  else
    auto ← askCfg cfg_slaAutoEscalate;
    if auto : bool then
      if truthy d.(d_escalatedAt) then mret st
      else autoEscalate d;;
           mret (mkScan st.(sc_deadlineExpired) (st.(sc_autoEscalated) + 1)%Z)
    else announceExpired d;;
         mret (mkScan (st.(sc_deadlineExpired) + 1)%Z st.(sc_autoEscalated)).

Definition postReviewSlaScan : Handler :=
  nowMs ← dateNow;
  page ← listDisputesPage (mkDisputeFilter None (Some "under_review") None None) (mkListParams 500 0);
  st ← foldM (scanOne nowMs) (mkScan 0 0) page.(pg_items);
  mret (json 200 (JObj
    [("scanned", JNum (Z.of_nat (length page.(pg_items))));
     ("deadlineExpired", JNum st.(sc_deadlineExpired)); ("autoEscalated", JNum st.(sc_autoEscalated));
     ("flagged", JNum st.(sc_deadlineExpired))])).
