(* ===== verification/XrplApi.v ===== *)
(** The XRPL routes of [index.ts]: tracking, listing, reading and refreshing
    transactions, the escrow objects of an account, and the account backfill. *)
From S2P Require Import Prelude JsString JsMap JsDate Json Types Config World Utils MemoryRepo Http Auth Notify.
From S2P Require Import XrplTrack Contracts.

(** * POST /v1/xrpl/track *)

Record TrackTx := mkTrackTx {
  tt_txHash : string; tt_txType : string; tt_account : option string; tt_network : Network }.
(** What [trackTxSchema] accepts. *)
Definition trackTxSchema (b : TrackTx) : bool :=
  (8 <=? str_length b.(tt_txHash))%nat && truthy (Some b.(tt_txType)) &&
  (match b.(tt_account) with Some a => (20 <=? str_length a)%nat | None => true end).

(** Refresh from the ledger when the live mode is on. *)
Definition refreshTracked (txHash : string) : M unit :=
  enabled ← xrplEnabled;
  if negb enabled then mret tt
  else
    live ← getTxStatus txHash;
    match live with
    | Some l => _ ← applyLiveTxStatus txHash l; mret tt
    | None => mret tt
    end.

Definition postTrack (parsed : Parsed TrackTx) : Handler :=
  withParsed parsed (fun b =>
    upsertTrackedTx b.(tt_txHash) b.(tt_txType) b.(tt_account) None b.(tt_network);;
    refreshTracked b.(tt_txHash);;
    tracked ← getXrplTx b.(tt_txHash);
    let account := tracked ≫= x_account in
    audit "xrpl_tx" b.(tt_txHash) "escrow.tx_submitted" "system" None
      (Some (JObj [("txType", JStr b.(tt_txType)); ("network", JStr (network_str b.(tt_network)))])) None;;
    emit "escrow.tx_submitted" "xrpl_tx" b.(tt_txHash)
      [("txType", JStr b.(tt_txType)); ("network", JStr (network_str b.(tt_network)));
       ("account", jopt (from_option Some b.(tt_account) account))];;
    mret (json 202 (JObj
      [("txHash", JStr b.(tt_txHash));
       ("trackingStatus", JStr (trackingStatus_str
          (match tracked with Some t => t.(x_trackingStatus) | None => TS_pending_validation end)));
       ("validated", JBool (match tracked with Some t => t.(x_validated) | None => false end));
       ("account", jnull account)]))).

(** * Listing and reading *)

Record XrplTxListQuery := mkXrplTxListQuery {
  xlq_limit : nat; xlq_offset : nat; xlq_account : option string;
  xlq_trackingStatus : option string; xlq_validated : option bool; xlq_network : option Network }.

Definition getXrplTransactions (parsed : Parsed XrplTxListQuery) : Handler :=
  withParsed parsed (fun q =>
    page ← listXrplTxsPage (mkXrplFilter q.(xlq_account) q.(xlq_trackingStatus) q.(xlq_validated)
                              (network_str <$> q.(xlq_network)))
             (mkListParams q.(xlq_limit) q.(xlq_offset));
    mret (json 200 (page_json xrplTx_json page))).

Definition hintOf (t : XrplTransaction) : JsVal :=
  let h := xrplTxClientPolicyHint t.(x_trackingStatus) t.(x_validated)
             (default (classifyXrplResultCode t.(x_resultCode)) t.(x_outcomeClass)) t.(x_resultCode) in
  JObj [("code", JStr h.(hint_code)); ("message", JStr h.(hint_message))].

Definition txView (t : XrplTransaction) : JsVal :=
  JObj [("txHash", JStr t.(x_txHash)); ("txType", JStr t.(x_txType)); ("account", jopt t.(x_account));
        ("disputeId", jopt t.(x_disputeId)); ("validated", JBool t.(x_validated));
        ("resultCode", jopt t.(x_resultCode)); ("outcomeClass", outcome_json t.(x_outcomeClass));
        ("ledgerIndex", jopt_num t.(x_ledgerIndex));
        ("trackingStatus", JStr (trackingStatus_str t.(x_trackingStatus)));
        ("retries", JNum t.(x_retries)); ("escrowOwner", jnull t.(x_escrowOwner));
        ("escrowDestination", jnull t.(x_escrowDestination));
        ("escrowOfferSequence", jnull_num t.(x_escrowOfferSequence));
        ("escrowSubmitterAccount", jnull t.(x_escrowSubmitterAccount)); ("clientPolicyHint", hintOf t)].

Definition notTracked : Response := err 404 "B2_NOT_FOUND" "Tracked tx not found".
Definition liveDisabled : Response :=
  err 400 "B2_VALIDATION_ERROR" "Live XRPL mode is disabled. Set XRPL_WSS_URL to enable.".

(** [refresh] is the query parameter. *)
Definition getXrplTransaction (txHash : string) (refresh : option string) : Handler :=
  tx ← getXrplTx txHash;
  match tx with
  | None => mret notTracked
  | Some _ =>
      (if bool_decide (toLowerCase (default "false" (nonempty refresh)) = "true")
       then refreshTracked txHash else mret tt);;
      latest ← getXrplTx txHash;
      match latest with
      | Some t => mret (json 200 (txView t))
      | None => throw "Cannot read properties of undefined"
      end
  end.

Definition refreshView (t : XrplTransaction) : JsVal :=
  JObj [("txHash", JStr t.(x_txHash)); ("validated", JBool t.(x_validated));
        ("resultCode", jopt t.(x_resultCode)); ("outcomeClass", outcome_json t.(x_outcomeClass));
        ("ledgerIndex", jopt_num t.(x_ledgerIndex));
        ("trackingStatus", JStr (trackingStatus_str t.(x_trackingStatus)));
        ("clientPolicyHint", hintOf t)].

Definition postRefresh (txHash : string) : Handler :=
  tx ← getXrplTx txHash;
  match tx with
  | None => mret notTracked
  | Some _ =>
      enabled ← xrplEnabled;
      if negb enabled then mret liveDisabled
      else
        live ← getTxStatus txHash;
        match live with
        | None => mret (err 404 "B2_NOT_FOUND" "Transaction not found from XRPL tx method")
        | Some l =>
            _ ← applyLiveTxStatus txHash l;
            latest ← getXrplTx txHash;
            match latest with
            | Some t => mret (json 200 (refreshView t))
            | None => throw "Cannot read properties of undefined"
            end
        end
  end.

(** * GET /v1/xrpl/accounts/:account/escrows *)

(** Rippled's marker: JSON when it parses, the raw string otherwise. *)
Definition parseRippledMarker (raw : option string) : JsVal :=
  match raw with
  | Some s => if truthy raw then default (JStr s) (json_parse s) else JUndef
  | None => JUndef
  end.
Definition classicAddressShape (account : string) : bool :=
  negb ((str_length account <? 25) || (50 <? str_length account))%nat && startsWith account "r".

Definition escrow_json (o : EscrowLedgerObject) : JsVal :=
  JObj [("ledgerEntryIndex", o.(eo_ledgerEntryIndex)); ("account", o.(eo_account));
        ("destination", o.(eo_destination)); ("amount", o.(eo_amount));
        ("finishAfter", jopt_num o.(eo_finishAfter)); ("cancelAfter", jopt_num o.(eo_cancelAfter));
        ("previousTxnId", o.(eo_previousTxnId));
        ("previousTxnLedgerSeq", jopt_num o.(eo_previousTxnLedgerSeq)); ("flags", jopt_num o.(eo_flags))].

Record EscrowsQuery := mkEscrowsQuery { eq_limit : Z; eq_marker : option string }.

Definition getAccountEscrows (rawAccount : string) (parsed : Parsed EscrowsQuery) : Handler :=
  let account := trim rawAccount in
  if negb (classicAddressShape account) then
    mret (err 400 "B2_VALIDATION_ERROR" "Invalid XRPL classic address")
  else
    withParsed parsed (fun q =>
      enabled ← xrplEnabled;
      if negb enabled then mret liveDisabled
      else
        try_catch
          (page ← getAccountEscrowsPage account q.(eq_limit) (parseRippledMarker q.(eq_marker));
           let count := JNum (Z.of_nat (length page.(ep_escrows))) in
           audit "xrpl_account" account "xrpl.account_objects_escrow" "operator_local" None None
             (Some (JObj [("count", count); ("ledgerIndex", jopt_num page.(ep_ledgerIndex))]));;
           mret (json 200 (JObj
             [("account", JStr account); ("ledgerIndex", JStr "validated");
              ("resolvedLedgerIndex", jopt_num page.(ep_ledgerIndex));
              ("ledgerHash", page.(ep_ledgerHash)); ("count", count);
              ("escrows", JArr (escrow_json <$> page.(ep_escrows)));
              ("nextMarker", page.(ep_nextMarker))])))
          (fun e => mret (err 502 "B2_XRPL_UPSTREAM_ERROR" (exn_message e)))).

(** * POST /v1/xrpl/backfill/account-tx *)

Record Backfill := mkBackfill {
  bf_account : string; bf_fromLedger : option Z; bf_resultCode : option string }.
(** What [backfillSchema] accepts. *)
Definition backfillSchema (b : Backfill) : bool :=
  (20 <=? str_length b.(bf_account))%nat &&
  (match b.(bf_fromLedger) with Some n => (0 <=? n)%Z | None => true end).

Definition liveBackfillOne (account : string) (statuses : JsMap LiveTxStatus) (updated : Z)
    (tracked : XrplTransaction) : M Z :=
  if truthy tracked.(x_account) && negb (bool_decide (tracked.(x_account) = Some account)) then mret updated
  else
    match jm_get tracked.(x_txHash) statuses with
    | None => mret updated
    | Some l => applied ← applyLiveTxStatus tracked.(x_txHash) l;
                mret (if applied : bool then updated + 1 else updated)%Z
    end.

Definition liveBackfill (account : string) : Handler :=
  statuses ← getAccountTxResults account;
  txs ← listXrplTxs;
  updated ← foldM (liveBackfillOne account statuses) 0%Z txs;
  (if (0 <? updated)%Z then metric "backfillLiveApplyTotal" updated else mret tt);;
  audit "xrpl_backfill" account "xrpl.backfill.live" "operator_local" None None
    (Some (JObj [("updated", JNum updated); ("liveMode", JBool true)]));;
  mret (json 200 (JObj [("account", JStr account); ("updated", JNum updated); ("liveMode", JBool true)])).

(** The row after the simulated step, before [applyLiveTxStatus]. *)
Definition simulatedTx (fromLedger : Z) (resultCode now : string) (tx : XrplTransaction) : XrplTransaction :=
  let retries := (tx.(x_retries) + 1)%Z in
  let code := if (2 <=? retries)%Z then resultCode else "terQUEUED" in
  let cls := classifyXrplResultCode (Some code) in
  let t := tx <| x_retries := retries |> <| x_lastCheckedAt := now |>
              <| x_resultCode := Some code |> <| x_outcomeClass := Some cls |> in
  match cls with
  | OC_success =>
      t <| x_validated := true |> <| x_trackingStatus := TS_validated_success |>
        <| x_ledgerIndex := Some (fromLedger + retries)%Z |>
  | OC_retryable =>
      if (retries <? 3)%Z then t <| x_trackingStatus := TS_retry_scheduled |>
      else t <| x_trackingStatus := TS_validated_fail |> <| x_validated := false |>
  | _ => t <| x_trackingStatus := TS_validated_fail |> <| x_validated := true |>
  end.
(** The live status the simulation reports. *)
Definition simulatedLive (t : XrplTransaction) : LiveTxStatus :=
  mkLive t.(x_txHash) t.(x_validated) t.(x_ledgerIndex) t.(x_resultCode) None None noEscrowFields.

Definition simulateOne (b : Backfill) (resultCode : string) (updated : Z) (tx : XrplTransaction) : M Z :=
  if tx.(x_validated) then mret updated
  else
    now ← nowIso;
    let t := simulatedTx (default 1%Z b.(bf_fromLedger)) resultCode now tx in
    saveXrplTx t;;
    _ ← applyLiveTxStatus t.(x_txHash) (simulatedLive t);
    mret (updated + 1)%Z.

Definition simulatedBackfill (b : Backfill) (resultCode : string) : Handler :=
  txs ← listXrplTxs;
  updated ← foldM (simulateOne b resultCode) 0%Z txs;
  audit "xrpl_backfill" b.(bf_account) "xrpl.backfill" "operator_local" None None
    (Some (JObj [("updated", JNum updated); ("resultCode", JStr resultCode)]));;
  mret (json 200 (JObj [("account", JStr b.(bf_account)); ("updated", JNum updated);
                        ("defaultResultCode", JStr resultCode)])).

(** A failed live backfill is audited, and the simulated one runs. *)
Definition postBackfill (parsed : Parsed Backfill) : Handler :=
  withParsed parsed (fun b =>
    let resultCode := default "tesSUCCESS" b.(bf_resultCode) in
    enabled ← xrplEnabled;
    if enabled : bool then
      r ← try_catch (res ← liveBackfill b.(bf_account); mret (Some res))
            (fun e =>
               audit "xrpl_backfill" b.(bf_account) "xrpl.backfill.live_failed" "operator_local"
                 None None (Some (JObj [("error", JStr (exn_message e))]));;
               mret None);
      match r with
      | Some res => mret res
      | None => simulatedBackfill b resultCode
      end
    else simulatedBackfill b resultCode).
