(* ===== verification/NotifyApi.v ===== *)
(** The notification routes of [index.ts]. *)
From S2P Require Import Prelude JsString JsMap JsDate Types Config World Utils MemoryRepo Http Auth Notify Contracts.

Record NotifyBody := mkNotifyBody {
  nb_eventType : string; nb_recipientId : string; nb_channel : NotificationChannel;
  nb_payload : list (string * JsVal) }.

Definition postNotification (parsed : Parsed NotifyBody) : Handler :=
  withParsed parsed (fun b =>
    id ← randomId "ntf";
    now ← nowIso;
    let event := queuedNotification id b.(nb_eventType) b.(nb_recipientId) b.(nb_channel)
                   b.(nb_payload) now in
    saveNotification event;;
    audit "notification" id "notification.requested" "system" None None
      (Some (JObj (channelMeta event)));;
    emit "notification.requested" "notification" id (channelMeta event);;
    mret (json 202 (notification_json event))).

Record DispatchBody := mkDispatchBody {
  dp_eventType : string; dp_recipientId : string; dp_payload : list (string * JsVal);
  dp_channels : option (list NotificationChannel) }.

(** [channels?.length ? channels : routed] *)
Definition dispatchChannels (b : DispatchBody) : list NotificationChannel :=
  match b.(dp_channels) with
  | Some (c :: cs) => c :: cs
  | _ => routedChannelsForEventType b.(dp_eventType)
  end.

Definition dispatchOne (req : Request) (b : DispatchBody) (now : string) (ids : list string)
    (channel : NotificationChannel) : M (list string) :=
  id ← randomId "ntf";
  let event := queuedNotification id b.(dp_eventType) b.(dp_recipientId) channel b.(dp_payload) now in
  saveNotification event;;
  audit "notification" id "notification.dispatch_queued" (actorOf req "operator") None None
    (Some (JObj (channelMeta event)));;
  emit "notification.requested" "notification" id (channelMeta event ++ [("dispatch", JBool true)]);;
  mret (ids ++ [id]).

Definition postDispatch (req : Request) (parsed : Parsed DispatchBody) : Handler :=
  withParsed parsed (fun b =>
    let channels := dispatchChannels b in
    now ← nowIso;
    ids ← foldM (dispatchOne req b now) [] channels;
    mret (json 202 (JObj [("notificationIds", JArr (JStr <$> ids));
                          ("channels", JArr ((fun c => JStr (channel_str c)) <$> channels))]))).

Record OutboxListQuery := mkOutboxListQuery {
  olq_limit : nat; olq_offset : nat; olq_status : option NotificationOutboxStatus }.
Definition getOutbox (parsed : Parsed OutboxListQuery) : Handler :=
  withParsed parsed (fun q =>
    page ← listNotificationOutboxPage (mkOutboxFilter q.(olq_status))
             (mkListParams q.(olq_limit) q.(olq_offset));
    mret (json 200 (page_json outbox_json page))).

Definition retriedOutbox (t : string) (row : NotificationOutboxRecord) : NotificationOutboxRecord :=
  row <| o_status := OS_pending |> <| o_attempts := 0%Z |> <| o_lastError := None |>
      <| o_updatedAt := t |> <| o_processingStartedAt := None |>
      <| o_dispatchedNotificationId := None |>.

Definition postOutboxRetry (req : Request) (outboxId : string) : Handler :=
  row ← getNotificationOutbox outboxId;
  match row with
  | None => mret (err 404 "B2_NOT_FOUND" "Outbox row not found")
  | Some row =>
      if negb (bool_decide (row.(o_status) = OS_dead)) then
        mret (err 409 "B2_VALIDATION_ERROR" "Only dead outbox rows can be retried")
      else
        t ← nowIso;
        updateNotificationOutbox (retriedOutbox t row);;
        audit "notification_outbox" outboxId "notification_outbox.retry_queued" (actorOf req "operator")
          None (Some (JObj [("status", JStr "pending")])) None;;
        mret (json 200 (JObj [("outboxId", JStr outboxId); ("status", JStr "pending")]))
  end.

Definition getNotificationById (notificationId : string) : Handler :=
  n ← getNotification notificationId;
  match n with
  | None => mret (err 404 "B2_NOT_FOUND" "Notification not found")
  | Some n => mret (json 200 (notification_json n))
  end.
