(* ===== verification/Settlements.v ===== *)
(** The settlement routes of [index.ts]. *)
From S2P Require Import Prelude JsString JsMap JsDate Types Config World Utils MemoryRepo Http Auth Notify Contracts.
From S2P Require Import Disputes.

Definition settlementTransitionAllowed (from to : SettlementStatus) : bool :=
  if bool_decide (from = to) then true
  else if bool_decide (from = SS_archived) then false
  else if bool_decide (to = SS_archived) then true
  else if bool_decide (from = SS_collecting)
          && (bool_decide (to = SS_accrued) || bool_decide (to = SS_confirmed)) then true
  else if bool_decide (from = SS_accrued) && bool_decide (to = SS_confirmed) then true
  else false.

Definition canAccessSettlement (req : Request) (s : SettlementRecord) : M bool :=
  mayAccessContractOf req s.(s_contractId).

Record SettlementListQuery := mkSettlementListQuery {
  slq_limit : nat; slq_offset : nat; slq_filter : SettlementListFilter }.

Definition keepAccessible (req : Request) (acc : list SettlementRecord) (s : SettlementRecord) :
    M (list SettlementRecord) :=
  ok ← canAccessSettlement req s;
  mret (if ok : bool then acc ++ [s] else acc).

(** The page is taken first; the rows the caller may not read are dropped from
    it afterwards. *)
Definition getSettlements (req : Request) (parsed : Parsed SettlementListQuery) : Handler :=
  withParsed parsed (fun q =>
    page ← listSettlementsPage q.(slq_filter) (mkListParams q.(slq_limit) q.(slq_offset));
    accessible ← foldM (keepAccessible req) [] page.(pg_items);
    mret (json 200 (JObj
      [("count", JNum (Z.of_nat (length accessible))); ("total", JNum (Z.of_nat page.(pg_total)));
       ("limit", JNum (Z.of_nat page.(pg_limit))); ("offset", JNum (Z.of_nat page.(pg_offset)));
       ("items", JArr (settlement_json <$> accessible))]))).

Definition getSettlementById (req : Request) (settlementId : string) : Handler :=
  s ← getSettlement settlementId;
  match s with
  | None => mret (err 404 "B2_NOT_FOUND" "Settlement not found")
  | Some s =>
      ok ← canAccessSettlement req s;
      if negb ok then mret (err 403 "B2_FORBIDDEN" "Not allowed to read this settlement")
      else mret (json 200 (settlement_json s))
  end.

(** * PATCH /v1/settlements/:settlementId/status *)

Record SettlementPatch := mkSettlementPatch {
  sp_status : option SettlementStatus; sp_amountMinor : option Z; sp_currencyCode : option string;
  sp_batchId : option string }.
(** What [settlementStatusPatchSchema] accepts. *)
Definition settlementStatusPatchSchema (p : SettlementPatch) : bool :=
  (match p.(sp_status) with Some SS_collecting => false | _ => true end) &&
  (match p.(sp_amountMinor) with Some n => (0 <=? n)%Z | None => true end) &&
  (match p.(sp_status), p.(sp_amountMinor), p.(sp_currencyCode), p.(sp_batchId) with
   | None, None, None, None => false | _, _, _, _ => true end).

Definition patchedSettlement (p : SettlementPatch) (t : string) (s : SettlementRecord) : SettlementRecord :=
  let nextStatus := default s.(s_status) p.(sp_status) in
  s <| s_status := nextStatus |> <| s_updatedAt := t |>
    <| s_currencyCode := from_option Some s.(s_currencyCode) p.(sp_currencyCode) |>
    <| s_amountMinor := from_option Some s.(s_amountMinor) p.(sp_amountMinor) |>
    <| s_batchId := from_option Some s.(s_batchId) p.(sp_batchId) |>
    <| s_confirmedAt := if bool_decide (nextStatus = SS_confirmed) && negb (truthy s.(s_confirmedAt))
                        then Some t else s.(s_confirmedAt) |>.

Definition statusChanged (p : SettlementPatch) (s : SettlementRecord) : bool :=
  match p.(sp_status) with Some x => negb (bool_decide (x = s.(s_status))) | None => false end.
Definition financialChanged (p : SettlementPatch) (s : SettlementRecord) : bool :=
  (match p.(sp_amountMinor) with Some _ => negb (bool_decide (p.(sp_amountMinor) = s.(s_amountMinor))) | None => false end)
  || (match p.(sp_currencyCode) with Some _ => negb (bool_decide (p.(sp_currencyCode) = s.(s_currencyCode))) | None => false end)
  || (match p.(sp_batchId) with Some _ => negb (bool_decide (p.(sp_batchId) = s.(s_batchId))) | None => false end).

Definition periodPayload (settlementId : string) (s : SettlementRecord) : list (string * JsVal) :=
  [("settlementId", JStr settlementId); ("contractId", JStr s.(s_contractId));
   ("periodYear", JNum s.(s_periodYear)); ("periodMonth", JNum s.(s_periodMonth))].
Definition ssJson (s : SettlementStatus) : JsVal := JStr (settlementStatus_str s).

Definition announceSettlement (settlementId : string) (p : SettlementPatch) (s updated : SettlementRecord) :
    M unit :=
  (if statusChanged p s then
     emit "settlement.status_updated" "settlement" settlementId
       [("contractId", JStr s.(s_contractId)); ("periodYear", JNum s.(s_periodYear));
        ("periodMonth", JNum s.(s_periodMonth)); ("status", ssJson updated.(s_status))]
   else mret tt);;
  (if financialChanged p s then
     emit "settlement.financials_attached" "settlement" settlementId
       [("contractId", JStr s.(s_contractId)); ("periodYear", JNum s.(s_periodYear));
        ("periodMonth", JNum s.(s_periodMonth)); ("amountMinor", jopt_num updated.(s_amountMinor));
        ("currencyCode", jopt updated.(s_currencyCode)); ("batchId", jopt updated.(s_batchId))];;
     notifyParties s.(s_contractId) "settlement.financials_attached" (periodPayload settlementId s)
   else mret tt);;
  (if bool_decide (updated.(s_status) = SS_accrued) then
     notifyParties s.(s_contractId) "settlement.accrued" (periodPayload settlementId s)
   else mret tt);;
  auto ← askCfg cfg_autoNotifyOnConfirmed;
  if bool_decide (updated.(s_status) = SS_confirmed) && auto then
    contract ← getContract s.(s_contractId);
    ifSome contract (fun c => enqueueSettlementConfirmedNotifications updated c)
  else mret tt.

Definition settlementView (s : SettlementRecord) : list (string * JsVal) :=
  [("status", ssJson s.(s_status)); ("amountMinor", jopt_num s.(s_amountMinor));
   ("currencyCode", jopt s.(s_currencyCode)); ("batchId", jopt s.(s_batchId))].

Definition patchSettlementStatus (req : Request) (settlementId : string)
    (parsed : Parsed SettlementPatch) : Handler :=
  withParsed parsed (fun p =>
    s ← getSettlement settlementId;
    match s with
    | None => mret (err 404 "B2_NOT_FOUND" "Settlement not found")
    | Some s =>
        let next := default s.(s_status) p.(sp_status) in
        if (match p.(sp_status) with
            | Some x => negb (settlementTransitionAllowed s.(s_status) x) | None => false end) then
          mret (err 409 "B2_VALIDATION_ERROR"
            ("Cannot transition settlement status " +:+ settlementStatus_str s.(s_status) +:+ " -> "
             +:+ settlementStatus_str next))
        else
          t ← nowIso;
          let updated := patchedSettlement p t s in
          saveSettlement updated;;
          audit "settlement" settlementId "settlement.status_patched" (actorOf req "operator")
            (Some (JObj (settlementView s)))
            (Some (JObj (settlementView updated ++ [("confirmedAt", jopt updated.(s_confirmedAt))]))) None;;
          announceSettlement settlementId p s updated;;
          mret (json 200 (settlement_json updated))
    end).
