(* ===== verification/Export.v ===== *)
(** Audit exports: NDJSON and CSV lines ([services/audit-csv.ts]), the paging
    loop of the report routes and of the export worker
    ([services/export-job.worker.ts]), the export-job routes, and the signed
    download tokens ([services/export-artifact-token.ts]). *)
From S2P Require Import Prelude JsString JsMap JsDate Json Base64 Types Config World Utils MemoryRepo Http Auth.
From S2P Require Import Notify Contracts.
From Stdlib Require Import Ascii.

Definition nl : string := String (ascii_of_N 10) "".

(** * Lines *)

Definition ndjsonLine (log : AuditLog) : string := json_stringify (audit_json log) +:+ nl.

(** A cell with a quote, comma or line break is quoted, its quotes doubled. *)
Definition csvSpecial (c : ascii) : bool :=
  bool_decide (c ∈ [Json.dq; ","%char; ascii_of_N 13; ascii_of_N 10]).
Definition doubleQuote (c : ascii) : list ascii := if decide (c = Json.dq) then [c; c] else [c].
Definition csvCell (value : string) : list ascii :=
  if existsb csvSpecial (chars value)
  then Json.dq :: flat_map doubleQuote (chars value) ++ [Json.dq]
  else chars value.
Fixpoint csvJoin (cells : list (list ascii)) : list ascii :=
  match cells with
  | [] => []
  | [c] => c
  | c :: cs => c ++ ","%char :: csvJoin cs
  end.

Definition auditColumns : list string :=
  ["id"; "entityType"; "entityId"; "action"; "actorId"; "createdAt"; "beforeJson"; "afterJson";
   "metadataJson"].
Definition auditLogCsvHeader : string := of_chars (csvJoin (chars <$> auditColumns)).
(** [log.before != null ? JSON.stringify(log.before) : ""] *)
Definition jsonCell (v : option JsVal) : string :=
  match v with
  | Some JNull | Some JUndef | None => ""
  | Some v => json_stringify v
  end.
Definition auditCells (log : AuditLog) : list string :=
  [log.(a_id); log.(a_entityType); log.(a_entityId); log.(a_action); log.(a_actorId);
   log.(a_createdAt); jsonCell log.(a_before); jsonCell log.(a_after); jsonCell log.(a_metadata)].
Definition auditLogToCsvRow (log : AuditLog) : string := of_chars (csvJoin (csvCell <$> auditCells log)).

(** * The paging loop

    [while (exported < maxExport)]: a page of at most [pageSize] rows from
    [offset], its lines, and the three ways out.  [None] is an exhausted
    [fuel]. *)
Section export_loop.
Context (line : AuditLog -> string) (filter : AuditFilter) (pageSize maxExport : nat).

Fixpoint exportLoop (fuel exported offset : nat) (chunks : list string) : M (option (list string)) :=
  match fuel with
  | O => mret None
  | S fuel' =>
      if (maxExport <=? exported)%nat then mret (Some chunks)
      else
        let take_ := (pageSize `min` (maxExport - exported))%nat in
        p0 ← dateNow;
        page ← listAuditsPage filter (mkListParams take_ offset);
        p1 ← dateNow;
        metric "auditListDurationMs" (p1 - p0)%Z;;
        let items := page.(pg_items) in
        let written := take (maxExport - exported) items in
        let chunks' := chunks ++ (line <$> written) in
        let exported' := (exported + length written)%nat in
        if bool_decide (items = []) then mret (Some chunks')
        else
          let offset' := (offset + length items)%nat in
          if (page.(pg_total) <=? offset')%nat then mret (Some chunks')
          else exportLoop fuel' exported' offset' chunks'
  end.
(** The lines, with the fuel [maxExport + 1]. *)
Definition exportLines : M (list string) :=
  r ← exportLoop (S maxExport) 0 0 [];
  mret (default [] r).
End export_loop.

(** * The report routes *)

Record AuditsReportQuery := mkAuditsReport {
  arq_entityType : option string; arq_entityId : option string; arq_from : option string;
  arq_to : option string; arq_limit : nat }.

(** [parsed.data.from?.trim() || undefined] *)
Definition trimmed (o : option string) : option string := nonempty (trim <$> o).

Definition reportAudits (prefix : string) (line : AuditLog -> string) (contentType fileName : string)
    (parsed : Parsed AuditsReportQuery) : Handler :=
  withParsed parsed (fun q =>
    withWindow "from" "to" (trimmed q.(arq_from)) (trimmed q.(arq_to)) (fun from to =>
      let filter := mkAuditFilter q.(arq_entityType) q.(arq_entityId) from to in
      lines ← exportLines line filter (500 `min` q.(arq_limit))%nat q.(arq_limit);
      mret (mkResponse 200 (JStr (prefix +:+ fold_right String.append "" lines))
        [("Content-Type", contentType);
         ("Content-Disposition", "attachment; filename=" +:+ String Json.dq fileName +:+ String Json.dq "");
         ("Cache-Control", "no-store")]))).

Definition getAuditsNdjson : Parsed AuditsReportQuery -> Handler :=
  reportAudits "" ndjsonLine "application/x-ndjson; charset=utf-8" "audits-export.ndjson".

(** The byte-order mark and the header line come first. *)
Definition bom : string := of_chars (ascii_of_N <$> [239; 187; 191]%N).
Definition csvLine (log : AuditLog) : string := auditLogToCsvRow log +:+ nl.
Definition getAuditsCsv : Parsed AuditsReportQuery -> Handler :=
  reportAudits (bom +:+ auditLogCsvHeader +:+ nl) csvLine "text/csv; charset=utf-8" "audits-export.csv".

(** * Export jobs *)

Record CreateExportJob := mkCreateExport {
  ce_kind : string; ce_filter : AuditFilter; ce_maxExport : nat }.

Definition postExportJob (parsed : Parsed CreateExportJob) : Handler :=
  withParsed parsed (fun b =>
    t ← nowIso;
    id ← randomId "exp";
    createExportJob (mkExport id b.(ce_kind) ES_pending b.(ce_filter) b.(ce_maxExport) None None t t);;
    mret (json 202 (JObj [("jobId", JStr id); ("status", JStr "pending")]))).

Definition auditFilter_json (f : AuditFilter) : JsVal :=
  JObj [("entityType", jopt f.(af_entityType)); ("entityId", jopt f.(af_entityId));
        ("from", jopt f.(af_from)); ("to", jopt f.(af_to))].
Definition getExportJobById (jobId : string) : Handler :=
  j ← getExportJob jobId;
  match j with
  | None => mret (err 404 "B2_NOT_FOUND" "Export job not found")
  | Some j =>
      let resultNdjson := if bool_decide (j.(x_status) = ES_completed) then j.(x_resultNdjson) else None in
      mret (json 200 (JObj
        [("jobId", JStr j.(x_jobId)); ("kind", JStr j.(x_kind));
         ("status", JStr (exportStatus_str j.(x_status))); ("createdAt", JStr j.(x_createdAt));
         ("updatedAt", JStr j.(x_updatedAt)); ("maxExport", JNum (Z.of_nat j.(x_maxExport)));
         ("filter", auditFilter_json j.(x_filter)); ("error", jopt j.(x_error));
         ("resultNdjson", jopt resultNdjson);
         ("resultBytes", if truthy resultNdjson
                         then JNum (Z.of_nat (str_length (default "" resultNdjson))) else JUndef)]))
  end.

(** ** The worker *)

Definition MAX_RESULT_BYTES : Z := 8 * 1024 * 1024.
Definition truncationMark : string :=
  nl +:+ json_stringify (JObj [("truncated", JBool true); ("maxBytes", JNum MAX_RESULT_BYTES)]) +:+ nl.
Definition truncateResult (s : string) : string :=
  if (MAX_RESULT_BYTES <? Z.of_nat (str_length s))%Z
  then str_take (Z.to_nat MAX_RESULT_BYTES) s +:+ truncationMark else s.

Definition completedExport (t result : string) (j : ExportJobRecord) : ExportJobRecord :=
  j <| x_status := ES_completed |> <| x_resultNdjson := Some result |> <| x_error := None |>
    <| x_updatedAt := t |>.
Definition failedExport (t msg : string) (j : ExportJobRecord) : ExportJobRecord :=
  j <| x_status := ES_failed |> <| x_error := Some msg |> <| x_updatedAt := t |>.

Definition runExportJob (job : ExportJobRecord) : M unit :=
  if negb (bool_decide (job.(x_kind) = "audits_ndjson")) then
    t ← nowIso;
    updateExportJob (failedExport t ("unsupported export kind: " +:+ job.(x_kind)) job);;
    metric "exportJobFailed" 1
  else
    try_catch
      (lines ← exportLines ndjsonLine job.(x_filter) 500 job.(x_maxExport);
       t ← nowIso;
       updateExportJob (completedExport t (truncateResult (fold_right String.append "" lines)) job);;
       metric "exportJobCompleted" 1)
      (fun e =>
       t ← nowIso;
       updateExportJob (failedExport t (exn_message e) job);;
       metric "exportJobFailed" 1).

Definition runExportJobTick (batchSize : Z) : M unit :=
  now ← nowIso;
  claimed ← claimExportJobsPending (Z.to_nat batchSize) now;
  forEach runExportJob claimed.

(** * Download tokens *)

Record ExportArtifactTokenPayload := mkToken { tk_jobId : string; tk_exp : Z }.

Definition tokenPayloadB64 (jobId : string) (expUnixSec : Z) : string :=
  base64url_encode (json_stringify (JObj [("jobId", JStr jobId); ("exp", JNum expUnixSec)])).
Definition signExportArtifactToken (hmac : string -> string -> string) (secret jobId : string)
    (expUnixSec : Z) : string :=
  let payloadB64 := tokenPayloadB64 jobId expUnixSec in
  payloadB64 +:+ "." +:+ hmac secret payloadB64.

(** Split at the last dot; [None] without one, or when nothing precedes it. *)
Fixpoint splitLastDot (l : list ascii) : option (list ascii * list ascii) :=
  match l with
  | [] => None
  | c :: l' =>
      match splitLastDot l' with
      | Some (a, b) => Some (c :: a, b)
      | None => if decide (c = "."%char) then Some ([], l') else None
      end
  end.

(** The claims of a payload that has not expired at [nowSec]; a [jobId] that
    is not a string or an [exp] that is not an integer is refused. *)
Definition tokenClaims (nowSec : Z) (payloadB64 : string) : option ExportArtifactTokenPayload :=
  match json_parse (base64url_decode payloadB64) with
  | Some rec =>
      match jget "jobId" rec, jget "exp" rec with
      | JStr jobId, JNum exp => if (exp <? nowSec)%Z then None else Some (mkToken jobId exp)
      | _, _ => None
      end
  | None => None
  end.
Definition verifyExportArtifactToken (hmac : string -> string -> string) (nowSec : Z)
    (secret token : string) : option ExportArtifactTokenPayload :=
  match splitLastDot (chars token) with
  | None => None
  | Some ([], _) => None
  | Some (p, sig) =>
      let payloadB64 := of_chars p in
      if decide (of_chars sig = hmac secret payloadB64) then tokenClaims nowSec payloadB64 else None
  end.

Definition nowSeconds : M Z := ms ← dateNow; mret (ms / 1000)%Z.

Definition getArtifactUrl (jobId : string) : Handler :=
  secret ← askCfg cfg_artifactSigningSecret;
  if negb (truthy (Some secret)) then
    mret (err 503 "B2_UNAVAILABLE"
      "Export artifact signing is not configured (set BLUESAFE_EXPORT_ARTIFACT_SECRET)")
  else
    j ← getExportJob jobId;
    match j with
    | None => mret (err 404 "B2_NOT_FOUND" "Export job not found")
    | Some j =>
        if negb (bool_decide (j.(x_status) = ES_completed)) then
          mret (err 409 "B2_VALIDATION_ERROR" "Export job is not completed yet")
        else
          now ← nowSeconds;
          ttl ← askCfg cfg_artifactUrlTtlSec;
          hmac ← askEnv env_hmac;
          let exp := (now + ttl)%Z in
          let token := signExportArtifactToken hmac secret jobId exp in
          mret (json 200 (JObj [("jobId", JStr jobId);
            ("downloadPath", JStr ("/export/artifacts?token=" +:+ encodeURIComponent token));
            ("expiresAt", JStr (toISOString (exp * 1000)))]))
    end.

Definition getExportArtifact (token : string) : Handler :=
  secret ← askCfg cfg_artifactSigningSecret;
  if negb (truthy (Some secret)) then
    mret (mkResponse 503 (JStr "export artifact signing not configured") [])
  else
    now ← nowSeconds;
    hmac ← askEnv env_hmac;
    match verifyExportArtifactToken hmac now secret token with
    | None => mret (err 401 "B2_UNAUTHORIZED" "Invalid or expired export token")
    | Some payload =>
        job ← getExportJob payload.(tk_jobId);
        match job with
        | Some j =>
            match j.(x_status), j.(x_resultNdjson) with
            | ES_completed, Some result =>
                mret (mkResponse 200 (JStr result)
                  [("Content-Type", "application/x-ndjson; charset=utf-8");
                   ("Content-Disposition", "attachment; filename=" +:+ String Json.dq ("export-"
                      +:+ payload.(tk_jobId) +:+ ".ndjson" +:+ String Json.dq ""));
                   ("Cache-Control", "no-store")])
            | _, _ => mret (err 404 "B2_NOT_FOUND" "Export artifact not found")
            end
        | None => mret (err 404 "B2_NOT_FOUND" "Export artifact not found")
        end
    end.
