(* ===== verification/Reports.v ===== *)
(** Operator views of [index.ts]: statistics, report summary, the runtime
    snapshots ([services/execution-policy.ts],
    [services/xrpl-operations-profile.ts]), the audit and event listings; and the
    metrics: durations, the text for Prometheus, its route, and CORS. *)
From S2P Require Import Prelude JsString JsMap JsDate Types Config World Utils MemoryRepo Http Auth Notify XrplTrack.
From S2P Require Import Contracts Disputes Export.
From Stdlib Require Import Ascii.

Definition stats_json (s : OperatorStatsSummary) : JsVal :=
  JObj [("contractsByStatus", counts_json s.(st_contractsByStatus));
        ("disputesByStatus", counts_json s.(st_disputesByStatus));
        ("xrplByTracking", counts_json s.(st_xrplByTracking));
        ("notificationsByStatus", counts_json s.(st_notificationsByStatus));
        ("evidencesTotal", JNum (Z.of_nat s.(st_evidencesTotal)));
        ("settlementsByStatus", counts_json s.(st_settlementsByStatus))].
Definition getStatsSummary : Handler :=
  summary ← getOperatorStatsSummary;
  mret (json 200 (stats_json summary)).

Definition scoped_json (b : ReportScopedBucket) : JsVal :=
  JObj [("contractsByStatus", counts_json b.(sb_contractsByStatus));
        ("disputesByStatus", counts_json b.(sb_disputesByStatus));
        ("settlementsByStatus", counts_json b.(sb_settlementsByStatus));
        ("xrplByTracking", counts_json b.(sb_xrplByTracking));
        ("auditsCount", JNum (Z.of_nat b.(sb_auditsCount)))].
Definition report_json (r : ReportSummary) : JsVal :=
  JObj [("generatedAt", JStr r.(rs_generatedAt));
        ("window", JObj [("from", jopt r.(rs_window).(rp_from)); ("to", jopt r.(rs_window).(rp_to));
                         ("tenantId", jopt r.(rs_window).(rp_tenantId));
                         ("landlordId", jopt r.(rs_window).(rp_landlordId))]);
        ("global", stats_json r.(rs_global)); ("scoped", scoped_json r.(rs_scoped))].
Definition getReportSummary (parsed : Parsed ReportSummaryParams) : Handler :=
  withParsed parsed (fun q =>
    withWindow "from" "to" (trimmed q.(rp_from)) (trimmed q.(rp_to)) (fun from to =>
      summary ← getReportsSummary (mkReportParams from to q.(rp_tenantId) q.(rp_landlordId));
      mret (json 200 (report_json summary)))).

(** * Runtime snapshots *)

Definition submitSeedConfigured (cfg : Config) : bool := truthy (Some (trim cfg.(cfg_submitSeed))).
Definition executionWarnings (cfg : Config) : list string :=
  (if syntheticExecutionPathEffective cfg then
     ["Synthetic execution txHash placeholder path is on (dev tier). For staging/production use BLUESAFE_EXECUTION_DEPLOYMENT_TIER=strict and pass ledger txHash or enable execution submit — docs/adr/0011-v8-execution-keys-synthetic-hash.md"]
   else []) ++
  (if bool_decide (cfg.(cfg_deploymentTier) = Tier_strict) && cfg.(cfg_syntheticExecutionHashEnabled)
      && negb (syntheticExecutionPathEffective cfg) then
     ["BLUESAFE_EXECUTION_DEPLOYMENT_TIER=strict disables the synthetic hash path regardless of BLUESAFE_SYNTHETIC_EXECUTION_HASH."]
   else []) ++
  (if cfg.(cfg_submitEnabled) && negb (submitSeedConfigured cfg) then
     ["BLUESAFE_EXECUTION_SUBMIT_ENABLED=1 but BLUESAFE_EXECUTION_SUBMIT_SEED is empty."] else []) ++
  (if cfg.(cfg_submitEnabled) && submitSeedConfigured cfg && negb cfg.(cfg_xrplEnabled) then
     ["Execution submit is configured but XRPL_WSS_URL is not set (rippled not live)."] else []).
Definition getExecutionPolicySnapshot (cfg : Config) : JsVal :=
  JObj [("deploymentTier", JStr (match cfg.(cfg_deploymentTier) with
                                 | Tier_dev => "dev" | Tier_strict => "strict" end));
        ("syntheticExecutionHashEnvEnabled", JBool cfg.(cfg_syntheticExecutionHashEnabled));
        ("syntheticExecutionPathEffective", JBool (syntheticExecutionPathEffective cfg));
        ("submitEnabled", JBool cfg.(cfg_submitEnabled));
        ("submitSeedConfigured", JBool (submitSeedConfigured cfg));
        ("xrplLive", JBool cfg.(cfg_xrplEnabled)); ("conditionalEscrowSupported", JBool false);
        ("conditionalEscrowAdr", JStr "docs/adr/0013-v8-conditional-escrow-not-supported.md");
        ("warnings", JArr (JStr <$> executionWarnings cfg))].
Definition getXrplOperationsSnapshot (cfg : Config) : JsVal :=
  JObj [("topologyProfile", JStr (match cfg.(cfg_topologyProfile) with
                                  | Top_public_hub => "public_hub" | Top_dedicated => "dedicated"
                                  | Top_clio => "clio" end));
        ("rippledWssConfigured", JBool (truthy (Some (trim cfg.(cfg_wssUrl)))));
        ("drRunbookUrl", jnull (nonempty (Some cfg.(cfg_drRunbookUrl))));
        ("conditionalEscrowSupported", JBool false);
        ("conditionalEscrowNote", JStr "BlueSafe Backend2 MVP does not implement EscrowCreate Condition/Fulfillment paths; see docs/adr/0013-v8-conditional-escrow-not-supported.md.")].

(** * GET /health *)

Definition policyConfig_json (cfg : Config) (metrics : JsVal) : JsVal :=
  JObj [("workerDisabled", JBool cfg.(cfg_policyWorkerDisabled));
        ("intervalMs", JNum cfg.(cfg_policyIntervalMs));
        ("pendingTimeoutMs", JNum cfg.(cfg_pendingTimeoutMs));
        ("batchSize", JNum cfg.(cfg_policyBatchSize));
        ("maxNotFoundProbes", JNum cfg.(cfg_maxNotFoundProbes));
        ("maxBackoffMs", JNum cfg.(cfg_maxBackoffMs));
        ("accountBackfillPerTick", JNum cfg.(cfg_accountBackfillPerTick));
        ("logSummaryTick", JBool cfg.(cfg_logSummaryTick));
        ("transactionsStream", JBool cfg.(cfg_transactionsStream));
        ("subscribeLogReconnects", JBool cfg.(cfg_subscribeLogReconnects)); ("metrics", metrics)].

(** The storage is the memory repository; [subscribe] and [metrics] are the
    snapshots of the in-process counters. *)
Definition getHealth (deep : bool) (subscribe metrics : JsVal) : Handler :=
  wantDeep ← askCfg (fun c => c.(cfg_deepDefault) || deep);
  now ← nowIso;
  let base := [("ok", JBool true); ("service", JStr "bluesafe-backend2"); ("now", JStr now)] in
  if negb wantDeep then mret (json 200 (JObj base))
  else
    try_catch
      (ping ← pingStorage;
       xrplPing ← pingRippled;
       cfg ← askCfg id;
       let xrpl := if bool_decide (xrplPing.2 = Some "disabled") then "disabled"
                   else if xrplPing.1 : bool then "ok" else "degraded" in
       mret (json 200 (JObj (base ++
         [("storage", JStr "memory"); ("db", JStr "skip"); ("xrpl", JStr xrpl)]
         ++ (if cfg.(cfg_xrplEnabled) && negb cfg.(cfg_subscribeDisabled)
             then [("xrplSubscribe", subscribe)] else [])
         ++ (if cfg.(cfg_xrplEnabled) then [("xrplTxPolicy", policyConfig_json cfg metrics)] else [])
         ++ [("executionPolicy", getExecutionPolicySnapshot cfg);
             ("xrplOperations", getXrplOperationsSnapshot cfg)]
         ++ (if bool_decide (xrpl = "degraded") && truthy xrplPing.2
             then [("xrplDetail", jopt xrplPing.2)] else [])))))
      (fun e =>
       t ← nowIso;
       mret (json 503 (JObj [("ok", JBool false); ("service", JStr "bluesafe-backend2");
                             ("now", JStr t); ("error", JStr (exn_message e))]))).

(** * GET /v1/events and GET /v1/audits *)

Definition getEvents (parsed : Parsed EventFilter) : Handler :=
  withParsed parsed (fun filter =>
    items ← listEvents filter;
    mret (json 200 (JObj [("count", JNum (Z.of_nat (length items)));
                          ("items", JArr (event_json <$> items))]))).

Record AuditsQuery := mkAuditsQuery {
  adq_entityType : option string; adq_entityId : option string; adq_from : option string;
  adq_to : option string; adq_limit : option nat; adq_cursor : option string }.

Definition invalidCursor : Response := err 400 "B2_VALIDATION_ERROR" "cursor is invalid".

Definition auditsKeyset (filter : AuditFilter) (limit : option nat) (cursor : option string)
    (t0 : Z) : Handler :=
  let limit := (2000 `min` (1 `max` default 100 limit))%nat in
  if (match cursor with Some c => bool_decide (decodeAuditCursor c = None) | None => false end) then
    mret invalidCursor
  else
    try_catch
      (page ← listAuditsAfterCursor filter limit cursor;
       t1 ← dateNow;
       metric "auditListDurationMs" (t1 - t0)%Z;;
       mret (json 200 (JObj [("count", JNum (Z.of_nat (length page.(ak_items))));
                             ("items", JArr (audit_json <$> page.(ak_items)));
                             ("nextCursor", jnull page.(ak_nextCursor))])))
      (fun e => if bool_decide (exn_code e = Some "INVALID_AUDIT_CURSOR") then mret invalidCursor
                else rethrow e).

Definition getAudits (parsed : Parsed AuditsQuery) : Handler :=
  withParsed parsed (fun q =>
    withWindow "from" "to" (trimmed q.(adq_from)) (trimmed q.(adq_to)) (fun from to =>
      let filter := mkAuditFilter q.(adq_entityType) q.(adq_entityId) from to in
      t0 ← dateNow;
      if (match q.(adq_limit) with Some _ => true | None => false end) || truthy (trim <$> q.(adq_cursor))
      then auditsKeyset filter q.(adq_limit) (trimmed q.(adq_cursor)) t0
      else
        logs ← listAudits filter;
        t1 ← dateNow;
        metric "auditListDurationMs" (t1 - t0)%Z;;
        mret (json 200 (JObj [("count", JNum (Z.of_nat (length logs)));
                              ("items", JArr (audit_json <$> logs))])))).

(** * Metrics

    The counters of the other modules are kept in [w_metrics]; these are the
    module of the audit listing's durations and the text for Prometheus. *)

(** ** [services/audit-list-metrics.ts] *)

Definition MAX : nat := 512.
(** Durations are differences of [Date.now()]: integers. *)
Definition recordAuditListDurationMs (ms : Z) (samples : list Z) : list Z :=
  if (ms <? 0)%Z then samples else let l := samples ++ [ms] in drop (length l - MAX) l.
(** [p] as a fraction; on at most 512 samples the float product has the exact
    ceiling for 0.5 and 0.95. *)
Definition percentile (sorted : list Z) (num den : Z) : Z :=
  let n := Z.of_nat (length sorted) in
  let ceil := (- ((- (num * n)) / den))%Z in
  default 0%Z (sorted !! Z.to_nat (Z.min (n - 1) (Z.max 0 (ceil - 1)))).
Record AuditListSnapshot := mkAuditListSnapshot { as_sampleCount : nat; as_p50Ms : Z; as_p95Ms : Z }.
Definition getAuditListDurationSnapshot (samples : list Z) : AuditListSnapshot :=
  let sorted := js_sort Z.compare samples in
  mkAuditListSnapshot (length sorted) (percentile sorted 1 2) (percentile sorted 19 20).

(** ** [metrics/prometheus-text.ts] *)

Definition escapeLabel (v : string) : string :=
  of_chars (flat_map (fun c => if bool_decide (c = "\"%char) then ["\"%char; "\"%char]
                               else if bool_decide (c = Json.dq) then ["\"%char; Json.dq] else [c]) (chars v)).
Definition promLine (metric_ : string) (labels : list (string * string)) (value : string) : string :=
  let q := of_chars [Json.dq] in
  let lb := match labels with
            | [] => ""
            | _ => "{" +:+ join "," ((fun kv => kv.1 +:+ "=" +:+ q +:+ escapeLabel kv.2 +:+ q) <$> labels) +:+ "}"
            end in
  metric_ +:+ lb +:+ " " +:+ value +:+ of_chars [ascii_of_N 10].

(** What the metric modules and [xrpl-subscribe-state.ts] hold; averages are
    numbers given by their text. *)
Record PromSnapshots := mkPromSnapshots {
  ps_tickCount : Z; ps_jobsResolved : Z; ps_policyExhausted : Z; ps_jobErrors : Z;
  ps_ledgerClosedEvents : Z; ps_transactionStreamProcessed : Z; ps_transactionStreamThrottled : Z;
  ps_disconnectCycles : Z; ps_connectedGauge : Z; ps_lastLedgerCloseUnixtime : Z;
  ps_ledgerCloseIntervalAvgSec : option string; ps_ledgerCloseIntervalSampleCount : Z;
  ps_backfillLiveApplyTotal : Z; ps_reconcileApplyTotal : Z; ps_outcomeSuccess : Z; ps_outcomeRetryable : Z;
  ps_outcomeFinalFail : Z; ps_outcomeManualReview : Z; ps_syntheticTotal : Z; ps_ledgerTxTotal : Z;
  ps_ledgerCloseTouchInvocations : Z; ps_contractsTouchedTotal : Z; ps_deliveredOk : Z; ps_deliveredFail : Z;
  ps_audit : AuditListSnapshot; ps_kmsHttpUnwrapAvgMs : string; ps_dekBySource : list (string * Z);
  ps_completed : Z; ps_failed : Z }.
(** The samples of the exposition: name, labels, value. *)
Definition promSamples (s : PromSnapshots) : list (string * list (string * string) * string) :=
  let plain n v := (n, [], num_str v) in
  let labelled n k l v := (n, [(k, l)], num_str v) in
  [plain "bluesafe_xrpl_policy_tick_total" s.(ps_tickCount);
   plain "bluesafe_xrpl_policy_jobs_resolved_total" s.(ps_jobsResolved);
   plain "bluesafe_xrpl_policy_exhausted_total" s.(ps_policyExhausted);
   plain "bluesafe_xrpl_policy_job_errors_total" s.(ps_jobErrors);
   plain "bluesafe_xrpl_subscribe_ledger_closed_events_total" s.(ps_ledgerClosedEvents);
   plain "bluesafe_xrpl_subscribe_tx_stream_processed_total" s.(ps_transactionStreamProcessed);
   plain "bluesafe_xrpl_subscribe_tx_stream_throttled_total" s.(ps_transactionStreamThrottled);
   plain "bluesafe_xrpl_subscribe_disconnect_cycles_total" s.(ps_disconnectCycles);
   plain "bluesafe_xrpl_subscribe_connected" s.(ps_connectedGauge);
   plain "bluesafe_xrpl_watcher_last_ledger_close_unixtime" s.(ps_lastLedgerCloseUnixtime);
   ("bluesafe_xrpl_watcher_ledger_close_interval_avg_seconds", [], default "0" s.(ps_ledgerCloseIntervalAvgSec));
   plain "bluesafe_xrpl_watcher_ledger_close_interval_samples_total" s.(ps_ledgerCloseIntervalSampleCount);
   plain "bluesafe_xrpl_backfill_account_tx_live_apply_total" s.(ps_backfillLiveApplyTotal);
   plain "bluesafe_xrpl_tx_reconcile_apply_total" s.(ps_reconcileApplyTotal);
   labelled "bluesafe_xrpl_tx_outcome_classified_total" "outcome" "success" s.(ps_outcomeSuccess);
   labelled "bluesafe_xrpl_tx_outcome_classified_total" "outcome" "retryable" s.(ps_outcomeRetryable);
   labelled "bluesafe_xrpl_tx_outcome_classified_total" "outcome" "final_fail" s.(ps_outcomeFinalFail);
   labelled "bluesafe_xrpl_tx_outcome_classified_total" "outcome" "manual_review" s.(ps_outcomeManualReview);
   labelled "bluesafe_dispute_execution_requested_total" "mode" "synthetic" s.(ps_syntheticTotal);
   labelled "bluesafe_dispute_execution_requested_total" "mode" "ledger_tx" s.(ps_ledgerTxTotal);
   plain "bluesafe_settlement_ledger_close_touch_invocations_total" s.(ps_ledgerCloseTouchInvocations);
   plain "bluesafe_settlement_contracts_touched_rows_total" s.(ps_contractsTouchedTotal);
   labelled "bluesafe_reputation_outbound_delivery_total" "status" "success" s.(ps_deliveredOk);
   labelled "bluesafe_reputation_outbound_delivery_total" "status" "failure" s.(ps_deliveredFail);
   labelled "bluesafe_audit_list_query_duration_ms" "quantile" "p50" s.(ps_audit).(as_p50Ms);
   labelled "bluesafe_audit_list_query_duration_ms" "quantile" "p95" s.(ps_audit).(as_p95Ms);
   plain "bluesafe_audit_list_query_samples" (Z.of_nat s.(ps_audit).(as_sampleCount));
   ("bluesafe_kms_http_unwrap_avg_ms", [], s.(ps_kmsHttpUnwrapAvgMs))] ++
  ((fun kv => ("bluesafe_evidence_dek_resolution_total", [("source", kv.1)], num_str kv.2)) <$> s.(ps_dekBySource)) ++
  [plain "bluesafe_export_jobs_completed_total" s.(ps_completed);
   plain "bluesafe_export_jobs_failed_total" s.(ps_failed)].
Definition renderPrometheusText (s : PromSnapshots) : string :=
  foldl (fun out x => out +:+ promLine x.1.1 x.1.2 x.2) "" (promSamples s).

(** ** The metrics route and CORS *)

(** [GET /internal/prometheus]; [token] is the trimmed variable. *)
Definition getPrometheus (token : option string) (req : Request) (s : PromSnapshots) : Response :=
  if (match nonempty token with
      | Some tok => negb (bool_decide (header req "authorization" = Some ("Bearer " +:+ tok)))
      | None => false
      end)
  then mkResponse 401 (JStr "metrics auth required") [("WWW-Authenticate", "Bearer")]
  else mkResponse 200 (JStr (renderPrometheusText s)) [("Content-Type", "text/plain; version=0.0.4; charset=utf-8")].
Definition corsOrigins (raw : string) : list string :=
  filter (fun s => s <> "") (trim <$> split_on ","%char raw).
(** The headers the first middleware sets, and whether it ends the request (204). *)
Definition corsMiddleware (origins : list string) (req : Request) : list (string * string) * bool :=
  ((match nonempty (header req "origin") with
    | Some origin =>
        if bool_decide (origin ∈ origins) then
          [("Access-Control-Allow-Origin", origin); ("Vary", "Origin"); ("Access-Control-Allow-Credentials", "true");
           ("Access-Control-Allow-Headers",
            "Content-Type, Authorization, X-Bluesafe-Role, X-Bluesafe-Tenant-Id, X-Bluesafe-Landlord-Id, X-Bluesafe-Operator-Scopes");
           ("Access-Control-Allow-Methods", "GET,POST,PATCH,DELETE,OPTIONS")]
        else []
    | None => []
    end), bool_decide (req.(rq_method) = "OPTIONS")).

(** ** Facts *)

(** Samples recorded one after the other: never more than [MAX]. *)
Lemma recorded_bounded ms samples :
  (length samples <= MAX -> length (recordAuditListDurationMs ms samples) <= MAX)%nat.
Proof. unfold recordAuditListDurationMs. case_match; [done|]. rewrite length_drop. lia. Qed.

(** A percentile of some samples is one of them. *)
Lemma percentile_sample sorted num den :
  sorted <> [] -> (0 < num <= den)%Z -> percentile sorted num den ∈ sorted.
Proof.
  intros Hne Hp. unfold percentile. set (n := Z.of_nat (length sorted)).
  assert (0 < n)%Z by (destruct sorted; [done|simpl in n; lia]).
  destruct (lookup_lt_is_Some_2 sorted (Z.to_nat (Z.min (n - 1) (Z.max 0 (- (- (num * n) / den) - 1))))) as [x Hx]; [lia|].
  rewrite Hx. by eapply list_elem_of_lookup_2.
Qed.

Lemma sorted_lookup (l : list Z) i j x y :
  StronglySorted (cmp_le Z.compare) l -> l !! i = Some x -> l !! j = Some y -> (i <= j)%nat -> (x <= y)%Z.
Proof.
  intros Hs. revert i j. induction Hs as [|a l Hs IH Hall]; intros i j Hi Hj Hij; [done|].
  destruct i as [|i], j as [|j]; simplify_eq/=; [lia| |lia|by apply (IH i j); [..|lia]].
  rewrite Forall_forall in Hall. specialize (Hall y (list_elem_of_lookup_2 _ _ _ Hj)).
  unfold cmp_le in Hall. destruct (Z.compare_spec x y); [lia|lia|done].
Qed.
(** The median never exceeds the 95th percentile. *)
Lemma p50_le_p95 samples :
  let s := getAuditListDurationSnapshot samples in (as_p50Ms s <= as_p95Ms s)%Z.
Proof.
  unfold getAuditListDurationSnapshot. cbn [as_p50Ms as_p95Ms].
  assert (StronglySorted (cmp_le Z.compare) (js_sort Z.compare samples)) as Hs.
  { apply js_sort_sorted; [intros x y; apply Z.compare_antisym|]. unfold cmp_le. intros x y z Hxy Hyz Hxz.
    rewrite Z.compare_gt_iff in *. lia. }
  set (sorted := js_sort Z.compare samples) in *. clearbody sorted.
  destruct (decide (sorted = [])) as [->|Hne]; [done|].
  unfold percentile. set (n := Z.of_nat (length sorted)).
  assert (0 < n)%Z by (destruct sorted; [done|simpl in n; lia]).
  set (i := Z.to_nat (Z.min _ (Z.max 0 (- (- (1 * n) / 2) - 1)))).
  set (j := Z.to_nat (Z.min _ (Z.max 0 (- (- (19 * n) / 20) - 1)))).
  assert (i <= j < length sorted)%nat as [Hij Hj] by (unfold i, j; Z.to_euclidean_division_equations; lia).
  destruct (lookup_lt_is_Some_2 sorted i) as [x Hx]; [lia|]. destruct (lookup_lt_is_Some_2 sorted j Hj) as [y Hy].
  rewrite Hx, Hy. by eapply sorted_lookup.
Qed.

(** A label value reads back from its escaped form. *)
Fixpoint unescape (l : list ascii) : list ascii :=
  match l with
  | "\"%char :: c :: l' => c :: unescape l'
  | c :: l' => c :: unescape l'
  | [] => []
  end.
Lemma label_reads_back v : unescape (chars (escapeLabel v)) = chars v.
Proof.
  unfold escapeLabel. rewrite chars_of_chars. induction (chars v) as [|c l IH]; [done|]. cbn [flat_map].
  case_bool_decide; [subst; cbn; by rewrite IH|]. case_bool_decide; [subst; cbn; by rewrite IH|].
  cbn [app]. rewrite <-IH at 2. destruct c as [[] [] [] [] [] [] [] []]; done.
Qed.
