(* ===== verification/Reputation.v ===== *)
(** Reputation events: the internal routes of [index.ts], the signed outbound
    webhook ([services/reputation-outbound.ts]) and its dead-letter queue
    ([services/reputation-dlq.ts]). *)
From S2P Require Import Prelude JsString JsMap JsDate Types Config World Utils MemoryRepo Http Auth Notify XrplTrack.
From S2P Require Import Contracts.

(** * The dead-letter queue *)

Definition DLQ_MAX : nat := 500.

(** The oldest keys are dropped beyond the bound. *)
Definition dlqTrim (m : JsMap ReputationDlqEntry) : JsMap ReputationDlqEntry :=
  if (DLQ_MAX <? jm_size m)%nat then
    fold_left (fun m k => jm_delete k m) (take (jm_size m - DLQ_MAX) (jm_keys m)) m
  else m.
Definition dlqRecord (body : ReputationOutboundBody) (httpStatus : option Z) (error : option string)
    (failedAt : string) (m : JsMap ReputationDlqEntry) : JsMap ReputationDlqEntry :=
  let key := body.(rep_idempotencyKey) in
  let attempts := (default 0 (dlq_attempts <$> jm_get key m) + 1)%Z in
  dlqTrim (jm_set key (mkDlqEntry key body failedAt httpStatus error attempts) m).

Definition modifyDlq (f : JsMap ReputationDlqEntry -> JsMap ReputationDlqEntry) : M unit :=
  fun _ w => (inr tt, w <| w_dlq := f w.(w_dlq) |>).
Definition asksDlq {A} (f : JsMap ReputationDlqEntry -> A) : M A := fun _ w => (inr (f w.(w_dlq)), w).

Definition recordReputationOutboundDlq (body : ReputationOutboundBody) (httpStatus : option Z)
    (error : option string) : M unit :=
  failedAt ← nowIso;
  modifyDlq (dlqRecord body httpStatus error failedAt).
Definition removeReputationDlq (idempotencyKey : string) : M unit :=
  modifyDlq (jm_delete idempotencyKey).
(** The last [n] entries, the newest first. *)
Definition listReputationDlq (limit : nat) : M (list ReputationDlqEntry) :=
  let n := (200 `min` (1 `max` limit))%nat in
  asksDlq (fun m => rev (drop (jm_size m - n) (jm_values m))).
Definition getReputationDlq (idempotencyKey : string) : M (option ReputationDlqEntry) :=
  asksDlq (jm_get idempotencyKey).

(** * The outbound webhook *)

Definition tokenRefs (body : ReputationOutboundBody) : list (string * JsVal) :=
  match body.(rep_tokenStandardRefs) with
  | Some (r :: rs) => [("tokenStandardRefs", JArr (JStr <$> r :: rs))]
  | _ => []
  end.

Definition pushScheduled (body : ReputationOutboundBody) : M unit := fun _ w =>
  (inr tt, w <| w_scheduled := w.(w_scheduled) ++ [body] |>).
Definition scheduleReputationOutboundWebhook (body : ReputationOutboundBody) : M unit :=
  url ← askCfg (fun c => trim c.(cfg_outboundWebhookUrl));
  if truthy (Some url) then pushScheduled body else mret tt.

Definition reputationEnvelope (body : ReputationOutboundBody) (emittedAt : string) : JsVal :=
  JObj [("schemaVersion", JStr "bluesafe.reputation.v2");
        ("idempotencyKey", JStr body.(rep_idempotencyKey)); ("eventType", JStr body.(rep_eventType));
        ("subjectType", JStr body.(rep_subjectType)); ("subjectId", JStr body.(rep_subjectId));
        ("emittedAt", JStr emittedAt);
        ("payload", JObj (spread (default [] body.(rep_payload)) (tokenRefs body)))].

Definition deliveryFailed (body : ReputationOutboundBody) (detail : list (string * JsVal))
    (payload : list (string * JsVal)) : M unit :=
  audit "reputation" body.(rep_idempotencyKey) "reputation.outbound_delivery_failed" "reputation_webhook"
    None None (Some (JObj detail));;
  emit "reputation.outbound_delivery_failed" body.(rep_subjectType) body.(rep_subjectId)
    (("idempotencyKey", JStr body.(rep_idempotencyKey)) :: payload).

Definition deliverReputationOutboundWebhook (body : ReputationOutboundBody) : M unit :=
  url ← askCfg (fun c => trim c.(cfg_outboundWebhookUrl));
  emittedAt ← nowIso;
  reply ← io (fun env n => env.(env_fetch) n url (reputationEnvelope body emittedAt));
  match reply with
  | FR_resp status text _ =>
      if negb ((200 <=? status) && (status <=? 299))%Z then
        let t := str_take 500 text in
        metric "reputationFail" 1;;
        recordReputationOutboundDlq body (Some status) (Some t);;
        deliveryFailed body [("httpStatus", JNum status); ("detail", JStr t)] [("httpStatus", JNum status)]
      else
        removeReputationDlq body.(rep_idempotencyKey);;
        metric "reputationOk" 1;;
        audit "reputation" body.(rep_idempotencyKey) "reputation.outbound_delivered" "reputation_webhook"
          None None (Some (JObj [("httpStatus", JNum status)]));;
        at_ ← nowIso;
        emit "reputation.outbound_delivered" body.(rep_subjectType) body.(rep_subjectId)
          [("idempotencyKey", JStr body.(rep_idempotencyKey)); ("at", JStr at_)]
  | FR_error msg =>
      metric "reputationFail" 1;;
      recordReputationOutboundDlq body None (Some msg);;
      deliveryFailed body [("error", JStr msg)] [("error", JStr msg)]
  end.

(** The scheduled deliveries run one by one. *)
Definition takeScheduled : M (option ReputationOutboundBody) := fun _ w =>
  match w.(w_scheduled) with
  | [] => (inr None, w)
  | b :: bs => (inr (Some b), w <| w_scheduled := bs |>)
  end.
Definition runScheduled : M unit :=
  next ← takeScheduled;
  match next with Some b => deliverReputationOutboundWebhook b | None => mret tt end.

(** * The internal routes *)

(** [METRICS_SCRAPE_TOKEN], when set, must be presented as a bearer token. *)
Definition scrapeAuthorized (cfg : Config) (req : Request) : bool :=
  match nonempty (trim <$> cfg.(cfg_metricsScrapeToken)) with
  | Some tok => bool_decide (header req "authorization" = Some ("Bearer " +:+ tok))
  | None => true
  end.

(** The first reference outside the allowlist. *)
Definition refusedRef (allow : list string) (body : ReputationOutboundBody) : option string :=
  match allow with
  | [] => None
  | _ => snd <$> list_find (fun r => r ∉ allow) (default [] body.(rep_tokenStandardRefs))
  end.

Definition postReputationEvent (req : Request) (parsed : Parsed ReputationOutboundBody) : Handler :=
  ok ← askCfg (fun cfg => scrapeAuthorized cfg req);
  if negb ok then mret (mkResponse 401 (JStr "reputation hook auth required") [("WWW-Authenticate", "Bearer")])
  else
    withParsed parsed (fun b =>
      allow ← askCfg cfg_xlsAllowlist;
      match refusedRef allow b with
      | Some ref => mret (err 400 "B2_VALIDATION_ERROR"
                            ("tokenStandardRef not in REPUTATION_XLS_ALLOWLIST: " +:+ ref))
      | None =>
          emit "reputation.outbound_queued" b.(rep_subjectType) b.(rep_subjectId)
            (spread (spread [("idempotencyKey", JStr b.(rep_idempotencyKey));
                             ("eventType", JStr b.(rep_eventType))] (default [] b.(rep_payload)))
                    (tokenRefs b));;
          audit "reputation" b.(rep_idempotencyKey) "reputation.outbound_queued" "internal_hook" None None
            (Some (JObj [("eventType", JStr b.(rep_eventType)); ("subjectType", JStr b.(rep_subjectType));
                         ("subjectId", JStr b.(rep_subjectId))]));;
          scheduleReputationOutboundWebhook b;;
          mret (json 202 (JObj [("accepted", JBool true)]))
      end).

Definition hookUnauthorized : Response :=
  mkResponse 401 (JObj [("errorCode", JStr "B2_UNAUTHORIZED");
                        ("message", JStr "internal reputation hook auth required")])
    [("WWW-Authenticate", "Bearer")].
Definition reputation_json (b : ReputationOutboundBody) : JsVal :=
  JObj [("idempotencyKey", JStr b.(rep_idempotencyKey)); ("eventType", JStr b.(rep_eventType));
        ("subjectType", JStr b.(rep_subjectType)); ("subjectId", JStr b.(rep_subjectId));
        ("payload", match b.(rep_payload) with Some p => JObj p | None => JUndef end);
        ("tokenStandardRefs", match b.(rep_tokenStandardRefs) with
                              | Some l => JArr (JStr <$> l) | None => JUndef end)].
Definition dlq_json (e : ReputationDlqEntry) : JsVal :=
  JObj [("idempotencyKey", JStr e.(dlq_idempotencyKey)); ("body", reputation_json e.(dlq_body));
        ("failedAt", JStr e.(dlq_failedAt));
        ("lastHttpStatus", jopt_num e.(dlq_lastHttpStatus)); ("lastError", jopt e.(dlq_lastError));
        ("attempts", JNum e.(dlq_attempts))].

(** [limit] is the parsed query parameter, 50 when absent or zero. *)
Definition getReputationDelivery (req : Request) (limit : nat) : Handler :=
  ok ← askCfg (fun cfg => scrapeAuthorized cfg req);
  if negb ok then mret hookUnauthorized
  else
    items ← listReputationDlq limit;
    mret (json 200 (JObj [("count", JNum (Z.of_nat (length items))); ("items", JArr (dlq_json <$> items))])).

Definition postReputationRetry (req : Request) (parsed : Parsed string) : Handler :=
  ok ← askCfg (fun cfg => scrapeAuthorized cfg req);
  if negb ok then mret hookUnauthorized
  else
    withParsed parsed (fun key =>
      entry ← getReputationDlq key;
      match entry with
      | None => mret (err 404 "B2_NOT_FOUND" "No DLQ entry for this idempotencyKey")
      | Some e =>
          scheduleReputationOutboundWebhook e.(dlq_body);;
          audit "reputation" e.(dlq_idempotencyKey) "reputation.outbound_retry_queued" "internal_hook"
            None None (Some (JObj [("attempts", JNum e.(dlq_attempts))]));;
          mret (json 202 (JObj [("requeued", JBool true); ("idempotencyKey", JStr e.(dlq_idempotencyKey))]))
      end).
