(* ===== verification/Inv.v ===== *)
(** The invariant of the store and the ways its rows may evolve, and what each
    write of the repository needs to keep both.  [Step] is the relation every
    operation of the service is shown to keep: under distinct identifiers, a
    well-formed store stays well formed and evolves. *)
From S2P Require Import Prelude JsString JsMap JsDate Types Config World Utils MemoryRepo Http Auth Notify Logic.
From S2P Require Import XrplTrack Contracts Disputes NotifyApi Settlements.
From Stdlib Require Import Ascii.

(** * Identifiers *)

(** The sixteen characters of an identifier that come from the UUID. *)
Definition idCore (uuid : string) : string := str_take 16 (remove_char "-"%char uuid).

(** The identifiers drawn in a run of [n] draws are distinct: what
    [crypto.randomUUID()] is used for. *)
Definition ids_distinct (env : Env) (n : nat) : Prop :=
  forall i j, i < n -> j < n -> idCore (env.(env_uuid) i) = idCore (env.(env_uuid) j) -> i = j.

Definition drawn (env : Env) (n : nat) (prefix id : string) : Prop :=
  exists i, i < n /\ id = idOfUuid prefix (env.(env_uuid) i).

Lemma str_app_inj_l a b c : a +:+ b = a +:+ c -> b = c.
Proof.
  intros H. apply (f_equal chars) in H. rewrite !chars_app in H.
  apply app_inv_head in H. by apply (inj chars).
Qed.

Lemma idOfUuid_inj prefix u v : idOfUuid prefix u = idOfUuid prefix v -> idCore u = idCore v.
Proof. unfold idOfUuid. intros H%str_app_inj_l. injection H as H. exact H. Qed.

Lemma drawn_fresh env n prefix :
  ids_distinct env (S n) -> ~ drawn env n prefix (idOfUuid prefix (env.(env_uuid) n)).
Proof. intros Hd (i & Hi & He%idOfUuid_inj). apply Hd in He; lia. Qed.
Lemma drawn_mono env n m prefix id : n <= m -> drawn env n prefix id -> drawn env m prefix id.
Proof. intros ? (i & ? & ?). exists i. split; [lia|done]. Qed.
Lemma drawn_last env n prefix : drawn env (S n) prefix (idOfUuid prefix (env.(env_uuid) n)).
Proof. exists n. split; [lia|done]. Qed.
Lemma ids_distinct_le env n m : n <= m -> ids_distinct env m -> ids_distinct env n.
Proof. intros ? H i j ? ?. apply H; lia. Qed.
#[export] Hint Resolve drawn_last : bs.

(** * Maps and their evolution *)

Section map_rel.
Context {V : Type}.
Implicit Types (m : JsMap V) (P : V -> V -> Prop).

(** Rows are never dropped, and each evolves by [P]. *)
Definition rows_evolve P m m' : Prop :=
  forall k v, jm_get k m = Some v -> exists v', jm_get k m' = Some v' /\ P v v'.

#[export] Instance rows_evolve_preorder P : PreOrder P -> PreOrder (rows_evolve P).
Proof.
  intros HP. split.
  - intros m k v ?. exists v. split; [done|reflexivity].
  - intros m1 m2 m3 H1 H2 k v Hk. destruct (H1 k v Hk) as (v1 & Hk1 & ?).
    destruct (H2 k v1 Hk1) as (v2 & ? & ?). exists v2. split; [done|by etrans].
Qed.

Lemma rows_evolve_set P m k v :
  PreOrder P -> (forall v0, jm_get k m = Some v0 -> P v0 v) -> rows_evolve P m (jm_set k v m).
Proof.
  intros HP H k' v' Hk'. rewrite jm_get_set. case_decide; subst; [eauto|].
  exists v'. split; [done|reflexivity].
Qed.
Lemma rows_evolve_has P m m' k : rows_evolve P m m' -> is_Some (jm_get k m) -> is_Some (jm_get k m').
Proof. intros H [v Hv]. destruct (H k v Hv) as (v' & ? & _). eauto. Qed.

End map_rel.

(** [m] is a well-keyed map whose entries satisfy [P]. *)
Record keyed {V} (P : string -> V -> Prop) (m : JsMap V) : Prop := mkKeyed {
  keyed_wf : jm_wf m; keyed_all : jm_all P m }.

Lemma keyed_set {V} (P : string -> V -> Prop) m k v : keyed P m -> P k v -> keyed P (jm_set k v m).
Proof. intros [] ?. split; auto with bs. Qed.
Lemma keyed_delete {V} (P : string -> V -> Prop) m k : keyed P m -> keyed P (jm_delete k m).
Proof. intros []. split; auto with bs. Qed.
Lemma keyed_get {V} (P : string -> V -> Prop) m k v : keyed P m -> jm_get k m = Some v -> P k v.
Proof. intros [_ H] ?. by eapply jm_all_get. Qed.
Lemma keyed_impl {V} (P Q : string -> V -> Prop) m :
  (forall k v, P k v -> Q k v) -> keyed P m -> keyed Q m.
Proof.
  intros H [? Ha]. split; [done|]. eapply Forall_impl; [exact Ha|]. intros [] ?. by apply H.
Qed.
Lemma keyed_nil {V} (P : string -> V -> Prop) : keyed P [].
Proof. split; [constructor|constructor]. Qed.
Lemma keyed_value {V} (P : string -> V -> Prop) m v :
  keyed P m -> v ∈ jm_values m -> exists k, jm_get k m = Some v /\ P k v.
Proof.
  intros Hk Hv. apply jm_values_get in Hv as [k Hg]; [|apply Hk].
  exists k. split; [done|by eapply keyed_get].
Qed.

(** * How rows evolve *)

Abbreviation reach := (rtc) (only parsing).

Definition contract_move (a b : ContractStatus) : Prop := isContractStatusTransitionAllowed a b = true.
(** The parties and terms of a contract are fixed; its status moves along the
    allowed transitions. *)
Definition contract_evolves (c c' : Contract) : Prop :=
  c'.(c_id) = c.(c_id) /\ c'.(c_tenantId) = c.(c_tenantId) /\ c'.(c_landlordId) = c.(c_landlordId) /\
  c'.(c_depositAmount) = c.(c_depositAmount) /\ c'.(c_stakeAmount) = c.(c_stakeAmount) /\
  c'.(c_startsAt) = c.(c_startsAt) /\ c'.(c_endsAt) = c.(c_endsAt) /\
  c'.(c_createdAt) = c.(c_createdAt) /\ reach contract_move c.(c_status) c'.(c_status).

(** Review is entered and left; a decision closes it; execution is requested,
    then resolved by the ledger. *)
Definition dispute_move (a b : DisputeStatus) : Prop :=
  match a, b with
  | DS_filed, DS_under_review | DS_under_review, DS_filed
  | DS_filed, DS_decided | DS_under_review, DS_decided
  | DS_decided, DS_execution_pending
  | DS_execution_pending, DS_executed | DS_execution_pending, DS_rejected => True
  | _, _ => False
  end.
Definition dispute_evolves (d d' : DisputeCase) : Prop :=
  d'.(d_id) = d.(d_id) /\ d'.(d_contractId) = d.(d_contractId) /\ d'.(d_raisedBy) = d.(d_raisedBy) /\
  d'.(d_reasonCode) = d.(d_reasonCode) /\ d'.(d_evidenceBundle) = d.(d_evidenceBundle) /\
  d'.(d_createdAt) = d.(d_createdAt) /\ reach dispute_move d.(d_status) d'.(d_status).

(** The moves when requests for execution overlap: one that was waiting on the
    network writes [execution_pending] over whatever the others have reached. *)
Definition dispute_move_overlap (a b : DisputeStatus) : Prop :=
  dispute_move a b \/ ((a = DS_executed \/ a = DS_rejected) /\ b = DS_execution_pending).
Definition dispute_evolves_overlap (d d' : DisputeCase) : Prop :=
  d'.(d_id) = d.(d_id) /\ d'.(d_contractId) = d.(d_contractId) /\ d'.(d_raisedBy) = d.(d_raisedBy) /\
  d'.(d_reasonCode) = d.(d_reasonCode) /\ d'.(d_evidenceBundle) = d.(d_evidenceBundle) /\
  d'.(d_createdAt) = d.(d_createdAt) /\ reach dispute_move_overlap d.(d_status) d'.(d_status).

(** What was uploaded is never rewritten; only the retention metadata is. *)
Definition evidence_evolves (e e' : EvidenceFile) : Prop :=
  exists rc ju lh ru,
    e' = e <| e_retentionClass := rc |> <| e_jurisdiction := ju |> <| e_legalHoldUntil := lh |>
           <| e_retainUntil := ru |>.

Definition xrplTx_evolves (x x' : XrplTransaction) : Prop :=
  x'.(x_id) = x.(x_id) /\ x'.(x_txHash) = x.(x_txHash) /\ (x.(x_retries) <= x'.(x_retries))%Z.

Definition settlement_move (a b : SettlementStatus) : Prop := settlementTransitionAllowed a b = true.
Definition settlement_evolves (s s' : SettlementRecord) : Prop :=
  s'.(s_id) = s.(s_id) /\ s'.(s_contractId) = s.(s_contractId) /\
  s'.(s_periodYear) = s.(s_periodYear) /\ s'.(s_periodMonth) = s.(s_periodMonth) /\
  s'.(s_createdAt) = s.(s_createdAt) /\
  (default 0 s.(s_ledgerCloseCount) <= default 0 s'.(s_ledgerCloseCount))%Z /\
  (truthy s.(s_confirmedAt) = true -> s'.(s_confirmedAt) = s.(s_confirmedAt)) /\
  reach settlement_move s.(s_status) s'.(s_status).

Definition outbox_move (a b : NotificationOutboxStatus) : Prop :=
  match a, b with
  | OS_pending, OS_processing
  | OS_processing, OS_pending | OS_processing, OS_dispatched | OS_processing, OS_dead
  | OS_dead, OS_pending => True
  | _, _ => False
  end.
Definition outbox_evolves (o o' : NotificationOutboxRecord) : Prop :=
  o'.(o_id) = o.(o_id) /\ o'.(o_idempotencyKey) = o.(o_idempotencyKey) /\
  o'.(o_eventType) = o.(o_eventType) /\ o'.(o_recipientId) = o.(o_recipientId) /\
  o'.(o_channel) = o.(o_channel) /\ o'.(o_payload) = o.(o_payload) /\
  o'.(o_createdAt) = o.(o_createdAt) /\ reach outbox_move o.(o_status) o'.(o_status).

(** What a row is about, fixed when it is queued. *)
Definition same_notification (n n' : NotificationEvent) : Prop :=
  n'.(n_id) = n.(n_id) /\ n'.(n_eventType) = n.(n_eventType) /\
  n'.(n_recipientId) = n.(n_recipientId) /\ n'.(n_channel) = n.(n_channel) /\
  n'.(n_payload) = n.(n_payload) /\ n'.(n_createdAt) = n.(n_createdAt).
(** The worker only takes rows that are waiting. *)
Definition waiting (n : NotificationEvent) : Prop :=
  n.(n_status) = NS_queued \/ n.(n_status) = NS_retry_scheduled.
(** One delivery, whatever its outcome. *)
Definition notification_delivered (n n' : NotificationEvent) : Prop :=
  waiting n /\ same_notification n n' /\
  (default 0 n.(n_attemptCount) <= default 0 n'.(n_attemptCount))%Z /\ n'.(n_status) <> NS_queued.
Definition notification_evolves : relation NotificationEvent := rtc notification_delivered.
(** When ticks of the worker overlap, a delivery that was waiting on its
    provider writes the row as it had read it, over whatever the others have
    made of it. *)
Definition notification_overwritten (n n' : NotificationEvent) : Prop :=
  same_notification n n' /\ n'.(n_status) <> NS_queued.
Definition notification_evolves_overlap : relation NotificationEvent := rtc notification_overwritten.

Definition export_move (a b : ExportJobStatus) : Prop :=
  match a, b with
  | ES_pending, ES_running | ES_running, ES_completed | ES_running, ES_failed => True
  | _, _ => False
  end.
Definition export_evolves (j j' : ExportJobRecord) : Prop :=
  j'.(x_jobId) = j.(x_jobId) /\ j'.(x_kind) = j.(x_kind) /\ j'.(x_filter) = j.(x_filter) /\
  j'.(x_maxExport) = j.(x_maxExport) /\ j'.(x_createdAt) = j.(x_createdAt) /\
  reach export_move j.(x_status) j'.(x_status).

Ltac solve_evolves_preorder :=
  split; [intros ?|intros ? ? ?];
  [repeat split; try (intros; reflexivity); try reflexivity; try (apply rtc_refl)
  |intros H1 H2; hnf in H1, H2; destruct_and!;
   repeat split; try congruence; try lia; try (etrans; eassumption)].

#[export] Instance contract_evolves_preorder : PreOrder contract_evolves.
Proof. solve_evolves_preorder. Qed.
#[export] Instance dispute_evolves_preorder : PreOrder dispute_evolves.
Proof. solve_evolves_preorder. Qed.
#[export] Instance xrplTx_evolves_preorder : PreOrder xrplTx_evolves.
Proof. solve_evolves_preorder. Qed.
#[export] Instance outbox_evolves_preorder : PreOrder outbox_evolves.
Proof. solve_evolves_preorder. Qed.
#[export] Instance dispute_evolves_overlap_preorder : PreOrder dispute_evolves_overlap.
Proof. solve_evolves_preorder. Qed.
#[export] Instance same_notification_preorder : PreOrder same_notification.
Proof. solve_evolves_preorder. Qed.
#[export] Instance notification_evolves_preorder : PreOrder notification_evolves.
Proof. apply _. Qed.
#[export] Instance notification_evolves_overlap_preorder : PreOrder notification_evolves_overlap.
Proof. apply _. Qed.
(** What one operation at a time does is a case of it. *)
Lemma dispute_evolves_overlapping d d' : dispute_evolves d d' -> dispute_evolves_overlap d d'.
Proof.
  unfold dispute_evolves, dispute_evolves_overlap. intros. destruct_and!. split_and!; try done.
  eapply rtc_subrel; [|done]. by left.
Qed.
Lemma notification_evolves_overlapping n n' : notification_evolves n n' -> notification_evolves_overlap n n'.
Proof. apply rtc_subrel. by intros x y (_ & ? & _ & ?). Qed.

Lemma notification_evolves_same n n' : notification_evolves_overlap n n' -> same_notification n n'.
Proof. induction 1 as [|x y z [? _] _ ?]; [reflexivity|by etrans]. Qed.
Lemma notification_evolves_queued n n' :
  notification_evolves_overlap n n' -> n'.(n_status) = NS_queued -> n' = n.
Proof. intros [<-|(y & _ & _ & ?)]%rtc_inv_r; [done|congruence]. Qed.
Lemma notification_evolves_final n n' : notification_evolves n n' -> ~ waiting n -> n' = n.
Proof. intros [|x y z [Hw _] _]; [done|by intros []]. Qed.
Lemma notification_evolves_attempts n n' :
  notification_evolves n n' -> (default 0 n.(n_attemptCount) <= default 0 n'.(n_attemptCount))%Z.
Proof. induction 1 as [|x y z (_ & _ & ? & _) _ ?]; lia. Qed.
#[export] Instance export_evolves_preorder : PreOrder export_evolves.
Proof. solve_evolves_preorder. Qed.
#[export] Instance settlement_evolves_preorder : PreOrder settlement_evolves.
Proof.
  solve_evolves_preorder. intros Ht.
  match goal with H : truthy (s_confirmedAt x) = true -> _ |- _ =>
    rewrite <-(H Ht); match goal with H' : truthy (s_confirmedAt y) = true -> _ |- _ => apply H' end;
    by rewrite (H Ht) end.
Qed.
#[export] Instance evidence_evolves_preorder : PreOrder evidence_evolves.
Proof.
  split.
  - intros []. by eexists _, _, _, _.
  - intros e1 e2 e3 (rc & ju & lh & ru & ->) (rc' & ju' & lh' & ru' & ->). by exists rc', ju', lh', ru'.
Qed.

(** * The well-formed store *)

Definition has {V} (m : JsMap V) (k : string) : Prop := is_Some (jm_get k m).

Definition contract_ok env n (k : string) (c : Contract) : Prop := c.(c_id) = k /\ drawn env n "ctr" k.
Definition evidence_ok env n (db : Db) (k : string) (e : EvidenceFile) : Prop :=
  e.(e_id) = k /\ drawn env n "evd" k /\ has db.(contracts) e.(e_contractId).
Definition dispute_ok env n (db : Db) (k : string) (d : DisputeCase) : Prop :=
  d.(d_id) = k /\ drawn env n "dsp" k /\ has db.(contracts) d.(d_contractId).
Definition decision_ok env n (db : Db) (k : string) (d : CaseDecision) : Prop :=
  d.(cd_id) = k /\ drawn env n "dcs" k /\ has db.(disputes) d.(cd_disputeId).
Definition xrplTx_ok (k : string) (x : XrplTransaction) : Prop := x.(x_txHash) = k.
Definition notification_ok env n (k : string) (e : NotificationEvent) : Prop :=
  e.(n_id) = k /\ drawn env n "ntf" k.
Definition outbox_ok env n (k : string) (o : NotificationOutboxRecord) : Prop :=
  o.(o_id) = k /\ drawn env n "nox" k.
(** One vote per verifier, all of the dispute they are stored under. *)
Definition votes_ok (db : Db) (k : string) (vs : list DisputeVerifierVoteRecord) : Prop :=
  Forall (fun v => v.(v_disputeId) = k) vs /\ NoDup (v_verifierId <$> vs) /\ has db.(disputes) k.
Definition settlement_ok (db : Db) (k : string) (s : SettlementRecord) : Prop :=
  s.(s_id) = k /\ k = settlementDeterministicId s.(s_contractId) s.(s_periodYear) s.(s_periodMonth) /\
  has db.(contracts) s.(s_contractId).
Definition export_ok env n (k : string) (j : ExportJobRecord) : Prop :=
  j.(x_jobId) = k /\ drawn env n "exp" k.
(** An audit row has a drawn identifier and a stamp of the clock. *)
Definition audit_ok env n (a : AuditLog) : Prop :=
  drawn env n "aud" a.(a_id) /\ exists i, a.(a_createdAt) = toISOString (env.(env_clock) i).
(** The idempotency index is the inverse of the key of the rows. *)
Definition outbox_indexed (db : Db) : Prop :=
  forall key id, jm_get key db.(notificationOutboxIdempotency) = Some id <->
    exists o, jm_get id db.(notificationOutboxById) = Some o /\ o.(o_idempotencyKey) = key.

Record db_wf (env : Env) (n : nat) (db : Db) : Prop := mkWf {
  wf_contracts : keyed (contract_ok env n) db.(contracts);
  wf_evidences : keyed (evidence_ok env n db) db.(evidences);
  wf_disputes : keyed (dispute_ok env n db) db.(disputes);
  wf_decisions : keyed (decision_ok env n db) db.(decisions);
  wf_xrplTxs : keyed xrplTx_ok db.(xrplTxs);
  wf_notifications : keyed (notification_ok env n) db.(notifications);
  wf_outbox : keyed (outbox_ok env n) db.(notificationOutboxById);
  wf_outbox_index : outbox_indexed db;
  wf_audits : NoDup (a_id <$> db.(audits)) /\ Forall (audit_ok env n) db.(audits);
  wf_events : NoDup (ev_eventId <$> db.(events)) /\
              Forall (fun e => drawn env n "evt" e.(ev_eventId)) db.(events);
  wf_dedup : NoDup db.(xrplIngestionDedup);
  wf_jobs : keyed (fun k j => j.(j_id) = k) db.(delayedJobs);
  wf_votes : keyed (votes_ok db) db.(disputeVerifierVotes);
  wf_registry : keyed (fun k r => r.(r_verifierId) = k) db.(disputeVerifierRegistry);
  wf_settlements : keyed (settlement_ok db) db.(settlements);
  wf_exports : keyed (export_ok env n) db.(exportJobs) }.

Lemma emptyDb_wf env n : db_wf env n emptyDb.
Proof.
  split; try apply keyed_nil; try (split; constructor); [|constructor].
  intros key id. simpl. split; [done|]. by intros (o & ? & _).
Qed.

Lemma db_wf_mono env n m db : n <= m -> db_wf env n db -> db_wf env m db.
Proof.
  intros Hle []. split; try done.
  all: try (eapply keyed_impl; [|eassumption]; unfold contract_ok, evidence_ok, dispute_ok,
    decision_ok, notification_ok, outbox_ok, export_ok; naive_solver eauto using drawn_mono).
  - destruct wf_audits0. split; [done|]. eapply Forall_impl; [done|]. intros a [? ?].
    split; eauto using drawn_mono.
  - destruct wf_events0. split; [done|]. eapply Forall_impl; [done|]. eauto using drawn_mono.
Qed.

(** * The evolution of the store *)

(** How a run is looked at: the draw it started from, and whether execution
    requests and notification ticks of it may overlap.  A number stands for a
    run whose operations follow one another. *)
Record Base := mkBase { b_from : nat; b_requests : bool; b_ticks : bool }.
Definition atomically (n : nat) : Base := mkBase n false false.
Coercion b_from : Base >-> nat.
Coercion atomically : nat >-> Base.
Definition dispute_evolves_in (b : Base) : relation DisputeCase :=
  if b.(b_requests) then dispute_evolves_overlap else dispute_evolves.
Definition notification_evolves_in (b : Base) : relation NotificationEvent :=
  if b.(b_ticks) then notification_evolves_overlap else notification_evolves.
#[export] Instance dispute_evolves_in_preorder b : PreOrder (dispute_evolves_in b).
Proof. unfold dispute_evolves_in. destruct (b_requests b); apply _. Qed.
#[export] Instance notification_evolves_in_preorder b : PreOrder (notification_evolves_in b).
Proof. unfold notification_evolves_in. destruct (b_ticks b); apply _. Qed.
Lemma dispute_evolves_any b d d' : dispute_evolves d d' -> dispute_evolves_in b d d'.
Proof. unfold dispute_evolves_in. destruct (b_requests b); [apply dispute_evolves_overlapping|done]. Qed.
Lemma notification_evolves_any b n n' : notification_evolves n n' -> notification_evolves_in b n n'.
Proof. unfold notification_evolves_in. destruct (b_ticks b); [apply notification_evolves_overlapping|done]. Qed.

(** Evidence rows may be purged, and a purged identifier never comes back: a
    row is an evolved one, or has an identifier drawn at [n0] or later. *)
Definition evidences_evolve (env : Env) (n0 n' : nat) (m m' : JsMap EvidenceFile) : Prop :=
  forall k e', jm_get k m' = Some e' ->
    (exists e, jm_get k m = Some e /\ evidence_evolves e e') \/
    (exists i, n0 <= i < n' /\ k = idOfUuid "evd" (env.(env_uuid) i)).

Lemma evidences_evolve_refl env n0 n m : evidences_evolve env n0 n m m.
Proof. intros k e ?. left. exists e. split; [done|reflexivity]. Qed.
Lemma evidences_evolve_trans env n0 n2 n3 m1 m2 m3 :
  n2 <= n3 -> evidences_evolve env n0 n2 m1 m2 -> evidences_evolve env n0 n3 m2 m3 ->
  evidences_evolve env n0 n3 m1 m3.
Proof.
  intros ? H1 H2 k e3 Hk. destruct (H2 k e3 Hk) as [(e2 & Hk2 & He)|(i & ? & ->)].
  - destruct (H1 k e2 Hk2) as [(e1 & ? & ?)|(i & ? & ->)].
    + left. exists e1. split; [done|by etrans].
    + right. exists i. split; [lia|done].
  - right. exists i. split; [lia|done].
Qed.

Record db_evolves (env : Env) (n0 : Base) (n' : nat) (db db' : Db) : Prop := mkEvolves {
  ev_contracts : rows_evolve contract_evolves db.(contracts) db'.(contracts);
  ev_evidences : evidences_evolve env n0 n' db.(evidences) db'.(evidences);
  ev_disputes : rows_evolve (dispute_evolves_in n0) db.(disputes) db'.(disputes);
  ev_decisions : rows_evolve eq db.(decisions) db'.(decisions);
  ev_xrplTxs : rows_evolve xrplTx_evolves db.(xrplTxs) db'.(xrplTxs);
  ev_notifications : rows_evolve (notification_evolves_in n0) db.(notifications) db'.(notifications);
  ev_outbox : rows_evolve outbox_evolves db.(notificationOutboxById) db'.(notificationOutboxById);
  ev_audits : db.(audits) `prefix_of` db'.(audits);
  ev_events : db.(events) `prefix_of` db'.(events);
  ev_dedup : db.(xrplIngestionDedup) `prefix_of` db'.(xrplIngestionDedup);
  ev_votes : rows_evolve prefix db.(disputeVerifierVotes) db'.(disputeVerifierVotes);
  ev_settlements : rows_evolve settlement_evolves db.(settlements) db'.(settlements);
  ev_exports : rows_evolve export_evolves db.(exportJobs) db'.(exportJobs) }.

Lemma db_evolves_refl env n0 n db : db_evolves env n0 n db db.
Proof. split; try reflexivity. apply evidences_evolve_refl. Qed.
Lemma db_evolves_trans env n0 n2 n3 db1 db2 db3 :
  n2 <= n3 -> db_evolves env n0 n2 db1 db2 -> db_evolves env n0 n3 db2 db3 ->
  db_evolves env n0 n3 db1 db3.
Proof.
  intros ? [] []. split; try (etrans; eassumption). by eapply evidences_evolve_trans.
Qed.

(** * The step relation *)

(** Identifiers are only drawn. *)
Definition Mono (env : Env) (w w' : World) : Prop := w.(w_rnd) <= w'.(w_rnd).
#[export] Instance mono_preorder env : PreOrder (Mono env).
Proof. split; [intros ?; unfold Mono; done|intros ???; unfold Mono; lia]. Qed.
#[export] Instance mono_frame : Frame Mono.
Proof. split; [apply _|..]; intros; unfold Mono; simpl; lia. Qed.
Lemma mono_modify f : keeps Mono (modify f).
Proof. intros env w. unfold keeps_at, Mono. done. Qed.

#[export] Hint Resolve mono_modify : keeps.
#[export] Instance mono_quiet : Quiet Mono.
Proof.
  assert (Logs Mono).
  { split; [apply _| |]; intros; unfold writeAudit, appendAudit, emitEvent, appendEvent; keeps_auto. }
  split; [done|]. intros. unfold enqueueFanoutNotificationItems, enqueueOutboxItem, enqueueDirectItem,
    domainNotificationIdempotencyKey, sha256, appendNotificationOutbox, saveNotification. keeps_auto.
Qed.

(** The store is the same, whatever was drawn and asked. *)
Definition Same (env : Env) (w w' : World) : Prop :=
  w'.(w_db) = w.(w_db) /\ w.(w_rnd) <= w'.(w_rnd).
#[export] Instance same_preorder env : PreOrder (Same env).
Proof. split; [intros ?; by split|intros ??? [] []; split; [congruence|lia]]. Qed.
#[export] Instance same_frame : Frame Same.
Proof. split; [apply _|..]; intros; split; simpl; subst; auto. Qed.

Lemma keeps_of_same (R : relation Db) `{!PreOrder R} {A} (m : M A) : keeps Same m -> keeps (on_db R) m.
Proof. intros H env w. destruct (H env w) as [Hd _]. unfold keeps_at, on_db. by rewrite Hd. Qed.

(** From a store whose identifiers are those drawn so far: while the draws are
    distinct, the store stays well formed and evolves.  [n0] is the draw the
    whole run started from. *)
Definition Step (n0 : Base) (env : Env) (w w' : World) : Prop :=
  w.(w_rnd) <= w'.(w_rnd) /\
  (n0 <= w.(w_rnd) -> ids_distinct env w'.(w_rnd) -> db_wf env w.(w_rnd) w.(w_db) ->
   db_wf env w'.(w_rnd) w'.(w_db) /\ db_evolves env n0 w'.(w_rnd) w.(w_db) w'.(w_db)).

#[export] Instance step_preorder n0 env : PreOrder (Step n0 env).
Proof.
  split.
  - intros w. split; [done|]. intros _ _ Hwf. split; [done|apply db_evolves_refl].
  - intros w1 w2 w3 [Hle1 H1] [Hle2 H2]. split; [lia|]. intros Hn Hd Hwf1.
    destruct H1 as [Hwf2 He1]; [done|by eapply ids_distinct_le|done|].
    destruct H2 as [Hwf3 He2]; [lia|done..|]. split; [done|by eapply db_evolves_trans].
Qed.

Lemma step_of_same n0 env w w' : Same env w w' -> Step n0 env w w'.
Proof.
  intros [Hdb Hle]. split; [done|]. intros _ _ Hwf. rewrite Hdb. split; [by eapply db_wf_mono|].
  apply db_evolves_refl.
Qed.

#[export] Instance step_frame n0 : Frame (Step n0).
Proof. split; [apply _|..]; intros; apply step_of_same; split; simpl; subst; auto. Qed.

Section at_step.
Context (n0 : Base).

(** What a run may assume of the store it starts from. *)
Lemma step_assume {A} (m : M A) env w :
  keeps Mono m ->
  (n0 <= w.(w_rnd) -> db_wf env w.(w_rnd) w.(w_db) -> keeps_at (Step n0) m env w) ->
  keeps_at (Step n0) m env w.
Proof.
  intros Hm H. split; [apply Hm|]. intros Hn Hd Hwf. by apply H.
Qed.

Lemma at_bind_same {A B} (m : M A) (k : A -> M B) env w :
  keeps Same m ->
  (forall a w', w'.(w_db) = w.(w_db) -> w.(w_rnd) <= w'.(w_rnd) -> keeps_at (Step n0) (k a) env w') ->
  keeps_at (Step n0) (m ≫= k) env w.
Proof.
  intros Hm Hk. apply at_bind; [apply _|apply step_of_same, Hm|].
  intros a w' E _. specialize (Hm env w). unfold keeps_at in Hm. rewrite E in Hm.
  destruct Hm. by apply Hk.
Qed.

Lemma keeps_same_step {A} (m : M A) : keeps Same m -> keeps (Step n0) m.
Proof. intros H env w. apply step_of_same, H. Qed.

(** A write. *)
Lemma step_modify f env w :
  (n0 <= w.(w_rnd) -> ids_distinct env w.(w_rnd) -> db_wf env w.(w_rnd) w.(w_db) ->
   db_wf env w.(w_rnd) (f w.(w_db)) /\
   db_evolves env n0 w.(w_rnd) w.(w_db) (f w.(w_db))) ->
  keeps_at (Step n0) (modify f) env w.
Proof. intros H. split; [done|]. intros. by apply H. Qed.
End at_step.

Lemma has_evolve {V} (P : V -> V -> Prop) m m' k : rows_evolve P m m' -> has m k -> has m' k.
Proof. apply rows_evolve_has. Qed.
