(* ===== verification/Loops.v ===== *)
(** Loops over rows of the store.  The workers read a list of rows and then
    treat them one by one: a row is still the stored one when its turn comes,
    because the turns before only touched other rows. *)
From S2P Require Import Prelude JsString JsMap JsDate Types Config World Utils MemoryRepo Notify Logic Inv.

(** * Loops with an invariant of what is left to do *)

Section at_loop.
Context (R : Env -> relation World) `{HF : !Frame R} {A B : Type}.
Context (I : list A -> World -> Prop) (env : Env).

Lemma at_foldM (f : B -> A -> M B) b l w :
  I l w ->
  (forall b x l w, I (x :: l) w -> keeps_at R (f b x) env w) ->
  (forall b x l w b' w', I (x :: l) w -> f b x env w = (inr b', w') -> I l w') ->
  keeps_at R (foldM f b l) env w.
Proof using HF.
  intros HI Hf Hn. revert b w HI. induction l as [|x l IH]; intros b w HI; [apply keeps_ret, _|].
  simpl. apply at_bind; [apply _|by eapply Hf|]. intros b' w' Hr _. by eapply IH, Hn.
Qed.
Lemma at_forEach (f : A -> M unit) l w :
  I l w ->
  (forall x l w, I (x :: l) w -> keeps_at R (f x) env w) ->
  (forall x l w w', I (x :: l) w -> f x env w = (inr (), w') -> I l w') ->
  keeps_at R (forEach f l) env w.
Proof using HF.
  intros HI Hf Hn. revert w HI. induction l as [|x l IH]; intros w HI; [apply keeps_ret, _|].
  simpl. apply at_bind; [apply _|by eapply Hf|]. intros [] w' Hr _. by eapply IH, Hn.
Qed.
End at_loop.

(** A step that leaves something alone ([R']), then the rest. *)
Lemma at_bind_rel (R R' : Env -> relation World) `{!Frame R} {A B} (m : M A) (k : A -> M B) env w :
  keeps_at R m env w -> keeps_at R' m env w ->
  (forall a w', R' env w w' -> keeps_at R (k a) env w') -> keeps_at R (m ≫= k) env w.
Proof.
  intros Hm Hm' Hk. apply at_bind; [apply _|done|]. intros a w' Hr _. apply Hk.
  unfold keeps_at in Hm'. by rewrite Hr in Hm'.
Qed.

(** Code that does not throw: its [catch] is not reached. *)
Definition total {A} (m : M A) : Prop := forall env w, exists a w', m env w = (inr a, w').
Lemma total_ret {A} (a : A) : total (mret a).
Proof. by intros env w; exists a, w. Qed.
Lemma total_modify f : total (modify f).
Proof. intros env w. by eexists _, _. Qed.
Lemma total_asks {A} (f : Db -> A) : total (asks f).
Proof. intros env w. by eexists _, _. Qed.
Lemma total_bind {A B} (m : M A) (k : A -> M B) : total m -> (forall a, total (k a)) -> total (m ≫= k).
Proof.
  intros Hm Hk env w. unfold mbind, M_bind. destruct (Hm env w) as (a & w' & ->). apply Hk.
Qed.
Lemma total_emit ty et ei p : total (emit ty et ei p).
Proof. intros env w. by eexists _, _. Qed.
Lemma at_try_total (R : Env -> relation World) {A} (m : M A) h env w :
  total m -> keeps_at R m env w -> keeps_at R (try_catch m h) env w.
Proof.
  intros Ht. unfold keeps_at, try_catch. by destruct (Ht env w) as (a & w' & ->).
Qed.

(** * Rows that are current *)

Section rows.
Context {V : Type} (table : Db -> JsMap V) (key : V -> string).

Definition current (l : list V) (db : Db) : Prop :=
  NoDup (key <$> l) /\ forall x, x ∈ l -> jm_get (key x) (table db) = Some x.
(** Only the row at [k] is touched. *)
Definition others (k : string) (db db' : Db) : Prop :=
  forall k', k' <> k -> jm_get k' (table db') = jm_get k' (table db).
#[export] Instance others_preorder k : PreOrder (others k).
Proof.
  split; [by intros db|]. intros a b c H1 H2 k' ?. rewrite H2, H1; done.
Qed.

Lemma current_cons x l db db' : current (x :: l) db -> others (key x) db db' -> current l db'.
Proof.
  intros [Hnd Hc] Ho. rewrite fmap_cons, NoDup_cons in Hnd. destruct Hnd as [Hx Hnd].
  split; [done|]. intros y Hy. rewrite Ho; [apply Hc; by right|].
  intros Heq. apply Hx. rewrite <-Heq. apply list_elem_of_fmap. eauto.
Qed.
Lemma current_head x l db : current (x :: l) db -> jm_get (key x) (table db) = Some x.
Proof. intros [_ H]. apply H. by left. Qed.

(** What is read from a well-keyed table is current, in any order and part. *)
Lemma current_values P db :
  keyed P (table db) -> (forall k v, P k v -> key v = k) -> current (jm_values (table db)) db.
Proof.
  intros Hk HP. split.
  - enough (key <$> jm_values (table db) = jm_keys (table db)) as -> by apply Hk.
    unfold jm_values, jm_keys. rewrite <-list_fmap_compose. apply list_fmap_ext.
    intros i [k v] Hi. simpl. destruct Hk as [_ Ha]. unfold jm_all in Ha. rewrite Forall_forall in Ha.
    apply HP. apply (Ha (k, v)). by apply list_elem_of_lookup_2 in Hi.
  - intros x Hx. apply keyed_value with (P := P) in Hx as (k & Hg & Hpk); [|done].
    by rewrite (HP _ _ Hpk).
Qed.
Lemma current_perm l l' db : l ≡ₚ l' -> current l db -> current l' db.
Proof.
  intros Hp [Hnd Hc]. split; [by rewrite <-Hp|]. intros x Hx. apply Hc. by rewrite Hp.
Qed.
Lemma current_sublist l l' db : l' `sublist_of` l -> current l db -> current l' db.
Proof.
  intros Hs [Hnd Hc]. split.
  - eapply sublist_NoDup; [exact Hnd|by apply fmap_sublist].
  - intros x Hx. apply Hc. by eapply elem_of_sublist.
Qed.

Lemma at_foldM_rows R `{!Frame R} {B} (P : V -> Prop) (f : B -> V -> M B) b l env w :
  current l w.(w_db) -> Forall P l ->
  (forall b x w, P x -> jm_get (key x) (table w.(w_db)) = Some x ->
     keeps_at R (f b x) env w /\ keeps_at (on_db (others (key x))) (f b x) env w) ->
  keeps_at R (foldM f b l) env w.
Proof.
  intros Hc HP Hf. apply (at_foldM R (fun l w => current l w.(w_db) /\ Forall P l)); [done|..].
  - intros b0 x l' w1 [Hcur HPx]. apply Forall_cons in HPx as [? _]. apply Hf; [done|by eapply current_head].
  - intros b0 x l' w1 ? w2 [Hcur HPx] Hr. apply Forall_cons in HPx as [? ?]. split; [|done].
    eapply current_cons; [done|].
    destruct (Hf b0 x w1) as [_ Ho]; [done|by eapply current_head|].
    unfold keeps_at in Ho. by rewrite Hr in Ho.
Qed.
Lemma at_forEach_rows R `{!Frame R} (P : V -> Prop) (f : V -> M unit) l env w :
  current l w.(w_db) -> Forall P l ->
  (forall x w, P x -> jm_get (key x) (table w.(w_db)) = Some x ->
     keeps_at R (f x) env w /\ keeps_at (on_db (others (key x))) (f x) env w) ->
  keeps_at R (forEach f l) env w.
Proof.
  intros Hc HP Hf. apply (at_forEach R (fun l w => current l w.(w_db) /\ Forall P l)); [done|..].
  - intros x l' w1 [Hcur HPx]. apply Forall_cons in HPx as [? _]. apply Hf; [done|by eapply current_head].
  - intros x l' w1 w2 [Hcur HPx] Hr. apply Forall_cons in HPx as [? ?]. split; [|done].
    eapply current_cons; [done|].
    destruct (Hf x w1) as [_ Ho]; [done|by eapply current_head|].
    unfold keeps_at in Ho. by rewrite Hr in Ho.
Qed.

(** A filtered, sorted and cut list of the rows of a table. *)
Lemma current_selection P db (f : V -> bool) cmp n :
  keyed P (table db) -> (forall k v, P k v -> key v = k) ->
  let l := take n (js_sort cmp (filter (fun v => f v) (jm_values (table db)))) in
  current l db /\ Forall (fun v => f v = true) l.
Proof.
  intros Hk HP l. split.
  - eapply current_sublist; [apply sublist_take|]. eapply current_perm; [symmetry; apply js_sort_perm|].
    eapply current_sublist; [apply sublist_filter|by eapply current_values].
  - apply Forall_take, Forall_forall. intros x Hx. apply elem_of_js_sort, list_elem_of_filter in Hx as [Hx _].
    by apply Is_true_true.
Qed.
End rows.

(** * Claiming: every row of a list is rewritten by [g] *)

Section claim.
Context {V : Type} (table : Db -> JsMap V) (put : V -> M unit) (key : V -> string) (g : V -> V).
Context (put_spec : forall x env w, exists db',
  put (g x) env w = (inr tt, w <| w_db := db' |>) /\ table db' = jm_set (key x) (g x) (table w.(w_db))).

Lemma claim_result l env w : NoDup (key <$> l) -> exists db',
  forEach (fun x => put (g x)) l env w = (inr tt, w <| w_db := db' |>) /\
  (forall x, x ∈ l -> jm_get (key x) (table db') = Some (g x)) /\
  (forall k, k ∉ key <$> l -> jm_get k (table db') = jm_get k (table w.(w_db))).
Proof.
  revert w. induction l as [|x l IH]; intros w Hnd.
  - exists w.(w_db). split; [by destruct w|]. split; [|done]. intros x Hx. by apply not_elem_of_nil in Hx.
  - rewrite fmap_cons, NoDup_cons in Hnd. destruct Hnd as [Hx Hnd].
    destruct (put_spec x env w) as (db1 & E1 & T1).
    destruct (IH (w <| w_db := db1 |>) Hnd) as (db2 & E2 & Hin & Hout).
    exists db2. split; [|split].
    + simpl. unfold mbind, M_bind. rewrite E1. rewrite E2. by destruct w.
    + intros y [->|Hy]%elem_of_cons; [|by apply Hin].
      rewrite Hout by done. simpl. by rewrite T1, jm_get_set_eq.
    + intros k Hk. rewrite fmap_cons, not_elem_of_cons in Hk. destruct Hk.
      rewrite Hout by done. simpl. by rewrite T1, jm_get_set_ne.
Qed.

Lemma claim_current l env w w' :
  (forall x, key (g x) = key x) -> NoDup (key <$> l) ->
  forEach (fun x => put (g x)) l env w = (inr tt, w') ->
  current table key (g <$> l) w'.(w_db).
Proof.
  intros Hkey Hnd Hr. destruct (claim_result l env w Hnd) as (db' & E & Hin & _).
  rewrite E in Hr. injection Hr as <-. split.
  - rewrite <-list_fmap_compose. erewrite list_fmap_ext; [exact Hnd|]. intros. apply Hkey.
  - intros y (x & -> & Hx)%list_elem_of_fmap. rewrite Hkey. by apply Hin.
Qed.
End claim.
