(* ===== verification/Steps.v ===== *)
(** What each write of the repository needs in order to be a step: the
    well-formed store is kept and the rows evolve.  The operations of the
    components are shown to be steps with these rules, and with the rules for the
    shapes that handlers have. *)
From S2P Require Import Prelude JsString JsMap JsDate Types Config World Utils MemoryRepo Http Auth Notify Logic.
From S2P Require Import XrplTrack XrplWorkers Contracts Evidence Disputes XrplApi NotifyApi Settlements Inv.

(** Components a write does not touch are closed at once. *)
Ltac write_step Hwf :=
  destruct Hwf; split; [split; simpl; try done
                       |split; simpl; try reflexivity; try apply evidences_evolve_refl].
(** References to contracts and disputes survive. *)
Ltac refs_kept H :=
  eapply keyed_impl; [|eassumption];
  intros ? ?; unfold evidence_ok, dispute_ok, decision_ok, votes_ok, settlement_ok;
  intros ?; destruct_and?; split_and?; eauto using has_evolve, H.

Section writes.
Context (n0 : Base) (env : Env) (w : World).
Let n := w.(w_rnd).
Let db := w.(w_db).
(** What a write may use. *)
Let pre (P : Prop) : Prop := n0 <= n -> ids_distinct env n -> db_wf env n db -> P.

Lemma step_saveContract c :
  pre (drawn env n "ctr" c.(c_id) /\
       forall c0, jm_get c.(c_id) db.(contracts) = Some c0 -> contract_evolves c0 c) ->
  keeps_at (Step n0) (saveContract c) env w.
Proof.
  intros Hc. apply step_modify. intros Hn Hd Hwf. unfold db, n in *. destruct (Hc Hn Hd Hwf) as [Hdr Hev].
  assert (Hrows : rows_evolve contract_evolves w.(w_db).(contracts) (jm_set c.(c_id) c w.(w_db).(contracts)))
    by (by apply rows_evolve_set; [apply _|]).
  write_step Hwf; [by apply keyed_set|refs_kept Hrows..|done].
Qed.

Lemma step_saveEvidence e :
  pre (has db.(contracts) e.(e_contractId) /\
       ((exists i, n0 <= i < n /\ e.(e_id) = idOfUuid "evd" (env.(env_uuid) i)) \/
        (exists e0, jm_get e.(e_id) db.(evidences) = Some e0 /\ evidence_evolves e0 e))) ->
  keeps_at (Step n0) (saveEvidence e) env w.
Proof.
  intros He. apply step_modify. intros Hn Hd Hwf. unfold db, n in *. destruct (He Hn Hd Hwf) as [Hhas Hcase].
  assert (drawn env n "evd" e.(e_id)) as Hdr.
  { destruct Hcase as [(i & ? & Hi)|(e0 & He0 & _)]; [exists i; split; [lia|done]|].
    eapply (keyed_get _ _ _ _ Hwf.(wf_evidences _ _ _)) in He0 as (_ & ? & _). done. }
  write_step Hwf; [by apply keyed_set|].
  intros k e' Hk. rewrite jm_get_set in Hk. case_decide as Hkk; [|by apply evidences_evolve_refl].
  injection Hk as <-. subst k.
  destruct Hcase as [?|?]; [by right|by left].
Qed.

Lemma step_deleteEvidence id : keeps_at (Step n0) (deleteEvidence id) env w.
Proof.
  apply step_modify. intros _ _ Hwf. write_step Hwf; [by apply keyed_delete|].
  intros k e' Hk. left. exists e'. split; [|reflexivity].
  rewrite jm_delete_get in Hk by apply wf_evidences. by case_decide.
Qed.

Lemma step_saveDispute_in d :
  pre (drawn env n "dsp" d.(d_id) /\ has db.(contracts) d.(d_contractId) /\
       forall d0, jm_get d.(d_id) db.(disputes) = Some d0 -> dispute_evolves_in n0 d0 d) ->
  keeps_at (Step n0) (saveDispute d) env w.
Proof.
  intros Hc. apply step_modify. intros Hn Hd Hwf. unfold db, n in *. destruct (Hc Hn Hd Hwf) as (Hdr & Hhas & Hev).
  assert (Hrows : rows_evolve (dispute_evolves_in n0) w.(w_db).(disputes) (jm_set d.(d_id) d w.(w_db).(disputes)))
    by (by apply rows_evolve_set; [apply _|]).
  write_step Hwf; [by apply keyed_set|refs_kept Hrows..|done].
Qed.
Lemma step_saveDispute d :
  pre (drawn env n "dsp" d.(d_id) /\ has db.(contracts) d.(d_contractId) /\
       forall d0, jm_get d.(d_id) db.(disputes) = Some d0 -> dispute_evolves d0 d) ->
  keeps_at (Step n0) (saveDispute d) env w.
Proof.
  intros Hc. apply step_saveDispute_in. intros Hn Hd Hwf. destruct (Hc Hn Hd Hwf) as (? & ? & Hev).
  split_and!; [done..|]. intros d0 Hd0. by apply dispute_evolves_any, Hev.
Qed.

Lemma step_saveDecision d :
  pre (drawn env n "dcs" d.(cd_id) /\ has db.(disputes) d.(cd_disputeId) /\
       jm_get d.(cd_id) db.(decisions) = None) ->
  keeps_at (Step n0) (saveDecision d) env w.
Proof.
  intros Hc. apply step_modify. intros Hn Hd Hwf. unfold db, n in *. destruct (Hc Hn Hd Hwf) as (Hdr & Hhas & Hnew).
  write_step Hwf; [by apply keyed_set|]. apply rows_evolve_set; [apply _|]. by rewrite Hnew.
Qed.

Lemma step_appendVote v :
  pre (has db.(disputes) v.(v_disputeId) /\
       v.(v_verifierId) ∉ (v_verifierId <$> default [] (jm_get v.(v_disputeId) db.(disputeVerifierVotes)))) ->
  keeps_at (Step n0) (appendDisputeVerifierVote v) env w.
Proof.
  intros Hc. apply step_modify. intros Hn Hd Hwf. unfold db, n in *. destruct (Hc Hn Hd Hwf) as (Hhas & Hnew).
  assert (Hcur : Forall (fun x => x.(v_disputeId) = v.(v_disputeId))
                   (default [] (jm_get v.(v_disputeId) w.(w_db).(disputeVerifierVotes))) /\
                 NoDup (v_verifierId <$> default [] (jm_get v.(v_disputeId) w.(w_db).(disputeVerifierVotes)))).
  { destruct (jm_get _ _) as [vs|] eqn:Hvs; simpl; [|split; constructor].
    by apply (keyed_get _ _ _ _ Hwf.(wf_votes _ _ _)) in Hvs as (? & ? & _). }
  destruct Hcur as [Hall Hnd]. write_step Hwf.
  - apply keyed_set; [done|]. split_and!; [|rewrite fmap_app; apply NoDup_app|done].
    + apply Forall_app. split; [done|]. by constructor.
    + split_and!; [done| |apply NoDup_singleton]. intros x Hx ->%list_elem_of_singleton. by apply Hnew.
  - apply rows_evolve_set; [apply _|]. intros v0 ->. simpl. by apply prefix_app_r.
Qed.

Lemma step_saveXrplTx t :
  pre (forall t0, jm_get t.(x_txHash) db.(xrplTxs) = Some t0 -> xrplTx_evolves t0 t) ->
  keeps_at (Step n0) (saveXrplTx t) env w.
Proof.
  intros Hc. apply step_modify. intros Hn Hd Hwf. unfold db, n in *. specialize (Hc Hn Hd Hwf).
  write_step Hwf; [by apply keyed_set|by apply rows_evolve_set; [apply _|]].
Qed.

Lemma step_saveNotification_in e :
  pre (drawn env n "ntf" e.(n_id) /\
       forall e0, jm_get e.(n_id) db.(notifications) = Some e0 -> notification_evolves_in n0 e0 e) ->
  keeps_at (Step n0) (saveNotification e) env w.
Proof.
  intros Hc. apply step_modify. intros Hn Hd Hwf. unfold db, n in *. destruct (Hc Hn Hd Hwf) as (Hdr & Hev).
  write_step Hwf; [by apply keyed_set|by apply rows_evolve_set; [apply _|]].
Qed.
Lemma step_saveNotification e :
  pre (drawn env n "ntf" e.(n_id) /\
       forall e0, jm_get e.(n_id) db.(notifications) = Some e0 -> notification_evolves e0 e) ->
  keeps_at (Step n0) (saveNotification e) env w.
Proof.
  intros Hc. apply step_saveNotification_in. intros Hn Hd Hwf. destruct (Hc Hn Hd Hwf) as (? & Hev).
  split; [done|]. intros e0 He0. by apply notification_evolves_any, Hev.
Qed.

Lemma step_putOutbox r :
  pre (exists r0, jm_get r.(o_id) db.(notificationOutboxById) = Some r0 /\ outbox_evolves r0 r) ->
  keeps_at (Step n0) (putOutbox r) env w.
Proof.
  intros Hc. apply step_modify. intros Hn Hd Hwf. unfold db, n in *. destruct (Hc Hn Hd Hwf) as (r0 & Hr0 & Hev).
  pose proof (keyed_get _ _ _ _ Hwf.(wf_outbox _ _ _) Hr0) as [Hid Hdr].
  write_step Hwf.
  - by apply keyed_set.
  - intros key id. simpl. rewrite (wf_outbox_index key id).
    destruct Hev as (He1 & He2 & _).
    split; intros (o & Ho & Hkey).
    + rewrite jm_get_set. case_decide as Hk; [|by eauto]. subst id.
      exists r. split; [done|]. simplify_eq. congruence.
    + rewrite jm_get_set in Ho. case_decide as Hk; [|by eauto]. subst id. simplify_eq.
      exists r0. split; [done|]. congruence.
  - apply rows_evolve_set; [apply _|]. intros ? ?. by simplify_eq.
Qed.

Lemma step_appendOutbox row :
  pre (drawn env n "nox" row.(o_id) /\ jm_get row.(o_id) db.(notificationOutboxById) = None) ->
  keeps_at (Step n0) (appendNotificationOutbox row) env w.
Proof.
  intros Hc. apply at_asks. destruct (jm_has _ _) eqn:Habs; [apply (keeps_ret (Step n0))|].
  apply at_bind_rest; [apply _| |intros; apply (keeps_ret (Step n0))].
  apply step_modify. intros Hn Hd Hwf. unfold db, n in *. destruct (Hc Hn Hd Hwf) as (Hdr & Hnew).
  assert (Hno : jm_get row.(o_idempotencyKey) w.(w_db).(notificationOutboxIdempotency) = None).
  { unfold jm_has in Habs. destruct (jm_get _ w.(w_db).(notificationOutboxIdempotency)); congruence. }
  write_step Hwf.
  - by apply keyed_set.
  - intros key id. simpl. rewrite !jm_get_set. case_decide as Hk.
    + subst key. split.
      * intros [= <-]. exists row. by rewrite decide_True.
      * intros (o & Ho & Hkey). case_decide as Hid; [by subst|].
        enough (jm_get row.(o_idempotencyKey) w.(w_db).(notificationOutboxIdempotency) = Some id) by congruence.
        apply wf_outbox_index. eauto.
    + rewrite (wf_outbox_index key id). case_decide as Hid.
      * subst id. rewrite Hnew. split; intros (o & ? & ?); naive_solver.
      * done.
  - apply rows_evolve_set; [apply _|]. by rewrite Hnew.
Qed.

Lemma step_updateOutbox r :
  pre (exists r0, jm_get r.(o_id) db.(notificationOutboxById) = Some r0 /\ outbox_evolves r0 r) ->
  (* the row was read from this store *)
  (exists r0, jm_get r.(o_id) db.(notificationOutboxById) = Some r0 /\
              r0.(o_idempotencyKey) = r.(o_idempotencyKey)) ->
  keeps_at (Step n0) (updateNotificationOutbox r) env w.
Proof.
  intros Hc (r0 & Hr0 & Hkey). apply at_asks. unfold db in *. rewrite Hr0.
  rewrite bool_decide_false by naive_solver. apply at_ret. by apply step_putOutbox.
Qed.

Lemma step_recordIngestion li h src : keeps_at (Step n0) (tryRecordXrplIngestionEvent li h src) env w.
Proof.
  apply at_asks. case_bool_decide as Hin; [apply (keeps_ret (Step n0))|].
  apply at_bind_rest; [apply _| |intros; apply (keeps_ret (Step n0))].
  apply step_modify. intros _ _ Hwf. write_step Hwf.
  - apply NoDup_app. split_and!; [done| |apply NoDup_singleton].
    by intros x Hx ->%list_elem_of_singleton.
  - by apply prefix_app_r.
Qed.

Lemma step_jobs f :
  pre (keyed (fun k j => j.(j_id) = k) (f db.(delayedJobs))) ->
  keeps_at (Step n0) (modify (fun db => db <| delayedJobs := f db.(delayedJobs) |>)) env w.
Proof.
  intros Hc. apply step_modify. intros Hn Hd Hwf. unfold db, n in *. specialize (Hc Hn Hd Hwf). by write_step Hwf.
Qed.

Lemma step_upsertRegistry e : keeps_at (Step n0) (upsertDisputeVerifierRegistryEntry e) env w.
Proof. apply step_modify. intros _ _ Hwf. write_step Hwf. by apply keyed_set. Qed.

Lemma step_settlements f :
  pre (keyed (settlement_ok db) (f db) /\ rows_evolve settlement_evolves db.(settlements) (f db)) ->
  keeps_at (Step n0) (modify (fun db => db <| settlements := f db |>)) env w.
Proof.
  intros Hc. apply step_modify. intros Hn Hd Hwf. unfold db, n in *. destruct (Hc Hn Hd Hwf). by write_step Hwf.
Qed.

Lemma step_saveExport j :
  pre (drawn env n "exp" j.(x_jobId) /\
       forall j0, jm_get j.(x_jobId) db.(exportJobs) = Some j0 -> export_evolves j0 j) ->
  keeps_at (Step n0) (updateExportJob j) env w.
Proof.
  intros Hc. apply step_modify. intros Hn Hd Hwf. unfold db, n in *. destruct (Hc Hn Hd Hwf) as (Hdr & Hev).
  write_step Hwf; [by apply keyed_set|by apply rows_evolve_set; [apply _|]].
Qed.
End writes.

(** * New identifiers *)

Lemma fresh_in {A} env n prefix (f : A -> string) l :
  ids_distinct env (S n) -> Forall (fun a => drawn env n prefix (f a)) l ->
  idOfUuid prefix (env.(env_uuid) n) ∉ f <$> l.
Proof.
  intros Hd Hl (a & Ha & Hin)%list_elem_of_fmap. rewrite Forall_forall in Hl.
  apply (drawn_fresh env n prefix Hd). rewrite Ha. by apply Hl.
Qed.
Lemma fresh_key {V} env n prefix (P : string -> V -> Prop) m :
  ids_distinct env (S n) -> keyed P m -> (forall k v, P k v -> drawn env n prefix k) ->
  jm_get (idOfUuid prefix (env.(env_uuid) n)) m = None.
Proof.
  intros Hd Hm HP. destruct (jm_get _ m) as [v|] eqn:Hv; [|done].
  exfalso. apply (drawn_fresh env n prefix Hd). by eapply HP, keyed_get.
Qed.

(** * What every operation leaves behind *)

Lemma step_appendAudit n0 env w log :
  (ids_distinct env w.(w_rnd) -> log.(a_id) ∉ a_id <$> w.(w_db).(audits)) ->
  audit_ok env w.(w_rnd) log -> keeps_at (Step n0) (appendAudit log) env w.
Proof.
  intros Hnew Hdr. apply step_modify. intros _ Hd Hwf. specialize (Hnew Hd). write_step Hwf.
  - destruct wf_audits as [Hnd Hall]. split.
    + rewrite fmap_app. apply NoDup_app. split_and!; [done| |apply NoDup_singleton].
      by intros x Hx ->%list_elem_of_singleton.
    + apply Forall_app. split; [done|]. by constructor.
  - by apply prefix_app_r.
Qed.
Lemma step_appendEvent n0 env w ev :
  (ids_distinct env w.(w_rnd) -> ev.(ev_eventId) ∉ ev_eventId <$> w.(w_db).(events)) ->
  drawn env w.(w_rnd) "evt" ev.(ev_eventId) -> keeps_at (Step n0) (appendEvent ev) env w.
Proof.
  intros Hnew Hdr. apply step_modify. intros _ Hd Hwf. specialize (Hnew Hd). write_step Hwf.
  - destruct wf_events as [Hnd Hall]. split.
    + rewrite fmap_app. apply NoDup_app. split_and!; [done| |apply NoDup_singleton].
      by intros x Hx ->%list_elem_of_singleton.
    + apply Forall_app. split; [done|]. by constructor.
  - by apply prefix_app_r.
Qed.

#[export] Instance step_logs n0 : Logs (Step n0).
Proof.
  split; [apply _| |]; intros; intros env w.
  - apply step_assume; [auto with keeps typeclass_instances|]. intros _ Hwf. unfold writeAudit.
    repeat at_step. apply at_bind_rest; [apply _| |intros; apply (keeps_ret (Step n0))].
    apply step_appendAudit; simpl; [|split; [apply drawn_last|by eexists]].
    intros Hd. apply fresh_in; [done|]. eapply Forall_impl; [apply Hwf|]. by intros ? [].
  - apply step_assume; [auto with keeps typeclass_instances|]. intros _ Hwf. unfold emitEvent.
    repeat at_step. apply at_bind_rest; [apply _| |intros; apply (keeps_ret (Step n0))].
    apply step_appendEvent; simpl; [|eapply drawn_mono; [|apply drawn_last]; lia].
    intros Hd. apply fresh_in, Hwf. eapply ids_distinct_le, Hd. lia.
Qed.

Lemma step_enqueueOutboxItem n0 now it : keeps (Step n0) (enqueueOutboxItem now it).
Proof.
  intros env w. apply step_assume; [unfold enqueueOutboxItem, domainNotificationIdempotencyKey, sha256, appendNotificationOutbox; keeps_auto|].
  intros _ Hwf. unfold enqueueOutboxItem, domainNotificationIdempotencyKey, sha256.
  repeat at_step. apply at_bind_rest; [apply _| |intros; keeps_auto].
  apply step_appendOutbox. simpl. intros _ Hd _. split; [apply drawn_last|].
  eapply fresh_key; [done|apply Hwf|]. by intros k v [].
Qed.
Lemma step_saveQueued n0 env w id ty ri ch p t :
  (ids_distinct env w.(w_rnd) -> jm_get id w.(w_db).(notifications) = None) ->
  drawn env w.(w_rnd) "ntf" id ->
  keeps_at (Step n0) (saveNotification (queuedNotification id ty ri ch p t)) env w.
Proof.
  intros Hnew Hdr. apply step_saveNotification. intros _ Hd _. simpl. split; [done|].
  by rewrite (Hnew Hd).
Qed.
Lemma step_enqueueDirectItem n0 now it : keeps (Step n0) (enqueueDirectItem now it).
Proof.
  intros env w. apply step_assume; [unfold enqueueDirectItem, saveNotification; keeps_auto|].
  intros _ Hwf. unfold enqueueDirectItem. repeat at_step.
  apply at_bind_rest; [apply _| |intros; keeps_auto].
  apply step_saveQueued; simpl; [|apply drawn_last].
  intros Hd. eapply fresh_key; [done|apply Hwf|]. by intros k v [].
Qed.
#[export] Hint Resolve step_enqueueOutboxItem step_enqueueDirectItem : keeps.

#[export] Instance step_quiet n0 : Quiet (Step n0).
Proof. split; [apply _|]. intros. unfold enqueueFanoutNotificationItems. keeps_auto. Qed.

(** Proof rules for the shapes the handlers of [index.ts] share: the parsed
    body, the loaded contract, dispute or evidence, the query window.  Each
    rule exists for any relation ([keeps_*], used by [keeps_auto]) and at a
    known store ([at_*]). *)

Section rules.
Context (R : Env -> relation World) `{!Frame R}.

Lemma keeps_withParsed {A} (p : Parsed A) k :
  (forall a, keeps R (k a)) -> keeps R (withParsed p k).
Proof. intros H. destruct p; [apply keeps_ret, _|apply H]. Qed.
Lemma at_withParsed {A} (p : Parsed A) k env w :
  (forall a, p = Valid a -> keeps_at R (k a) env w) -> keeps_at R (withParsed p k) env w.
Proof. intros H. destruct p; [apply keeps_ret, _|by apply H]. Qed.

Lemma keeps_withWindow n1 n2 v1 v2 k :
  (forall a b, keeps R (k a b)) -> keeps R (withWindow n1 n2 v1 v2 k).
Proof.
  intros H. apply keeps_bind; [apply _|apply keeps_askEnv, _|intros l].
  destruct (parseOptionalIso l n1 v1); [apply keeps_ret, _|].
  destruct (parseOptionalIso l n2 v2); [apply keeps_ret, _|apply H].
Qed.

Lemma at_withContract req id msg k env w :
  (forall c, jm_get id w.(w_db).(contracts) = Some c -> keeps_at R (k c) env w) ->
  keeps_at R (withContract req id msg k) env w.
Proof.
  intros H. apply at_asks. destruct (jm_get _ _) as [c|] eqn:Hc; [|apply (keeps_ret R)].
  apply at_askEnv. destruct (negb _); [apply (keeps_ret R)|by apply H].
Qed.
Lemma keeps_withContract req id msg k :
  (forall c, keeps R (k c)) -> keeps R (withContract req id msg k).
Proof. intros H env w. apply at_withContract. intros. apply H. Qed.

Lemma keeps_mayAccessContractOf req id : keeps R (mayAccessContractOf req id).
Proof.
  apply keeps_bind; [apply _|apply keeps_asks, _|intros [c|]]; [apply keeps_askEnv, _|apply keeps_ret, _].
Qed.
(** What the handler knows of the dispute it loaded. *)
Lemma at_withDispute req id msg k env w :
  (forall d, jm_get id w.(w_db).(disputes) = Some d -> has w.(w_db).(contracts) d.(d_contractId) ->
     keeps_at R (k d) env w) ->
  keeps_at R (withDispute req id msg k) env w.
Proof.
  intros H. apply at_asks. destruct (jm_get _ _) as [d|] eqn:Hd; [|apply (keeps_ret R)].
  unfold canAccessDispute, mayAccessContractOf. apply at_assoc, at_asks.
  destruct (jm_get (d_contractId d) _) as [c|] eqn:Hc; [|apply at_ret, (keeps_ret R)].
  apply at_askEnv. destruct (negb _); [apply (keeps_ret R)|apply H; [done|by exists c]].
Qed.
Lemma keeps_withDispute req id msg k :
  (forall d, keeps R (k d)) -> keeps R (withDispute req id msg k).
Proof. intros H env w. apply at_withDispute. intros. apply H. Qed.

Lemma keeps_withEvidence req e m f k :
  (forall e, keeps R (k e)) -> keeps R (withEvidence req e m f k).
Proof.
  intros H. destruct e; [|apply keeps_ret, _]. unfold withEvidence.
  apply keeps_bind; [apply _|apply keeps_asks, _|intros c].
  apply keeps_bind; [apply _| |intros [|]; [apply H|apply keeps_ret, _]].
  destruct c; [apply keeps_askEnv, _|apply keeps_ret, _].
Qed.
End rules.

Lemma keeps_ifSome {A} R `{!Frame R} (o : option A) f :
  (forall a, keeps R (f a)) -> keeps R (ifSome o f).
Proof. intros H. destruct o; [apply H|apply keeps_ret, _]. Qed.

Ltac keeps_rule ::=
  lazymatch goal with
  | |- keeps _ (withParsed _ _) => apply keeps_withParsed; [apply _|intros ?]
  | |- keeps _ (withWindow _ _ _ _ _) => apply keeps_withWindow; [apply _|intros ? ?]
  | |- keeps _ (withContract _ _ _ _) => apply keeps_withContract; [apply _|intros ?]
  | |- keeps _ (withDispute _ _ _ _) => apply keeps_withDispute; [apply _|intros ?]
  | |- keeps _ (withEvidence _ _ _ _ _) => apply keeps_withEvidence; [apply _|intros ?]
  | |- keeps _ (ifSome _ _) => apply keeps_ifSome; [apply _|intros ?]
  end.

Lemma keeps_notifyParties R `{!Quiet R} id ty p : keeps R (notifyParties id ty p).
Proof. unfold notifyParties, getContract. keeps_auto. Qed.
#[export] Hint Resolve keeps_mayAccessContractOf keeps_notifyParties : keeps.

(** The reads of the repository, and the definitions to open in a proof. *)
Create HintDb model discriminated.
#[export] Hint Unfold getContract hasContract getEvidence findEvidenceByCid countEvidenceVersions
  hasEvidence listEvidencesPastRetention getDispute listDisputeVerifierVotes
  listDisputeVerifierRegistry getXrplTx listXrplTxs listXrplSubscribeAccounts getNotification
  listDueNotifications getNotificationOutbox listNotificationOutboxPage listAudits listAuditsPage
  listEvents listContractsPage listDisputesPage listXrplTxsPage getOperatorStatsSummary
  getReportsSummary getSettlement listSettlementsPage getExportJob sha256 xrplEnabled
  mayAccess canAccessDispute canAccessSettlement : model.
(** The writes. *)
Create HintDb writes discriminated.
#[export] Hint Unfold saveContract saveEvidence deleteEvidence saveDispute appendDisputeVerifierVote
  upsertDisputeVerifierRegistryEntry saveDecision saveXrplTx tryRecordXrplIngestionEvent
  saveNotification appendNotificationOutbox putOutbox claimNotificationOutboxPending
  updateNotificationOutbox recoverStaleNotificationOutboxProcessing createDelayedJobIfAbsent putJob
  claimDueDelayedJobs deleteDelayedJob bumpDelayedJob saveSettlement touchSettlementsOnLedgerClose
  createExportJob updateExportJob claimExportJobsPending : writes.

(** Opens the reads on the way. *)
Ltac keeps_reads := repeat first [progress keeps_auto | progress autounfold with model].
(** Identifiers are only drawn, whatever is written. *)
Ltac mono := repeat first [progress keeps_auto | progress autounfold with model writes].
