(* ===== verification/ContractSteps.v ===== *)
(** The contract, settlement and evidence routes are steps. *)
From S2P Require Import Prelude JsString JsMap JsDate Types Config World Utils MemoryRepo Http Auth Notify Logic.
From S2P Require Import XrplTrack XrplWorkers Contracts Evidence Disputes Settlements Inv Steps.

(** * Contracts *)

Lemma step_postContract n0 req p : keeps (Step n0) (postContract req p).
Proof.
  intros env w. apply step_assume; [unfold postContract; mono|]. intros _ Hwf.
  apply at_withParsed; [apply _|intros b _]. at_step. destruct (negb _); [apply (keeps_ret (Step n0))|].
  repeat at_step. apply at_bind_rest; [apply _| |intros; keeps_reads].
  apply step_saveContract. simpl. intros _ Hd _. split; [apply drawn_last|].
  erewrite fresh_key; [done..|apply Hwf|]. by intros k v [].
Qed.

(** The fields a status change leaves alone. *)
Lemma contract_evolves_status c st t tx :
  reach contract_move c.(c_status) st ->
  contract_evolves c (c <| c_escrowCreateTxHash := tx |> <| c_status := st |> <| c_updatedAt := t |>).
Proof. intros H. repeat split. exact H. Qed.

Lemma step_updateContract n0 env w k c0 c :
  jm_get k w.(w_db).(contracts) = Some c0 -> contract_evolves c0 c ->
  keeps_at (Step n0) (saveContract c) env w.
Proof.
  intros Hc Hev. apply step_saveContract. intros _ _ Hwf.
  destruct (keyed_get _ _ _ _ Hwf.(wf_contracts _ _ _) Hc) as [Hid Hdr].
  pose proof Hev as [Hid' _]. rewrite Hid', Hid. split; [done|]. intros c1 ?. by simplify_eq.
Qed.

Lemma step_patchContractStatus n0 req id p : keeps (Step n0) (patchContractStatus req id p).
Proof.
  intros env w. apply at_withParsed; [apply _|intros st _].
  apply at_withContract; [apply _|intros c Hc].
  destruct (isContractStatusTransitionAllowed _ _) eqn:Hmove; [|apply (keeps_ret (Step n0))].
  cbn [negb]. at_step. apply at_bind_rest; [apply _| |intros; unfold notifyContractEnd; keeps_reads].
  eapply step_updateContract; [exact Hc|]. repeat split. by apply rtc_once.
Qed.

Lemma same_clientRequest r : keeps Same (clientRequest r).
Proof. unfold clientRequest. keeps_reads. Qed.
#[export] Hint Resolve same_clientRequest : keeps.
Lemma same_getTxStatus h : keeps Same (getTxStatus h).
Proof. unfold getTxStatus. keeps_reads. Qed.
Lemma same_getAccountTxResults a : keeps Same (getAccountTxResults a).
Proof. unfold getAccountTxResults, clientRequestOrThrow. keeps_reads. Qed.
#[export] Hint Resolve same_getTxStatus same_getAccountTxResults : keeps.
Lemma same_reconcileAnchor h c : keeps Same (reconcileAnchor h c).
Proof. unfold reconcileAnchor, findAnchor. keeps_reads. Qed.

(** Reconciling an anchor at most advances a pending escrow. *)
Lemma reconcileAnchor_result h c env w r w' :
  reconcileAnchor h c env w = (inr r, w') ->
  r.1 = c \/ (c.(c_status) = CS_escrow_pending /\ r.1 = c <| c_status := CS_escrow_validated |>).
Proof.
  unfold reconcileAnchor, xrplEnabled, askCfg. rewrite bind_askEnv.
  destruct (negb _); [intros [= <- _]; by left|].
  unfold try_catch, mbind, M_bind.
  destruct (findAnchor _ _ _ _) as [[e|live] w1]; [intros [= <- _]; by left|].
  destruct (_ && _) eqn:Hc; intros [= <- _]; [right|by left].
  rewrite !andb_true_iff, bool_decide_eq_true in Hc. by destruct Hc as [[_ ?] _].
Qed.

Lemma step_patchEscrowAnchor n0 req id p : keeps (Step n0) (patchEscrowAnchor req id p).
Proof.
  intros env w. apply at_withParsed; [apply _|intros raw _].
  apply at_withContract; [apply _|intros c Hc].
  destruct (anchorBlocked _); [apply (keeps_ret (Step n0))|].
  cbv zeta. destruct (_ && truthy _ && _); [apply (keeps_ret (Step n0))|].
  change (negb (isContractStatusTransitionAllowed CS_draft CS_escrow_pending)) with false.
  rewrite andb_false_r.
  match goal with |- keeps_at _ (reconcileAnchor _ ?x ≫= _) _ _ => set (anchored := x) end.
  assert (Ha : contract_evolves c anchored).
  { unfold anchored. case_bool_decide as Hs; repeat split; [|apply rtc_refl]. by apply rtc_once; rewrite Hs. }
  apply at_bind; [apply _|apply keeps_same_step, same_reconcileAnchor|].
  intros [c' b] w1 Hr _. pose proof (same_reconcileAnchor (trim raw) anchored env w) as Hs.
  unfold keeps_at in Hs. rewrite Hr in Hs. destruct Hs as [Hdb _]. simpl in Hdb.
  at_step. apply at_bind_rest; [apply _| |intros; keeps_reads].
  eapply step_updateContract; [simpl; rewrite Hdb; exact Hc|].
  apply reconcileAnchor_result in Hr as [Hr|[Hst Hr]]; simpl in Hr; subst c'.
  - etrans; [exact Ha|]. repeat split. apply rtc_refl.
  - etrans; [exact Ha|]. repeat split. simpl. apply rtc_once. by rewrite Hst.
Qed.

Lemma same_getContracts req p : keeps Same (getContracts req p).
Proof. unfold getContracts. keeps_reads. Qed.
Lemma same_getContractById req id : keeps Same (getContractById req id).
Proof. unfold getContractById. keeps_reads. Qed.

(** * Settlements *)

Lemma step_announceSettlement n0 id p s u : keeps (Step n0) (announceSettlement id p s u).
Proof. unfold announceSettlement. keeps_reads. Qed.

Lemma withSettlementDefaults_evolves s : settlement_evolves s (withSettlementDefaults s).
Proof. repeat split; try done; apply rtc_refl. Qed.
(** Reading puts in the defaults; so does saving. *)
Lemma patchedSettlement_evolves p t s :
  (match p.(sp_status) with Some x => settlementTransitionAllowed s.(s_status) x = true | None => True end) ->
  settlement_evolves s (patchedSettlement p t s).
Proof.
  intros H. repeat split; try done.
  - simpl. intros ->. by rewrite andb_false_r.
  - simpl. destruct (sp_status p); simpl; [by apply rtc_once|apply rtc_refl].
Qed.

Lemma step_saveSettlement n0 env w k s0 s :
  jm_get k w.(w_db).(settlements) = Some s0 -> settlement_evolves s0 s ->
  keeps_at (Step n0) (saveSettlement s) env w.
Proof.
  intros Hs0 Hev.
  apply (step_settlements n0 env w (fun db => jm_set (s_id s) (withSettlementDefaults s) (settlements db))).
  intros _ _ Hwf. destruct (keyed_get _ _ _ _ Hwf.(wf_settlements _ _ _) Hs0) as (Hid & Hk & Hc).
  assert (Hev' : settlement_evolves s0 (withSettlementDefaults s))
    by (etrans; [exact Hev|apply withSettlementDefaults_evolves]).
  destruct Hev' as (He1 & He2 & He3 & He4 & Hrest). simpl in He1, He2, He3, He4.
  split.
  - apply keyed_set; [apply Hwf|]. split_and!; simpl; congruence.
  - apply rows_evolve_set; [apply _|]. rewrite He1, Hid. intros ? ?. simplify_eq. repeat split; try done; apply Hrest.
Qed.

Lemma step_patchSettlementStatus n0 req id p : keeps (Step n0) (patchSettlementStatus req id p).
Proof.
  intros env w. apply at_withParsed; [apply _|intros b _]. unfold getSettlement. at_step.
  destruct (jm_get id _) as [s|] eqn:Hs; [|apply (keeps_ret (Step n0))]. cbn [fmap option_fmap option_map].
  destruct (match sp_status b with Some _ => _ | None => _ end) eqn:Hmove; [apply (keeps_ret (Step n0))|].
  at_step. apply at_bind_rest; [apply _| |intros; pose proof step_announceSettlement; keeps_reads].
  eapply step_saveSettlement; [exact Hs|].
  etrans; [apply withSettlementDefaults_evolves|]. apply patchedSettlement_evolves.
  destruct (sp_status b); [|done]. by apply negb_false_iff in Hmove.
Qed.

Lemma same_getSettlements req p : keeps Same (getSettlements req p).
Proof. unfold getSettlements, keepAccessible. keeps_reads. Qed.
Lemma same_getSettlementById req id : keeps Same (getSettlementById req id).
Proof. unfold getSettlementById. keeps_reads. Qed.

(** ** The monthly touch *)

Lemma touchSettlement_evolves p c s s' :
  touchSettlement p c (Some s) = Some s' -> settlement_evolves s s'.
Proof.
  simpl. case_bool_decide; [done|]. intros [= <-].
  repeat split; try done; simpl; first [lia | apply rtc_refl].
Qed.
Lemma touchStep_ok env n db p c :
  db_wf env n db -> c ∈ jm_values db.(contracts) ->
  forall m k, keyed (settlement_ok db) m /\ rows_evolve settlement_evolves db.(settlements) m ->
  let m' := (touchStep p (m, k) c).1 in
  keyed (settlement_ok db) m' /\ rows_evolve settlement_evolves db.(settlements) m'.
Proof.
  intros Hwf Hc m k [Hk Hev]. simpl. destruct (touchEligible c); [|done].
  set (id := settlementDeterministicId _ _ _).
  apply keyed_value with (P := contract_ok env n) in Hc as (kc & Hg & Hcid & _); [|apply Hwf].
  destruct (jm_get id m) as [s|] eqn:Hs.
  - destruct (touchSettlement _ _ _) as [s'|] eqn:Ht; [|done]. simpl.
    apply touchSettlement_evolves in Ht. destruct (keyed_get _ _ _ _ Hk Hs) as (? & ? & ?).
    pose proof Ht as (He1 & He2 & He3 & He4 & _). split.
    + apply keyed_set; [done|]. split_and!; congruence.
    + etrans; [exact Hev|]. apply rows_evolve_set; [apply _|]. intros ? ?. by simplify_eq.
  - simpl. split.
    + apply keyed_set; [done|]. split_and!; [done..|]. simpl. exists c. congruence.
    + etrans; [exact Hev|]. apply rows_evolve_set; [apply _|]. intros ? ?. by simplify_eq.
Qed.
Lemma step_touchSettlements n0 p : keeps (Step n0) (touchSettlementsOnLedgerClose p).
Proof.
  intros env w. unfold touchSettlementsOnLedgerClose. at_step.
  apply at_bind_rest; [apply _| |intros; apply (keeps_ret (Step n0))].
  apply (step_settlements n0 env w (fun db => (fold_left (touchStep p) (jm_values (w_db w).(contracts))
    ((w_db w).(settlements), 0%Z)).1)). intros _ _ Hwf.
  assert (Hl : forall l st, (forall c, c ∈ l -> c ∈ jm_values (w_db w).(contracts)) ->
    keyed (settlement_ok (w_db w)) st.1 /\
    rows_evolve settlement_evolves (w_db w).(settlements) st.1 ->
    let m' := (fold_left (touchStep p) l st).1 in
    keyed (settlement_ok (w_db w)) m' /\ rows_evolve settlement_evolves (w_db w).(settlements) m').
  { induction l as [|c l IH]; intros [m k] Hin Hst; [done|]. apply IH.
    - intros c' ?. apply Hin. by right.
    - eapply touchStep_ok; [exact Hwf|apply Hin; by left|exact Hst]. }
  apply Hl; [done|]. split; [apply Hwf|reflexivity].
Qed.

(** * Evidence *)

Lemma same_attempt {A} (m : M A) : keeps Same m -> keeps Same (attempt m).
Proof. intros. unfold attempt. keeps_auto. Qed.
Lemma same_unwrapDataKey u : keeps Same (unwrapDataKey u).
Proof. unfold unwrapDataKey, base64Bytes. keeps_reads. Qed.
#[export] Hint Resolve same_attempt same_unwrapDataKey : keeps.
Lemma same_resolveEvidenceDataKey : keeps Same resolveEvidenceDataKey.
Proof. unfold resolveEvidenceDataKey, getEvidenceEncryptionKey, base64Bytes. keeps_reads. Qed.
#[export] Hint Resolve same_resolveEvidenceDataKey : keeps.
Lemma same_encryptForStorage p : keeps Same (encryptForStorage p).
Proof. unfold encryptForStorage, encryptEvidenceBuffer. keeps_reads. Qed.
Lemma same_pinAttempts k b f m : keeps Same (pinAttempts k b f m).
Proof. induction k; simpl; unfold pinOnce; keeps_reads. Qed.
#[export] Hint Resolve same_encryptForStorage same_pinAttempts : keeps.
Lemma same_ipfsUpload b f m h : keeps Same (ipfsUpload b f m h).
Proof. unfold ipfsUpload, uploadViaPinata. keeps_reads. Qed.
Lemma same_unpinIfPinata c p : keeps Same (unpinIfPinata c p).
Proof. unfold unpinIfPinata. keeps_reads. Qed.
Lemma same_disputeOnContract d c : keeps Same (disputeOnContract d c).
Proof. unfold disputeOnContract. keeps_reads. Qed.
Lemma same_assertMime m c : keeps Same (assertMimeAllowedForEvidenceCategory m c).
Proof. unfold assertMimeAllowedForEvidenceCategory. keeps_reads. Qed.
#[export] Hint Resolve same_ipfsUpload same_unpinIfPinata same_disputeOnContract same_assertMime : keeps.

Lemma mono_of_same {A} (m : M A) : keeps Same m -> keeps Mono m.
Proof. intros H env w. apply H. Qed.
Lemma mono_recordEvidence f file u h s d up : keeps Mono (recordEvidence f file u h s d up).
Proof. unfold recordEvidence, retentionStamp. mono. Qed.
#[export] Hint Resolve mono_recordEvidence : keeps.

(** Writing the row of an upload. *)
Lemma step_recordEvidence n0 env w f file u h s d up :
  has w.(w_db).(contracts) f.(ef_contractId) ->
  keeps_at (Step n0) (recordEvidence f file u h s d up) env w.
Proof.
  intros Hc. apply step_assume; [apply mono_recordEvidence|]. intros Hn Hwf.
  unfold recordEvidence, countEvidenceVersions. repeat at_step.
  apply at_bind_same; [unfold retentionStamp; keeps_auto|]. intros stamp w' Hdb Hrnd. simpl in Hdb, Hrnd.
  apply at_bind_rest; [apply _| |intros; keeps_reads].
  apply step_saveEvidence. intros _ _ _. simpl. split; [by rewrite Hdb|].
  left. exists w.(w_rnd). split; [lia|done].
Qed.

Lemma step_postEvidence n0 req up p : keeps (Step n0) (postEvidence req up p).
Proof.
  intros env w. destruct up as [|msg|[file|]]; [| |simpl|]; try (apply keeps_same_step; simpl; keeps_auto; fail).
  apply at_withParsed; [apply _|intros f _]. cbv zeta. repeat at_step.
  destruct (tooManyDays _ _); [apply (keeps_ret (Step n0))|].
  apply at_withContract; [apply _|intros c Hc].
  apply at_bind_same; [auto with keeps|]. intros [] w1 Hdb1 _; [|apply (keeps_ret (Step n0))]. simpl.
  apply at_bind_same; [auto with keeps|]. intros [|] w2 Hdb2 _; [apply (keeps_ret (Step n0))|].
  unfold storeEvidence, sha256. repeat at_step.
  apply at_bind_same; [auto with keeps|]. intros [|[[payload s] d]] w3 Hdb3 _; [apply (keeps_ret (Step n0))|].
  apply at_bind_same; [auto with keeps|]. intros [|pinned] w4 Hdb4 _; [apply (keeps_ret (Step n0))|].
  apply step_recordEvidence. exists c. by rewrite Hdb4, Hdb3, Hdb2, Hdb1.
Qed.

Lemma step_postEvidenceVerify n0 req p : keeps (Step n0) (postEvidenceVerify req p).
Proof. unfold postEvidenceVerify. keeps_reads. Qed.
Lemma step_getEvidenceById n0 req id : keeps (Step n0) (getEvidenceById req id).
Proof. unfold getEvidenceById. keeps_reads. Qed.

Lemma step_checkIntegrity n0 req e id b : keeps (Step n0) (checkIntegrity req e id b).
Proof. unfold checkIntegrity, sendContent. keeps_reads. Qed.
#[export] Hint Resolve step_checkIntegrity : keeps.
#[export] Hint Extern 5 (keeps (Step _) (attempt _)) => apply keeps_same_step, same_attempt : keeps.
Lemma same_decryptEvidenceBuffer b k : keeps Same (decryptEvidenceBuffer b k).
Proof. unfold decryptEvidenceBuffer. keeps_reads. Qed.
Lemma same_fetchEvidenceBytes c : keeps Same (fetchEvidenceBytesFromPublicGateway c).
Proof. unfold fetchEvidenceBytesFromPublicGateway. keeps_reads. Qed.
#[export] Hint Resolve same_decryptEvidenceBuffer same_fetchEvidenceBytes : keeps.
Lemma step_getEvidenceContent n0 req id : keeps (Step n0) (getEvidenceContent req id).
Proof.
  assert (forall e b, keeps (Step n0) (decryptContent req e id b)) by
    (intros; unfold decryptContent; keeps_reads).
  unfold getEvidenceContent. keeps_reads.
Qed.

Lemma patchedEvidence_evolves p l r e : evidence_evolves e (patchedEvidence p l r e).
Proof. by eexists _, _, l, r. Qed.

Lemma step_patchEvidenceMetadata n0 req id p : keeps (Step n0) (patchEvidenceMetadata req id p).
Proof.
  intros env w. apply at_withParsed; [apply _|intros b _]. unfold getEvidence. at_step.
  destruct (jm_get id _) as [e|] eqn:He; [|apply (keeps_ret (Step n0))].
  simpl. unfold getContract. at_step. destruct (jm_get (e_contractId e) _) as [c|] eqn:Hc;
    [|at_step; apply (keeps_ret (Step n0))].
  unfold mayAccess. at_step. destruct (canAccessContract _ _ _); [|apply (keeps_ret (Step n0))].
  cbn [negb]. at_step.
  destruct (patchDate _ _ _ _) as [|lh]; [apply (keeps_ret (Step n0))|].
  destruct (patchDate _ "retainUntil" _ _) as [|ru]; [apply (keeps_ret (Step n0))|].
  apply at_bind_rest; [apply _| |intros; keeps_reads].
  apply step_saveEvidence. intros _ _ Hwf.
  destruct (keyed_get _ _ _ _ Hwf.(wf_evidences _ _ _) He) as (Hid & _ & Hhas).
  split; [done|]. right. exists e. rewrite <-Hid in He. split; [exact He|apply patchedEvidence_evolves].
Qed.

Lemma step_purgeOne n0 req e : keeps (Step n0) (purgeOne req e).
Proof.
  assert (keeps (Step n0) (deleteEvidence (e_id e))) by (intros ? ?; apply step_deleteEvidence).
  assert (keeps (Step n0) (unpinIfPinata (e_cid e) (e_storageProvider e)))
    by apply keeps_same_step, same_unpinIfPinata.
  unfold purgeOne. keeps_reads.
Qed.
#[export] Hint Resolve step_purgeOne : keeps.
Lemma step_postRetentionRun n0 req : keeps (Step n0) (postRetentionRun req).
Proof. unfold postRetentionRun. keeps_reads. Qed.
Lemma same_getRetentionDue : keeps Same getRetentionDue.
Proof. unfold getRetentionDue. keeps_reads. Qed.
