(* ===== verification/XrplSteps.v ===== *)
(** XRPL tracking, reconciliation, the workers and the XRPL routes are steps;
    and what they leave alone. *)
From S2P Require Import Prelude JsString JsMap JsDate Types Config World Utils MemoryRepo Http Auth Notify Logic.
From S2P Require Import XrplTrack XrplWorkers Contracts Evidence Disputes XrplApi Settlements Inv Loops Steps.
From S2P Require Import ContractSteps.

(** * Tracking and reconciliation *)

Lemma step_upsertTrackedTx n0 h ty a d net : keeps (Step n0) (upsertTrackedTx h ty a d net).
Proof.
  intros env w. unfold upsertTrackedTx, getXrplTx. repeat at_step.
  simpl. destruct (jm_get h _) as [e|] eqn:He.
  - apply step_saveXrplTx. intros _ _ Hwf. simpl. intros t0 Ht0. rewrite He in Ht0. simplify_eq.
    pose proof (keyed_get _ _ _ _ Hwf.(wf_xrplTxs _ _ _) He) as Hh. simpl in Hh.
    by repeat split.
  - at_step. apply step_saveXrplTx. intros _ _ _. simpl. by rewrite He.
Qed.
#[export] Hint Resolve step_upsertTrackedTx : keeps.

(** Writing a row back. *)
Lemma step_updateXrplTx n0 env w h t t' :
  jm_get h w.(w_db).(xrplTxs) = Some t -> xrplTx_evolves t t' -> keeps_at (Step n0) (saveXrplTx t') env w.
Proof.
  intros Ht Hev. apply step_saveXrplTx. intros _ _ Hwf.
  pose proof (keyed_get _ _ _ _ Hwf.(wf_xrplTxs _ _ _) Ht) as Hh. simpl in Hh.
  pose proof Hev as (_ & -> & _). rewrite Hh, Ht. by intros ? [= <-].
Qed.
Lemma dispute_evolves_in_ids (n0 : Base) d d' :
  dispute_evolves_in n0 d d' -> d'.(d_id) = d.(d_id) /\ d'.(d_contractId) = d.(d_contractId).
Proof. unfold dispute_evolves_in. destruct (b_requests n0); by intros (? & ? & _). Qed.
Lemma step_updateDispute_in (n0 : Base) env w k d d' :
  jm_get k w.(w_db).(disputes) = Some d -> dispute_evolves_in n0 d d' -> keeps_at (Step n0) (saveDispute d') env w.
Proof.
  intros Hd Hev. apply step_saveDispute_in. intros _ _ Hwf.
  destruct (keyed_get _ _ _ _ Hwf.(wf_disputes _ _ _) Hd) as (Hid & Hdr & Hc).
  destruct (dispute_evolves_in_ids _ _ _ Hev) as [-> ->]. rewrite Hid.
  split_and!; [done..|]. intros ? ?. by simplify_eq.
Qed.
Lemma step_updateDispute n0 env w k d d' :
  jm_get k w.(w_db).(disputes) = Some d -> dispute_evolves d d' -> keeps_at (Step n0) (saveDispute d') env w.
Proof. intros Hd Hev. eapply step_updateDispute_in; [exact Hd|by apply dispute_evolves_any]. Qed.

Lemma reconciled_evolves l t now : xrplTx_evolves t (reconciled l now t).
Proof. by repeat split. Qed.

Lemma step_resolveDispute n0 env w k t d :
  jm_get k w.(w_db).(disputes) = Some d -> d.(d_status) = DS_execution_pending ->
  keeps_at (Step n0) (resolveDispute t d) env w.
Proof.
  intros Hd Hs. unfold resolveDispute. at_step. apply at_bind_rest; [apply _| |intros; keeps_reads].
  eapply step_updateDispute; [exact Hd|]. repeat split. simpl. rewrite Hs. apply rtc_once.
  by case_bool_decide.
Qed.

Lemma step_applyLiveTxStatus n0 h l : keeps (Step n0) (applyLiveTxStatus h l).
Proof.
  intros env w. unfold applyLiveTxStatus, getXrplTx. at_step.
  destruct (jm_get h _) as [t|] eqn:Ht; [|apply (keeps_ret (Step n0))].
  unfold recordXrplTxOutcomeClassified. repeat at_step.
  apply at_metric; [apply _|intros w1 Hdb1 _]. apply at_metric; [apply _|intros w2 Hdb2 _].
  apply at_bind; [apply _|eapply step_updateXrplTx; [rewrite Hdb2, Hdb1; exact Ht|apply reconciled_evolves]|].
  intros _ w3 _ _. apply at_bind_rest; [apply _| |intros; apply (keeps_ret (Step n0))].
  destruct (x_disputeId _) as [did|]; [|apply (keeps_ret (Step n0))].
  destruct (_ && _); [|apply (keeps_ret (Step n0))]. unfold getDispute. at_step.
  destruct (jm_get did _) as [d|] eqn:Hd; [|apply (keeps_ret (Step n0))].
  case_bool_decide; [|apply (keeps_ret (Step n0))]. by eapply step_resolveDispute.
Qed.
#[export] Hint Resolve step_applyLiveTxStatus : keeps.
#[export] Hint Extern 5 (keeps (Step _) (getTxStatus _)) => apply keeps_same_step, same_getTxStatus : keeps.
#[export] Hint Extern 5 (keeps (Step _) (getAccountTxResults _)) =>
  apply keeps_same_step, same_getAccountTxResults : keeps.
#[export] Hint Extern 5 (keeps (Step _) xrplEnabled) => apply keeps_askEnv; apply _ : keeps.

(** * The policy worker *)

Lemma step_deleteDelayedJob n0 id : keeps (Step n0) (deleteDelayedJob id).
Proof. intros env w. apply (step_jobs n0 env w (jm_delete id)). intros _ _ Hwf. apply keyed_delete, Hwf. Qed.
Lemma step_putJob n0 j : keeps (Step n0) (putJob j).
Proof. intros env w. apply (step_jobs n0 env w (jm_set (j_id j) j)). intros _ _ Hwf. apply keyed_set; [apply Hwf|done]. Qed.
#[export] Hint Resolve step_deleteDelayedJob step_putJob : keeps.
Lemma step_createDelayedJobIfAbsent n0 j : keeps (Step n0) (createDelayedJobIfAbsent j).
Proof. unfold createDelayedJobIfAbsent. pose proof (step_putJob n0 j) as H. unfold putJob in H. keeps_reads. Qed.
Lemma step_bumpDelayedJob n0 id r a e u : keeps (Step n0) (bumpDelayedJob id r a e u).
Proof.
  intros env w. unfold bumpDelayedJob. at_step. destruct (jm_get id _) as [j|] eqn:Hj; [|apply (keeps_ret (Step n0))].
  match goal with |- context [jm_set id ?x] => apply (step_jobs n0 env w (jm_set id x)) end.
  intros _ _ Hwf. apply keyed_set; [apply Hwf|]. simpl. apply (keyed_get _ _ _ _ Hwf.(wf_jobs _ _ _) Hj).
Qed.
Lemma step_claimDueDelayedJobs n0 k now lim ttl : keeps (Step n0) (claimDueDelayedJobs k now lim ttl).
Proof. unfold claimDueDelayedJobs. keeps_reads. Qed.
#[export] Hint Resolve step_createDelayedJobIfAbsent step_bumpDelayedJob step_claimDueDelayedJobs : keeps.

Lemma step_backfillAccount n0 st tx : keeps (Step n0) (backfillAccount st tx).
Proof.
  unfold backfillAccount. apply keeps_try; [apply _| |intros; keeps_auto]. intros env w.
  apply at_bind_same; [auto with keeps|]. intros live w1 _ _.
  destruct (match live with Some _ => _ | None => _ end); [|apply (keeps_ret (Step n0))].
  destruct (negb _); [apply (keeps_ret (Step n0))|]. unfold getXrplTx. at_step. cbv zeta.
  destruct (truthy _); [apply (keeps_ret (Step n0))|]. at_step.
  apply at_bind_rest; [apply _| |intros; keeps_reads].
  apply step_saveXrplTx. intros _ _ Hwf. simpl. intros t0 Ht0.
  destruct (jm_get (x_txHash tx) _) as [t|] eqn:Ht; simpl in *.
  - pose proof (keyed_get _ _ _ _ Hwf.(wf_xrplTxs _ _ _) Ht) as Hh. simpl in Hh.
    assert (t0 = t) as -> by congruence. by repeat split.
  - congruence.
Qed.
#[export] Hint Resolve step_backfillAccount : keeps.

Lemma step_scheduleProbe n0 opts now tx : keeps (Step n0) (scheduleProbe opts now tx).
Proof. unfold scheduleProbe, youngerThan. keeps_reads. Qed.
Lemma step_requeueJob n0 opts j e : keeps (Step n0) (requeueJob opts j e).
Proof. unfold requeueJob. keeps_reads. Qed.
#[export] Hint Resolve step_scheduleProbe step_requeueJob : keeps.

Lemma step_notFoundProbe n0 env w opts job h tx st :
  jm_get h w.(w_db).(xrplTxs) = Some tx ->
  keeps_at (Step n0) (notFoundProbe opts job h tx st) env w.
Proof.
  intros Htx. unfold notFoundProbe, getXrplTx. at_step. rewrite Htx. simpl. repeat at_step.
  destruct (_ <=? _)%Z.
  - apply at_bind_rest; [apply _| |intros; unfold recordXrplTxOutcomeClassified; keeps_reads].
    eapply step_updateXrplTx; [exact Htx|]. repeat split. simpl. lia.
  - apply at_bind_rest; [apply _| |intros; keeps_reads].
    eapply step_updateXrplTx; [exact Htx|]. repeat split. simpl. lia.
Qed.

Lemma same_probeLedger h a : keeps Same (probeLedger h a).
Proof. unfold probeLedger. keeps_reads. Qed.
#[export] Hint Resolve same_probeLedger : keeps.

Lemma step_runJob n0 opts st job : keeps (Step n0) (runJob opts st job).
Proof.
  unfold runJob. cbv zeta. destruct (negb _); [keeps_reads|].
  apply keeps_try; [apply _| |intros; keeps_reads]. intros env w. unfold getXrplTx. at_step.
  destruct (jm_get _ _) as [tx|] eqn:Htx; [|apply at_keeps; keeps_reads].
  destruct (negb _); [apply at_keeps; keeps_reads|].
  apply at_bind_same; [auto with keeps|]. intros [l|] w1 Hdb _; [apply at_keeps; keeps_reads|].
  apply step_notFoundProbe. by rewrite Hdb.
Qed.
#[export] Hint Resolve step_runJob : keeps.

Lemma step_policyTick n0 opts : keeps (Step n0) (policyTick opts).
Proof. unfold policyTick, recordXrplTxPolicyTickEnd. keeps_reads. Qed.

(** * The stream handlers *)

#[export] Hint Extern 2 (keeps (Step _) (tryRecordXrplIngestionEvent _ _ _)) =>
  intros ? ?; apply step_recordIngestion : keeps.
#[export] Hint Resolve step_touchSettlements : keeps.

Lemma step_handleTransaction n0 m b s : keeps (Step n0) (handleTransaction m b s).
Proof. unfold handleTransaction, consumeToken, processTransaction. keeps_reads. Qed.
Lemma step_handleLedgerClosed n0 s b : keeps (Step n0) (handleLedgerClosed s b).
Proof. unfold handleLedgerClosed, afterSettlementLedgerClosedEvent. keeps_reads. Qed.

(** * The routes *)

Lemma step_refreshTracked n0 h : keeps (Step n0) (refreshTracked h).
Proof. unfold refreshTracked. keeps_reads. Qed.
#[export] Hint Resolve step_refreshTracked : keeps.
Lemma step_postTrack n0 p : keeps (Step n0) (postTrack p).
Proof. unfold postTrack. keeps_reads. Qed.
Lemma same_getXrplTransactions p : keeps Same (getXrplTransactions p).
Proof. unfold getXrplTransactions. keeps_reads. Qed.
Lemma step_getXrplTransaction n0 h r : keeps (Step n0) (getXrplTransaction h r).
Proof. unfold getXrplTransaction. keeps_reads. Qed.
Lemma step_postRefresh n0 h : keeps (Step n0) (postRefresh h).
Proof. unfold postRefresh. keeps_reads. Qed.
Lemma same_getAccountEscrowsPage a l m : keeps Same (getAccountEscrowsPage a l m).
Proof. unfold getAccountEscrowsPage, clientRequestOrThrow. keeps_reads. Qed.
#[export] Hint Extern 5 (keeps (Step _) (getAccountEscrowsPage _ _ _)) =>
  apply keeps_same_step, same_getAccountEscrowsPage : keeps.
Lemma step_getAccountEscrows n0 a p : keeps (Step n0) (getAccountEscrows a p).
Proof. unfold getAccountEscrows. keeps_reads. Qed.

(** ** The backfills *)

#[export] Instance quiet_others_tx h : Quiet (on_db (others xrplTxs h)).
Proof. apply quiet_of_background; [apply _|]. intros db db' Hb k' _. by destruct Hb as (_&_&_&_&->&_). Qed.
Lemma others_saveDispute h d : keeps (on_db (others xrplTxs h)) (saveDispute d).
Proof. intros env w k ?. done. Qed.
#[export] Hint Resolve others_saveDispute : keeps.
Lemma others_saveXrplTx t env w : keeps_at (on_db (others xrplTxs (x_txHash t))) (saveXrplTx t) env w.
Proof. intros k Hk. simpl. by rewrite jm_get_set_ne. Qed.

Lemma others_applyLiveTxStatus h l t env w :
  jm_get h w.(w_db).(xrplTxs) = Some t -> t.(x_txHash) = h ->
  keeps_at (on_db (others xrplTxs h)) (applyLiveTxStatus h l) env w.
Proof.
  intros Ht Hh. unfold applyLiveTxStatus, getXrplTx. at_step. rewrite Ht.
  unfold recordXrplTxOutcomeClassified. repeat at_step.
  apply at_metric; [apply _|intros w1 _ _]. apply at_metric; [apply _|intros w2 _ _].
  apply at_bind_rest; [apply _| |intros; unfold getDispute, resolveDispute, getContract; keeps_auto].
  rewrite <-Hh. apply (others_saveXrplTx (reconciled l _ t)).
Qed.

Lemma step_liveBackfillOne n0 a s u t : keeps (Step n0) (liveBackfillOne a s u t).
Proof. unfold liveBackfillOne. keeps_reads. Qed.
#[export] Hint Resolve step_liveBackfillOne : keeps.
Lemma step_liveBackfill n0 a : keeps (Step n0) (liveBackfill a).
Proof. unfold liveBackfill. keeps_reads. Qed.
#[export] Hint Resolve step_liveBackfill : keeps.

Lemma simulatedTx_evolves l r now t : xrplTx_evolves t (simulatedTx l r now t).
Proof.
  unfold simulatedTx. cbv zeta. destruct (classifyXrplResultCode _); [|destruct (_ <? 3)%Z|..];
    repeat split; simpl; lia.
Qed.
Lemma simulatedTx_hash l r now t : x_txHash (simulatedTx l r now t) = x_txHash t.
Proof. by destruct (simulatedTx_evolves l r now t) as (_ & ? & _). Qed.

Lemma simulateOne_rows n0 b r u t env w :
  jm_get t.(x_txHash) w.(w_db).(xrplTxs) = Some t ->
  keeps_at (Step n0) (simulateOne b r u t) env w /\
  keeps_at (on_db (others xrplTxs t.(x_txHash))) (simulateOne b r u t) env w.
Proof.
  intros Ht. unfold simulateOne. destruct (x_validated t); [split; apply keeps_ret, _|]. cbv zeta. split.
  - at_step. apply at_bind_rest; [apply _| |intros; keeps_reads].
    eapply step_updateXrplTx; [exact Ht|apply simulatedTx_evolves].
  - at_step. set (t' := simulatedTx _ _ _ _). assert (Hh : t'.(x_txHash) = t.(x_txHash)) by apply simulatedTx_hash.
    apply at_bind; [apply _|rewrite <-Hh; apply others_saveXrplTx|].
    intros ? w1 [= Hw1] _. apply at_bind_rest; [apply _| |intros; keeps_auto].
    rewrite Hh. eapply others_applyLiveTxStatus; [|exact Hh]. subst w1. simpl. rewrite Hh. apply jm_get_set_eq.
Qed.

Lemma step_simulatedBackfill n0 b r : keeps (Step n0) (simulatedBackfill b r).
Proof.
  intros env w. apply step_assume.
  { unfold simulatedBackfill, simulateOne, applyLiveTxStatus, resolveDispute, recordXrplTxOutcomeClassified.
    mono. }
  intros _ Hwf. unfold simulatedBackfill, listXrplTxs. at_step.
  apply at_bind_rest; [apply _| |intros; keeps_reads].
  apply (at_foldM_rows xrplTxs x_txHash) with (P := fun _ => True); [apply _| |by apply Forall_true|
    intros; by apply simulateOne_rows].
  eapply current_values; [apply Hwf|done].
Qed.
#[export] Hint Resolve step_simulatedBackfill : keeps.

Lemma step_postBackfill n0 p : keeps (Step n0) (postBackfill p).
Proof. unfold postBackfill. keeps_reads. Qed.
