(* ===== verification/NotifySteps.v ===== *)
(** The outbox worker, the delivery worker, the notification routes and the
    remaining jobs are steps. *)
From S2P Require Import Prelude JsString JsMap JsDate Types Config World Utils MemoryRepo Http Auth Notify Logic.
From S2P Require Import XrplTrack Contracts Disputes NotifyApi Settlements Export Reports Reputation Inv Loops Steps.
From S2P Require Import ContractSteps.

(** * The outbox *)

(** Writing back a row that was read. *)
Lemma step_outboxRow n0 env w r r' :
  jm_get r.(o_id) w.(w_db).(notificationOutboxById) = Some r -> outbox_evolves r r' ->
  keeps_at (Step n0) (updateNotificationOutbox r') env w.
Proof.
  intros Hr Hev. pose proof Hev as (Hid & Hkey & _).
  apply step_updateOutbox; [intros _ _ _|]; exists r; rewrite Hid; auto.
Qed.
Lemma others_putOutbox r env w :
  keeps_at (on_db (others notificationOutboxById r.(o_id))) (putOutbox r) env w.
Proof. intros k Hk. simpl. by rewrite jm_get_set_ne. Qed.
Lemma others_updateOutbox r env w :
  keeps_at (on_db (others notificationOutboxById r.(o_id))) (updateNotificationOutbox r) env w.
Proof.
  unfold updateNotificationOutbox. at_step. apply (at_bind_rel _ (on_db (others notificationOutboxById r.(o_id))));
    [| |intros; apply others_putOutbox];
    (destruct (jm_get _ _); [case_bool_decide|]; try apply keeps_ret, _; by intros k).
Qed.
#[export] Instance logs_others_outbox k : Logs (on_db (others notificationOutboxById k)).
Proof. apply logs_of_logged; [apply _|]. intros db db' Hb k' _. by destruct Hb as (_&_&->&_). Qed.

Definition outboxSame (db db' : Db) : Prop := db'.(notificationOutboxById) = db.(notificationOutboxById).
#[export] Instance outboxSame_preorder : PreOrder outboxSame.
Proof. split; [by intros db|]. unfold outboxSame. congruence. Qed.
#[export] Instance logs_outboxSame : Logs (on_db outboxSame).
Proof. apply logs_of_logged; [apply _|]. by intros db db' (_&_&?&_). Qed.

Lemma outbox_evolves_by r r' :
  r'.(o_id) = r.(o_id) -> r'.(o_idempotencyKey) = r.(o_idempotencyKey) ->
  r'.(o_eventType) = r.(o_eventType) -> r'.(o_recipientId) = r.(o_recipientId) ->
  r'.(o_channel) = r.(o_channel) -> r'.(o_payload) = r.(o_payload) ->
  r'.(o_createdAt) = r.(o_createdAt) -> outbox_move r.(o_status) r'.(o_status) -> outbox_evolves r r'.
Proof. intros. split_and!; try done. by apply rtc_once. Qed.

(** One claimed row is dispatched, put back or given up. *)
Lemma dispatchOne_rows n0 row mx t env w :
  row.(o_status) = OS_processing -> jm_get row.(o_id) w.(w_db).(notificationOutboxById) = Some row ->
  keeps_at (Step n0) (dispatchOneOutboxRow row mx t) env w /\
  keeps_at (on_db (others notificationOutboxById row.(o_id))) (dispatchOneOutboxRow row mx t) env w.
Proof.
  intros Hs Hrow. split.
  - apply step_assume; [unfold dispatchOneOutboxRow; mono|]. intros _ Hwf. unfold dispatchOneOutboxRow.
    at_step. apply at_try_total.
    { unfold saveNotification, updateNotificationOutbox, putOutbox.
      repeat first [apply total_modify | apply total_emit | apply total_ret | apply total_asks
        | apply total_bind; [|intros] | case_match | progress cbv zeta]. }
    apply (at_bind_rel _ (on_db outboxSame)); [| done|].
    { apply step_saveQueued; simpl; [|apply drawn_last].
      intros Hd. eapply fresh_key; [done|apply Hwf|]. by intros k v []. }
    intros _ w1 H1. apply (at_bind_rel _ (on_db outboxSame)); [apply keeps_emit, _|apply keeps_emit, _|].
    intros _ w2 H2. unfold on_db, outboxSame in H1, H2. simpl in H1, H2.
    eapply step_outboxRow; [rewrite H2, H1; exact Hrow|]. apply outbox_evolves_by; try done. simpl. by rewrite Hs.
  - pose proof (fun x => others_updateOutbox x env) as Hu. unfold dispatchOneOutboxRow, saveNotification.
    apply keeps_bind; [apply _|apply keeps_randomId, _|intros id].
    assert (Hu' : forall r', r'.(o_id) = row.(o_id) ->
      keeps (on_db (others notificationOutboxById row.(o_id))) (updateNotificationOutbox r')).
    { intros r' <- env' w'. apply others_updateOutbox. }
    assert (Hn : forall f, keeps (on_db (others notificationOutboxById row.(o_id)))
      (modify (fun db => db <| notifications := f db |>))) by by intros f ?? k.
    keeps_auto; by apply Hu'.
Qed.

Lemma outbox_key env n k o : outbox_ok env n k o -> o.(o_id) = k.
Proof. by intros []. Qed.

Lemma step_putOutboxRow n0 env w r r' :
  jm_get r.(o_id) w.(w_db).(notificationOutboxById) = Some r -> outbox_evolves r r' ->
  keeps_at (Step n0) (putOutbox r') env w.
Proof.
  intros Hr Hev. pose proof Hev as (Hid & _). apply step_putOutbox. intros _ _ _. exists r.
  rewrite Hid. auto.
Qed.

Lemma step_recoverStale n0 sb now : keeps (Step n0) (recoverStaleNotificationOutboxProcessing sb now).
Proof.
  intros env w. apply step_assume; [mono|]. intros _ Hwf.
  unfold recoverStaleNotificationOutboxProcessing. at_step.
  apply at_bind_rest; [apply _| |intros; apply (keeps_ret (Step n0))].
  apply (at_forEach_rows notificationOutboxById o_id) with (P := fun r => outboxStale sb r = true); [apply _|..].
  - eapply current_sublist; [apply sublist_filter|].
    eapply current_values; [apply Hwf|apply outbox_key].
  - apply Forall_forall. intros x Hx. apply list_elem_of_filter in Hx as [Hx _]. by apply Is_true_true.
  - intros r w1 Hst Hr. apply andb_prop in Hst as [Hst _]. apply andb_prop in Hst as [Hst%bool_decide_eq_true _].
    split; [|apply (others_putOutbox (recoveredOutbox now r))].
    eapply step_putOutboxRow; [exact Hr|]. apply outbox_evolves_by; try done. simpl. by rewrite Hst.
Qed.

(** What is claimed. *)
Lemma pending_current env n db lim : db_wf env n db ->
  let l := take lim (js_sort (by_asc o_createdAt)
    (filter (fun r => r.(o_status) = OS_pending) (jm_values db.(notificationOutboxById)))) in
  current notificationOutboxById o_id l db /\ Forall (fun r => r.(o_status) = OS_pending) l.
Proof.
  intros Hwf l. split.
  - eapply current_sublist; [apply sublist_take|]. eapply current_perm; [symmetry; apply js_sort_perm|].
    eapply current_sublist; [apply sublist_filter|]. eapply current_values; [apply Hwf|apply outbox_key].
  - apply Forall_take, Forall_forall. intros x Hx. by apply elem_of_js_sort, list_elem_of_filter in Hx as [Hx _].
Qed.
Lemma claimedOutbox_evolves now r : r.(o_status) = OS_pending -> outbox_evolves r (claimedOutbox now r).
Proof. intros Hs. apply outbox_evolves_by; try done. by rewrite Hs. Qed.

Lemma step_claimOutbox n0 lim now : keeps (Step n0) (claimNotificationOutboxPending lim now).
Proof.
  intros env w. apply step_assume; [mono|]. intros _ Hwf. unfold claimNotificationOutboxPending. at_step.
  apply at_bind_rest; [apply _| |intros; apply (keeps_ret (Step n0))].
  destruct (pending_current env w.(w_rnd) w.(w_db) lim Hwf) as [Hcur Hpend].
  apply (at_forEach_rows notificationOutboxById o_id) with (P := fun r => r.(o_status) = OS_pending);
    [apply _|done..|].
  intros r w1 Hs Hr. split; [|apply (others_putOutbox (claimedOutbox now r))].
  eapply step_putOutboxRow; [exact Hr|by apply claimedOutbox_evolves].
Qed.

Lemma claimOutbox_result env w lim now l w' :
  db_wf env w.(w_rnd) w.(w_db) -> claimNotificationOutboxPending lim now env w = (inr l, w') ->
  current notificationOutboxById o_id l w'.(w_db) /\ Forall (fun r => r.(o_status) = OS_processing) l.
Proof.
  intros Hwf. unfold claimNotificationOutboxPending. rewrite bind_asks.
  destruct (pending_current env w.(w_rnd) w.(w_db) lim Hwf) as [[Hnd _] _].
  destruct (claim_result notificationOutboxById putOutbox o_id (claimedOutbox now)
    ltac:(by intros x e w0; eexists) _ env w Hnd) as (db' & E & Hin & _).
  unfold mbind, M_bind. rewrite E. intros [= <- <-]. split; [|apply Forall_fmap, Forall_true; done].
  split; [by rewrite <-list_fmap_compose|].
  intros y (x & -> & Hx)%list_elem_of_fmap. exact (Hin x Hx).
Qed.

Lemma mono_dispatch row mx t : keeps Mono (dispatchOneOutboxRow row mx t).
Proof. unfold dispatchOneOutboxRow. mono. Qed.
#[export] Hint Resolve step_recoverStale step_claimOutbox mono_dispatch : keeps.

Lemma step_runOutboxFanoutTick n0 b s m : keeps (Step n0) (runOutboxFanoutTick b s m).
Proof.
  intros env w. unfold runOutboxFanoutTick. repeat at_step.
  apply at_bind; [apply _|apply step_recoverStale|]. intros _ w1 _ _.
  apply step_assume; [mono|]. intros _ Hwf.
  apply at_bind; [apply _|apply step_claimOutbox|]. intros l w2 Hr _.
  apply claimOutbox_result in Hr as [Hcur Hproc]; [|done].
  apply (at_forEach_rows notificationOutboxById o_id) with (P := fun r => r.(o_status) = OS_processing);
    [apply _|done..|].
  intros. by apply dispatchOne_rows.
Qed.

(** * Delivery *)

Lemma same_deliver e : keeps Same (deliver e).
Proof. unfold deliver, deliverInappMock, postWebhook. keeps_reads. Qed.
#[export] Hint Resolve same_deliver : keeps.

Lemma others_saveNotification e env w :
  keeps_at (on_db (others notifications e.(n_id))) (saveNotification e) env w.
Proof. intros k Hk. simpl. by rewrite jm_get_set_ne. Qed.
#[export] Instance logs_others_notification k : Logs (on_db (others notifications k)).
Proof. apply logs_of_logged; [apply _|]. intros db db' Hb k' _. by destruct Hb as (_&->&_). Qed.

Lemma step_notificationRow (n0 : Base) env w e e' :
  jm_get e'.(n_id) w.(w_db).(notifications) = Some e -> notification_evolves_in n0 e e' ->
  keeps_at (Step n0) (saveNotification e') env w.
Proof.
  intros He Hev. apply step_saveNotification_in. intros _ _ Hwf.
  destruct (keyed_get _ _ _ _ Hwf.(wf_notifications _ _ _) He) as [_ Hdr].
  split; [done|]. intros ? ?. by simplify_eq.
Qed.

Lemma due_waiting now e : notificationDue now e = true -> waiting e.
Proof. unfold notificationDue, waiting. destruct (default _ _); [done|]. destruct (n_status e); auto; done. Qed.

(** A delivery of the row as it was read, [e], into a store that holds [e0]
    there: the row written is about the same, counts no failure less than [e],
    and waits no longer in the queue. *)
Definition delivery (e e' : NotificationEvent) : Prop :=
  same_notification e e' /\
  (default 0 e.(n_attemptCount) <= default 0 e'.(n_attemptCount))%Z /\ e'.(n_status) <> NS_queued.
Lemma processOne_step (n0 : Base) opts e e0 env w :
  jm_get e.(n_id) w.(w_db).(notifications) = Some e0 ->
  (forall e', delivery e e' -> notification_evolves_in n0 e0 e') ->
  keeps_at (Step n0) (processOne opts e) env w.
Proof.
  intros He0 Hev. unfold processOne. cbv zeta. apply at_bind_same; [auto with keeps|]. intros r w1 Hdb _. at_step.
  assert (Hsave : forall e' (k : unit -> M unit) w2, w2.(w_db) = w.(w_db) -> delivery e e' ->
    (forall a, keeps (Step n0) (k a)) -> keeps_at (Step n0) (saveNotification e' ≫= k) env w2).
  { intros e' k w2 Hw2 Hd Hk. apply at_bind_rest; [apply _| |done].
    pose proof Hd as ((Hid & _) & _). eapply step_notificationRow; [by rewrite Hid, Hw2|by apply Hev]. }
  destruct (dl_ok r); [|destruct (_ <=? _)%Z].
  - apply Hsave; [done|by split_and!|intros; keeps_reads].
  - apply Hsave; [done|split_and!; [done..|simpl; lia|done]|intros; keeps_reads].
  - at_step. eapply step_notificationRow; [simpl; rewrite Hdb; exact He0|]. apply Hev. split_and!; [done..|simpl; lia|done].
Qed.
Lemma processOne_others opts e : keeps (on_db (others notifications e.(n_id))) (processOne opts e).
Proof.
  unfold processOne. cbv zeta. pose proof keeps_of_same as Hs.
  assert (Hsave : forall e', e'.(n_id) = e.(n_id) ->
    keeps (on_db (others notifications e.(n_id))) (saveNotification e')).
  { intros e' <- env' w'. apply others_saveNotification. }
  apply keeps_bind; [apply _|apply Hs; [apply _|apply same_deliver]|]. intros r.
  keeps_auto; by apply Hsave.
Qed.
Lemma processOne_rows (n0 : Base) opts e env w :
  waiting e -> jm_get e.(n_id) w.(w_db).(notifications) = Some e ->
  keeps_at (Step n0) (processOne opts e) env w /\
  keeps_at (on_db (others notifications e.(n_id))) (processOne opts e) env w.
Proof.
  intros Hw He. split; [|apply processOne_others]. eapply processOne_step; [exact He|].
  intros e' (? & ? & ?). by apply notification_evolves_any, rtc_once.
Qed.
(** A delivery that comes late, when other ticks may have been there. *)
Lemma processOne_late n r opts e e0 env w :
  jm_get e.(n_id) w.(w_db).(notifications) = Some e0 -> same_notification e0 e ->
  keeps_at (Step (mkBase n r true)) (processOne opts e) env w.
Proof.
  intros He0 Hs. eapply processOne_step; [exact He0|]. intros e' (? & _ & ?).
  apply rtc_once. split; [by etrans|done].
Qed.

Lemma step_processBatch n0 opts : keeps (Step n0) (processBatch opts).
Proof.
  intros env w. apply step_assume.
  { assert (forall e, keeps Mono (deliver e)) by (intros; apply mono_of_same, same_deliver).
    unfold processBatch, processOne. mono. }
  intros _ Hwf. unfold processBatch, listDueNotifications. repeat at_step.
  destruct (current_selection notifications n_id (notification_ok env w.(w_rnd)) w.(w_db) (fun n => notificationDue
    (toISOString (env_clock env (w_clk w))) n) (by_asc n_createdAt) (Z.to_nat (wo_batchSize opts)))
    as [Hcur Hdue]; [apply Hwf|by intros k v []|].
  apply (at_forEach_rows notifications n_id) with (P := waiting); [apply _|exact Hcur| |].
  - eapply Forall_impl; [exact Hdue|]. intros e He. exact (due_waiting _ _ He).
  - intros. by apply processOne_rows.
Qed.

(** * The routes *)

Lemma step_newNotification n0 env w ty ri ch p t {B} (k : string -> M B) :
  (forall id, keeps (Step n0) (k id)) ->
  keeps_at (Step n0) (id ← randomId "ntf"; saveNotification (queuedNotification id ty ri ch p t);; k id) env w.
Proof.
  intros Hk. apply step_assume.
  { assert (forall id, keeps Mono (k id)) by (intros id env' w'; apply (Hk id)). mono. }
  intros _ Hwf. at_step. apply at_bind_rest; [apply _| |intros; apply Hk].
  apply step_saveQueued; simpl; [|apply drawn_last].
  intros Hd. eapply fresh_key; [done|apply Hwf|]. by intros ?? [].
Qed.

Lemma step_postNotification n0 p : keeps (Step n0) (postNotification p).
Proof.
  intros env w. apply at_withParsed; [apply _|intros b _].
  apply step_assume; [mono|]. intros _ Hwf. repeat at_step.
  apply at_bind_rest; [apply _| |intros; keeps_reads].
  apply step_saveQueued; simpl; [|apply drawn_last].
  intros Hd. eapply fresh_key; [done|apply Hwf|]. by intros ?? [].
Qed.
Lemma step_dispatchOne n0 req b now ids ch : keeps (Step n0) (dispatchOne req b now ids ch).
Proof. intros env w. apply step_newNotification. intros. keeps_reads. Qed.
#[export] Hint Resolve step_dispatchOne : keeps.
Lemma step_postDispatch n0 req p : keeps (Step n0) (postDispatch req p).
Proof. unfold postDispatch. keeps_reads. Qed.
Lemma same_getOutbox p : keeps Same (getOutbox p).
Proof. unfold getOutbox. keeps_reads. Qed.
Lemma same_getNotificationById id : keeps Same (getNotificationById id).
Proof. unfold getNotificationById. keeps_reads. Qed.

Lemma step_postOutboxRetry n0 req id : keeps (Step n0) (postOutboxRetry req id).
Proof.
  intros env w. unfold postOutboxRetry, getNotificationOutbox. at_step.
  destruct (jm_get id _) as [r|] eqn:Hr; [|apply (keeps_ret (Step n0))].
  case_bool_decide as Hs; [|apply (keeps_ret (Step n0))]. simpl. at_step.
  apply at_bind_rest; [apply _| |intros; keeps_reads].
  apply step_assume; [mono|]. intros _ Hwf.
  pose proof (keyed_get _ _ _ _ Hwf.(wf_outbox _ _ _) Hr) as [Hid _].
  eapply step_outboxRow; [rewrite Hid; exact Hr|]. apply outbox_evolves_by; try done. simpl. by rewrite Hs.
Qed.

(** Export jobs, the operator views and the reputation events are steps. *)

(** * Export jobs *)

Section export_loop.
Context (line : AuditLog -> string) (filter : AuditFilter) (pageSize maxExport : nat).
Lemma same_exportLoop fuel e o cs : keeps Same (exportLoop line filter pageSize maxExport fuel e o cs).
Proof. revert e o cs. induction fuel; intros; simpl; keeps_reads. Qed.
Lemma total_exportLoop fuel e o cs : total (exportLoop line filter pageSize maxExport fuel e o cs).
Proof.
  revert e o cs. induction fuel as [|fuel IH]; intros e o cs; simpl; [apply total_ret|].
  destruct (_ <=? _)%nat; [apply total_ret|].
  repeat (apply total_bind; [by intros env w; eexists _, _|intros]). cbv zeta.
  case_bool_decide; [apply total_ret|]. destruct (_ <=? _)%nat; [apply total_ret|apply IH].
Qed.
Lemma same_exportLines : keeps Same (exportLines line filter pageSize maxExport).
Proof. unfold exportLines. pose proof same_exportLoop. keeps_auto. Qed.
Lemma total_exportLines : total (exportLines line filter pageSize maxExport).
Proof. apply total_bind; [apply total_exportLoop|intros; apply total_ret]. Qed.
End export_loop.
#[export] Hint Resolve same_exportLines : keeps.

Lemma same_reportAudits pre line ct fn p : keeps Same (reportAudits pre line ct fn p).
Proof. unfold reportAudits. keeps_reads. Qed.

Lemma export_key env n k j : export_ok env n k j -> j.(x_jobId) = k.
Proof. by intros []. Qed.
Lemma step_postExportJob n0 p : keeps (Step n0) (postExportJob p).
Proof.
  intros env w. apply at_withParsed; [apply _|intros b _]. apply step_assume; [mono|]. intros _ Hwf.
  repeat at_step. apply at_bind_rest; [apply _| |intros; keeps_reads].
  apply step_saveExport. simpl. intros _ Hd _. split; [apply drawn_last|].
  erewrite fresh_key; [done..|apply Hwf|]. by intros k v [].
Qed.
Lemma same_getExportJobById id : keeps Same (getExportJobById id).
Proof. unfold getExportJobById. keeps_reads. Qed.

Lemma export_evolves_by j j' :
  j'.(x_jobId) = j.(x_jobId) -> j'.(x_kind) = j.(x_kind) -> j'.(x_filter) = j.(x_filter) ->
  j'.(x_maxExport) = j.(x_maxExport) -> j'.(x_createdAt) = j.(x_createdAt) ->
  export_move j.(x_status) j'.(x_status) -> export_evolves j j'.
Proof. intros. split_and!; try done. by apply rtc_once. Qed.
Lemma step_exportRow n0 env w j j' :
  jm_get j.(x_jobId) w.(w_db).(exportJobs) = Some j -> export_evolves j j' ->
  keeps_at (Step n0) (updateExportJob j') env w.
Proof.
  intros Hj Hev. apply step_saveExport. intros _ _ Hwf.
  destruct (keyed_get _ _ _ _ Hwf.(wf_exports _ _ _) Hj) as [_ Hdr].
  pose proof Hev as (-> & _). split; [done|]. intros ? ?. by simplify_eq.
Qed.
Lemma others_updateExport j env w :
  keeps_at (on_db (others exportJobs j.(x_jobId))) (updateExportJob j) env w.
Proof. intros k Hk. simpl. by rewrite jm_get_set_ne. Qed.

Lemma runExportJob_rows n0 j env w :
  j.(x_status) = ES_running -> jm_get j.(x_jobId) w.(w_db).(exportJobs) = Some j ->
  keeps_at (Step n0) (runExportJob j) env w /\
  keeps_at (on_db (others exportJobs j.(x_jobId))) (runExportJob j) env w.
Proof.
  intros Hs Hj. unfold runExportJob. split.
  - destruct (negb _).
    + at_step. apply at_bind_rest; [apply _| |intros; keeps_reads].
      eapply step_exportRow; [exact Hj|]. apply export_evolves_by; try done. simpl. by rewrite Hs.
    + apply at_try_total.
      { apply total_bind; [apply total_exportLines|]. intros ls env' w'. by eexists _, _. }
      apply at_bind_same; [auto with keeps|]. intros ls w1 Hdb _. at_step.
      apply at_bind_rest; [apply _| |intros; keeps_reads].
      eapply step_exportRow; [simpl; rewrite Hdb; exact Hj|]. apply export_evolves_by; try done. simpl. by rewrite Hs.
  - apply at_keeps.
    assert (Hu : forall j', j'.(x_jobId) = j.(x_jobId) ->
      keeps (on_db (others exportJobs j.(x_jobId))) (updateExportJob j')).
    { intros j' <- env' w'. apply others_updateExport. }
    assert (forall ln f a b, keeps (on_db (others exportJobs j.(x_jobId))) (exportLines ln f a b)).
    { intros. apply keeps_of_same; [apply _|apply same_exportLines]. }
    keeps_auto; by apply Hu.
Qed.

Lemma pendingExports_current env n db lim : db_wf env n db ->
  let l := take lim (js_sort (by_asc x_createdAt)
    (filter (fun j => j.(x_status) = ES_pending) (jm_values db.(exportJobs)))) in
  current exportJobs x_jobId l db /\ Forall (fun j => j.(x_status) = ES_pending) l.
Proof.
  intros Hwf l. split.
  - eapply current_sublist; [apply sublist_take|]. eapply current_perm; [symmetry; apply js_sort_perm|].
    eapply current_sublist; [apply sublist_filter|]. eapply current_values; [apply Hwf|apply export_key].
  - apply Forall_take, Forall_forall. intros x Hx. by apply elem_of_js_sort, list_elem_of_filter in Hx as [Hx _].
Qed.
Lemma step_claimExports n0 lim now : keeps (Step n0) (claimExportJobsPending lim now).
Proof.
  intros env w. apply step_assume; [mono|]. intros _ Hwf. unfold claimExportJobsPending. at_step.
  apply at_bind_rest; [apply _| |intros; apply (keeps_ret (Step n0))].
  destruct (pendingExports_current env w.(w_rnd) w.(w_db) lim Hwf) as [Hcur Hpend].
  apply (at_forEach_rows exportJobs x_jobId) with (P := fun j => j.(x_status) = ES_pending);
    [apply _|done..|].
  intros j w1 Hs Hj. split; [|apply (others_updateExport (claimedExport now j))].
  eapply step_exportRow; [exact Hj|]. apply export_evolves_by; try done. by rewrite Hs.
Qed.
Lemma claimExports_result env w lim now l w' :
  db_wf env w.(w_rnd) w.(w_db) -> claimExportJobsPending lim now env w = (inr l, w') ->
  current exportJobs x_jobId l w'.(w_db) /\ Forall (fun j => j.(x_status) = ES_running) l.
Proof.
  intros Hwf. unfold claimExportJobsPending. rewrite bind_asks.
  destruct (pendingExports_current env w.(w_rnd) w.(w_db) lim Hwf) as [[Hnd _] _].
  destruct (claim_result exportJobs updateExportJob x_jobId (claimedExport now)
    ltac:(by intros x e w0; eexists) _ env w Hnd) as (db' & E & Hin & _).
  unfold mbind, M_bind. rewrite E. intros [= <- <-]. split; [|apply Forall_fmap, Forall_true; done].
  split; [by rewrite <-list_fmap_compose|].
  intros y (x & -> & Hx)%list_elem_of_fmap. exact (Hin x Hx).
Qed.
Lemma step_runExportJobTick n0 b : keeps (Step n0) (runExportJobTick b).
Proof.
  intros env w. apply step_assume.
  { assert (forall ln f a b, keeps Mono (exportLines ln f a b)) by (intros; apply mono_of_same, same_exportLines).
    unfold runExportJobTick, runExportJob. mono. }
  intros _ Hwf. unfold runExportJobTick. at_step.
  apply at_bind; [apply _|apply step_claimExports|]. intros l w2 Hr _.
  apply claimExports_result in Hr as [Hcur Hrun]; [|done].
  apply (at_forEach_rows exportJobs x_jobId) with (P := fun j => j.(x_status) = ES_running);
    [apply _|done..|].
  intros. by apply runExportJob_rows.
Qed.

Lemma same_getArtifactUrl id : keeps Same (getArtifactUrl id).
Proof. unfold getArtifactUrl, nowSeconds. keeps_reads. Qed.
Lemma same_getExportArtifact t : keeps Same (getExportArtifact t).
Proof. unfold getExportArtifact, nowSeconds. keeps_reads. Qed.

(** * Operator views *)

Lemma same_getStatsSummary : keeps Same getStatsSummary.
Proof. unfold getStatsSummary. keeps_reads. Qed.
Lemma same_getReportSummary p : keeps Same (getReportSummary p).
Proof. unfold getReportSummary. keeps_reads. Qed.
Lemma same_pingRippled : keeps Same pingRippled.
Proof. unfold pingRippled, clientRequestOrThrow. keeps_reads. Qed.
#[export] Hint Resolve same_pingRippled : keeps.
Lemma same_getHealth d s m : keeps Same (getHealth d s m).
Proof. unfold getHealth, pingStorage. keeps_reads. Qed.
Lemma same_getEvents p : keeps Same (getEvents p).
Proof. unfold getEvents. keeps_reads. Qed.
Lemma same_getAudits p : keeps Same (getAudits p).
Proof. unfold getAudits, auditsKeyset, listAuditsAfterCursor. keeps_reads. Qed.

(** * Reputation *)

Lemma keeps_modifyDlq R `{!Frame R} f : keeps R (modifyDlq f).
Proof. intros env w. apply frame_dlq. Qed.
Lemma keeps_asksDlq R `{!Frame R} {A} (f : _ -> A) : keeps R (asksDlq f).
Proof. intros env w. apply (keeps_ret R tt). Qed.
Lemma keeps_pushScheduled R `{!Frame R} b : keeps R (pushScheduled b).
Proof. intros env w. apply frame_scheduled. Qed.
Lemma keeps_takeScheduled R `{!Frame R} : keeps R takeScheduled.
Proof.
  intros env w. unfold keeps_at, takeScheduled. destruct (w_scheduled w); simpl; [reflexivity|apply frame_scheduled].
Qed.
#[export] Hint Resolve keeps_modifyDlq keeps_asksDlq keeps_pushScheduled keeps_takeScheduled : keeps.

Section reputation.
Context (R : Env -> relation World) `{!Quiet R}.
Lemma keeps_deliverReputation b : keeps R (deliverReputationOutboundWebhook b).
Proof.
  unfold deliverReputationOutboundWebhook, recordReputationOutboundDlq, removeReputationDlq, deliveryFailed.
  keeps_auto.
Qed.
Lemma keeps_runScheduled : keeps R runScheduled.
Proof. unfold runScheduled. pose proof keeps_deliverReputation. keeps_auto. Qed.
Lemma keeps_postReputationEvent req p : keeps R (postReputationEvent req p).
Proof. unfold postReputationEvent, scheduleReputationOutboundWebhook. keeps_auto. Qed.
Lemma keeps_getReputationDelivery req l : keeps R (getReputationDelivery req l).
Proof. unfold getReputationDelivery, listReputationDlq. keeps_auto. Qed.
Lemma keeps_postReputationRetry req p : keeps R (postReputationRetry req p).
Proof. unfold postReputationRetry, getReputationDlq, scheduleReputationOutboundWebhook. keeps_auto. Qed.
End reputation.
