(* ===== verification/DisputeSteps.v ===== *)
(** The dispute routes are steps. *)
From S2P Require Import Prelude JsString JsMap JsDate Types Config World Utils MemoryRepo Http Auth Notify Logic.
From S2P Require Import XrplTrack XrplWorkers Contracts Evidence Disputes Settlements Inv Loops Steps ContractSteps.
From S2P Require Import XrplSteps.

(** * Filing and review *)

Lemma same_checkEvidences ids c : keeps Same (checkEvidences ids c).
Proof. induction ids; simpl; keeps_reads. Qed.
#[export] Hint Resolve same_checkEvidences : keeps.

Lemma step_postDispute n0 req p : keeps (Step n0) (postDispute req p).
Proof.
  intros env w. apply at_withParsed; [apply _|intros b _]. apply at_withContract; [apply _|intros c Hc].
  apply at_bind_same; [auto with keeps|]. intros [r|] w1 Hdb _; [apply (keeps_ret (Step n0))|].
  apply step_assume; [mono|]. intros _ Hwf. repeat at_step.
  apply at_bind_rest; [apply _| |intros; keeps_reads].
  apply step_saveDispute. simpl. intros _ Hd _. split; [apply drawn_last|].
  split; [exists c; by rewrite Hdb|].
  erewrite fresh_key; [done|done|exact (wf_disputes _ _ _ Hwf)|]. by intros k v (_ & ? & _).
Qed.

Lemma review_move d next :
  isDisputeReviewStatusAllowed d.(d_status) (reviewStatus next) = true ->
  dispute_move d.(d_status) (reviewStatus next).
Proof. unfold isDisputeReviewStatusAllowed. by destruct (d_status d), next. Qed.

Lemma step_patchDisputeStatus n0 req id p : keeps (Step n0) (patchDisputeStatus req id p).
Proof.
  intros env w. apply at_withParsed; [apply _|intros next _].
  apply at_withDispute; [apply _|intros d Hd _].
  destruct (isDisputeReviewStatusAllowed _ _) eqn:Hmove; [|apply (keeps_ret (Step n0))].
  cbn [negb]. at_step. destruct (_ && _ && _); [apply (keeps_ret (Step n0))|]. at_step.
  apply at_bind_same; [unfold reviewDeadline; keeps_auto|]. intros dl w1 Hdb _. simpl in Hdb.
  apply at_bind_rest; [apply _| |intros; keeps_reads].
  eapply step_updateDispute; [rewrite Hdb; exact Hd|].
  apply review_move in Hmove. destruct next; repeat split; by apply rtc_once.
Qed.

Lemma step_postVerifierVote n0 req id p : keeps (Step n0) (postVerifierVote req id p).
Proof.
  intros env w. apply at_withParsed; [apply _|intros b _].
  apply at_withDispute; [apply _|intros d Hd _].
  destruct (negb _); [apply (keeps_ret (Step n0))|]. unfold listDisputeVerifierVotes. at_step.
  destruct (existsb _ _) eqn:Hvoted; [apply (keeps_ret (Step n0))|]. repeat at_step.
  apply at_bind_rest; [apply _| |intros; keeps_reads].
  apply step_appendVote. intros _ _ _. simpl. split; [by exists d|].
  intros (v & Hv & Hin)%list_elem_of_fmap. apply not_true_iff_false in Hvoted. apply Hvoted.
  apply existsb_exists. exists v. split; [by apply list_elem_of_In|by apply bool_decide_eq_true].
Qed.

Lemma same_getReviewState req id : keeps Same (getReviewState req id).
Proof. unfold getReviewState. keeps_reads. Qed.

Lemma escalated_evolves t d : dispute_evolves d (escalated t d).
Proof. repeat split. apply rtc_refl. Qed.
Lemma step_postEscalate n0 req id : keeps (Step n0) (postEscalate req id).
Proof.
  intros env w. apply at_withDispute; [apply _|intros d Hd _]. at_step.
  apply at_bind_rest; [apply _| |intros; keeps_reads].
  eapply step_updateDispute; [exact Hd|apply escalated_evolves].
Qed.

Lemma same_getDisputes p : keeps Same (getDisputes p).
Proof. unfold getDisputes. keeps_reads. Qed.
Lemma same_getDisputeById req id : keeps Same (getDisputeById req id).
Proof. unfold getDisputeById. keeps_reads. Qed.

(** * Decision *)

Lemma step_postDecision n0 req id p : keeps (Step n0) (postDecision req id p).
Proof.
  intros env w. apply at_withParsed; [apply _|intros b _].
  apply at_withDispute; [apply _|intros d Hd _].
  destruct (openForReview _) eqn:Hopen; [|apply (keeps_ret (Step n0))]. cbn [negb].
  apply step_assume; [mono|]. intros _ Hwf. repeat at_step.
  pose proof (keyed_get _ _ _ _ Hwf.(wf_disputes _ _ _) Hd) as (Hid & _).
  apply at_bind; [apply _| |].
  { apply step_saveDecision. simpl. intros _ Hdist _. split_and!; [apply drawn_last|rewrite Hid; by exists d|].
    eapply fresh_key; [done|exact (wf_decisions _ _ _ Hwf)|]. by intros k v (_ & ? & _). }
  intros ? w1 [= _ <-] _. at_step. apply at_bind_rest; [apply _| |intros; keeps_reads].
  eapply step_updateDispute; [exact Hd|]. repeat split. apply rtc_once. simpl.
  unfold openForReview in Hopen. by destruct (d_status d).
Qed.

(** * Execution *)

(** Tracking a transaction only touches disputes that await one. *)
Definition settledKept (db db' : Db) : Prop :=
  forall k d, jm_get k db.(disputes) = Some d -> d.(d_status) <> DS_execution_pending ->
    jm_get k db'.(disputes) = Some d.
#[export] Instance settledKept_preorder : PreOrder settledKept.
Proof. split; [by intros db k|]. intros a b c H1 H2 k d Hd Hs. apply H2; [by apply H1|done]. Qed.
#[export] Instance quiet_settledKept : Quiet (on_db settledKept).
Proof. apply quiet_of_background; [apply _|]. intros db db' Hb k d Hd _. by destruct Hb as (_&_&->&_). Qed.

Definition disputesSame (db db' : Db) : Prop := db'.(disputes) = db.(disputes).
#[export] Instance disputesSame_preorder : PreOrder disputesSame.
Proof. split; [by intros db|]. unfold disputesSame. congruence. Qed.
#[export] Instance quiet_disputesSame : Quiet (on_db disputesSame).
Proof. apply quiet_of_background; [apply _|]. by intros db db' (_&_&?&_). Qed.

Lemma disputesSame_saveXrplTx t : keeps (on_db disputesSame) (saveXrplTx t).
Proof. by intros env w. Qed.
#[export] Hint Resolve disputesSame_saveXrplTx : keeps.
Lemma disputesSame_upsert h ty a d n : keeps (on_db disputesSame) (upsertTrackedTx h ty a d n).
Proof. unfold upsertTrackedTx. keeps_reads. Qed.

Definition disputes_keyed (db : Db) : Prop := forall k d, jm_get k db.(disputes) = Some d -> d.(d_id) = k.

Lemma settledKept_resolve t d k env w :
  jm_get k w.(w_db).(disputes) = Some d -> d.(d_id) = k -> d.(d_status) = DS_execution_pending ->
  keeps_at (on_db settledKept) (resolveDispute t d) env w.
Proof.
  intros Hd Hid Hs. unfold resolveDispute. at_step. apply at_bind_rest; [apply _| |intros; keeps_reads].
  intros k' d' Hd' Hs'. simpl in *. rewrite jm_get_set_ne; [done|]. congruence.
Qed.
Lemma settledKept_applyLive h l env w :
  disputes_keyed w.(w_db) -> keeps_at (on_db settledKept) (applyLiveTxStatus h l) env w.
Proof.
  intros Hk. unfold applyLiveTxStatus, getXrplTx. at_step.
  destruct (jm_get h _) as [t|]; [|apply keeps_ret, _].
  unfold recordXrplTxOutcomeClassified. repeat at_step.
  apply at_metric; [apply _|intros w1 Hdb1 _]. apply at_metric; [apply _|intros w2 Hdb2 _].
  apply (at_bind_rel _ (on_db disputesSame)); [by intros k d|apply disputesSame_saveXrplTx|].
  intros _ w3 Hdb3. unfold on_db, disputesSame in Hdb3. rewrite Hdb2, Hdb1 in Hdb3. simpl in Hdb3.
  apply at_bind_rest; [apply _| |intros; apply keeps_ret, _].
  destruct (x_disputeId _) as [did|]; [|apply keeps_ret, _].
  destruct (_ && _); [|apply keeps_ret, _]. unfold getDispute. at_step.
  destruct (jm_get did _) as [d|] eqn:Hd; [|apply keeps_ret, _].
  case_bool_decide; [|apply keeps_ret, _]. eapply settledKept_resolve; [exact Hd| |done].
  apply Hk. by rewrite <-Hdb3.
Qed.

Lemma same_executionHash id b : keeps Same (executionHash id b).
Proof. unfold executionHash, trySubmitDisputeExecution, submitAndWaitFromWallet. keeps_reads. Qed.

Lemma mono_trackExecution id b eh : keeps Mono (trackExecution id b eh).
Proof.
  pose proof (fun h => mono_of_same _ (same_getTxStatus h)).
  unfold trackExecution, upsertTrackedTx, applyLiveTxStatus, resolveDispute, recordXrplTxOutcomeClassified. mono.
Qed.
Lemma step_trackExecution n0 id b eh : keeps (Step n0) (trackExecution id b eh).
Proof. unfold trackExecution. keeps_reads. Qed.

Lemma settledKept_trackExecution id b eh env w :
  disputes_keyed w.(w_db) -> keeps_at (on_db settledKept) (trackExecution id b eh) env w.
Proof.
  intros Hk. unfold trackExecution. cbv zeta.
  assert (Hup : forall h ty a d n, keeps (on_db settledKept) (upsertTrackedTx h ty a d n)).
  { intros h ty a d n env' w' k d' Hd _. unfold on_db in *.
    pose proof (disputesSame_upsert h ty a d n env' w') as Hs. unfold keeps_at, on_db, disputesSame in Hs.
    by rewrite Hs. }
  unfold xrplEnabled. at_step. destruct (negb _); [apply at_keeps; keeps_auto|].
  apply (at_bind_rel _ Same); [apply keeps_of_same; [apply _|apply same_getTxStatus]|apply same_getTxStatus|].
  intros live w1 [Hdb _]. destruct (typeMismatch _ _ _); [apply keeps_ret, _|].
  apply (at_bind_rel _ (on_db disputesSame)); [apply Hup|apply disputesSame_upsert|].
  intros _ w2 Hd2. unfold on_db, disputesSame in Hd2.
  apply at_bind_rest; [apply _| |intros; apply keeps_ret, _].
  destruct live; [|apply keeps_ret, _]. apply at_bind_rest; [apply _| |intros; apply keeps_ret, _].
  apply settledKept_applyLive. intros k d. rewrite Hd2, Hdb. apply Hk.
Qed.

#[export] Instance quiet_others_dispute k : Quiet (on_db (others disputes k)).
Proof. apply quiet_of_background; [apply _|]. intros db db' Hb k' _. by destruct Hb as (_&_&->&_). Qed.
Lemma others_saveDispute_row d env w : keeps_at (on_db (others disputes d.(d_id))) (saveDispute d) env w.
Proof. intros k Hk. simpl. by rewrite jm_get_set_ne. Qed.

Definition requestedDispute (now : string) (d : DisputeCase) : DisputeCase :=
  d <| d_status := DS_execution_pending |> <| d_updatedAt := now |>.
Lemma step_requestExecution (n0 : Base) req d b eh now env w :
  jm_get d.(d_id) w.(w_db).(disputes) = Some d -> dispute_evolves_in n0 d (requestedDispute now d) ->
  keeps_at (Step n0) (requestExecution req d b eh now) env w.
Proof.
  intros Hd Hev. unfold requestExecution, recordExecutionRequest.
  apply at_metric; [apply _|intros w1 Hdb _]. cbv zeta.
  apply at_bind_rest; [apply _| |intros; keeps_reads].
  eapply step_updateDispute_in; [rewrite Hdb; exact Hd|exact Hev].
Qed.
Lemma decided_requested now d : d.(d_status) = DS_decided -> dispute_evolves d (requestedDispute now d).
Proof. intros Hs. repeat split. apply rtc_once. simpl. by rewrite Hs. Qed.
Lemma others_requestExecution req d b eh now :
  keeps (on_db (others disputes d.(d_id))) (requestExecution req d b eh now).
Proof.
  assert (keeps (on_db (others disputes d.(d_id))) (saveDispute (requestedDispute now d))).
  { intros env w. apply (others_saveDispute_row (requestedDispute now d)). }
  unfold requestExecution, recordExecutionRequest. keeps_reads.
Qed.

(** ** The rest of a request, whenever it comes *)

(** It tracks its transaction and then, if nothing stops it, writes the dispute
    as the store holds it. *)
Lemma finishExecution_runs req d b env w :
  exists w2, (forall n0, Step n0 env w w2) /\
    ((finishExecution req d b env w).2 = w2 \/
     exists eh now, finishExecution req d b env w =
       requestExecution req (default d (jm_get d.(d_id) w2.(w_db).(disputes))) b eh now env w2).
Proof.
  pose (Q := fun o : (Exn + Response) * World => exists w2, (forall n0, Step n0 env w w2) /\
    (o.2 = w2 \/ exists eh now, o = requestExecution req
       (default d (jm_get d.(d_id) w2.(w_db).(disputes))) b eh now env w2)).
  change (Q (finishExecution req d b env w)).
  unfold finishExecution. pose proof (same_executionHash d.(d_id) b env w) as Hh. unfold keeps_at in Hh.
  unfold mbind at 1, M_bind. destruct (executionHash d.(d_id) b env w) as [[e|[res|eh]] w1]; simpl in Hh.
  1-2: exists w1; split; [intros; by apply step_of_same|by left].
  unfold mbind at 1, M_bind. destruct (nowIso env w1) as [[e|now] w1'] eqn:En; [by injection En|].
  assert (Hn : Same env w w1').
  { etrans; [exact Hh|]. injection En as _ <-. by split. }
  pose proof (fun n0 => step_trackExecution n0 d.(d_id) b eh env w1') as Ht. unfold keeps_at in Ht.
  unfold mbind at 1, M_bind. destruct (trackExecution d.(d_id) b eh env w1') as [[e|[res|]] w2]; simpl in Ht.
  1-2: exists w2; split; [intros n0; etrans; [by apply step_of_same|apply Ht]|by left].
  exists w2. split; [intros n0; etrans; [by apply step_of_same|apply Ht]|].
  right. by exists eh, now.
Qed.

(** A request that waited: its dispute was decided once. *)
Definition pastDecision (d : DisputeCase) : Prop :=
  d.(d_status) ∈ [DS_decided; DS_execution_pending; DS_executed; DS_rejected].
Lemma pastDecision_kept d d' : dispute_evolves_overlap d d' -> pastDecision d -> pastDecision d'.
Proof.
  intros (_ & _ & _ & _ & _ & _ & Hr). unfold pastDecision. revert Hr.
  generalize (d_status d) (d_status d'). induction 1 as [|x y z Hm _ IH]; [done|].
  intros Hx. apply IH. revert Hm Hx. unfold dispute_move_overlap. destruct x, y; simpl; set_solver.
Qed.
Lemma requested_overlap now d : pastDecision d -> dispute_evolves_overlap d (requestedDispute now d).
Proof.
  intros Hs. split_and!; try done. change (rtc dispute_move_overlap d.(d_status) DS_execution_pending).
  unfold pastDecision in Hs. rewrite !elem_of_cons in Hs.
  destruct Hs as [-> |[-> |[-> |[-> |[]%not_elem_of_nil]]]]; [|done|..]; apply rtc_once; unfold dispute_move_overlap; simpl; auto.
Qed.

Section late.
Context (n : nat) (t : bool) (req : Request) (d d0 : DisputeCase) (b : ExecutionBody) (env : Env) (w : World).
Let w' := (finishExecution req d b env w).2.
Context (Hd0 : jm_get d.(d_id) w.(w_db).(disputes) = Some d0) (Hpast : pastDecision d0).

Lemma finishExecution_late : keeps_at (Step (mkBase n true t)) (finishExecution req d b) env w.
Proof using Hd0 Hpast.
  destruct (finishExecution_runs req d b env w) as (w2 & Hs & [Heq|(eh & now & Heq)]);
    unfold keeps_at; rewrite Heq; [apply Hs|]. specialize (Hs (mkBase n true t)).
  assert (Hmono : w2.(w_rnd) <= (requestExecution req (default d (jm_get (d_id d) (disputes (w_db w2)))) b eh now env w2).2.(w_rnd)).
  { assert (keeps Mono (requestExecution req (default d (jm_get (d_id d) (disputes (w_db w2)))) b eh now)) as H
      by (unfold requestExecution, recordExecutionRequest; mono). apply H. }
  destruct Hs as [Hle Hs]. split; [lia|]. intros Hn Hids Hwf.
  destruct Hs as [Hwf2 Hev]; [done|by eapply ids_distinct_le|done|].
  destruct (ev_disputes _ _ _ _ _ Hev _ _ Hd0) as (d2 & Hd2 & Hev2). rewrite Hd2 in Hmono, Hids |- *. simpl in Hmono, Hids |- *.
  destruct (keyed_get _ _ _ _ Hwf2.(wf_disputes _ _ _) Hd2) as (Hid & _).
  destruct (step_requestExecution (mkBase n true t) req d2 b eh now env w2) as [_ Hreq];
    [by rewrite Hid|by apply requested_overlap, (pastDecision_kept d0)|].
  destruct Hreq as [Hwf3 Hev3]; [simpl in *; lia|done|done|]. split; [done|by eapply db_evolves_trans].
Qed.

(** The other disputes only go forward. *)
Lemma finishExecution_others k x :
  n <= w.(w_rnd) -> ids_distinct env w'.(w_rnd) -> db_wf env w.(w_rnd) w.(w_db) -> k <> d.(d_id) ->
  jm_get k w.(w_db).(disputes) = Some x ->
  exists x', jm_get k w'.(w_db).(disputes) = Some x' /\ dispute_evolves x x'.
Proof using Hd0 Hpast.
  intros Hn Hids Hwf Hk Hx. subst w'.
  destruct (finishExecution_runs req d b env w) as (w2 & Hs & Hcase). destruct (Hs n) as [Hle2 Hs2].
  assert (Hids2 : ids_distinct env w2.(w_rnd)).
  { destruct Hcase as [<-|(eh & now & E)]; [done|]. eapply ids_distinct_le; [|exact Hids]. rewrite E.
    assert (keeps Mono (requestExecution req (default d (jm_get (d_id d) (disputes (w_db w2)))) b eh now)) as H
      by (unfold requestExecution, recordExecutionRequest; mono). apply H. }
  destruct Hs2 as [Hwf2 Hev]; [done|done|done|]. destruct (ev_disputes _ _ _ _ _ Hev _ _ Hx) as (x' & Hx' & Hevx).
  exists x'. split; [|exact Hevx]. destruct Hcase as [->|(eh & now & ->)]; [done|].
  destruct (ev_disputes _ _ _ _ _ Hev _ _ Hd0) as (d2 & Hd2 & _). rewrite Hd2. simpl.
  destruct (keyed_get _ _ _ _ Hwf2.(wf_disputes _ _ _) Hd2) as (Hid & _).
  rewrite (others_requestExecution req d2 b eh now env w2 k); [done|by rewrite Hid].
Qed.
End late.

Lemma mono_postExecution req id p : keeps Mono (postExecution req id p).
Proof.
  pose proof (fun i b => mono_of_same _ (same_executionHash i b)). pose proof mono_trackExecution.
  unfold postExecution, executionGuards, finishExecution, heldDispute, getDispute, requestExecution,
    recordExecutionRequest. mono.
Qed.
Lemma step_postExecution n0 req id p : keeps (Step n0) (postExecution req id p).
Proof.
  intros env w. apply step_assume; [apply mono_postExecution|]. intros _ Hwf.
  apply at_withParsed; [apply _|intros b _]. apply at_withDispute; [apply _|intros d Hd _].
  case_bool_decide as Hs; [|apply (keeps_ret (Step n0))]. cbn [negb].
  assert (Hk : disputes_keyed w.(w_db)).
  { intros k x Hx. by apply (keyed_get _ _ _ _ Hwf.(wf_disputes _ _ _)) in Hx as []. }
  apply at_bind_same; [apply same_executionHash|]. intros [res|eh] w1 Hdb1 _; [apply (keeps_ret (Step n0))|].
  at_step. apply (at_bind_rel _ (on_db settledKept)); [apply step_trackExecution|
    apply settledKept_trackExecution; simpl; by rewrite Hdb1|].
  intros [res|] w2 Hkept; [apply (keeps_ret (Step n0))|].
  assert (Hd2 : jm_get (d_id d) w2.(w_db).(disputes) = Some d).
  { apply Hkept; simpl; [by rewrite Hdb1, (Hk _ _ Hd)|by rewrite Hs]. }
  unfold heldDispute, getDispute. repeat at_step. rewrite Hd2. apply step_requestExecution; [done|].
  by apply dispute_evolves_any, decided_requested.
Qed.

(** * The verifier registry *)

Lemma same_getVerifierRegistry : keeps Same getVerifierRegistry.
Proof. unfold getVerifierRegistry. keeps_reads. Qed.
Lemma step_postVerifierRegistry n0 req p : keeps (Step n0) (postVerifierRegistry req p).
Proof.
  assert (forall e, keeps (Step n0) (upsertDisputeVerifierRegistryEntry e)) by
    (intros ???; apply step_upsertRegistry).
  unfold postVerifierRegistry. keeps_reads.
Qed.

(** * The review-deadline scan *)

Lemma scanOne_rows n0 nowMs st d env w :
  jm_get d.(d_id) w.(w_db).(disputes) = Some d ->
  keeps_at (Step n0) (scanOne nowMs st d) env w /\
  keeps_at (on_db (others disputes d.(d_id))) (scanOne nowMs st d) env w.
Proof.
  intros Hd. unfold scanOne. split.
  - at_step. destruct (negb _); [apply (keeps_ret (Step n0))|]. at_step.
    destruct (cfg_slaAutoEscalate _); [|apply at_keeps; unfold announceExpired; keeps_reads].
    destruct (truthy _); [apply (keeps_ret (Step n0))|]. unfold autoEscalate. repeat at_step.
    apply at_bind_rest; [apply _| |intros; keeps_reads].
    eapply step_updateDispute; [exact Hd|apply escalated_evolves].
  - apply at_keeps. assert (forall t, keeps (on_db (others disputes d.(d_id))) (saveDispute (escalated t d))).
    { intros t env' w'. apply (others_saveDispute_row (escalated t d)). }
    unfold autoEscalate, announceExpired. keeps_reads.
Qed.

Lemma dispute_key env n db k d : dispute_ok env n db k d -> d.(d_id) = k.
Proof. by intros []. Qed.
Lemma step_postReviewSlaScan n0 : keeps (Step n0) postReviewSlaScan.
Proof.
  intros env w. apply step_assume; [unfold postReviewSlaScan, scanOne, autoEscalate, announceExpired; mono|].
  intros _ Hwf. unfold postReviewSlaScan, listDisputesPage. repeat at_step.
  apply at_bind_rest; [apply _| |intros; keeps_reads].
  apply (at_foldM_rows disputes d_id) with (P := fun _ => True); [apply _| |by apply Forall_true|].
  - simpl. eapply current_sublist; [apply slice_sublist|]. eapply current_perm; [symmetry; apply js_sort_perm|].
    eapply current_sublist; [apply sublist_filter|]. eapply current_values; [apply Hwf|apply dispute_key].
  - intros. by apply scanOne_rows.
Qed.
