(* ===== verification/System.v ===== *)
(** The whole service: the routes of [index.ts] with their middlewares, the
    workers and stream handlers [main] starts, and the transitions they make.
    Every transition is a [Step]. *)
From S2P Require Import Prelude JsString JsMap JsDate Types Config World Utils MemoryRepo Http Auth Notify Logic.
From S2P Require Import XrplTrack XrplWorkers Contracts Evidence Disputes XrplApi NotifyApi Settlements Export.
From S2P Require Import Reports Reputation Inv Loops Steps ContractSteps XrplSteps NotifySteps DisputeSteps.

(** * Routes *)

Inductive Call :=
  | C_postContract (p : Parsed CreateContract)
  | C_getContracts (p : Parsed ContractListQuery)
  | C_getContract (id : string)
  | C_patchContractStatus (id : string) (p : Parsed ContractStatus)
  | C_patchEscrowAnchor (id : string) (p : Parsed string)
  | C_postEvidence (up : Upload) (p : Parsed EvidenceForm)
  | C_verifyEvidence (p : Parsed VerifyEvidence)
  | C_getEvidence (id : string)
  | C_getEvidenceContent (id : string)
  | C_patchEvidenceMetadata (id : string) (p : Parsed EvidenceMetadataPatch)
  | C_postDispute (p : Parsed CreateDispute)
  | C_patchDisputeStatus (id : string) (p : Parsed ReviewStatus)
  | C_postVerifierVote (id : string) (p : Parsed VerifierVote)
  | C_getReviewState (id : string)
  | C_postEscalate (id : string)
  | C_getDisputes (p : Parsed DisputeListQuery)
  | C_getDispute (id : string)
  | C_postDecision (id : string) (p : Parsed DecisionBody)
  | C_postExecution (id : string) (p : Parsed ExecutionBody)
  | C_postTrack (p : Parsed TrackTx)
  | C_getXrplTransactions (p : Parsed XrplTxListQuery)
  | C_getXrplTransaction (txHash : string) (refresh : option string)
  | C_postRefresh (txHash : string)
  | C_getAccountEscrows (account : string) (p : Parsed EscrowsQuery)
  | C_postBackfill (p : Parsed Backfill)
  | C_postNotification (p : Parsed NotifyBody)
  | C_postDispatch (p : Parsed DispatchBody)
  | C_getOutbox (p : Parsed OutboxListQuery)
  | C_postOutboxRetry (id : string)
  | C_getNotification (id : string)
  | C_getSettlements (p : Parsed SettlementListQuery)
  | C_getSettlement (id : string)
  | C_patchSettlementStatus (id : string) (p : Parsed SettlementPatch)
  | C_getStats
  | C_getExecutionPolicy
  | C_getXrplOperations
  | C_getReportSummary (p : Parsed ReportSummaryParams)
  | C_auditsNdjson (p : Parsed AuditsReportQuery)
  | C_auditsCsv (p : Parsed AuditsReportQuery)
  | C_retentionRun
  | C_retentionDue
  | C_getRegistry
  | C_postRegistry (p : Parsed RegistryBody)
  | C_getEvents (p : Parsed EventFilter)
  | C_postExportJob (p : Parsed CreateExportJob)
  | C_getExportJob (id : string)
  | C_getArtifactUrl (id : string)
  | C_slaScan
  | C_getAudits (p : Parsed AuditsQuery)
  | C_reputationEvent (p : Parsed ReputationOutboundBody)
  | C_reputationDelivery (limit : nat)
  | C_reputationRetry (p : Parsed string)
  | C_exportArtifact (token : string)
  | C_health (deep : bool) (subscribe metrics : JsVal).

Inductive Verb := V_GET | V_POST | V_PATCH.
#[export] Instance Verb_eq : EqDecision Verb. Proof. solve_decision. Defined.
Definition verb_str (v : Verb) : string :=
  match v with V_GET => "GET" | V_POST => "POST" | V_PATCH => "PATCH" end.

(** [requireRoles(...)] lists of the routes. *)
Definition everyone : list BluesafeRole := [R_tenant; R_landlord; R_operator; R_verifier; R_auditor].
Definition staff : list BluesafeRole := [R_operator; R_verifier; R_auditor].
Definition operatorOnly : list BluesafeRole := [R_operator].

(** The verb of a route, and, under [/v1], its roles and operator scopes. *)
Definition route (c : Call) : Verb * option (list BluesafeRole * list string) :=
  match c with
  | C_postContract _ | C_postEvidence _ _ | C_verifyEvidence _ | C_postDispute _ | C_postTrack _
  | C_postNotification _ => (V_POST, Some (everyone, []))
  | C_getContracts _ | C_getContract _ | C_getEvidence _ | C_getEvidenceContent _ | C_getReviewState _
  | C_getDisputes _ | C_getDispute _ | C_getXrplTransactions _ | C_getXrplTransaction _ _
  | C_getAccountEscrows _ _ | C_getNotification _ | C_getSettlements _ | C_getSettlement _
  | C_getEvents _ => (V_GET, Some (everyone, []))
  | C_patchContractStatus _ _ | C_patchEscrowAnchor _ _ | C_patchDisputeStatus _ _ =>
      (V_PATCH, Some (everyone, []))
  | C_postVerifierVote _ _ | C_postDecision _ _ | C_postExecution _ _ | C_postRefresh _
  | C_postBackfill _ => (V_POST, Some (staff, []))
  | C_getOutbox _ | C_getStats | C_getExecutionPolicy | C_getXrplOperations | C_getReportSummary _
  | C_auditsNdjson _ | C_auditsCsv _ | C_retentionDue | C_getRegistry | C_getExportJob _
  | C_getArtifactUrl _ | C_getAudits _ => (V_GET, Some (staff, []))
  | C_patchEvidenceMetadata _ _ => (V_PATCH, Some (operatorOnly, ["evidence"]))
  | C_postEscalate _ => (V_POST, Some (operatorOnly, ["disputes"]))
  | C_postDispatch _ => (V_POST, Some (staff, ["dispatch"]))
  | C_postOutboxRetry _ => (V_POST, Some (operatorOnly, ["outbox"]))
  | C_patchSettlementStatus _ _ => (V_PATCH, Some (operatorOnly, ["settlements"]))
  | C_retentionRun => (V_POST, Some (operatorOnly, ["purge"]))
  | C_postRegistry _ => (V_POST, Some (operatorOnly, ["registry"]))
  | C_postExportJob _ => (V_POST, Some ([R_operator; R_verifier], ["export"]))
  | C_slaScan => (V_POST, Some (operatorOnly, ["sla"]))
  | C_reputationEvent _ | C_reputationRetry _ => (V_POST, None)
  | C_reputationDelivery _ | C_exportArtifact _ | C_health _ _ _ => (V_GET, None)
  end.

Definition handler (c : Call) (req : Request) : Handler :=
  match c with
  | C_postContract p => postContract req p
  | C_getContracts p => getContracts req p
  | C_getContract id => getContractById req id
  | C_patchContractStatus id p => patchContractStatus req id p
  | C_patchEscrowAnchor id p => patchEscrowAnchor req id p
  | C_postEvidence up p => postEvidence req up p
  | C_verifyEvidence p => postEvidenceVerify req p
  | C_getEvidence id => getEvidenceById req id
  | C_getEvidenceContent id => getEvidenceContent req id
  | C_patchEvidenceMetadata id p => patchEvidenceMetadata req id p
  | C_postDispute p => postDispute req p
  | C_patchDisputeStatus id p => patchDisputeStatus req id p
  | C_postVerifierVote id p => postVerifierVote req id p
  | C_getReviewState id => getReviewState req id
  | C_postEscalate id => postEscalate req id
  | C_getDisputes p => getDisputes p
  | C_getDispute id => getDisputeById req id
  | C_postDecision id p => postDecision req id p
  | C_postExecution id p => postExecution req id p
  | C_postTrack p => postTrack p
  | C_getXrplTransactions p => getXrplTransactions p
  | C_getXrplTransaction h r => getXrplTransaction h r
  | C_postRefresh h => postRefresh h
  | C_getAccountEscrows a p => getAccountEscrows a p
  | C_postBackfill p => postBackfill p
  | C_postNotification p => postNotification p
  | C_postDispatch p => postDispatch req p
  | C_getOutbox p => getOutbox p
  | C_postOutboxRetry id => postOutboxRetry req id
  | C_getNotification id => getNotificationById id
  | C_getSettlements p => getSettlements req p
  | C_getSettlement id => getSettlementById req id
  | C_patchSettlementStatus id p => patchSettlementStatus req id p
  | C_getStats => getStatsSummary
  | C_getExecutionPolicy => cfg ← askCfg id; mret (json 200 (getExecutionPolicySnapshot cfg))
  | C_getXrplOperations => cfg ← askCfg id; mret (json 200 (getXrplOperationsSnapshot cfg))
  | C_getReportSummary p => getReportSummary p
  | C_auditsNdjson p => getAuditsNdjson p
  | C_auditsCsv p => getAuditsCsv p
  | C_retentionRun => postRetentionRun req
  | C_retentionDue => getRetentionDue
  | C_getRegistry => getVerifierRegistry
  | C_postRegistry p => postVerifierRegistry req p
  | C_getEvents p => getEvents p
  | C_postExportJob p => postExportJob p
  | C_getExportJob id => getExportJobById id
  | C_getArtifactUrl id => getArtifactUrl id
  | C_slaScan => postReviewSlaScan
  | C_getAudits p => getAudits p
  | C_reputationEvent p => postReputationEvent req p
  | C_reputationDelivery limit => getReputationDelivery req limit
  | C_reputationRetry p => postReputationRetry req p
  | C_exportArtifact token => getExportArtifact token
  | C_health deep s m => getHealth deep s m
  end.

(** The middlewares of a route, in the order Express runs them. *)
Definition middlewares (c : Call) : list Middleware :=
  match (route c).2 with
  | Some (roles, scopes) => route_middlewares roles scopes
  | None => []
  end.
(** One request: the middlewares, then the handler; a thrown error is a 500. *)
Definition serve (c : Call) (req : Request) : Handler :=
  errorMiddleware
    (guarded ← askCfg (fun cfg => chain (middlewares c) cfg
                 (req <| rq_method := verb_str (route c).1 |> <| rq_bluesafeAuth := None |>));
     match guarded with
     | inl res => mret res
     | inr req' => handler c req'
     end).

(** * Workers and streams ([main]) *)

Inductive Task :=
  | K_notification_worker
  | K_outbox_worker
  | K_policy_worker
  | K_export_worker
  | K_transaction_stream (bucket : option TokenBucket) (stream : JsVal)
  | K_ledger_stream (stream : LedgerStream)
  | K_reputation_delivery.

Definition notificationOptions (c : Config) : NotificationWorkerOptions :=
  mkWorkerOptions c.(cfg_notifMaxAttempts) c.(cfg_notifBatchSize)
    (Some c.(cfg_retryInitialBackoffMs)) (Some c.(cfg_retryMaxBackoffMs)).
Definition policyOptions (c : Config) : XrplTxPolicyWorkerOptions :=
  mkPolicyOptions c.(cfg_policyIntervalMs) c.(cfg_pendingTimeoutMs) c.(cfg_policyBatchSize)
    c.(cfg_maxNotFoundProbes) None c.(cfg_maxBackoffMs).

(** The workers are started with the options of the configuration, unless it
    disables them. *)
Definition runTask (j : Task) : M unit :=
  cfg ← askCfg id;
  match j with
  | K_notification_worker =>
      if cfg.(cfg_notifWorkerDisabled) then mret tt else processBatch (notificationOptions cfg)
  | K_outbox_worker =>
      if cfg.(cfg_domainOutbox) && negb cfg.(cfg_outboxFanoutWorkerDisabled) then
        runOutboxFanoutTick cfg.(cfg_outboxFanoutBatchSize) cfg.(cfg_outboxStaleProcessingMs)
          cfg.(cfg_outboxDispatchMaxAttempts)
      else mret tt
  | K_policy_worker =>
      if cfg.(cfg_xrplEnabled) && negb cfg.(cfg_policyWorkerDisabled) then policyTick (policyOptions cfg)
      else mret tt
  | K_export_worker =>
      if cfg.(cfg_exportWorkerDisabled) then mret tt else runExportJobTick cfg.(cfg_exportBatchSize)
  | K_transaction_stream bucket stream =>
      if cfg.(cfg_subscribeDisabled) || negb cfg.(cfg_xrplEnabled) || negb cfg.(cfg_transactionsStream)
      then mret tt
      else _ ← handleTransaction cfg.(cfg_transactionStreamMaxPerSec) bucket stream; mret tt
  | K_ledger_stream stream =>
      if cfg.(cfg_subscribeDisabled) || negb cfg.(cfg_xrplEnabled) then mret tt
      else handleLedgerClosed stream cfg.(cfg_ledgerCloseTouchEnabled)
  | K_reputation_delivery => runScheduled
  end.

(** * The transition system

    Requests, ticks, stream messages and scheduled deliveries run one after
    the other, in any order. *)
Inductive transition (env : Env) : World -> World -> Prop :=
  | T_serve c req w : transition env w (serve c req env w).2
  | T_job j w : transition env w (runTask j env w).2.

Definition reachable (env : Env) (w : World) : Prop := rtc (transition env) initWorld w.

(** * Every transition is a step *)

#[export] Hint Resolve step_postContract step_patchContractStatus step_patchEscrowAnchor step_postEvidence
  step_postEvidenceVerify step_getEvidenceById step_getEvidenceContent step_patchEvidenceMetadata
  step_postDispute step_patchDisputeStatus step_postVerifierVote step_postEscalate step_postDecision
  step_postExecution step_postTrack step_getXrplTransaction step_postRefresh step_getAccountEscrows
  step_postBackfill step_postNotification step_postDispatch step_postOutboxRetry
  step_patchSettlementStatus step_postRetentionRun step_postVerifierRegistry step_postExportJob
  step_postReviewSlaScan keeps_postReputationEvent keeps_postReputationRetry
  keeps_getReputationDelivery keeps_runScheduled step_processBatch step_runOutboxFanoutTick
  step_policyTick step_runExportJobTick step_handleTransaction step_handleLedgerClosed : keeps.

Lemma step_handler n0 c req : keeps (Step n0) (handler c req).
Proof.
  destruct c; simpl; try solve [eauto with keeps typeclass_instances];
    try (apply keeps_same_step; first
      [ apply same_getContracts | apply same_getContractById | apply same_getReviewState
      | apply same_getDisputes | apply same_getDisputeById | apply same_getXrplTransactions
      | apply same_getOutbox | apply same_getNotificationById | apply same_getSettlements
      | apply same_getSettlementById | apply same_getStatsSummary | apply same_getReportSummary
      | apply same_reportAudits | apply same_getRetentionDue | apply same_getVerifierRegistry
      | apply same_getEvents | apply same_getExportJobById | apply same_getArtifactUrl
      | apply same_getAudits | apply same_getExportArtifact | apply same_getHealth ]);
    keeps_auto.
Qed.
Lemma step_serve n0 c req : keeps (Step n0) (serve c req).
Proof. unfold serve, errorMiddleware. pose proof step_handler. keeps_auto. Qed.
Lemma step_job n0 j : keeps (Step n0) (runTask j).
Proof. unfold runTask. keeps_auto. Qed.

Lemma transition_step n0 env w w' : transition env w w' -> Step n0 env w w'.
Proof. intros []; [apply step_serve|apply step_job]. Qed.
Lemma run_step n0 env w w' : rtc (transition env) w w' -> Step n0 env w w'.
Proof.
  induction 1 as [|w1 w2 w3 H _ IH]; [reflexivity|]. etrans; [by apply transition_step|exact IH].
Qed.

Lemma reachable_ok env w :
  reachable env w -> ids_distinct env w.(w_rnd) -> db_wf env w.(w_rnd) w.(w_db).
Proof.
  intros Hr Hd. destruct (run_step 0 _ _ _ Hr) as [_ H].
  apply H; [simpl; lia|done|apply emptyDb_wf].
Qed.
Lemma run_evolves env w w' :
  reachable env w -> rtc (transition env) w w' -> ids_distinct env w'.(w_rnd) ->
  db_evolves env w.(w_rnd) w'.(w_rnd) w.(w_db) w'.(w_db).
Proof.
  intros Hr Hrun Hd. destruct (run_step w.(w_rnd) _ _ _ Hrun) as [Hle H].
  apply H; [done|done|]. apply reachable_ok; [done|by eapply ids_distinct_le].
Qed.

(** * Operations that overlap

    Node runs one handler at a time, but the others go on while one waits on
    the network.  Two operations check a row before such a wait and write it
    after it, without looking again: a request for execution (between its
    checks and [saveDispute] it submits to the ledger and asks for the
    transaction) and a tick of the notification worker (it lists the due rows,
    then delivers them one by one; [setInterval] starts the next tick whether
    or not the last one is done, and the rows are not claimed).  A [Service] is
    the store with the requests and ticks that wait. *)
Record PendingExecution := mkPending { px_req : Request; px_dispute : DisputeCase; px_body : ExecutionBody }.
Record Service := mkService {
  sv_world : World; sv_executions : list PendingExecution; sv_batches : list (list NotificationEvent) }.

(** The rows a tick takes, before it delivers them. *)
Definition dueBatch (opts : NotificationWorkerOptions) : M (list NotificationEvent) :=
  now ← nowIso; listDueNotifications now (Z.to_nat opts.(wo_batchSize)).
Lemma processBatch_batch opts env w :
  processBatch opts env w = (due ← dueBatch opts; forEach (processOne opts) due) env w.
Proof. done. Qed.

(** Any operation at once; a request for execution up to its first wait, or
    from there to its end; a tick up to its first delivery, or one delivery.  A
    tick that throws is over. *)
Inductive overlap (env : Env) : Service -> Service -> Prop :=
  | O_transition w w' xs bs :
      transition env w w' -> overlap env (mkService w xs bs) (mkService w' xs bs)
  | O_execution_waits req q id p d b w xs bs :
      chain (middlewares (C_postExecution id p)) env.(env_cfg)
        (req <| rq_method := "POST" |> <| rq_bluesafeAuth := None |>) = inr q ->
      (forall k, executionGuards q id p k env w = k d b env w) ->
      overlap env (mkService w xs bs) (mkService w (mkPending q d b :: xs) bs)
  | O_execution_resumes w x xs1 xs2 bs :
      overlap env (mkService w (xs1 ++ x :: xs2) bs)
        (mkService (errorMiddleware (finishExecution x.(px_req) x.(px_dispute) x.(px_body)) env w).2 (xs1 ++ xs2) bs)
  | O_tick_waits w xs bs due w' :
      env.(env_cfg).(cfg_notifWorkerDisabled) = false ->
      dueBatch (notificationOptions env.(env_cfg)) env w = (inr due, w') ->
      overlap env (mkService w xs bs) (mkService w' xs (due :: bs))
  | O_tick_resumes w xs n rest bs1 bs2 r w' :
      processOne (notificationOptions env.(env_cfg)) n env w = (r, w') ->
      overlap env (mkService w xs (bs1 ++ (n :: rest) :: bs2))
        (mkService w' xs (bs1 ++ (match r with inr _ => rest | inl _ => [] end) :: bs2)).
Definition initService : Service := mkService initWorld [] [].

(** What waits was decided, and was a row of the store. *)
Record waits_ok (s : Service) : Prop := mkWaitsOk {
  wk_executions : Forall (fun x => exists d, jm_get x.(px_dispute).(d_id) s.(sv_world).(w_db).(disputes) = Some d /\
                            pastDecision d) s.(sv_executions);
  wk_batches : Forall (fun n => exists n0, jm_get n.(n_id) s.(sv_world).(w_db).(notifications) = Some n0 /\
                         same_notification n0 n) (concat s.(sv_batches)) }.

(** A request that passes the checks found its dispute decided. *)
Lemma executionGuards_dispute q id p d b env w :
  (forall k, executionGuards q id p k env w = k d b env w) ->
  jm_get id w.(w_db).(disputes) = Some d /\ d.(d_status) = DS_decided.
Proof.
  intros H. specialize (H (fun d _ _ w' => (inr (json 0 JNull), w' <| w_db := emptyDb <| disputes := [("", d)] |> |>))).
  revert H. unfold executionGuards, withParsed, withDispute, getDispute. destruct p as [?|b']; [done|].
  rewrite bind_asks. destruct (jm_get id _) as [d'|]; [|done].
  unfold canAccessDispute, mayAccessContractOf, getContract, mayAccess. rewrite bind_assoc, bind_asks.
  destruct (jm_get (d_contractId d') _) as [c|];
    [unfold askCfg; rewrite bind_askEnv|rewrite bind_ret]; (destruct (negb _); [done|]);
    (case_bool_decide as Hs; [|done]); cbn [negb]; by intros [= ->].
Qed.

(** ** Every overlapping step is a step *)

Lemma errorMiddleware_world h env w : (errorMiddleware h env w).2 = (h env w).2.
Proof. unfold errorMiddleware, try_catch. by destruct (h env w) as [[e|r] w']. Qed.
Lemma same_dueBatch opts : keeps Same (dueBatch opts).
Proof. unfold dueBatch, listDueNotifications. keeps_reads. Qed.

Lemma overlap_step n env s s' :
  waits_ok s -> overlap env s s' -> Step (mkBase n true true) env s.(sv_world) s'.(sv_world).
Proof.
  intros [Hx Hb] Ho. destruct Ho as [w w' xs bs Ht|req q id p d b w xs bs _ _|w x xs1 xs2 bs
    |w xs bs due w' _ Hdue|w xs e rest bs1 bs2 r w' Hone]; cbn [sv_world sv_executions sv_batches] in *.
  - by apply transition_step.
  - done.
  - apply Forall_app in Hx as [_ Hx]. apply Forall_cons in Hx as [(d & Hd & Hp) _].
    rewrite errorMiddleware_world. by eapply finishExecution_late.
  - apply step_of_same. pose proof (same_dueBatch (notificationOptions (env_cfg env)) env w) as Hs.
    unfold keeps_at in Hs. by rewrite Hdue in Hs.
  - rewrite concat_app, Forall_app in Hb. destruct Hb as [_ Hb]. simpl in Hb.
    apply Forall_cons in Hb as [(e0 & He0 & Hs) _].
    pose proof (processOne_late n true (notificationOptions (env_cfg env)) e e0 env w He0 Hs) as Hl.
    unfold keeps_at in Hl. by rewrite Hone in Hl.
Qed.

#[export] Instance same_notification_symmetric : Symmetric same_notification.
Proof. intros a b (? & ? & ? & ? & ? & ?). by split_and!. Qed.

(** What waits stays a row of the store. *)
Lemma waits_evolve n env w w' m xs bs :
  db_evolves env (mkBase n true true) m w.(w_db) w'.(w_db) ->
  waits_ok (mkService w xs bs) -> waits_ok (mkService w' xs bs).
Proof.
  intros Hev [Hx Hb]. split; simpl in *; (eapply Forall_impl; [eassumption|]; cbv beta).
  - intros x (d & Hd & Hp). destruct (ev_disputes _ _ _ _ _ Hev _ _ Hd) as (d' & Hd' & Hev').
    exists d'. split; [done|by eapply pastDecision_kept].
  - intros e (e0 & He0 & Hs). destruct (ev_notifications _ _ _ _ _ Hev _ _ He0) as (e' & He' & Hev').
    exists e'. split; [done|]. etrans; [|exact Hs]. symmetry. by apply notification_evolves_same.
Qed.

Lemma dueBatch_rows n env w opts due w' :
  keyed (notification_ok env n) w.(w_db).(notifications) -> dueBatch opts env w = (inr due, w') ->
  w'.(w_db) = w.(w_db) /\
  Forall (fun e => jm_get e.(n_id) w.(w_db).(notifications) = Some e /\ waiting e) due.
Proof.
  intros Hk Hdue. injection Hdue as <- <-. split; [done|].
  destruct (current_selection notifications n_id (notification_ok env n) w.(w_db) (fun e => notificationDue
    (toISOString (env_clock env (w_clk w))) e) (by_asc n_createdAt) (Z.to_nat (wo_batchSize opts)))
    as [[_ Hcur] Hall]; [done|by intros k v []|].
  rewrite Forall_forall in Hall. apply Forall_forall. intros e He.
  split; [by apply Hcur|by eapply due_waiting, Hall].
Qed.

Lemma overlap_waits env s s' n :
  db_wf env s.(sv_world).(w_rnd) s.(sv_world).(w_db) ->
  db_evolves env (mkBase n true true) s'.(sv_world).(w_rnd) s.(sv_world).(w_db) s'.(sv_world).(w_db) ->
  waits_ok s -> overlap env s s' -> waits_ok s'.
Proof.
  intros Hwf Hev Hok Ho. destruct Ho as [w w' xs bs Ht|req q id p d b w xs bs _ Hg|w x xs1 xs2 bs
    |w xs bs due w' _ Hdue|w xs e rest bs1 bs2 r w' Hone]; cbn [sv_world sv_executions sv_batches] in *.
  - by eapply waits_evolve.
  - destruct Hok as [Hx Hb]. split; [|exact Hb]. simpl. constructor; [|exact Hx].
    apply executionGuards_dispute in Hg as [Hd Hs]. exists d. simpl.
    destruct (keyed_get _ _ _ _ Hwf.(wf_disputes _ _ _) Hd) as (-> & _). split; [done|].
    unfold pastDecision. rewrite Hs. by left.
  - apply (waits_evolve n env w) with (m := w_rnd (errorMiddleware (finishExecution (px_req x) (px_dispute x) (px_body x)) env w).2);
      [done|]. destruct Hok as [Hx Hb]. split; [|exact Hb]. simpl in *. rewrite Forall_app, Forall_cons in Hx.
    apply Forall_app. naive_solver.
  - eapply waits_evolve in Hok; [|exact Hev]. destruct Hok as [Hx Hb]. split; [exact Hx|]. simpl.
    apply Forall_app. split; [|exact Hb]. destruct (dueBatch_rows _ _ _ _ _ _ Hwf.(wf_notifications _ _ _) Hdue) as [-> Hrows].
    eapply Forall_impl; [exact Hrows|]. intros e [He _]. by exists e.
  - eapply waits_evolve in Hok; [|exact Hev]. destruct Hok as [Hx Hb]. split; [exact Hx|]. simpl in *.
    rewrite concat_app in *. simpl in *. rewrite !Forall_app in *. destruct Hb as [Hb1 Hb2].
    apply Forall_cons in Hb2 as [_ Hb2]. apply Forall_app in Hb2 as [Hb2 Hb3].
    split_and!; [done| |done]. destruct r; [constructor|done].
Qed.

(** ** Runs *)

Lemma mono_finishExecution req d b : keeps Mono (finishExecution req d b).
Proof.
  pose proof (fun i b => mono_of_same _ (same_executionHash i b)). pose proof mono_trackExecution.
  unfold finishExecution, heldDispute, getDispute, requestExecution, recordExecutionRequest. mono.
Qed.
Lemma mono_processOne opts e : keeps Mono (processOne opts e).
Proof.
  assert (forall e, keeps Mono (deliver e)) by (intros; apply mono_of_same, same_deliver).
  unfold processOne. mono.
Qed.
Lemma overlap_mono env s s' : overlap env s s' -> s.(sv_world).(w_rnd) <= s'.(sv_world).(w_rnd).
Proof.
  intros Ho. destruct Ho as [w w' xs bs Ht|req q id p d b w xs bs _ _|w x xs1 xs2 bs
    |w xs bs due w' _ Hdue|w xs e rest bs1 bs2 r w' Hone]; cbn [sv_world].
  - by apply (transition_step 0) in Ht as [? _].
  - done.
  - rewrite errorMiddleware_world. apply mono_finishExecution.
  - pose proof (same_dueBatch (notificationOptions (env_cfg env)) env w) as Hs.
    unfold keeps_at in Hs. rewrite Hdue in Hs. apply Hs.
  - pose proof (mono_processOne (notificationOptions (env_cfg env)) e env w) as Hl.
    unfold keeps_at in Hl. by rewrite Hone in Hl.
Qed.
Lemma overlaps_mono env s s' : rtc (overlap env) s s' -> s.(sv_world).(w_rnd) <= s'.(sv_world).(w_rnd).
Proof. induction 1 as [|s1 s2 s3 H%overlap_mono _ IH]; [done|lia]. Qed.

(** A service whose store is well formed, with what waits in it. *)
Record service_ok (env : Env) (s : Service) : Prop := mkServiceOk {
  sk_wf : db_wf env s.(sv_world).(w_rnd) s.(sv_world).(w_db); sk_waits : waits_ok s }.
Lemma initService_ok env : service_ok env initService.
Proof. split; [apply emptyDb_wf|split; constructor]. Qed.

Lemma overlap_ok n env s s' :
  service_ok env s -> overlap env s s' -> n <= s.(sv_world).(w_rnd) -> ids_distinct env s'.(sv_world).(w_rnd) ->
  service_ok env s' /\
  db_evolves env (mkBase n true true) s'.(sv_world).(w_rnd) s.(sv_world).(w_db) s'.(sv_world).(w_db).
Proof.
  intros [Hwf Hok] Ho Hn Hids. destruct (overlap_step n env s s' Hok Ho) as [_ H].
  destruct H as [Hwf' Hev]; [done|done|done|]. split; [split; [done|]|done]. by apply (overlap_waits env s s' n).
Qed.
Lemma overlaps_ok n env s s' :
  rtc (overlap env) s s' -> service_ok env s -> n <= s.(sv_world).(w_rnd) ->
  ids_distinct env s'.(sv_world).(w_rnd) -> service_ok env s' /\
  db_evolves env (mkBase n true true) s'.(sv_world).(w_rnd) s.(sv_world).(w_db) s'.(sv_world).(w_db).
Proof.
  induction 1 as [s|s1 s2 s3 Ho Hrun IH]; intros Hok Hn Hids; [by split; [|apply db_evolves_refl]|].
  pose proof (overlap_mono _ _ _ Ho) as Hle1. pose proof (overlaps_mono _ _ _ Hrun) as Hle2.
  destruct (overlap_ok n _ _ _ Hok Ho) as [Hok2 Hev2]; [done|by eapply ids_distinct_le|].
  destruct IH as [Hok3 Hev3]; [done|lia|done|]. split; [done|by eapply db_evolves_trans].
Qed.

(** ** Nothing of a row waits *)

(** No request for the execution of [id] waits; no delivery of [id] does. *)
Definition noExecution (id : string) (s : Service) : Prop :=
  Forall (fun x => x.(px_dispute).(d_id) <> id) s.(sv_executions).
Definition noDelivery (id : string) (s : Service) : Prop :=
  Forall (fun e => e.(n_id) <> id) (concat s.(sv_batches)).

(** A dispute past [decided] then goes on as if operations never overlapped. *)
Lemma noExecution_step env s s' id d :
  service_ok env s -> overlap env s s' -> ids_distinct env s'.(sv_world).(w_rnd) ->
  noExecution id s -> jm_get id s.(sv_world).(w_db).(disputes) = Some d ->
  d.(d_status) ∈ [DS_execution_pending; DS_executed; DS_rejected] ->
  noExecution id s' /\
  exists d', jm_get id s'.(sv_world).(w_db).(disputes) = Some d' /\ dispute_evolves d d'.
Proof.
  intros [Hwf [Hx Hb]] Ho Hids Hno Hd Hs. unfold noExecution in *.
  destruct Ho as [w w' xs bs Ht|req q id' p d1 b w xs bs _ Hg|w x xs1 xs2 bs
    |w xs bs due w' _ Hdue|w xs e rest bs1 bs2 r w' Hone]; cbn [sv_world sv_executions sv_batches] in *.
  - split; [done|]. destruct (transition_step (w_rnd w) _ _ _ Ht) as [_ H].
    destruct H as [_ Hev]; [done|done|done|]. apply (ev_disputes _ _ _ _ _ Hev _ _ Hd).
  - split; [|by exists d]. constructor; [|done]. simpl. intros <-.
    apply executionGuards_dispute in Hg as [Hd1 Hs1].
    destruct (keyed_get _ _ _ _ Hwf.(wf_disputes _ _ _) Hd1) as (Hid & _).
    rewrite Hid, Hd1 in Hd. injection Hd as <-. rewrite Hs1 in Hs. set_solver.
  - rewrite Forall_app, Forall_cons in Hno. destruct Hno as (Hno1 & Hne & Hno2). split; [by apply Forall_app|].
    apply Forall_app in Hx as [_ Hx]. apply Forall_cons in Hx as [(d0 & Hd0 & Hp) _].
    rewrite errorMiddleware_world in *. by eapply (finishExecution_others (w_rnd w)).
  - split; [done|]. destruct (dueBatch_rows _ _ _ _ _ _ Hwf.(wf_notifications _ _ _) Hdue) as [-> _]. by exists d.
  - split; [done|]. rewrite concat_app, Forall_app in Hb. destruct Hb as [_ Hb]. simpl in Hb.
    apply Forall_cons in Hb as [(e0 & He0 & Hsame) _].
    pose proof (processOne_late (w_rnd w) false (notificationOptions (env_cfg env)) e e0 env w He0 Hsame) as Hl.
    unfold keeps_at in Hl. rewrite Hone in Hl. destruct Hl as [_ H].
    destruct H as [_ Hev]; [done|done|done|]. apply (ev_disputes _ _ _ _ _ Hev _ _ Hd).
Qed.

(** A row that is sent or given up is then never written again. *)
Lemma noDelivery_step env s s' id e0 :
  service_ok env s -> overlap env s s' -> ids_distinct env s'.(sv_world).(w_rnd) ->
  noDelivery id s -> jm_get id s.(sv_world).(w_db).(notifications) = Some e0 -> ~ waiting e0 ->
  noDelivery id s' /\ jm_get id s'.(sv_world).(w_db).(notifications) = Some e0.
Proof.
  intros [Hwf [Hx Hb]] Ho Hids Hno He0 Hs. unfold noDelivery in *.
  assert (Hstep : forall (b : Base) w', b.(b_ticks) = false -> b_from b <= s.(sv_world).(w_rnd) ->
    ids_distinct env w'.(w_rnd) -> Step b env s.(sv_world) w' -> jm_get id w'.(w_db).(notifications) = Some e0).
  { intros b w' Hbt Hn Hids' [_ H]. destruct H as [_ Hev]; [done|done|done|].
    destruct (ev_notifications _ _ _ _ _ Hev _ _ He0) as (e' & He' & Hevn).
    unfold notification_evolves_in in Hevn. rewrite Hbt in Hevn. by rewrite (notification_evolves_final _ _ Hevn) in He'. }
  destruct Ho as [w w' xs bs Ht|req q id' p d1 b w xs bs _ _|w x xs1 xs2 bs
    |w xs bs due w' _ Hdue|w xs e rest bs1 bs2 r w' Hone]; cbn [sv_world sv_executions sv_batches] in *.
  - split; [done|]. apply (Hstep (atomically (w_rnd w))); [done..|by apply transition_step].
  - done.
  - split; [done|]. apply Forall_app in Hx as [_ Hx]. apply Forall_cons in Hx as [(d0 & Hd0 & Hp) _].
    rewrite errorMiddleware_world in *. apply (Hstep (mkBase (w_rnd w) true false)); [done..|].
    by eapply finishExecution_late.
  - destruct (dueBatch_rows _ _ _ _ _ _ Hwf.(wf_notifications _ _ _) Hdue) as [-> Hrows].
    split; [|done]. simpl. apply Forall_app. split; [|done]. eapply Forall_impl; [exact Hrows|].
    intros e [He Hw] <-. by simplify_eq.
  - rewrite concat_app in Hno |- *. simpl in Hno |- *. rewrite !Forall_app, Forall_cons, Forall_app in Hno.
    destruct Hno as (Hno1 & Hne & Hrest & Hno2). split.
    + rewrite !Forall_app. split_and!; [done| |done]. destruct r; [constructor|done].
    + pose proof (processOne_others (notificationOptions (env_cfg env)) e env w id ltac:(congruence)) as Hl.
      rewrite Hone in Hl. simpl in Hl. by rewrite Hl.
Qed.
