(* ===== verification/Demo.v ===== *)
(** A concrete environment and runs of the service in it: the inputs at which
    the theorems about reachable stores are instantiated. *)
From S2P Require Import Prelude JsString JsMap JsDate Types Config World Utils MemoryRepo Http Auth Notify XrplTrack.
From S2P Require Import XrplWorkers Contracts Evidence Disputes XrplApi NotifyApi Settlements Export Reputation Inv.
From S2P Require Import System.

(** Identifiers count up, the clock starts in 2026 and ticks by seconds, the
    network is absent. *)
Definition demoUuid (n : nat) : string := of_chars (pad 16 (Z.of_nat n) ++ pad 16 0).
Definition demoEnvWith (cfg : Config) : Env :=
  mkEnv cfg (fun n => 1767225600000 + 1000 * Z.of_nat n)%Z demoUuid
    (fun s => "sha256:" +:+ s) (fun secret s => secret +:+ s) (fun _ => None)
    (fun _ _ => RR_connect_error "offline") (fun _ _ _ => RR_connect_error "offline")
    (fun _ => None) (fun _ _ _ => FR_error "offline") (fun s => s) (fun _ p k => k +:+ p)
    (fun _ _ => None).
Definition demoEnv : Env := demoEnvWith defaultConfig.

Definition anyone : Request := mkRequest "" [] None.
Definition demoId (prefix : string) (n : nat) : string := idOfUuid prefix (demoUuid n).

(** Requests one after the other. *)
Definition runCalls (env : Env) (cs : list Call) (w : World) : World :=
  fold_left (fun w c => (serve c anyone env w).2) cs w.
Lemma runCalls_rtc env cs w : rtc (transition env) w (runCalls env cs w).
Proof.
  revert w. induction cs as [|c cs IH]; intros w; simpl; [apply rtc_refl|].
  eapply rtc_l; [apply T_serve|apply IH].
Qed.
Lemma runCalls_reachable env cs : reachable env (runCalls env cs initWorld).
Proof. apply runCalls_rtc. Qed.

(** Distinct identifiers, decided. *)
Lemma ids_distinct_NoDup env n :
  NoDup ((fun i => idCore (env.(env_uuid) i)) <$> seq 0 n) -> ids_distinct env n.
Proof.
  intros H i j Hi Hj Heq.
  eapply (NoDup_lookup _ i j (idCore (env_uuid env i))) in H; [done|..].
  - rewrite list_lookup_fmap, lookup_seq_lt by done. done.
  - rewrite list_lookup_fmap, lookup_seq_lt by done. simpl. by rewrite Heq.
Qed.

(** A contract, an upload, a dispute with its review, vote and decision. *)
Definition c_ctr : string := demoId "ctr" 0.
Definition c_evd : string := demoId "evd" 4.
Definition c_dsp : string := demoId "dsp" 8.
Definition demoContract : Call :=
  C_postContract (Valid (mkCreateContract "t1" "l1" (Some "1000") None None None)).
Definition demoEvidence : Call :=
  C_postEvidence (Up_file (Some (mkFile "hello" "a.pdf" "application/pdf" 5)))
    (Valid (mkEvidenceForm c_ctr None EC_contract_pdf None (Some 1%Z))).
Definition demoDispute : Call :=
  C_postDispute (Valid (mkCreateDispute c_ctr RB_tenant "damage" [c_evd])).
Definition demoReview : Call := C_patchDisputeStatus c_dsp (Valid RV_under_review).
Definition demoVote : Call := C_postVerifierVote c_dsp (Valid (mkVerifierVote "v1" DD_finish_to_tenant)).
Definition demoDecision : Call := C_postDecision c_dsp (Valid (mkDecisionBody DD_finish_to_tenant None)).
Definition demoStatus (s : ContractStatus) : Call := C_patchContractStatus c_ctr (Valid s).

Definition demoFiled : World := runCalls demoEnv [demoContract; demoEvidence; demoDispute] initWorld.
Definition demoDecided : World := runCalls demoEnv [demoReview; demoVote; demoDecision] demoFiled.

Lemma demoFiled_reachable : reachable demoEnv demoFiled.
Proof. apply runCalls_reachable. Qed.
Lemma demoDecided_run : rtc (transition demoEnv) demoFiled demoDecided.
Proof. apply runCalls_rtc. Qed.
Lemma demoDecided_reachable : reachable demoEnv demoDecided.
Proof. unfold reachable. etrans; [apply demoFiled_reachable|apply demoDecided_run]. Qed.
Lemma demoDecided_ids : ids_distinct demoEnv demoDecided.(w_rnd).
Proof. apply ids_distinct_NoDup, (bool_decide_unpack _). vm_compute. exact I. Qed.

Ltac ids := apply ids_distinct_NoDup, (bool_decide_unpack _); vm_compute; exact I.
Lemma run_of env cs cs' w :
  w = runCalls env cs initWorld -> forall w', w' = runCalls env cs' w ->
  reachable env w /\ rtc (transition env) w w'.
Proof. intros -> w' ->. split; [apply runCalls_reachable|apply runCalls_rtc]. Qed.
Definition runTasks (env : Env) (ks : list Task) (w : World) : World :=
  fold_left (fun w k => (runTask k env w).2) ks w.
Lemma runTasks_rtc env ks w : rtc (transition env) w (runTasks env ks w).
Proof.
  revert w. induction ks as [|k ks IH]; intros w; simpl; [apply rtc_refl|].
  eapply rtc_l; [apply T_job|apply IH].
Qed.

(** Two votes, one after the other. *)
Definition demoVoted1 : World := runCalls demoEnv [demoVote] demoFiled.
Definition demoVoted2 : World := runCalls demoEnv
  [demoVote; C_postVerifierVote c_dsp (Valid (mkVerifierVote "v2" DD_cancel_to_owner))] demoVoted1.

(** Notifications through the outbox. *)
Definition outboxEnv : Env := demoEnvWith (defaultConfig <| cfg_domainOutbox := true |>).
Definition outboxFiled : World := runCalls outboxEnv [demoContract; demoEvidence; demoDispute] initWorld.
Definition outboxDecided : World := runCalls outboxEnv [demoReview; demoDecision] outboxFiled.
Definition outboxId : string := default "" (head (jm_keys outboxFiled.(w_db).(notificationOutboxById))).

(** An upload whose retention has run out: this clock ticks by days. *)
Definition purgeEnv : Env :=
  mkEnv defaultConfig (fun n => 1767225600000 + 86400000 * Z.of_nat n)%Z demoUuid
    demoEnv.(env_sha256) demoEnv.(env_hmac) demoEnv.(env_legacyDate) demoEnv.(env_rippled)
    demoEnv.(env_submit) demoEnv.(env_walletAddress) demoEnv.(env_fetch) demoEnv.(env_base64)
    demoEnv.(env_encrypt) demoEnv.(env_decrypt).
Definition demoPurged : World :=
  runCalls purgeEnv [demoContract; demoEvidence; C_retentionRun] initWorld.
Definition demoPurged2 : World := runCalls purgeEnv [demoEvidence] demoPurged.

(** An active contract touched by a ledger close; the settlement is confirmed. *)
Definition settleEnv : Env := demoEnvWith (defaultConfig <| cfg_xrplEnabled := true |>).
Definition settleTouched : World :=
  runTasks settleEnv [K_ledger_stream (mkLedger 100 None (Some 820000000%Z) None)]
    (runCalls settleEnv [demoContract; demoStatus CS_escrow_pending; demoStatus CS_escrow_validated;
                         demoStatus CS_active] initWorld).
Definition settleId : string := default "" (head (jm_keys settleTouched.(w_db).(settlements))).
Definition settleConfirmed : World :=
  runCalls settleEnv
    [C_patchSettlementStatus settleId (Valid (mkSettlementPatch (Some SS_confirmed) (Some 500%Z) None None))]
    settleTouched.

(** A notification queued and delivered. *)
Definition demoQueued : World :=
  runCalls demoEnv [C_postNotification (Valid (mkNotifyBody "notification.hello" "u1" Ch_inapp []))] initWorld.
Definition demoSent : World := runTasks demoEnv [K_notification_worker] demoQueued.

(** The same service with authentication on. *)
Definition authEnv : Env := demoEnvWith (defaultConfig <| cfg_authEnabled := true |>
  <| cfg_operatorConsoleScopesEnabled := true |>).
Definition tenantRequest (t : string) : Request :=
  mkRequest "" [("x-bluesafe-role", "tenant"); ("x-bluesafe-tenant-id", t)] None.
Definition listAll : Parsed ContractListQuery :=
  Valid (mkContractListQuery (mkListQuery 10 0 None None None) None None).
