(* ===== verification/SystemProps.v ===== *)
(** What holds of the store along every run of the service: requests, worker
    ticks and stream messages from the transition system of [System], with
    execution requests and notification ticks that may overlap. *)
From S2P Require Import Prelude JsString JsMap JsDate Types Config World Utils MemoryRepo Http Auth Notify XrplTrack.
From S2P Require Import XrplWorkers Contracts Evidence Disputes NotifyApi Settlements Export Inv System Demo.

(** * Abstract life cycles

    The statuses a row may have later, given the status it has now. *)
Definition contractLater (s : ContractStatus) : list ContractStatus :=
  match s with
  | CS_draft => [CS_draft; CS_escrow_pending; CS_escrow_validated; CS_active; CS_closed; CS_cancelled]
  | CS_escrow_pending => [CS_escrow_pending; CS_escrow_validated; CS_active; CS_closed; CS_cancelled]
  | CS_escrow_validated => [CS_escrow_validated; CS_active; CS_closed; CS_cancelled]
  | CS_active => [CS_active; CS_closed; CS_cancelled]
  | CS_closed => [CS_closed]
  | CS_cancelled => [CS_cancelled]
  end.
Definition disputeLater (s : DisputeStatus) : list DisputeStatus :=
  match s with
  | DS_filed | DS_under_review =>
      [DS_filed; DS_under_review; DS_decided; DS_execution_pending; DS_executed; DS_rejected]
  | DS_decided => [DS_decided; DS_execution_pending; DS_executed; DS_rejected]
  | DS_execution_pending => [DS_execution_pending; DS_executed; DS_rejected]
  | DS_executed => [DS_executed]
  | DS_rejected => [DS_rejected]
  | DS_closed => [DS_closed]
  end.
(** The same when execution requests overlap: one that waited takes a dispute
    that was executed or rejected back to [execution_pending]. *)
Definition disputeOverlapLater (s : DisputeStatus) : list DisputeStatus :=
  match s with
  | DS_execution_pending | DS_executed | DS_rejected => [DS_execution_pending; DS_executed; DS_rejected]
  | _ => disputeLater s
  end.
Definition settlementLater (s : SettlementStatus) : list SettlementStatus :=
  match s with
  | SS_collecting => [SS_collecting; SS_accrued; SS_confirmed; SS_archived]
  | SS_accrued => [SS_accrued; SS_confirmed; SS_archived]
  | SS_confirmed => [SS_confirmed; SS_archived]
  | SS_archived => [SS_archived]
  end.

(** A relation that stays within a list closed under the moves. *)
Lemma rtc_within {A} (R : relation A) (later : A -> list A) a b :
  (forall x, x ∈ later x) -> (forall x y z, y ∈ later x -> R y z -> z ∈ later x) ->
  rtc R a b -> b ∈ later a.
Proof.
  intros Hrefl Hstep H. enough (forall x, x ∈ later a -> rtc R x b -> b ∈ later a) by eauto.
  clear H. intros x Hx H. induction H as [|x y z Hxy _ IH]; eauto.
Qed.
Ltac by_moves := intros [] [] []; vm_compute; intros; try done; set_solver.

Lemma contract_reach a b : rtc contract_move a b -> b ∈ contractLater a.
Proof. apply rtc_within; [intros []; vm_compute; set_solver|unfold contract_move; by_moves]. Qed.
Lemma dispute_reach a b : rtc dispute_move a b -> b ∈ disputeLater a.
Proof. apply rtc_within; [intros []; vm_compute; set_solver|unfold dispute_move; by_moves]. Qed.
Lemma dispute_overlap_reach a b : rtc dispute_move_overlap a b -> b ∈ disputeOverlapLater a.
Proof. apply rtc_within; [intros []; vm_compute; set_solver|unfold dispute_move_overlap; by_moves]. Qed.
Lemma settlement_reach a b : rtc settlement_move a b -> b ∈ settlementLater a.
Proof. apply rtc_within; [intros []; vm_compute; set_solver|unfold settlement_move; by_moves]. Qed.

(** * Properties *)

(** A run from a state of the service that can be reached, whose identifiers
    are distinct; and the stores it joins. *)
Record runs (env : Env) (s s' : Service) : Prop := mkRuns {
  run_start : rtc (overlap env) initService s;
  run_steps : rtc (overlap env) s s';
  run_ids : ids_distinct env s'.(sv_world).(w_rnd) }.
Definition run (env : Env) (w w' : World) : Prop :=
  exists s s', s.(sv_world) = w /\ s'.(sv_world) = w' /\ runs env s s'.
Definition attainable (env : Env) (w : World) : Prop :=
  exists s, s.(sv_world) = w /\ rtc (overlap env) initService s.

(** Operations that follow one another are runs. *)
Lemma transitions_overlap env w w' xs bs :
  rtc (transition env) w w' -> rtc (overlap env) (mkService w xs bs) (mkService w' xs bs).
Proof. induction 1 as [|w1 w2 w3 H _ IH]; [done|]. eapply rtc_l; [by apply O_transition|exact IH]. Qed.
Lemma reachable_attainable env w : reachable env w -> attainable env w.
Proof. intros H. exists (mkService w [] []). split; [done|by apply transitions_overlap]. Qed.
Lemma runs_atomic env w w' :
  reachable env w -> rtc (transition env) w w' -> ids_distinct env w'.(w_rnd) ->
  runs env (mkService w [] []) (mkService w' [] []).
Proof. intros H1 H2 H3. split; [by apply transitions_overlap..|done]. Qed.
Lemma run_atomic env w w' :
  reachable env w -> rtc (transition env) w w' -> ids_distinct env w'.(w_rnd) -> run env w w'.
Proof. intros H1 H2 H3. by exists (mkService w [] []), (mkService w' [] []); split_and!; [..|apply runs_atomic]. Qed.

Lemma runs_ok env s s' : runs env s s' ->
  service_ok env s /\ service_ok env s' /\
  db_evolves env (mkBase s.(sv_world).(w_rnd) true true) s'.(sv_world).(w_rnd) s.(sv_world).(w_db) s'.(sv_world).(w_db).
Proof.
  intros [H1 H2 H3]. pose proof (overlaps_mono _ _ _ H2).
  destruct (overlaps_ok 0 env _ _ H1 (initService_ok env)) as [Hok _]; [simpl; lia|by eapply ids_distinct_le|].
  split; [done|]. by apply overlaps_ok.
Qed.
Lemma run_db env w w' :
  run env w w' -> db_evolves env (mkBase w.(w_rnd) true true) w'.(w_rnd) w.(w_db) w'.(w_db).
Proof. intros (s & s' & <- & <- & H). by apply runs_ok in H as (_ & _ & ?). Qed.
Lemma run_wf env w w' : run env w w' -> db_wf env w'.(w_rnd) w'.(w_db).
Proof. intros (s & s' & <- & <- & H). by apply runs_ok in H as (_ & [] & _). Qed.
Lemma run_distinct env w w' : run env w w' -> ids_distinct env w'.(w_rnd).
Proof. intros (s & s' & <- & <- & []). done. Qed.

(** C1: Whatever requests, worker ticks and stream messages the service has
    handled, execution requests and notification ticks overlapping or not, its
    store is well formed: rows sit under their own identifiers,
    evidence and disputes refer to contracts that exist, votes and decisions to
    disputes, no verifier has voted twice on a dispute, audit rows and events
    have distinct identifiers, the idempotency index of the outbox is exactly
    the inverse of its rows' keys, and a settlement's identifier is the one
    derived from its contract and month. *)
Theorem reachable_store_wf env w :
  attainable env w -> ids_distinct env w.(w_rnd) -> db_wf env w.(w_rnd) w.(w_db).
Proof.
  intros (s & <- & H) Hids. apply (overlaps_ok 0 env _ _ H (initService_ok env)); [simpl; lia|done].
Qed.
Lemma reachable_store_wf_witness :
  length (jm_values demoDecided.(w_db).(disputes)) = 1 /\
  db_wf demoEnv demoDecided.(w_rnd) demoDecided.(w_db).
Proof.
  split; [reflexivity|]. apply (reachable_store_wf demoEnv demoDecided).
  - apply reachable_attainable, demoDecided_reachable.
  - apply demoDecided_ids.
Defined.

Lemma demo_run : run demoEnv demoFiled demoDecided.
Proof. apply run_atomic; [apply demoFiled_reachable|apply demoDecided_run|apply demoDecided_ids]. Qed.
Lemma demoVotes_run : run demoEnv demoVoted1 demoVoted2.
Proof.
  apply run_atomic; [|apply runCalls_rtc|ids].
  unfold reachable. etrans; [apply demoFiled_reachable|apply runCalls_rtc].
Qed.
Lemma purged_run : run purgeEnv demoPurged demoPurged2.
Proof. apply run_atomic; [apply runCalls_reachable|apply runCalls_rtc|ids]. Qed.
Lemma settle_run : run settleEnv settleTouched settleConfirmed.
Proof.
  apply run_atomic; [|apply runCalls_rtc|ids].
  unfold reachable. etrans; [apply runCalls_reachable|apply runTasks_rtc].
Qed.

(** C2: A contract is never dropped; its parties, amounts and dates never
    change; its status only moves forward along draft, escrow_pending,
    escrow_validated, active, closed, with cancellation from any status but
    closed; a closed or cancelled contract stays so. *)
Theorem contract_life_cycle env w w' id c :
  run env w w' -> jm_get id w.(w_db).(contracts) = Some c ->
  exists c', jm_get id w'.(w_db).(contracts) = Some c' /\
    c'.(c_status) ∈ contractLater c.(c_status) /\
    c'.(c_id) = id /\ c'.(c_tenantId) = c.(c_tenantId) /\ c'.(c_landlordId) = c.(c_landlordId) /\
    c'.(c_depositAmount) = c.(c_depositAmount) /\ c'.(c_stakeAmount) = c.(c_stakeAmount) /\
    c'.(c_startsAt) = c.(c_startsAt) /\ c'.(c_endsAt) = c.(c_endsAt).
Proof.
  intros Hr Hc. destruct (ev_contracts _ _ _ _ _ (run_db _ _ _ Hr) id c Hc) as (c' & Hc' & Hev).
  destruct (keyed_get _ _ _ _ (wf_contracts _ _ _ (run_wf _ _ _ Hr)) Hc') as [Hid _].
  exists c'. destruct Hev as (? & ? & ? & ? & ? & ? & ? & ? & Hst).
  split_and!; try done. by apply contract_reach.
Qed.
Lemma contract_life_cycle_witness :
  (exists c, jm_get c_ctr demoFiled.(w_db).(contracts) = Some c /\ c.(c_status) = CS_draft) /\
  exists c', jm_get c_ctr demoDecided.(w_db).(contracts) = Some c' /\ c'.(c_tenantId) = "t1".
Proof.
  destruct (jm_get c_ctr demoFiled.(w_db).(contracts)) as [c|] eqn:Hc; [|vm_compute in Hc; discriminate Hc].
  destruct (contract_life_cycle demoEnv demoFiled demoDecided c_ctr c demo_run Hc)
    as (c' & Hc' & _ & _ & Ht & _).
  vm_compute in Hc. injection Hc as <-. split; [eexists; split; reflexivity|].
  exists c'. split; [exact Hc'|exact Ht].
Defined.

(** A run during which nothing overlaps. *)
Lemma sequential_evolves env s s' :
  service_ok env s -> ids_distinct env s'.(sv_world).(w_rnd) ->
  rtc (transition env) s.(sv_world) s'.(sv_world) ->
  db_evolves env s.(sv_world).(w_rnd) s'.(sv_world).(w_rnd) s.(sv_world).(w_db) s'.(sv_world).(w_db).
Proof.
  intros [Hwf _] Hids Hr. destruct (run_step s.(sv_world).(w_rnd) _ _ _ Hr) as [_ H]. by apply H.
Qed.
Lemma noExecution_run env s s' id d :
  rtc (overlap env) s s' -> service_ok env s -> ids_distinct env s'.(sv_world).(w_rnd) ->
  noExecution id s -> jm_get id s.(sv_world).(w_db).(disputes) = Some d ->
  d.(d_status) ∈ [DS_execution_pending; DS_executed; DS_rejected] ->
  exists d', jm_get id s'.(sv_world).(w_db).(disputes) = Some d' /\ dispute_evolves d d'.
Proof.
  intros Hrun. revert d. induction Hrun as [s|s1 s2 s3 Ho Hrun IH]; intros d Hok Hids Hno Hd Hs; [by exists d|].
  assert (Hids2 : ids_distinct env s2.(sv_world).(w_rnd)) by (eapply ids_distinct_le, Hids; by eapply overlaps_mono).
  destruct (noExecution_step env s1 s2 id d Hok Ho Hids2 Hno Hd Hs) as (Hno2 & d2 & Hd2 & Hev2).
  destruct (overlap_ok 0 env _ _ Hok Ho) as [Hok2 _]; [simpl; lia|done|].
  destruct (IH d2 Hok2 Hids Hno2 Hd2) as (d3 & Hd3 & Hev3).
  { destruct Hev2 as (_ & _ & _ & _ & _ & _ & Hst%dispute_reach). revert Hs Hst.
    destruct (d_status d), (d_status d2); simpl; set_solver. }
  exists d3. split; [done|by etrans].
Qed.
Lemma noDelivery_run env s s' id n :
  rtc (overlap env) s s' -> service_ok env s -> ids_distinct env s'.(sv_world).(w_rnd) ->
  noDelivery id s -> jm_get id s.(sv_world).(w_db).(notifications) = Some n -> ~ waiting n ->
  jm_get id s'.(sv_world).(w_db).(notifications) = Some n.
Proof.
  intros Hrun. induction Hrun as [s|s1 s2 s3 Ho Hrun IH]; intros Hok Hids Hno Hn Hw; [done|].
  assert (Hids2 : ids_distinct env s2.(sv_world).(w_rnd)) by (eapply ids_distinct_le, Hids; by eapply overlaps_mono).
  destruct (noDelivery_step env s1 s2 id n Hok Ho Hids2 Hno Hn Hw) as (Hno2 & Hn2).
  destruct (overlap_ok 0 env _ _ Hok Ho) as [Hok2 _]; [simpl; lia|done|]. by apply IH.
Qed.

(** C3: Whatever overlaps, a dispute is never dropped and keeps its contract,
    author, reason and evidence; until the decision it moves between filed and
    under_review, and once decided it is never open for review again: it is
    decided, execution_pending, executed or rejected.  Past decided, as long as
    no request for its execution is still waiting on the network, it only goes
    on to executed or rejected, and these two are final; so it does in every
    run whose operations follow one another.  (A request that was waiting does
    take an executed dispute back to execution_pending: see
    [execution_overtaken].) *)
Theorem dispute_life_cycle env s s' id d :
  runs env s s' -> jm_get id s.(sv_world).(w_db).(disputes) = Some d ->
  exists d', jm_get id s'.(sv_world).(w_db).(disputes) = Some d' /\
    d'.(d_id) = id /\ d'.(d_contractId) = d.(d_contractId) /\ d'.(d_raisedBy) = d.(d_raisedBy) /\
    d'.(d_reasonCode) = d.(d_reasonCode) /\ d'.(d_evidenceBundle) = d.(d_evidenceBundle) /\
    d'.(d_status) ∈ disputeOverlapLater d.(d_status) /\
    (d.(d_status) ∈ [DS_execution_pending; DS_executed; DS_rejected] -> noExecution id s ->
       d'.(d_status) ∈ disputeLater d.(d_status)) /\
    (rtc (transition env) s.(sv_world) s'.(sv_world) -> d'.(d_status) ∈ disputeLater d.(d_status)).
Proof.
  intros Hr Hd. destruct (runs_ok _ _ _ Hr) as (Hok & [Hwf' _] & Hev).
  destruct (ev_disputes _ _ _ _ _ Hev id d Hd) as (d' & Hd' & Hevd).
  destruct (keyed_get _ _ _ _ (wf_disputes _ _ _ Hwf') Hd') as (Hid & _).
  exists d'. destruct Hevd as (? & ? & ? & ? & ? & ? & Hst). split_and!; try done.
  - by apply dispute_overlap_reach.
  - intros Hs Hno. destruct Hr as [_ Hrun Hids].
    destruct (noExecution_run env s s' id d Hrun Hok Hids Hno Hd Hs) as (d2 & Hd2 & Hev2).
    assert (d2 = d') as -> by congruence. destruct Hev2 as (_ & _ & _ & _ & _ & _ & Hst2). by apply dispute_reach.
  - intros Hseq. pose proof (sequential_evolves env s s' Hok (run_ids _ _ _ Hr) Hseq) as Hev2.
    destruct (ev_disputes _ _ _ _ _ Hev2 id d Hd) as (d2 & Hd2 & Hevd2).
    assert (d2 = d') as -> by congruence. destruct Hevd2 as (_ & _ & _ & _ & _ & _ & Hst2). by apply dispute_reach.
Qed.
Definition filedService : Service := mkService demoFiled [] [].
Definition decidedService : Service := mkService demoDecided [] [].
Lemma decidedService_runs : runs demoEnv filedService decidedService.
Proof. apply runs_atomic; [apply demoFiled_reachable|apply demoDecided_run|apply demoDecided_ids]. Qed.
Lemma dispute_life_cycle_witness :
  (d_status <$> jm_get c_dsp filedService.(sv_world).(w_db).(disputes)) = Some DS_filed /\
  exists d', jm_get c_dsp decidedService.(sv_world).(w_db).(disputes) = Some d' /\ d'.(d_contractId) = c_ctr.
Proof.
  destruct (jm_get c_dsp filedService.(sv_world).(w_db).(disputes)) as [d|] eqn:Hd; [|vm_compute in Hd; discriminate Hd].
  destruct (dispute_life_cycle demoEnv filedService decidedService c_dsp d decidedService_runs Hd)
    as (d' & Hd' & _ & Hc & _).
  vm_compute in Hd. injection Hd as <-. split; [reflexivity|].
  exists d'. split; [exact Hd'|exact Hc].
Defined.

(** C4: The votes on a dispute are never changed or dropped, later ones are
    appended, and no verifier ever has two of them. *)
Theorem verifier_votes_append_only env w w' id vs :
  run env w w' -> jm_get id w.(w_db).(disputeVerifierVotes) = Some vs ->
  exists vs', jm_get id w'.(w_db).(disputeVerifierVotes) = Some vs' /\ vs `prefix_of` vs' /\
    NoDup (v_verifierId <$> vs') /\ Forall (fun v => v.(v_disputeId) = id) vs'.
Proof.
  intros Hr Hv. destruct (ev_votes _ _ _ _ _ (run_db _ _ _ Hr) id vs Hv) as (vs' & Hvs' & Hp).
  destruct (keyed_get _ _ _ _ (wf_votes _ _ _ (run_wf _ _ _ Hr)) Hvs') as (Hall & Hnd & _).
  by exists vs'.
Qed.
Lemma verifier_votes_append_only_witness :
  exists vs', jm_get c_dsp demoVoted2.(w_db).(disputeVerifierVotes) = Some vs' /\
    NoDup (v_verifierId <$> vs').
Proof.
  destruct (jm_get c_dsp demoVoted1.(w_db).(disputeVerifierVotes)) as [vs|] eqn:Hv;
    [|vm_compute in Hv; discriminate Hv].
  destruct (verifier_votes_append_only demoEnv demoVoted1 demoVoted2 c_dsp vs demoVotes_run Hv)
    as (vs' & Hvs' & _ & Hnd & _).
  exists vs'. split; [exact Hvs'|exact Hnd].
Defined.

(** C5: The audit log and the event stream are append-only: what a later store
    holds starts with what an earlier one held, and no identifier occurs
    twice. *)
Theorem audit_trail_append_only env w w' :
  run env w w' ->
  w.(w_db).(audits) `prefix_of` w'.(w_db).(audits) /\ NoDup (a_id <$> w'.(w_db).(audits)) /\
  w.(w_db).(events) `prefix_of` w'.(w_db).(events) /\ NoDup (ev_eventId <$> w'.(w_db).(events)).
Proof.
  intros Hr. pose proof (run_db _ _ _ Hr) as He. pose proof (run_wf _ _ _ Hr) as Hwf.
  split_and!; [apply He|apply Hwf|apply He|apply Hwf].
Qed.
Lemma audit_trail_append_only_witness :
  length demoFiled.(w_db).(audits) = 3 /\ demoFiled.(w_db).(audits) `prefix_of` demoDecided.(w_db).(audits).
Proof.
  split; [vm_compute; reflexivity|].
  exact (proj1 (audit_trail_append_only demoEnv demoFiled demoDecided demo_run)).
Defined.


(** C7: What was uploaded is never rewritten, and what was purged never comes
    back: for an evidence identifier issued before [w], a row found later was
    there at [w] with the same contract, content address, digest, version and
    author (only its retention metadata may differ). *)
Theorem evidence_immutable env w w' id e' :
  run env w w' -> drawn env w.(w_rnd) "evd" id ->
  jm_get id w'.(w_db).(evidences) = Some e' ->
  exists e, jm_get id w.(w_db).(evidences) = Some e /\
    e'.(e_contractId) = e.(e_contractId) /\ e'.(e_disputeId) = e.(e_disputeId) /\
    e'.(e_cid) = e.(e_cid) /\ e'.(e_sha256) = e.(e_sha256) /\ e'.(e_version) = e.(e_version) /\
    e'.(e_uploaderId) = e.(e_uploaderId) /\ e'.(e_createdAt) = e.(e_createdAt).
Proof.
  intros Hr (i0 & Hi0 & Hid) He'.
  destruct (ev_evidences _ _ _ _ _ (run_db _ _ _ Hr) id e' He') as [(e & He & Hev)|(i & [Hi Hi'] & Hid')].
  - exists e. destruct Hev as (rc & ju & lh & ru & ->). by split_and!.
  - exfalso. rewrite Hid in Hid'. apply idOfUuid_inj, (run_distinct _ _ _ Hr) in Hid'; simpl in *; lia.
Qed.
Lemma evidence_immutable_witness :
  (exists e, jm_get c_evd demoFiled.(w_db).(evidences) = Some e) /\
  (jm_get c_evd demoPurged.(w_db).(evidences) = None) /\
  jm_get c_evd demoPurged2.(w_db).(evidences) = None.
Proof.
  split; [vm_compute; eexists; reflexivity|]. split; [vm_compute; reflexivity|].
  destruct (jm_get c_evd demoPurged2.(w_db).(evidences)) as [e'|] eqn:He'; [|reflexivity].
  destruct (evidence_immutable purgeEnv demoPurged demoPurged2 c_evd e' purged_run
    ltac:(exists 4; split; [apply Nat.ltb_lt; vm_compute; reflexivity|reflexivity]) He') as (e & He & _).
  vm_compute in He. discriminate He.
Defined.

(** C8: A contract has at most one settlement per month, the same row for
    ever: two rows of one contract, year and month are one; its status only
    moves forward (collecting, accrued, confirmed, archived), its ledger-close
    count never decreases, and the time of its first confirmation stays. *)
Theorem settlement_life_cycle env w w' id1 id2 s1 s2 :
  run env w w' ->
  jm_get id1 w.(w_db).(settlements) = Some s1 -> jm_get id2 w'.(w_db).(settlements) = Some s2 ->
  s1.(s_contractId) = s2.(s_contractId) -> s1.(s_periodYear) = s2.(s_periodYear) ->
  s1.(s_periodMonth) = s2.(s_periodMonth) ->
  id1 = id2 /\ s2.(s_status) ∈ settlementLater s1.(s_status) /\
  (default 0 s1.(s_ledgerCloseCount) <= default 0 s2.(s_ledgerCloseCount))%Z /\
  (truthy s1.(s_confirmedAt) = true -> s2.(s_confirmedAt) = s1.(s_confirmedAt)).
Proof.
  intros Hr H1 H2 Hc Hy Hm.
  destruct (ev_settlements _ _ _ _ _ (run_db _ _ _ Hr) id1 s1 H1) as (s1' & H1' & Hev).
  pose proof (wf_settlements _ _ _ (run_wf _ _ _ Hr)) as Hwf.
  destruct (keyed_get _ _ _ _ Hwf H1') as (_ & Hk1 & _).
  destruct (keyed_get _ _ _ _ Hwf H2) as (_ & Hk2 & _).
  destruct Hev as (_ & Hc' & Hy' & Hm' & _ & Hcount & Hconf & Hst).
  assert (id1 = id2) as <- by congruence. simplify_eq. split_and!; try done. by apply settlement_reach.
Qed.
Lemma settlement_life_cycle_witness :
  (exists s, jm_get settleId settleTouched.(w_db).(settlements) = Some s /\ s.(s_status) = SS_collecting) /\
  exists s, jm_get settleId settleConfirmed.(w_db).(settlements) = Some s /\
    s.(s_status) ∈ settlementLater SS_collecting.
Proof.
  destruct (jm_get settleId settleTouched.(w_db).(settlements)) as [s1|] eqn:H1; [|vm_compute in H1; discriminate H1].
  destruct (jm_get settleId settleConfirmed.(w_db).(settlements)) as [s2|] eqn:H2; [|vm_compute in H2; discriminate H2].
  assert (s_contractId s1 = s_contractId s2 /\ s_periodYear s1 = s_periodYear s2 /\
          s_periodMonth s1 = s_periodMonth s2 /\ s_status s1 = SS_collecting) as (Hc & Hy & Hm & Hs).
  { vm_compute in H1, H2. injection H1 as <-. injection H2 as <-. repeat split. }
  destruct (settlement_life_cycle settleEnv settleTouched settleConfirmed _ _ s1 s2 settle_run H1 H2 Hc Hy Hm)
    as (_ & Hst & _).
  split; [exists s1; split; [reflexivity|exact Hs]|]. exists s2. rewrite <-Hs. split; [reflexivity|exact Hst].
Defined.

(** C9: Whatever overlaps, a notification is never dropped, keeps its
    recipient, channel and payload, and never goes back into the queue.  Once it
    is sent or given up, as long as no delivery of it is still waiting on its
    provider, its row is never written again; and in a run whose operations
    follow one another its failed attempts are never forgotten and a row that is
    sent or given up stays as it is.  (A delivery that was waiting does write
    over a row that has been sent: see [delivered_twice].) *)
Theorem notification_life_cycle env s s' id n :
  runs env s s' -> jm_get id s.(sv_world).(w_db).(notifications) = Some n ->
  exists n', jm_get id s'.(sv_world).(w_db).(notifications) = Some n' /\
    n'.(n_recipientId) = n.(n_recipientId) /\ n'.(n_channel) = n.(n_channel) /\
    n'.(n_payload) = n.(n_payload) /\ (n'.(n_status) = NS_queued -> n' = n) /\
    (n.(n_status) = NS_sent \/ n.(n_status) = NS_failed -> noDelivery id s -> n' = n) /\
    (rtc (transition env) s.(sv_world) s'.(sv_world) ->
       (default 0 n.(n_attemptCount) <= default 0 n'.(n_attemptCount))%Z /\
       (n.(n_status) = NS_sent \/ n.(n_status) = NS_failed -> n' = n)).
Proof.
  intros Hr Hn. destruct (runs_ok _ _ _ Hr) as (Hok & _ & Hev).
  destruct (ev_notifications _ _ _ _ _ Hev id n Hn) as (n' & Hn' & Hevn).
  pose proof (notification_evolves_same _ _ Hevn) as (_ & _ & ? & ? & ? & _).
  assert (Hfinal : n.(n_status) = NS_sent \/ n.(n_status) = NS_failed -> ~ waiting n).
  { unfold waiting. intros [-> | ->] [? | ?]; discriminate. }
  exists n'. split_and!; try done.
  - by apply notification_evolves_queued.
  - intros Hs Hno. pose proof (noDelivery_run env s s' id n (run_steps _ _ _ Hr) Hok (run_ids _ _ _ Hr) Hno Hn
      (Hfinal Hs)) as Hn2. congruence.
  - intros Hseq. pose proof (sequential_evolves env s s' Hok (run_ids _ _ _ Hr) Hseq) as Hev2.
    destruct (ev_notifications _ _ _ _ _ Hev2 id n Hn) as (n2 & Hn2 & Hevn2).
    assert (n2 = n') as -> by congruence. split; [by apply notification_evolves_attempts|].
    intros Hs. by apply notification_evolves_final, Hfinal.
Qed.
Definition queuedService : Service := mkService demoQueued [] [].
Definition sentService : Service := mkService demoSent [] [].
Lemma sentService_runs : runs demoEnv queuedService sentService.
Proof. apply runs_atomic; [apply runCalls_reachable|apply runTasks_rtc|ids]. Qed.
Lemma notification_life_cycle_witness :
  exists n', jm_get (demoId "ntf" 0) sentService.(sv_world).(w_db).(notifications) = Some n' /\
    n'.(n_recipientId) = "u1".
Proof.
  destruct (jm_get (demoId "ntf" 0) queuedService.(sv_world).(w_db).(notifications)) as [n|] eqn:Hn;
    [|vm_compute in Hn; discriminate Hn].
  destruct (notification_life_cycle demoEnv queuedService sentService _ n sentService_runs Hn)
    as (n' & Hn' & Hri & _).
  exists n'. split; [exact Hn'|]. rewrite Hri. vm_compute in Hn. injection Hn as <-. reflexivity.
Defined.

(** * What overlapping operations do *)

(** A webhook that takes the first message and is down for the second, and two
    ticks that have both listed the queued row before either delivers it. *)
Definition hookEnv : Env :=
  mkEnv (defaultConfig <| cfg_emailWebhookUrl := "https://mail" |>) demoEnv.(env_clock) demoUuid
    demoEnv.(env_sha256) demoEnv.(env_hmac) demoEnv.(env_legacyDate) demoEnv.(env_rippled) demoEnv.(env_submit)
    demoEnv.(env_walletAddress)
    (fun n _ _ => if (n =? 0)%nat then FR_resp 200 "" None else FR_error "down") demoEnv.(env_base64)
    demoEnv.(env_encrypt) demoEnv.(env_decrypt).
Definition hookQueued : World :=
  runCalls hookEnv [C_postNotification (Valid (mkNotifyBody "notification.hello" "u1" Ch_email []))] initWorld.
Definition hookId : string := demoId "ntf" 0.
(** One tick lists what is due; one delivery of the row [e]. *)
Definition listed (w : World) : list NotificationEvent * World :=
  match dueBatch (notificationOptions hookEnv.(env_cfg)) hookEnv w with
  | (inr due, w') => (due, w')
  | (inl _, w') => ([], w')
  end.
Definition delivered1 (e : NotificationEvent) (w : World) : World :=
  (processOne (notificationOptions hookEnv.(env_cfg)) e hookEnv w).2.
Lemma tick_waits w xs bs :
  overlap hookEnv (mkService w xs bs) (mkService (listed w).2 xs ((listed w).1 :: bs)).
Proof. by apply (O_tick_waits hookEnv). Qed.
Lemma tick_resumes e rest w xs bs1 bs2 : exists rest',
  overlap hookEnv (mkService w xs (bs1 ++ (e :: rest) :: bs2)) (mkService (delivered1 e w) xs (bs1 ++ rest' :: bs2)).
Proof.
  unfold delivered1. destruct (processOne _ e hookEnv w) as [r w'] eqn:E. eexists.
  exact (O_tick_resumes hookEnv w xs e rest bs1 bs2 r w' E).
Qed.

Definition hookRow : NotificationEvent :=
  default (queuedNotification "" "" "" Ch_email [] "") (jm_get hookId hookQueued.(w_db).(notifications)).
Definition hookListed : World := (listed (listed hookQueued).2).2.
Definition hookSent : World := delivered1 hookRow hookListed.
Definition hookAgain : World := delivered1 hookRow hookSent.
Lemma hook_due : (listed hookQueued).1 = [hookRow] /\ (listed (listed hookQueued).2).1 = [hookRow].
Proof. split; vm_compute; reflexivity. Qed.

(** A row that has been sent is delivered again by the tick that had listed it
    before, and the failure of that delivery is written over it: it is scheduled
    for a third one. *)
Lemma delivered_twice : exists s s', runs hookEnv s s' /\
  (n_status <$> jm_get hookId s.(sv_world).(w_db).(notifications)) = Some NS_sent /\
  (n_status <$> jm_get hookId s'.(sv_world).(w_db).(notifications)) = Some NS_retry_scheduled /\
  s'.(sv_world).(w_io) = 2.
Proof.
  destruct hook_due as [H1 H2].
  destruct (tick_resumes hookRow [] hookListed [] [] [[hookRow]]) as [r1 Hr1].
  destruct (tick_resumes hookRow [] hookSent [] [r1] []) as [r2 Hr2].
  exists (mkService hookSent [] [r1; [hookRow]]), (mkService hookAgain [] [r1; r2]).
  split; [|split_and!; vm_compute; reflexivity]. split; [|by apply rtc_once|ids].
  etrans; [apply (transitions_overlap hookEnv _ hookQueued), runCalls_rtc|].
  eapply rtc_l; [apply tick_waits|]. rewrite H1. eapply rtc_l; [apply tick_waits|]. rewrite H2.
  apply rtc_once. exact Hr1.
Qed.
