(* ===== verification/AccessProps.v ===== *)
(** Access control: what a request must present to reach a handler, and what a
    tenant or landlord can reach. *)
From S2P Require Import Prelude JsString JsMap JsDate Types Config World Utils MemoryRepo Http Auth Notify XrplTrack.
From S2P Require Import XrplWorkers Contracts Evidence Disputes XrplApi NotifyApi Settlements Export Reports.
From S2P Require Import Reputation Inv System Demo.

(** * The access policy

    Stated on the request, independently of the middlewares. *)

(** The bearer token or the proxy's client-certificate header, whichever are
    configured; one is enough. *)
Definition transportOk (cfg : Config) (req : Request) : Prop :=
  let token := trim cfg.(cfg_v1BearerToken) in
  let mtls := trim cfg.(cfg_mtlsClientCertSubjectHeader) in
  (token = "" /\ mtls = "") \/
  (token <> "" /\ header req "authorization" = Some ("Bearer " +:+ token)) \/
  (mtls <> "" /\ truthy (trim <$> header req mtls) = true).

(** The role presented, with the identifier it needs. *)
Record presents (req : Request) (r : BluesafeRole) : Prop := mkPresents {
  pr_role : parseRole (header req "x-bluesafe-role") = Some r;
  pr_tenant : r = R_tenant -> truthy (headerId req "x-bluesafe-tenant-id") = true;
  pr_landlord : r = R_landlord -> truthy (headerId req "x-bluesafe-landlord-id") = true }.

Record authorised (cfg : Config) (v : Verb) (roles : list BluesafeRole) (scopes : list string)
    (req : Request) (r : BluesafeRole) : Prop := mkAuthorised {
  au_transport : transportOk cfg req;
  au_presents : presents req r;
  au_allowed : r ∈ roles;
  au_readOnly : r = R_auditor -> v = V_GET;
  au_scopes : r = R_operator -> cfg.(cfg_operatorConsoleScopesEnabled) = true ->
    forall s, s ∈ scopes -> operatorHasConsoleScope (parseOperatorConsoleScopes req) s = true }.

(** The request as the handlers see it. *)
Definition identified (req : Request) (r : BluesafeRole) : Request :=
  req <| rq_bluesafeAuth := Some (mkAuth r (headerId req "x-bluesafe-tenant-id")
                                    (headerId req "x-bluesafe-landlord-id")) |>.
Definition asSent (v : Verb) (req : Request) : Request :=
  req <| rq_method := verb_str v |> <| rq_bluesafeAuth := None |>.

(** ** The middlewares, one by one *)

Definition denied (res : Response) : Prop := res.(rs_status) = 401%Z \/ res.(rs_status) = 403%Z.

Lemma truthy_nonblank s : nonblank s = true <-> s <> "".
Proof. unfold nonblank, truthy. rewrite negb_true_iff, bool_decide_eq_false. done. Qed.

Lemma transport_spec cfg req :
  (v1ApiTransportGuard cfg req = inr req /\ transportOk cfg req) \/
  (exists res, v1ApiTransportGuard cfg req = inl res /\ denied res /\ ~ transportOk cfg req).
Proof.
  unfold v1ApiTransportGuard, transportOk. cbv zeta.
  set (b := trim (cfg_v1BearerToken cfg)). set (m := trim (cfg_mtlsClientCertSubjectHeader cfg)).
  destruct (nonblank b) eqn:Hb, (nonblank m) eqn:Hm; simpl.
  all: try (apply truthy_nonblank in Hb); try (apply truthy_nonblank in Hm);
    try (apply not_true_iff_false in Hb; rewrite truthy_nonblank in Hb; apply dec_stable in Hb);
    try (apply not_true_iff_false in Hm; rewrite truthy_nonblank in Hm; apply dec_stable in Hm).
  all: try case_bool_decide; try destruct (truthy (trim <$> header req m)) eqn:Ht; simpl; try (by left; eauto 6);
    try (right; eexists; split_and!; [done|by left|]; naive_solver).
Qed.

Lemma checkScopes_spec g scopes req :
  (checkScopes g scopes req = inr req /\ forall s, s ∈ scopes -> operatorHasConsoleScope g s = true) \/
  (exists res, checkScopes g scopes req = inl res /\ denied res /\
     ~ forall s, s ∈ scopes -> operatorHasConsoleScope g s = true).
Proof.
  induction scopes as [|s ss IH]; simpl; [left; split; [done|intros ? []%not_elem_of_nil]|].
  destruct (operatorHasConsoleScope g s) eqn:Hs.
  - destruct IH as [[? Hall]|(res & ? & ? & Hno)]; [left|right].
    + split; [done|]. intros x [->|?]%elem_of_cons; auto.
    + exists res. split_and!; [done|done|]. intros Hall. apply Hno. intros x ?. apply Hall. by right.
  - right. eexists. split_and!; [done|by right|]. intros Hall. rewrite Hall in Hs; [done|by left].
Qed.

Lemma scopes_spec cfg req r scopes :
  cfg.(cfg_authEnabled) = true -> roleOf req = Some r ->
  let granted := r = R_operator -> cfg.(cfg_operatorConsoleScopesEnabled) = true ->
    forall s, s ∈ scopes -> operatorHasConsoleScope (parseOperatorConsoleScopes req) s = true in
  (requireOperatorScopes scopes cfg req = inr req /\ granted) \/
  (exists res, requireOperatorScopes scopes cfg req = inl res /\ denied res /\ ~ granted).
Proof.
  intros Hauth Hrole granted. unfold requireOperatorScopes. rewrite Hauth, Hrole. simpl.
  destruct (cfg_operatorConsoleScopesEnabled cfg) eqn:Hen; simpl; [|left; split; [done|by intros ? ?]].
  case_bool_decide as Hop; simpl.
  - injection Hop as ->.
    destruct (checkScopes_spec (parseOperatorConsoleScopes req) scopes req) as [[-> H]|(res & -> & ? & H)].
    + left. split; [done|]. by intros _ _.
    + right. exists res. split_and!; [done|done|]. intros Hg. by apply H, Hg.
  - left. split; [done|]. intros ->. by destruct Hop.
Qed.

Lemma auth_spec cfg req :
  cfg.(cfg_authEnabled) = true ->
  (exists r, presents req r /\ bluesafeAuthMiddleware cfg req = inr (identified req r)) \/
  (exists res, bluesafeAuthMiddleware cfg req = inl res /\ denied res /\ forall r, ~ presents req r).
Proof.
  intros Hauth. unfold bluesafeAuthMiddleware. rewrite Hauth. cbn [negb].
  destruct (parseRole (header req "x-bluesafe-role")) as [r|] eqn:Hr;
    [|right; eexists; split_and!; [done|by left|intros r []; congruence]].
  assert (Huniq : forall r', presents req r' -> r' = r) by (intros ? []; congruence).
  destruct (truthy (headerId req "x-bluesafe-tenant-id")) eqn:Hten,
    (truthy (headerId req "x-bluesafe-landlord-id")) eqn:Hlan; destruct r; simpl.
  all: try (left; eexists; split; [split; [exact Hr|done|done]|done]).
  all: right; eexists; split_and!; [done|by left|].
  all: intros r' Hp; pose proof (Huniq _ Hp) as ->; destruct Hp as [_ H1 H2];
    first [pose proof (H1 eq_refl); congruence | pose proof (H2 eq_refl); congruence].
Qed.

Lemma auditor_spec cfg req r :
  cfg.(cfg_authEnabled) = true -> roleOf req = Some r ->
  (blockAuditorWriteOperations cfg req = inr req /\ (r = R_auditor -> readMethod req.(rq_method) = true)) \/
  (exists res, blockAuditorWriteOperations cfg req = inl res /\ denied res /\
     ~ (r = R_auditor -> readMethod req.(rq_method) = true)).
Proof.
  intros Hauth Hr. unfold blockAuditorWriteOperations. rewrite Hauth, Hr. cbn [negb].
  case_bool_decide as Ha; cbn [negb]; [|left; split; [done|intros ->; by destruct Ha]].
  injection Ha as ->. destruct (readMethod _); [by left|].
  right. eexists. split_and!; [done|by right|]. intros H. by discriminate H.
Qed.

Lemma roles_spec cfg req r roles :
  cfg.(cfg_authEnabled) = true -> roleOf req = Some r ->
  (requireRoles roles cfg req = inr req /\ r ∈ roles) \/
  (exists res, requireRoles roles cfg req = inl res /\ denied res /\ r ∉ roles).
Proof.
  intros Hauth Hr. unfold requireRoles. rewrite Hauth, Hr. cbn [negb].
  case_bool_decide; [by left|]. right. eexists. split_and!; [done|by right|done].
Qed.

(** The chain of a route: it passes the identified request on exactly when the
    policy holds, and answers 401 or 403 otherwise. *)
Lemma chain_spec cfg v roles scopes req :
  cfg.(cfg_authEnabled) = true ->
  (exists r, authorised cfg v roles scopes req r /\
     chain (route_middlewares roles scopes) cfg (asSent v req) = inr (identified (asSent v req) r)) \/
  (exists res, chain (route_middlewares roles scopes) cfg (asSent v req) = inl res /\ denied res /\
     forall r, ~ authorised cfg v roles scopes req r).
Proof.
  intros Hauth. set (q := asSent v req). unfold route_middlewares, v1_middlewares. cbn [app chain].
  destruct (transport_spec cfg q) as [[-> Ht]|(res & -> & Hd & Ht)];
    [|right; exists res; split_and!; [done..|intros r []; by apply Ht]].
  destruct (auth_spec cfg q Hauth) as [(r & Hp & ->)|(res & -> & Hd & Hp)];
    [|right; exists res; split_and!; [done..|intros r [? []]; by apply (Hp r)]].
  set (q' := identified q r). assert (Hrole : roleOf q' = Some r) by done.
  assert (Huniq : forall r', authorised cfg v roles scopes req r' -> r' = r).
  { intros r' [_ [H1 _ _] _ _ _]. destruct Hp as [H2 _ _].
    change (header q "x-bluesafe-role") with (header req "x-bluesafe-role") in H2. congruence. }
  assert (Hno : forall (P : Prop) res, denied res -> ~ P -> (authorised cfg v roles scopes req r -> P) ->
    exists res', @inl Response Request res = inl res' /\ denied res' /\
      forall r', ~ authorised cfg v roles scopes req r').
  { intros P res Hd HP Himp. exists res. split_and!; [done..|]. intros r' Ha.
    pose proof (Huniq r' Ha) as ->. by apply HP, Himp. }
  destruct (auditor_spec cfg q' r Hauth Hrole) as [[-> Hro]|(res & -> & Hd & Hro)];
    [|right; eapply Hno; [done|exact Hro|]; intros [_ _ _ Hv _] Heq; simpl; by rewrite (Hv Heq)].
  destruct (roles_spec cfg q' r roles Hauth Hrole) as [[-> Hin]|(res & -> & Hd & Hin)];
    [|right; eapply Hno; [done|exact Hin|]; by intros []].
  assert (Hv : r = R_auditor -> v = V_GET) by (intros ->; specialize (Hro eq_refl); by destruct v).
  destruct scopes as [|s ss].
  - left. exists r. split; [|done]. split; [exact Ht|split; apply Hp|exact Hin|exact Hv|]. intros _ _ s []%not_elem_of_nil.
  - cbn [chain]. destruct (scopes_spec cfg q' r (s :: ss) Hauth Hrole) as [[-> Hg]|(res & -> & Hd & Hg)].
    + left. exists r. split; [split; [exact Ht|split; apply Hp|exact Hin|exact Hv|exact Hg]|done].
    + right. eapply Hno; [done|exact Hg|]. by intros [].
Qed.

(** * Properties *)

Lemma serve_chain c req env w :
  serve c req env w =
  match chain (middlewares c) env.(env_cfg) (asSent (route c).1 req) with
  | inl res => (inr res, w)
  | inr q => errorMiddleware (handler c q) env w
  end.
Proof.
  unfold serve, errorMiddleware, try_catch, askCfg, mbind, M_bind, askEnv, asSent.
  by destruct (chain _ _ _) as [res|q].
Qed.

(** C10: With authentication on, a [/v1] route runs its handler exactly for the
    requests the access policy allows: transport credentials, a valid role of
    the route's list with its identifier, no writing by auditors, and the
    operator scopes of the route.  Any other request is answered 401 or 403 and
    leaves the service as it was. *)
Theorem access_policy_enforced env c req roles scopes w :
  env.(env_cfg).(cfg_authEnabled) = true -> (route c).2 = Some (roles, scopes) ->
  (exists r, authorised env.(env_cfg) (route c).1 roles scopes req r /\
     serve c req env w = errorMiddleware (handler c (identified (asSent (route c).1 req) r)) env w) \/
  (exists res, serve c req env w = (inr res, w) /\ denied res /\
     forall r, ~ authorised env.(env_cfg) (route c).1 roles scopes req r).
Proof.
  intros Hauth Hroute. rewrite serve_chain. unfold middlewares. rewrite Hroute.
  destruct (chain_spec env.(env_cfg) (route c).1 roles scopes req Hauth)
    as [(r & Ha & ->)|(res & -> & Hd & Hno)]; [left|right]; eauto.
Qed.
Lemma access_policy_enforced_witness :
  exists res, serve C_retentionRun (mkRequest "" [("x-bluesafe-role", "auditor")] None) authEnv demoFiled
    = (inr res, demoFiled) /\ denied res.
Proof.
  destruct (access_policy_enforced authEnv C_retentionRun
    (mkRequest "" [("x-bluesafe-role", "auditor")] None) [R_operator] ["purge"] demoFiled
    eq_refl eq_refl) as [(r & Ha & _)|(res & Hs & Hd & _)].
  - exfalso. destruct Ha as [_ [Hp _ _] Hin _ _]. apply list_elem_of_singleton in Hin. subst r.
    vm_compute in Hp. discriminate Hp.
  - exists res. split; [exact Hs|exact Hd].
Defined.

(** ** Outsiders *)





Section refused.
Context (env : Env) (w : World) (req : Request) (ctr : Contract)
  (Hno : canAccessContract env.(env_cfg) req ctr = false).

End refused.




(** The lists of disputes and of events, asked for by the tenant of another
    contract: the answer is 200 with the dispute, and with all that happened to
    the contract, its evidence and its parties' notifications. *)
Definition listedField (field : string) (answer : (Exn + Response) * World) : option (Z * list JsVal) :=
  match answer.1 with
  | inr res => Some (res.(rs_status), match jget "items" res.(rs_body) with JArr l => jget field <$> l | _ => [] end)
  | inl _ => None
  end.
Lemma unscoped_listings :
  listedField "contractId" (serve (C_getDisputes (Valid (mkDisputeListQuery (mkListQuery 10 0 None None None) None)))
    (tenantRequest "t2") authEnv demoFiled) = Some (200%Z, [JStr c_ctr]) /\
  listedField "entityId" (serve (C_getEvents (Valid (mkEventFilter None None None)))
    (tenantRequest "t2") authEnv demoFiled) =
    Some (200%Z, JStr <$> [c_ctr; c_evd; c_dsp; demoId "ntf" 12; demoId "ntf" 15; demoId "ntf" 18; demoId "ntf" 21]).
Proof. split; vm_compute; reflexivity. Qed.

(** ** Listing *)

(** The caller is the party of the contract its role stands for. *)
Definition ownContract (req : Request) (r : BluesafeRole) (c : Contract) : Prop :=
  (r = R_tenant -> headerId req "x-bluesafe-tenant-id" = Some c.(c_tenantId)) /\
  (r = R_landlord -> headerId req "x-bluesafe-landlord-id" = Some c.(c_landlordId)).

Lemma scoped_own cfg v req r f c :
  cfg.(cfg_authEnabled) = true -> presents req r ->
  contractFilter (scopeContractFilter cfg (identified (asSent v req) r) f) c = true -> ownContract req r c.
Proof.
  intros Hauth [_ Ht Hl]. unfold scopeContractFilter. rewrite Hauth. simpl.
  change (headerId (asSent v req)) with (headerId req). unfold contractFilter.
  rewrite !andb_true_iff. intros [[[_ Hft] Hfl] _]. split; intros ->; simpl in *.
  - by apply (proj1 (flt_eq_spec _ _) Hft), Ht.
  - by apply (proj1 (flt_eq_spec _ _) Hfl), Hl.
Qed.

Lemma getContracts_page cfg req p env w :
  env.(env_cfg) = cfg ->
  (exists res, getContracts req p env w = (inr res, w) /\ rs_status res = 400%Z) \/
  (exists f page, getContracts req p env w = (inr (json 200 (page_json contract_json page)), w) /\
     forall c, c ∈ page.(pg_items) -> contractFilter (scopeContractFilter cfg req f) c = true).
Proof.
  intros <-. destruct p as [flat|q]; [left; by eexists|].
  unfold getContracts, withParsed, withWindow. rewrite bind_askEnv.
  destruct (parseOptionalIso _ "updatedFrom" _) as [?|from]; [left; by eexists|].
  destruct (parseOptionalIso _ "updatedTo" _) as [?|to_]; [left; by eexists|]. right.
  unfold askCfg, listContractsPage. rewrite bind_askEnv, bind_asks. eexists _, _. split; [done|].
  simpl. intros c Hc. apply elem_of_slice, elem_of_js_sort, list_elem_of_filter in Hc as [Hc _].
  by apply Is_true_true.
Qed.

(** With authentication on, whatever filters a tenant or landlord sends,
    the contracts listed to it are its own. *)
Theorem contract_listing_scoped env req p w res w' :
  env.(env_cfg).(cfg_authEnabled) = true ->
  serve (C_getContracts p) req env w = (inr res, w') -> res.(rs_status) = 200%Z ->
  exists r page, presents req r /\ res.(rs_body) = page_json contract_json page /\
    forall c, c ∈ page.(pg_items) -> ownContract req r c.
Proof.
  intros Hauth Hs H200. rewrite serve_chain in Hs.
  change (middlewares (C_getContracts p)) with (route_middlewares everyone []) in Hs.
  change (route (C_getContracts p)).1 with V_GET in Hs.
  destruct (chain_spec env.(env_cfg) V_GET everyone [] req Hauth) as [(r & Ha & Hch)|(x & Hch & Hd & _)];
    rewrite Hch in Hs.
  - exists r. unfold errorMiddleware, try_catch in Hs.
    change (handler (C_getContracts p)) with (fun q => getContracts q p) in Hs. cbv beta in Hs.
    destruct (getContracts_page _ (identified (asSent V_GET req) r) p env w eq_refl)
      as [(y & Hy & H400)|(f & page & Hy & Hall)]; rewrite Hy in Hs; injection Hs as <- <-; [congruence|].
    exists page. split_and!; [apply Ha|done|]. intros c Hc. eapply scoped_own; [done|apply Ha|by apply Hall].
  - injection Hs as <- <-. destruct Hd; congruence.
Qed.
Lemma contract_listing_scoped_witness :
  exists res, serve (C_getContracts listAll) (tenantRequest "t1") authEnv demoFiled = (inr res, demoFiled) /\
    exists r page, presents (tenantRequest "t1") r /\ res.(rs_body) = page_json contract_json page /\
      forall c, c ∈ page.(pg_items) -> ownContract (tenantRequest "t1") r c.
Proof.
  destruct (getContracts_page _ (identified (asSent V_GET (tenantRequest "t1")) R_tenant) listAll authEnv
    demoFiled eq_refl) as [(y & Hy & H400)|(f & page & Hy & _)].
  { vm_compute in Hy. injection Hy as <-. vm_compute in H400. discriminate H400. }
  exists (json 200 (page_json contract_json page)).
  assert (Hs : serve (C_getContracts listAll) (tenantRequest "t1") authEnv demoFiled
    = (inr (json 200 (page_json contract_json page)), demoFiled)).
  { rewrite serve_chain. change (chain _ _ _) with (@inr Response Request
      (identified (asSent V_GET (tenantRequest "t1")) R_tenant)).
    unfold errorMiddleware, try_catch, handler. rewrite Hy. reflexivity. }
  split; [exact Hs|].
  exact (contract_listing_scoped authEnv (tenantRequest "t1") listAll demoFiled _ _ eq_refl Hs eq_refl).
Defined.
