(* ===== verification/Wp.v ===== *)
(** Total correctness: [wp m env w Q] says that [m] returns (it does not throw)
    and that its result and the world it leaves satisfy [Q].  The functional
    theorems about single operations are proved with these rules; what an
    operation leaves behind in the audit log, the event stream and the
    notifications is abstracted by [background]. *)
From S2P Require Import Prelude JsString JsMap JsDate Types Config World Utils MemoryRepo Notify Logic Inv Loops.

Definition wp {A} (m : M A) (env : Env) (w : World) (Q : A -> World -> Prop) : Prop :=
  match m env w with (inr a, w') => Q a w' | (inl _, _) => False end.

Section wp.
Context {A B : Type} (env : Env).
Implicit Types (m : M A) (k : A -> M B) (w : World).

Lemma wp_elim m w (Q : A -> World -> Prop) : wp m env w Q -> exists a w', m env w = (inr a, w') /\ Q a w'.
Proof. unfold wp. destruct (m env w) as [[e|a] w']; [done|eauto]. Qed.
Lemma wp_intro m w a w' (Q : A -> World -> Prop) : m env w = (inr a, w') -> Q a w' -> wp m env w Q.
Proof. unfold wp. by intros ->. Qed.
Lemma wp_wand m w (Q Q' : A -> World -> Prop) :
  wp m env w Q -> (forall a w', Q a w' -> Q' a w') -> wp m env w Q'.
Proof. unfold wp. destruct (m env w) as [[e|a] w']; eauto. Qed.
Lemma wp_bind m k w (Q : B -> World -> Prop) :
  wp m env w (fun a w' => wp (k a) env w' Q) -> wp (m ≫= k) env w Q.
Proof. unfold wp, mbind, M_bind. by destruct (m env w) as [[e|a] w']. Qed.
Lemma wp_ret (a : A) w (Q : A -> World -> Prop) : Q a w -> wp (mret a) env w Q.
Proof. done. Qed.
Lemma wp_assoc {C} m k (g : B -> M C) w (Q : C -> World -> Prop) :
  wp (m ≫= fun a => k a ≫= g) env w Q -> wp ((m ≫= k) ≫= g) env w Q.
Proof. unfold wp. by rewrite bind_assoc. Qed.
Lemma wp_asks (f : Db -> A) k w (Q : B -> World -> Prop) :
  wp (k (f w.(w_db))) env w Q -> wp (asks f ≫= k) env w Q.
Proof. done. Qed.
Lemma wp_askEnv (f : Env -> A) k w (Q : B -> World -> Prop) :
  wp (k (f env)) env w Q -> wp (askEnv f ≫= k) env w Q.
Proof. done. Qed.
Lemma wp_bind_ret (a : A) k w (Q : B -> World -> Prop) : wp (k a) env w Q -> wp (mret a ≫= k) env w Q.
Proof. done. Qed.
End wp.

Section wp_draws.
Context {B : Type} (env : Env) (w : World) (Q : B -> World -> Prop).
Lemma wp_nowIso (k : string -> M B) :
  wp (k (toISOString (env.(env_clock) w.(w_clk)))) env (w <| w_clk := S w.(w_clk) |>) Q ->
  wp (nowIso ≫= k) env w Q.
Proof. done. Qed.
Lemma wp_dateNow (k : Z -> M B) :
  wp (k (env.(env_clock) w.(w_clk))) env (w <| w_clk := S w.(w_clk) |>) Q -> wp (dateNow ≫= k) env w Q.
Proof. done. Qed.
Lemma wp_randomId p (k : string -> M B) :
  wp (k (idOfUuid p (env.(env_uuid) w.(w_rnd)))) env (w <| w_rnd := S w.(w_rnd) |>) Q ->
  wp (randomId p ≫= k) env w Q.
Proof. done. Qed.
Lemma wp_modify f (k : unit -> M B) :
  wp (k tt) env (w <| w_db := f w.(w_db) |>) Q -> wp (modify f ≫= k) env w Q.
Proof. done. Qed.
(** A counter: the rest is proved for any value of the counters. *)
Lemma wp_metric name n (k : unit -> M B) :
  (forall m, wp (k tt) env (w <| w_metrics := m |>) Q) -> wp (metric name n ≫= k) env w Q.
Proof. intros H. apply H. Qed.
End wp_draws.

(** * Code that does not throw *)

Lemma total_askEnv {A} (f : Env -> A) : total (askEnv f).
Proof. intros env w. by eexists _, _. Qed.
Lemma total_dateNow : total dateNow.
Proof. intros env w. by eexists _, _. Qed.
Lemma total_nowIso : total nowIso.
Proof. intros env w. by eexists _, _. Qed.
Lemma total_randomId p : total (randomId p).
Proof. intros env w. by eexists _, _. Qed.
Lemma total_metric name n : total (metric name n).
Proof. intros env w. by eexists _, _. Qed.
Lemma total_audit et ei ac ai b a m : total (audit et ei ac ai b a m).
Proof. intros env w. by eexists _, _. Qed.
Lemma total_forEach {A} (f : A -> M unit) l : (forall x, total (f x)) -> total (forEach f l).
Proof.
  intros Hf. induction l as [|x l IH]; [apply total_ret|]. apply total_bind; [apply Hf|by intros _].
Qed.
Lemma total_try {A} (m : M A) h : (forall e, total (h e)) -> total (try_catch m h).
Proof. intros Hh env w. unfold try_catch. destruct (m env w) as [[e|a] w']; [apply Hh|eauto]. Qed.

Create HintDb total discriminated.
#[export] Hint Resolve total_ret total_modify total_asks total_askEnv total_dateNow total_nowIso
  total_randomId total_metric total_audit total_emit : total.
Ltac total_auto :=
  repeat first
  [ solve [auto with total]
  | lazymatch goal with
    | |- total (_ ≫= _) => apply total_bind; [|intros ?]
    | |- total (forEach _ _) => apply total_forEach; intros ?
    | |- total (askCfg _) => apply total_askEnv
    | |- total (match ?x with _ => _ end) => destruct x
    end ].

Lemma total_enqueue items : total (enqueueFanoutNotificationItems items).
Proof.
  unfold enqueueFanoutNotificationItems, enqueueOutboxItem, enqueueDirectItem,
    domainNotificationIdempotencyKey, sha256, appendNotificationOutbox, saveNotification. total_auto.
Qed.
#[export] Hint Resolve total_enqueue : total.
Lemma total_domain ty ids p : total (maybeEnqueueDomainNotifications ty ids p).
Proof. unfold maybeEnqueueDomainNotifications. total_auto. Qed.
Lemma total_settlement_notifications s c : total (enqueueSettlementConfirmedNotifications s c).
Proof. apply total_enqueue. Qed.
#[export] Hint Resolve total_domain total_settlement_notifications : total.

(** A computation that returns and keeps [R]. *)
Lemma wp_total {A} (R : Env -> relation World) (m : M A) env w (Q : A -> World -> Prop) :
  total m -> keeps R m -> (forall a w', R env w w' -> Q a w') -> wp m env w Q.
Proof.
  intros Ht Hk HQ. destruct (Ht env w) as (a & w' & E). apply (wp_intro _ _ _ a w'); [done|].
  apply HQ. specialize (Hk env w). unfold keeps_at in Hk. by rewrite E in Hk.
Qed.
(** The audit row, event and notifications that end an operation. *)
Lemma wp_background {A} (m : M A) env w (Q : A -> World -> Prop) :
  total m -> keeps (on_db background) m ->
  (forall a w', background w.(w_db) w'.(w_db) -> Q a w') -> wp m env w Q.
Proof. intros ?? H. by apply (wp_total (on_db background)). Qed.

Ltac wp_step :=
  lazymatch goal with
  | |- wp (asks _ ≫= _) _ _ _ => apply wp_asks
  | |- wp (askEnv _ ≫= _) _ _ _ => apply wp_askEnv
  | |- wp (askCfg _ ≫= _) _ _ _ => unfold askCfg; apply wp_askEnv
  | |- wp (mret _ ≫= _) _ _ _ => apply wp_bind_ret
  | |- wp (nowIso ≫= _) _ _ _ => apply wp_nowIso
  | |- wp (dateNow ≫= _) _ _ _ => apply wp_dateNow
  | |- wp (randomId _ ≫= _) _ _ _ => apply wp_randomId
  | |- wp (modify _ ≫= _) _ _ _ => apply wp_modify
  | |- wp (metric _ _ ≫= _) _ _ _ => apply wp_metric; intros ?
  | |- wp ((_ ≫= _) ≫= _) _ _ _ => apply wp_assoc
  | |- wp (mret _) _ _ _ => apply wp_ret
  end; cbv beta.

(** * Partial correctness

    What holds if the computation returns, for code that may throw. *)
Definition wlp {A} (m : M A) (env : Env) (w : World) (Q : A -> World -> Prop) : Prop :=
  forall a w', m env w = (inr a, w') -> Q a w'.

Section wlp.
Context {A B : Type} (env : Env).
Implicit Types (m : M A) (k : A -> M B) (w : World).
Lemma wlp_wand m w (Q Q' : A -> World -> Prop) :
  wlp m env w Q -> (forall a w', Q a w' -> Q' a w') -> wlp m env w Q'.
Proof. unfold wlp. eauto. Qed.
Lemma wlp_bind m k w (Q : B -> World -> Prop) :
  (forall a w1, m env w = (inr a, w1) -> wlp (k a) env w1 Q) -> wlp (m ≫= k) env w Q.
Proof. unfold wlp, mbind, M_bind. intros H b w'. destruct (m env w) as [[e|a] w1]; [done|]. by apply H. Qed.
Lemma wlp_seq m k w (Q : B -> World -> Prop) :
  wlp m env w (fun a w1 => wlp (k a) env w1 Q) -> wlp (m ≫= k) env w Q.
Proof. intros H. apply wlp_bind. intros a w1 E. by apply H. Qed.
Lemma wlp_ret (a : A) w (Q : A -> World -> Prop) : Q a w -> wlp (mret a) env w Q.
Proof. by intros H a' w' [= <- <-]. Qed.
Lemma wlp_throw msg w (Q : A -> World -> Prop) : wlp (throw msg) env w Q.
Proof. by intros a w'. Qed.
Lemma wlp_of_wp m w (Q : A -> World -> Prop) : wp m env w Q -> wlp m env w Q.
Proof. unfold wp, wlp. intros H a w' E. by rewrite E in H. Qed.
(** A computation that may throw and keeps [R]. *)
Lemma wlp_keeps (R : Env -> relation World) m w (Q : A -> World -> Prop) :
  keeps R m -> (forall a w', R env w w' -> Q a w') -> wlp m env w Q.
Proof. intros Hk HQ a w' E. apply HQ. specialize (Hk env w). unfold keeps_at in Hk. by rewrite E in Hk. Qed.
End wlp.
Lemma wlp_try {A} (m : M A) h env w (Q : A -> World -> Prop) :
  wlp m env w Q -> (forall e w1, m env w = (inl e, w1) -> wlp (h e) env w1 Q) -> wlp (try_catch m h) env w Q.
Proof.
  unfold wlp, try_catch. intros Hm Hh a w'. destruct (m env w) as [[e|b] w1]; [by apply Hh|].
  intros [= -> ->]. by apply Hm.
Qed.
