(* ===== verification/AuditProps.v ===== *)
(** Properties of the audit listing and of the exports: a client that follows
    the cursors of [GET /v1/audits] reads the whole listing, the paging loop of
    the exports writes it line by line, CSV rows parse back, and download
    tokens are what the service signed. *)
From S2P Require Import Prelude JsString JsMap JsDate Json Base64 Types Config World Utils MemoryRepo RepoFacts Http.
From S2P Require Import Notify Logic Contracts Export Reports Inv Loops NotifySteps System Demo SystemProps Wp.
From Stdlib Require Import Ascii.

(** * The audit log of a reachable store is canonical *)

(** What [crypto.randomUUID()] gives: hexadecimal digits in lower case. *)
Definition uuid_shaped (u : string) : Prop :=
  length (chars (idCore u)) = 16 /\ Forall (fun c => (is_digit c || is_lower c)%bool = true) (chars (idCore u)).

Lemma shaped_layout p u v : uuid_shaped u -> uuid_shaped v -> same_layout (idOfUuid p u) (idOfUuid p v).
Proof.
  intros [Hlu Hu] [Hlv Hv]. unfold idOfUuid, same_layout. fold (idCore u) (idCore v).
  rewrite !chars_app. apply Forall2_app; [apply Forall_Forall2_diag, Forall_true; by left|].
  apply Forall2_cons. split; [by left|].
  apply Forall2_same_length_lookup_2; [simpl; congruence|].
  intros i x y Hx Hy. right. split; [by eapply (Forall_lookup_1 _ _ _ _ Hu)|by eapply (Forall_lookup_1 _ _ _ _ Hv)].
Qed.

(** A clock whose stamps have four-digit years, and UUIDs. *)
Record sound_env (env : Env) : Prop := mkSoundEnv {
  sound_clock : forall i, iso_range (env.(env_clock) i);
  sound_uuid : forall i, uuid_shaped (env.(env_uuid) i) }.

Lemma wf_audits_canonical env n db : sound_env env -> db_wf env n db -> audits_canonical db.(audits).
Proof.
  intros [Hclk Hu] Hwf. destruct Hwf.(wf_audits _ _ _) as [Hnd Hok]. rewrite Forall_forall in Hok. split.
  - intros a Ha. destruct (Hok a Ha) as (_ & i & ->). eauto.
  - intros a b Ha Hb. destruct (Hok a Ha) as ((i & _ & ->) & _), (Hok b Hb) as ((j & _ & ->) & _).
    by apply shaped_layout.
  - done.
  - intros a Ha. destruct (Hok a Ha) as ((i & _ & ->) & _). unfold idOfUuid. discriminate.
Qed.

(** * The keyset walk *)

(** The rows the listing shows: all that match the filter, each once, in the
    order of their stamps. *)
Lemma filteredAudits_spec f l :
  audits_canonical l ->
  filteredAudits f l ≡ₚ filter (fun a => auditFilter f a) l /\ NoDup (a_id <$> filteredAudits f l) /\
  (forall i j a b, filteredAudits f l !! i = Some a -> filteredAudits f l !! j = Some b -> i < j ->
     str_le a.(a_createdAt) b.(a_createdAt) = true).
Proof.
  intros Hc. split_and!; [apply filteredAudits_perm| |].
  { rewrite filteredAudits_perm. eapply sublist_NoDup; [apply Hc|]. apply fmap_sublist, sublist_filter. }
  intros i j a b Hi Hj Hlt.
  pose proof (StronglySorted_lookup _ _ _ _ _ _ (js_sort_total auditOrder _) Hi Hj Hlt) as Hle.
  destruct (can_stamp _ Hc a) as (ta & Hta & Ea); [by eapply elem_of_filteredAudits, list_elem_of_lookup_2|].
  destruct (can_stamp _ Hc b) as (tb & Htb & Eb); [by eapply elem_of_filteredAudits, list_elem_of_lookup_2|].
  unfold cmp_le, auditOrder, then_by, by_asc, asc in Hle. rewrite Ea, Eb in Hle |- *.
  rewrite iso_localeCompare in Hle by done. rewrite iso_le by done. apply Z.leb_le.
  by destruct (Z.compare_spec ta tb); [lia..|].
Qed.

(** What a client does: it asks for a page and, as long as the answer names a
    next cursor, for the page behind it. *)
Definition itemsOf (res : Response) : list JsVal :=
  match jget "items" res.(rs_body) with JArr l => l | _ => [] end.
(** It gives up after [n] pages: [None], and not the end of the listing, which
    is a page without a next cursor. *)
Fixpoint auditWalk (n : nat) (q : AuditsQuery) (cursor : option string) : M (option (list JsVal)) :=
  match n with
  | O => mret None
  | S n' =>
      res ← getAudits (Valid (mkAuditsQuery q.(adq_entityType) q.(adq_entityId) q.(adq_from) q.(adq_to)
                               q.(adq_limit) cursor));
      match jget "nextCursor" res.(rs_body) with
      | JStr c => rest ← auditWalk n' q (Some c); mret (app (itemsOf res) <$> rest)
      | _ => mret (Some (itemsOf res))
      end
  end.

Section walk.
Context (env : Env) (q : AuditsQuery) (limit : nat) (from to : option string).
Context (Hlimit : q.(adq_limit) = Some limit) (Hpos : 1 <= limit <= 2000).
Context (Hfrom : parseOptionalIso env.(env_legacyDate) "from" (trimmed q.(adq_from)) = inr from).
Context (Hto : parseOptionalIso env.(env_legacyDate) "to" (trimmed q.(adq_to)) = inr to).
Let f := mkAuditFilter q.(adq_entityType) q.(adq_entityId) from to.

Lemma getAudits_walk w s cursor :
  audits_canonical w.(w_db).(audits) -> walk_at (filteredAudits f w.(w_db).(audits)) s cursor ->
  wp (getAudits (Valid (mkAuditsQuery q.(adq_entityType) q.(adq_entityId) q.(adq_from) q.(adq_to)
        q.(adq_limit) cursor))) env w (fun res w' => w'.(w_db) = w.(w_db) /\
    let page := keysetPage (filteredAudits f w.(w_db).(audits)) s limit in
    itemsOf res = audit_json <$> page.(ak_items) /\ jget "nextCursor" res.(rs_body) = jnull page.(ak_nextCursor)).
Proof using Hlimit Hpos Hfrom Hto.
  intros Hc Hat. unfold getAudits. cbn [withParsed]. unfold withWindow. cbn [adq_from adq_to adq_limit adq_cursor].
  wp_step. rewrite Hfrom, Hto. wp_step. rewrite Hlimit. cbn [orb].
  assert (trimmed cursor = cursor /\ forall c, cursor = Some c -> decodeAuditCursor c <> None) as [Htrim Hdec].
  { destruct Hat as [[_ ->]|(s' & a & _ & Ha & ->)]; [done|].
    assert (a ∈ w.(w_db).(audits)) as Hin by by eapply elem_of_filteredAudits, list_elem_of_lookup_2.
    unfold trimmed, nonempty. cbn [fmap option_fmap option_map].
    rewrite trim_unreserved by apply base64url_unreserved. rewrite encodeAuditCursor_truthy. split; [done|].
    intros c [= <-]. by rewrite (cursor_roundtrip w.(w_db).(audits)). }
  rewrite Htrim. unfold auditsKeyset.
  replace (match cursor with Some c => bool_decide (decodeAuditCursor c = None) | None => false end) with false.
  2:{ destruct cursor as [c|]; [|done]. by rewrite bool_decide_false by auto. }
  change (default 100 (Some limit)) with limit. replace (2000 `min` (1 `max` limit))%nat with limit by lia.
  unfold wp, try_catch.
  pose proof (listAuditsAfterCursor_walk f limit env (w <| w_clk := S w.(w_clk) |>) Hc s cursor Hat) as E.
  unfold mbind at 1, M_bind. cbn [adq_entityType adq_entityId]. fold f. rewrite E. split; [done|]. split; [|done].
  unfold itemsOf. simpl. done.
Qed.

Lemma auditWalk_from n : forall w s cursor,
  audits_canonical w.(w_db).(audits) -> walk_at (filteredAudits f w.(w_db).(audits)) s cursor ->
  length (filteredAudits f w.(w_db).(audits)) - s < n ->
  wp (auditWalk n q cursor) env w (fun items w' => w'.(w_db) = w.(w_db) /\
    items = Some (audit_json <$> drop s (filteredAudits f w.(w_db).(audits)))).
Proof using Hlimit Hpos Hfrom Hto.
  induction n as [|n IH]; intros w s cursor Hc Hat Hn; [lia|]. cbn [auditWalk].
  apply wp_bind. eapply wp_wand; [by apply getAudits_walk|]. cbv zeta.
  intros res w1 (Hdb & Hitems & Hnext). rewrite Hnext, Hitems, keysetPage_items.
  pose proof (keysetPage_walk f limit w s ltac:(lia)) as Hk. destruct (ak_nextCursor _) as [c|]; simpl.
  - destruct Hk as [Hat' Hlt]. apply wp_bind. rewrite <-Hdb in Hc, Hat', Hn, Hlt.
    eapply wp_wand; [apply (IH w1 (s + limit)); [done..|lia]|]. cbv beta.
    intros rest w2 [Hdb2 ->]. apply wp_ret. split; [congruence|]. simpl. rewrite Hdb, <-fmap_app. do 2 f_equal.
    unfold slice. rewrite <-(take_drop limit (drop s _)) at 2. by rewrite drop_drop.
  - split; [done|]. by rewrite Hk.
Qed.
End walk.

(** C25: A client that follows the cursors of the audit listing, with any page
    size and filter, gets every matching row of the log exactly once and in the
    order of the stamps, whatever the service has done before.  Its walk ends by
    itself: within one page more than the log has rows it is given a page
    without a next cursor. *)
Theorem audit_walk_complete env w q limit from to :
  sound_env env -> reachable env w -> ids_distinct env w.(w_rnd) ->
  q.(adq_limit) = Some limit -> 1 <= limit <= 2000 ->
  parseOptionalIso env.(env_legacyDate) "from" (trimmed q.(adq_from)) = inr from ->
  parseOptionalIso env.(env_legacyDate) "to" (trimmed q.(adq_to)) = inr to ->
  let f := mkAuditFilter q.(adq_entityType) q.(adq_entityId) from to in
  exists rows w', auditWalk (S (length w.(w_db).(audits))) q None env w = (inr (Some (audit_json <$> rows)), w') /\
    w'.(w_db) = w.(w_db) /\
    rows ≡ₚ filter (fun a => auditFilter f a) w.(w_db).(audits) /\ NoDup (a_id <$> rows) /\
    (forall i j a b, rows !! i = Some a -> rows !! j = Some b -> i < j ->
       str_le a.(a_createdAt) b.(a_createdAt) = true).
Proof.
  intros Henv Hr Hd Hl Hpos Hfrom Hto f. pose proof (reachable_ok _ _ Hr Hd) as Hwf.
  pose proof (wf_audits_canonical _ _ _ Henv Hwf) as Hc.
  pose proof (filteredAudits_spec f _ Hc) as Hspec. exists (filteredAudits f w.(w_db).(audits)).
  assert (Hwp : wp (auditWalk (S (length w.(w_db).(audits))) q None) env w (fun items w' =>
    w'.(w_db) = w.(w_db) /\ items = Some (audit_json <$> drop 0 (filteredAudits f w.(w_db).(audits))))).
  { apply (auditWalk_from env q limit from to); [done..|by left|].
    rewrite filteredAudits_perm.
    pose proof (length_filter (fun a => auditFilter f a) w.(w_db).(audits)) as Hlen. revert Hlen. fold f. lia. }
  apply wp_elim in Hwp as (items & w' & E & Hdb & ->). by exists w'.
Qed.

(** A clock that stops after twelve days, a store with audit rows, and a client
    that reads them one by one. *)
Definition boundedEnv : Env :=
  mkEnv defaultConfig (fun n => 1767225600000 + 1000 * (Z.of_nat n `min` 1000000))%Z demoUuid
    demoEnv.(env_sha256) demoEnv.(env_hmac) demoEnv.(env_legacyDate) demoEnv.(env_rippled)
    demoEnv.(env_submit) demoEnv.(env_walletAddress) demoEnv.(env_fetch) demoEnv.(env_base64)
    demoEnv.(env_encrypt) demoEnv.(env_decrypt).
Lemma boundedEnv_sound : sound_env boundedEnv.
Proof.
  split; intros i.
  - unfold iso_range. cbn [env_clock boundedEnv]. lia.
  - assert (Hno : forall l, Forall (fun c => is_digit c = true) l -> filter (fun c => c <> "-"%char) l = l).
    { intros l. induction 1 as [|c l Hc _ IH]; [done|]. rewrite filter_cons_True, IH; [done|]. by intros ->. }
    assert (Hd : Forall (fun c => is_digit c = true) (pad 16 (Z.of_nat i) ++ pad 16 0)).
    { apply Forall_app. split; apply pad_digits; lia. }
    unfold uuid_shaped, idCore, str_take, remove_char. cbn [env_uuid boundedEnv]. unfold demoUuid.
    rewrite !chars_of_chars, Hno by done. rewrite take_app_length' by by rewrite pad_length.
    split; [apply pad_length|]. apply Forall_app in Hd as [Hd _]. eapply Forall_impl; [exact Hd|].
    intros c Hc. cbv beta. by rewrite Hc.
Qed.
Definition oneByOne : AuditsQuery := mkAuditsQuery (Some "contract") None None None (Some 1) None.
Definition auditedWorld : World := runCalls boundedEnv [demoContract; demoEvidence; demoContract] initWorld.
Lemma audit_walk_complete_witness :
  exists rows w', auditWalk (S (length auditedWorld.(w_db).(audits))) oneByOne None boundedEnv auditedWorld
    = (inr (Some (audit_json <$> rows)), w') /\ length rows = 2.
Proof.
  assert (Hids : ids_distinct boundedEnv auditedWorld.(w_rnd)) by ids.
  destruct (audit_walk_complete boundedEnv auditedWorld oneByOne 1 None None boundedEnv_sound
    (runCalls_reachable boundedEnv _) Hids eq_refl ltac:(lia) eq_refl eq_refl)
    as (rows & w' & E & _ & Hp & _).
  exists rows, w'. split; [exact E|]. apply Permutation_length in Hp. rewrite Hp. vm_compute. reflexivity.
Defined.

(** * The paging loop of the exports *)

Section export_loop.
Context (line : AuditLog -> string) (filter : AuditFilter) (pageSize maxExport : nat).
Context (env : Env) (Hpage : 0 < pageSize \/ maxExport = 0).

(** With as much fuel as rows may still be written, the loop comes to its end
    and has written the first [maxExport] rows. *)
Lemma exportLoop_lines fuel : forall w off chunks,
  let F := filteredAudits filter w.(w_db).(audits) in
  off <= length F -> maxExport - off < fuel ->
  wp (exportLoop line filter pageSize maxExport fuel off off chunks) env w (fun r w' =>
    w'.(w_db) = w.(w_db) /\ r = Some (chunks ++ (line <$> take (maxExport - off) (drop off F)))).
Proof using Hpage.
  induction fuel as [|fuel IH]; intros w off chunks F Hoff Hfuel; [lia|]. cbn [exportLoop].
  destruct (Nat.leb_spec maxExport off) as [Hmax|Hmax].
  { replace (maxExport - off) with 0 by lia. rewrite take_0, app_nil_r. by split. }
  unfold listAuditsPage. cbv zeta. repeat wp_step. cbn [w_db upd]. fold F.
  unfold paginate. cbn [pg_items pg_total lp_limit lp_offset].
  assert (Hlen : length (slice off (pageSize `min` (maxExport - off)) F) =
    (pageSize `min` (maxExport - off)) `min` (length F - off)) by apply slice_length.
  rewrite (take_ge (slice _ _ _)) by lia.
  case_bool_decide as Hnil; [|destruct (Nat.leb_spec (length F) (off + length (slice off (pageSize `min` (maxExport - off)) F))) as [Hend|Hmore]].
  - repeat wp_step. split; [done|]. rewrite Hnil in Hlen |- *. simpl in Hlen. do 2 f_equal.
    rewrite drop_ge by lia. by rewrite take_nil.
  - repeat wp_step. split; [done|]. do 3 f_equal. unfold slice. rewrite !take_ge; [done|rewrite length_drop; lia..].
  - eapply wp_wand; [apply IH; simpl; fold F; lia|]. simpl. fold F. intros r w' [-> ->]. split; [done|].
    rewrite Hlen. f_equal. rewrite <-app_assoc, <-fmap_app. do 2 f_equal.
    unfold slice. set (k := pageSize `min` (maxExport - off)) in *.
    replace (k `min` (length F - off)) with k by lia. rewrite <-drop_drop.
    replace (maxExport - off) with (k + (maxExport - (off + k))) by lia.
    apply take_take_drop.
Qed.
Lemma exportLines_spec w :
  wp (exportLines line filter pageSize maxExport) env w (fun lines w' => w'.(w_db) = w.(w_db) /\
    lines = line <$> take maxExport (filteredAudits filter w.(w_db).(audits))).
Proof using Hpage.
  unfold exportLines. apply wp_bind. eapply wp_wand; [apply exportLoop_lines; lia|].
  intros r w' [Hdb ->]. apply wp_ret. split; [done|]. simpl. by rewrite Nat.sub_0_r, drop_0.
Qed.
End export_loop.

(** * CSV

    A reader of comma-separated values (RFC 4180): a cell that starts with a
    quote ends at the next quote that is not doubled. *)
Inductive CsvState := Csv_cell | Csv_quoted | Csv_quote.
Definition lf : ascii := ascii_of_N 10.
Fixpoint csvRead (st : CsvState) (cell : list ascii) (row : list string) (l : list ascii) :
    option (list (list string)) :=
  match l with
  | [] => match st, cell, row with Csv_cell, [], [] => Some [] | _, _, _ => None end
  | c :: l' =>
      let cut := if decide (c = ","%char) then csvRead Csv_cell [] (row ++ [of_chars cell]) l'
                 else if decide (c = lf) then cons (row ++ [of_chars cell]) <$> csvRead Csv_cell [] [] l'
                 else None in
      match st with
      | Csv_cell =>
          if decide (c = Json.dq) then match cell with [] => csvRead Csv_quoted [] row l' | _ => None end
          else if decide (c = ","%char) then cut else if decide (c = lf) then cut
          else csvRead Csv_cell (cell ++ [c]) row l'
      | Csv_quoted =>
          if decide (c = Json.dq) then csvRead Csv_quote cell row l'
          else csvRead Csv_quoted (cell ++ [c]) row l'
      | Csv_quote => if decide (c = Json.dq) then csvRead Csv_quoted (cell ++ [c]) row l' else cut
      end
  end.
Definition csvParse (s : string) : option (list (list string)) := csvRead Csv_cell [] [] (chars s).

(** What a cell is cut by: a comma, or the end of the line. *)
Definition csvCut (d : ascii) (row : list string) (l : list ascii) : option (list (list string)) :=
  if decide (d = ","%char) then csvRead Csv_cell [] row l else cons row <$> csvRead Csv_cell [] [] l.

Lemma csvRead_plain cs d row l : forall cell,
  Forall (fun c => csvSpecial c = false) cs -> d = ","%char \/ d = lf ->
  csvRead Csv_cell cell row (cs ++ d :: l) = csvCut d (row ++ [of_chars (cell ++ cs)]) l.
Proof.
  induction cs as [|c cs IH]; intros cell Hcs Hd.
  - rewrite app_nil_r. by destruct Hd as [-> | ->].
  - apply Forall_cons in Hcs as [Hc Hcs]. unfold csvSpecial in Hc.
    apply bool_decide_eq_false in Hc. cbn [csvRead app].
    rewrite !decide_False by (intros ->; apply Hc; set_solver). rewrite IH by done.
    by rewrite <-app_assoc.
Qed.
Lemma csvRead_quoted cs row l : forall cell,
  csvRead Csv_quoted cell row (flat_map doubleQuote cs ++ Json.dq :: l) = csvRead Csv_quote (cell ++ cs) row l.
Proof.
  induction cs as [|c cs IH]; intros cell; [by rewrite app_nil_r|].
  cbn [flat_map]. unfold doubleQuote at 1. case_decide as Hc; cbn [app csvRead].
  - subst. cbn [csvRead]. rewrite !decide_True by done. rewrite IH. by rewrite <-app_assoc.
  - rewrite decide_False by done. rewrite IH. by rewrite <-app_assoc.
Qed.
Lemma csvRead_cell v d row l :
  d = ","%char \/ d = lf ->
  csvRead Csv_cell [] row (csvCell v ++ d :: l) = csvCut d (row ++ [v]) l.
Proof.
  intros Hd. unfold csvCell. destruct (existsb csvSpecial (chars v)) eqn:E.
  - cbn [app csvRead]. rewrite decide_True by done. rewrite <-app_assoc. cbn [app].
    rewrite csvRead_quoted. cbn [app].
    transitivity (csvCut d (row ++ [of_chars (chars v)]) l); [by destruct Hd as [-> | ->]|].
    by rewrite of_chars_chars.
  - rewrite csvRead_plain; [cbn [app]; by rewrite of_chars_chars| |done].
    apply Forall_forall. intros c Hc. destruct (csvSpecial c) eqn:Ec; [|done].
    rewrite <-E. symmetry. apply existsb_exists. exists c. split; [by apply list_elem_of_In|done].
Qed.
Lemma csvRead_row vs l : forall row,
  vs <> [] -> csvRead Csv_cell [] row (csvJoin (csvCell <$> vs) ++ lf :: l) =
    cons (row ++ vs) <$> csvRead Csv_cell [] [] l.
Proof.
  induction vs as [|v vs IH]; intros row Hne; [done|]. destruct vs as [|v2 vs].
  - simpl. rewrite csvRead_cell by auto. done.
  - change (csvJoin (csvCell <$> v :: v2 :: vs)) with
      (csvCell v ++ ","%char :: csvJoin (csvCell <$> v2 :: vs)).
    rewrite <-app_assoc. cbn [app]. rewrite csvRead_cell by auto. unfold csvCut. rewrite decide_True by done.
    rewrite IH by done. by rewrite <-app_assoc.
Qed.
Lemma csvRead_rows logs :
  csvRead Csv_cell [] [] (chars (fold_right String.append "" (csvLine <$> logs))) = Some (auditCells <$> logs).
Proof.
  induction logs as [|log logs IH]; [done|]. cbn [fmap list_fmap fold_right].
  unfold csvLine at 1, auditLogToCsvRow.
  rewrite !chars_app, chars_of_chars, <-app_assoc. change (chars nl) with [lf]. cbn [app].
  rewrite csvRead_row by done. by rewrite IH.
Qed.

(** C26: The CSV export reads back: after the byte-order mark, a CSV reader
    gets from the answer the header and then, row by row, the cells of the
    first [limit] audit rows that match the filter, whatever quotes, commas
    and line breaks they hold; nothing else changes in the service. *)
Theorem csv_export_reads_back env w q from to :
  parseOptionalIso env.(env_legacyDate) "from" (trimmed q.(arq_from)) = inr from ->
  parseOptionalIso env.(env_legacyDate) "to" (trimmed q.(arq_to)) = inr to ->
  let f := mkAuditFilter q.(arq_entityType) q.(arq_entityId) from to in
  exists res w' text, getAuditsCsv (Valid q) env w = (inr res, w') /\ w'.(w_db) = w.(w_db) /\
    res.(rs_status) = 200%Z /\ res.(rs_body) = JStr (bom +:+ text) /\
    csvParse text = Some (auditColumns :: (auditCells <$> take q.(arq_limit) (filteredAudits f w.(w_db).(audits)))).
Proof.
  intros Hfrom Hto f.
  assert (Hwp : wp (getAuditsCsv (Valid q)) env w (fun res w' => w'.(w_db) = w.(w_db) /\
    res.(rs_status) = 200%Z /\ res.(rs_body) = JStr ((bom +:+ auditLogCsvHeader +:+ nl) +:+
      fold_right String.append "" (csvLine <$> take q.(arq_limit) (filteredAudits f w.(w_db).(audits)))))).
  { unfold getAuditsCsv, reportAudits. cbn [withParsed]. unfold withWindow. wp_step. rewrite Hfrom, Hto.
    apply wp_bind. eapply wp_wand; [apply exportLines_spec; lia|]. intros lines w' [Hdb ->]. by apply wp_ret. }
  apply wp_elim in Hwp as (res & w' & E & Hdb & Hst & Hbody).
  exists res, w', ((auditLogCsvHeader +:+ nl) +:+
    fold_right String.append "" (csvLine <$> take q.(arq_limit) (filteredAudits f w.(w_db).(audits)))).
  split_and!; [done..|].
  unfold csvParse. rewrite !chars_app. unfold auditLogCsvHeader at 1. rewrite chars_of_chars.
  change (csvJoin (chars <$> auditColumns)) with (csvJoin (csvCell <$> auditColumns)).
  change (chars nl) with [lf]. rewrite <-!app_assoc. cbn [app].
  rewrite csvRead_row by done. by rewrite csvRead_rows.
Qed.

(** Two contracts and an identifier that needs quoting. *)
Definition quotedContract : Call :=
  C_postContract (Valid (mkCreateContract ("t" +:+ String Json.dq ",1") "l1" None None None None)).
Definition quotedWorld : World := runCalls demoEnv [demoContract; quotedContract] initWorld.
Definition twoRows : AuditsReportQuery := mkAuditsReport (Some "contract") None None None 2.
Lemma csv_export_reads_back_witness :
  exists res w' text rows, getAuditsCsv (Valid twoRows) demoEnv quotedWorld = (inr res, w') /\
    res.(rs_body) = JStr (bom +:+ text) /\ csvParse text = Some rows /\ length rows = 3.
Proof.
  destruct (csv_export_reads_back demoEnv quotedWorld twoRows None None eq_refl eq_refl)
    as (res & w' & text & E & _ & _ & Hb & Hp).
  exists res, w', text. eexists. split_and!; [exact E|exact Hb|exact Hp|]. vm_compute. reflexivity.
Defined.

(** * Export jobs *)

(** A claimed export job of the supported kind always completes, with
    the NDJSON lines of the first [maxExport] matching rows of the log (cut
    at 8 MB with a mark); a job of another kind fails; no other job and nothing
    else in the store changes. *)
Theorem export_job_outcome job env w :
  exists w' job', runExportJob job env w = (inr tt, w') /\
    w'.(w_db) = w.(w_db) <| exportJobs := jm_set job.(x_jobId) job' w.(w_db).(exportJobs) |> /\
    job'.(x_jobId) = job.(x_jobId) /\ job'.(x_filter) = job.(x_filter) /\
    if decide (job.(x_kind) = "audits_ndjson") then
      job'.(x_status) = ES_completed /\ job'.(x_error) = None /\
      let text := fold_right String.append ""
        (ndjsonLine <$> take job.(x_maxExport) (filteredAudits job.(x_filter) w.(w_db).(audits))) in
      job'.(x_resultNdjson) = Some (if (Z.of_nat (str_length text) <=? MAX_RESULT_BYTES)%Z then text
        else str_take (Z.to_nat MAX_RESULT_BYTES) text +:+ truncationMark)
    else job'.(x_status) = ES_failed /\ job'.(x_error) <> None.
Proof.
  unfold runExportJob. destruct (decide (x_kind job = "audits_ndjson")) as [Hk|Hk].
  - rewrite bool_decide_true by done. cbn [negb].
    set (text := fold_right String.append ""
      (ndjsonLine <$> take job.(x_maxExport) (filteredAudits job.(x_filter) w.(w_db).(audits)))).
    assert (Hwp : wp (lines ← exportLines ndjsonLine (x_filter job) 500 (x_maxExport job);
       t ← nowIso;
       updateExportJob (completedExport t (truncateResult (fold_right String.append "" lines)) job);;
       metric "exportJobCompleted" 1) env w (fun _ w' => exists t, w'.(w_db) = w.(w_db) <| exportJobs :=
         jm_set job.(x_jobId) (completedExport t (truncateResult text) job) w.(w_db).(exportJobs) |>)).
    { apply wp_bind. eapply wp_wand; [apply exportLines_spec; lia|]. intros lines w1 [Hdb ->].
      unfold updateExportJob. repeat wp_step. eexists. simpl. by rewrite Hdb. }
    apply wp_elim in Hwp as ([] & w' & E & t & Hdb). unfold try_catch. rewrite E.
    exists w', (completedExport t (truncateResult text) job). split_and!; try done.
    cbv zeta. simpl. unfold truncateResult. f_equal.
    destruct (Z.ltb_spec MAX_RESULT_BYTES (Z.of_nat (str_length text))), (Z.leb_spec (Z.of_nat (str_length text)) MAX_RESULT_BYTES);
      done || lia.
  - rewrite bool_decide_false by done. cbn [negb]. eexists _, _. split; [reflexivity|]. done.
Qed.

(** * Download links *)

Lemma splitLastDot_app a b : Forall (fun c => c <> "."%char) b -> splitLastDot (a ++ "."%char :: b) = Some (a, b).
Proof.
  intros Hb.
  assert (Hnone : splitLastDot b = None).
  { induction Hb as [|c b Hc _ IH]; [done|]. simpl. rewrite IH. by rewrite decide_False. }
  induction a as [|c a IH]; simpl; [by rewrite Hnone|]. by rewrite IH.
Qed.
Lemma splitLastDot_inv l a b : splitLastDot l = Some (a, b) -> l = a ++ "."%char :: b.
Proof.
  revert a b. induction l as [|c l IH]; intros a b; simpl; [done|].
  destruct (splitLastDot l) as [[a' b']|]; [intros [= <- <-]; simpl; by rewrite (IH a' b')|].
  case_decide; [|done]. intros [= <- <-]. by subst.
Qed.

(** A token is accepted exactly when it is a payload with its own signature
    and the payload is a claim that has not expired. *)
Section tokens.
Context (hmac : string -> string -> string) (secret : string).
Context (Hdot : forall b, Forall (fun c => c <> "."%char) (chars (hmac secret b))).
Lemma verify_signed now b :
  b <> "" -> verifyExportArtifactToken hmac now secret (b +:+ "." +:+ hmac secret b) = tokenClaims now b.
Proof using Hdot.
  intros Hb. unfold verifyExportArtifactToken. rewrite !chars_app. change (chars ".") with ["."%char]. cbn [app].
  rewrite splitLastDot_app by apply Hdot.
  destruct (chars b) as [|c l] eqn:E; [destruct Hb; by apply (inj chars)|].
  rewrite <-E, !of_chars_chars. by rewrite decide_True.
Qed.
Lemma verify_inv now token p :
  verifyExportArtifactToken hmac now secret token = Some p -> exists b, token = b +:+ "." +:+ hmac secret b.
Proof using Type.
  unfold verifyExportArtifactToken. destruct (splitLastDot (chars token)) as [[[|c a] sig]|] eqn:E; [done| |done].
  case_decide as Hsig; [|done]. intros _. exists (of_chars (c :: a)). apply splitLastDot_inv in E.
  apply (inj chars). rewrite E, !chars_app, <-Hsig, !chars_of_chars. done.
Qed.
End tokens.
Lemma tokenClaims_payload now jobId exp :
  tokenClaims now (tokenPayloadB64 jobId exp) = if (exp <? now)%Z then None else Some (mkToken jobId exp).
Proof.
  unfold tokenClaims, tokenPayloadB64. rewrite base64url_decode_encode, json_parse_stringify; [done|].
  apply json_ok_members. split; [apply (bool_decide_unpack _); exact I|by repeat constructor].
Qed.
Lemma tokenPayload_nonempty jobId exp : tokenPayloadB64 jobId exp <> "".
Proof.
  intros H. pose proof (tokenClaims_payload exp jobId exp) as Hc. rewrite H, Z.ltb_irrefl in Hc. done.
Qed.

(** The download route, after the check of its secret. *)
Definition artifactAnswer (db : Db) (p : ExportArtifactTokenPayload) : Response :=
  match jm_get p.(tk_jobId) db.(exportJobs) with
  | Some j =>
      match j.(x_status), j.(x_resultNdjson) with
      | ES_completed, Some result => mkResponse 200 (JStr result)
          [("Content-Type", "application/x-ndjson; charset=utf-8");
           ("Content-Disposition", "attachment; filename=" +:+ String Json.dq ("export-"
              +:+ p.(tk_jobId) +:+ ".ndjson" +:+ String Json.dq ""));
           ("Cache-Control", "no-store")]
      | _, _ => err 404 "B2_NOT_FOUND" "Export artifact not found"
      end
  | None => err 404 "B2_NOT_FOUND" "Export artifact not found"
  end.
Lemma getExportArtifact_spec env tok w :
  let secret := env.(env_cfg).(cfg_artifactSigningSecret) in
  truthy (Some secret) = true ->
  getExportArtifact tok env w =
    (inr match verifyExportArtifactToken env.(env_hmac) (env.(env_clock) w.(w_clk) / 1000)%Z secret tok with
         | None => err 401 "B2_UNAUTHORIZED" "Invalid or expired export token"
         | Some p => artifactAnswer w.(w_db) p
         end, w <| w_clk := S w.(w_clk) |>).
Proof.
  intros secret Htr. unfold getExportArtifact, getExportJob, nowSeconds. rewrite bind_askCfg. fold secret.
  rewrite Htr. cbn [negb]. rewrite bind_assoc, bind_dateNow, bind_ret, bind_askEnv.
  destruct (verifyExportArtifactToken _ _ _ _) as [p|]; [|done]. rewrite bind_asks. unfold artifactAnswer.
  change (w_db (w <| w_clk := S w.(w_clk) |>)) with (w_db w).
  destruct (jm_get (tk_jobId p) _) as [j|]; [|done]. destruct (x_status j), (x_resultNdjson j); done.
Qed.

(** A download link works until it expires and only as it was signed: for
    a completed export the service answers a link whose token gets the result
    at every later time up to its expiry, [ttl] seconds on, and 401 after it;
    and any token that is not some payload followed by the signature of that
    very payload is refused, without a change. *)
Theorem artifact_link env w id j result :
  let secret := env.(env_cfg).(cfg_artifactSigningSecret) in
  (forall b, Forall (fun c => c <> "."%char) (chars (env.(env_hmac) secret b))) -> secret <> "" ->
  jm_get id w.(w_db).(exportJobs) = Some j -> j.(x_status) = ES_completed -> j.(x_resultNdjson) = Some result ->
  exists res w' token, getArtifactUrl id env w = (inr res, w') /\ res.(rs_status) = 200%Z /\
    jget "downloadPath" res.(rs_body) = JStr ("/export/artifacts?token=" +:+ encodeURIComponent token) /\
    (forall w2, jm_get id w2.(w_db).(exportJobs) = Some j ->
       let at_ := (env.(env_clock) w2.(w_clk) / 1000)%Z in
       let exp := (env.(env_clock) w.(w_clk) / 1000 + env.(env_cfg).(cfg_artifactUrlTtlSec))%Z in
       exists res2 w3, getExportArtifact token env w2 = (inr res2, w3) /\ w3.(w_db) = w2.(w_db) /\
         if (at_ <=? exp)%Z then res2.(rs_status) = 200%Z /\ res2.(rs_body) = JStr result
         else res2.(rs_status) = 401%Z) /\
    (forall forged w2, (forall b, forged <> b +:+ "." +:+ env.(env_hmac) secret b) ->
       exists res2 w3, getExportArtifact forged env w2 = (inr res2, w3) /\ w3.(w_db) = w2.(w_db) /\
         res2.(rs_status) = 401%Z).
Proof.
  intros secret Hdot Hsec Hj Hst Hres.
  assert (Htr : truthy (Some secret) = true) by (simpl; by rewrite bool_decide_false).
  set (exp := (env.(env_clock) w.(w_clk) / 1000 + env.(env_cfg).(cfg_artifactUrlTtlSec))%Z).
  set (token := signExportArtifactToken env.(env_hmac) secret id exp).
  assert (Hget : getArtifactUrl id env w = (inr (json 200 (JObj [("jobId", JStr id);
    ("downloadPath", JStr ("/export/artifacts?token=" +:+ encodeURIComponent token));
    ("expiresAt", JStr (toISOString (exp * 1000)))])), w <| w_clk := S w.(w_clk) |>)).
  { unfold getArtifactUrl, getExportJob, nowSeconds. rewrite bind_askCfg. fold secret. rewrite Htr. cbn [negb].
    rewrite bind_asks, Hj, Hst, bool_decide_true by done. done. }
  pose proof (fun tok w2 => getExportArtifact_spec env tok w2 Htr) as Hdl. cbv zeta in Hdl. fold secret in Hdl.
  eexists _, _, token. split_and!; [exact Hget|done..| |].
  - intros w2 Hj2 at_. cbv zeta. rewrite Hdl. fold at_.
    assert (verifyExportArtifactToken env.(env_hmac) at_ secret token =
      if (exp <? at_)%Z then None else Some (mkToken id exp)) as ->.
    { rewrite <-tokenClaims_payload. apply verify_signed; [done|apply tokenPayload_nonempty]. }
    destruct (Z.ltb_spec exp at_), (Z.leb_spec at_ exp); try lia; eexists _, _; (split; [done|]); [done|].
    unfold artifactAnswer. cbn [tk_jobId]. by rewrite Hj2, Hst, Hres.
  - intros forged w2 Hf. rewrite Hdl. destruct (verifyExportArtifactToken _ _ _ forged) as [p|] eqn:Ev.
    + apply verify_inv in Ev as (b & Hb). by destruct (Hf b).
    + eexists _, _. split; [done|]. done.
Qed.

(** A signing secret, and a digest without dots. *)
Definition linkEnv : Env :=
  mkEnv (defaultConfig <| cfg_artifactSigningSecret := "key" |>) demoEnv.(env_clock) demoUuid
    demoEnv.(env_sha256) (fun secret s => remove_char "."%char (secret +:+ s)) demoEnv.(env_legacyDate)
    demoEnv.(env_rippled) demoEnv.(env_submit) demoEnv.(env_walletAddress) demoEnv.(env_fetch)
    demoEnv.(env_base64) demoEnv.(env_encrypt) demoEnv.(env_decrypt).
Definition demoExport : Call :=
  C_postExportJob (Valid (mkCreateExport "audits_ndjson" (mkAuditFilter None None None None) 10)).
Definition exportedWorld : World :=
  runTasks linkEnv [K_export_worker] (runCalls linkEnv [demoContract; demoExport] initWorld).
Definition exportId : string := default "" (head (jm_keys exportedWorld.(w_db).(exportJobs))).
Lemma artifact_link_witness :
  exists res w' token, getArtifactUrl exportId linkEnv exportedWorld = (inr res, w') /\
    exists res2 w3, getExportArtifact token linkEnv exportedWorld = (inr res2, w3) /\ res2.(rs_status) = 200%Z.
Proof.
  assert (Hdot : forall b, Forall (fun c => c <> "."%char) (chars (linkEnv.(env_hmac) "key" b))).
  { intros b. cbn [env_hmac linkEnv]. unfold remove_char. rewrite chars_of_chars.
    apply Forall_forall. by intros c [Hc _]%list_elem_of_filter. }
  destruct (jm_get exportId exportedWorld.(w_db).(exportJobs)) as [j|] eqn:Hj; [|vm_compute in Hj; discriminate Hj].
  assert (Hst : j.(x_status) = ES_completed) by (vm_compute in Hj; injection Hj as <-; reflexivity).
  destruct (x_resultNdjson j) as [result|] eqn:Hres; [|vm_compute in Hj; injection Hj as <-; discriminate Hres].
  destruct (artifact_link linkEnv exportedWorld exportId j result Hdot ltac:(discriminate) Hj Hst Hres)
    as (res & w' & token & E & _ & _ & H & _).
  destruct (H exportedWorld Hj) as (res2 & w3 & E2 & _ & H2).
  exists res, w', token. split; [exact E|]. exists res2, w3. split; [exact E2|].
  vm_compute in H2. exact (proj1 H2).
Defined.
