(* ===== verification/NotifyProps.v ===== *)
(** Properties of the notification components: what one delivery attempt
    leaves behind, when a notification is due again, what the idempotency keys
    identify and that enqueueing twice is enqueueing once. *)
From S2P Require Import Prelude JsString JsMap JsDate Json Types Config World Utils MemoryRepo Http Notify Logic.
From S2P Require Import NotifyApi Inv Loops Steps NotifySteps System Demo SystemProps Wp.

(** * Delivery *)

Lemma total_io {A} (f : Env -> nat -> A) : total (io f).
Proof. intros env w. by eexists _, _. Qed.
#[export] Hint Resolve total_io : total.
Lemma total_deliver e : total (deliver e).
Proof. unfold deliver, deliverInappMock, postWebhook. total_auto. Qed.

(** Providers neither throw nor write to the store. *)
Lemma wp_deliver {B} e (k : Delivery -> M B) env w (Q : B -> World -> Prop) :
  (forall r w1, deliver e env w = (inr r, w1) -> w1.(w_db) = w.(w_db) -> wp (k r) env w1 Q) ->
  wp (deliver e ≫= k) env w Q.
Proof.
  intros H. apply wp_bind. destruct (total_deliver e env w) as (r & w1 & E).
  apply (wp_intro _ _ _ r w1); [done|]. apply H; [done|].
  pose proof (same_deliver e env w) as Hs. unfold keeps_at in Hs. rewrite E in Hs. apply Hs.
Qed.
(** A saved row followed by audit rows and events. *)
Lemma wp_saveLogged {A} e (m : M A) env w (Q : A -> World -> Prop) :
  total m -> keeps (on_db logged) m ->
  (forall a w', w'.(w_db).(notifications) = jm_set e.(n_id) e w.(w_db).(notifications) -> Q a w') ->
  wp (saveNotification e;; m) env w Q.
Proof.
  intros Ht Hk HQ. unfold saveNotification. apply wp_modify. apply (wp_total (on_db logged)); [done..|].
  intros a w' (_ & Hn & _). by apply HQ.
Qed.

(** A stamp written by the service and the clock it is compared with. *)
Lemma retry_due n t at_ :
  n.(n_deadLetter) <> Some true -> n.(n_status) = NS_retry_scheduled ->
  n.(n_nextAttemptAt) = Some (toISOString at_) -> iso_range at_ -> iso_range t ->
  notificationDue (toISOString t) n = (at_ <=? t)%Z.
Proof.
  intros Hd Hs Hn Ha Ht. unfold notificationDue.
  destruct (n_deadLetter n) as [[]|]; try done; simpl; rewrite Hs, Hn, toISOString_truthy; by apply iso_le.
Qed.

(** C24: One delivery attempt always ends in exactly one of three ways, and
    changes no other notification: delivered, the row is sent; refused for
    the [maxAttempts]-th time, it is dead and never due again; refused earlier,
    it is due again exactly from the backoff on, which doubles with the
    attempts (twice the initial value after the first one) up to its cap. *)
Theorem delivery_outcomes opts n env w :
  n.(n_deadLetter) <> Some true ->
  exists r w1 w' n' now,
    deliver (renderedNotification n) env w = (inr r, w1) /\ processOne opts n env w = (inr tt, w') /\
    (forall id, jm_get id w'.(w_db).(notifications) =
       if decide (n.(n_id) = id) then Some n' else jm_get id w.(w_db).(notifications)) /\
    n'.(n_payload) = n.(n_payload) /\
    let k := (default 0 n.(n_attemptCount) + 1)%Z in
    let next := (now + Z.min (default 60000 opts.(wo_retryMaxBackoffMs))
                        (default 1000 opts.(wo_retryInitialBackoffMs) * 2 ^ k))%Z in
    if r.(dl_ok) then n'.(n_status) = NS_sent /\ n'.(n_attemptCount) = n.(n_attemptCount)
    else n'.(n_attemptCount) = Some k /\ n'.(n_lastError) <> None /\
      if (opts.(wo_maxAttempts) <=? k)%Z
      then n'.(n_status) = NS_failed /\ n'.(n_deadLetter) = Some true /\
           forall t, notificationDue t n' = false
      else n'.(n_status) = NS_retry_scheduled /\
           (iso_range next -> forall t, iso_range t ->
              notificationDue (toISOString t) n' = (next <=? t)%Z).
Proof.
  intros Hdead.
  assert (Hwp : wp (processOne opts n) env w (fun _ w' => exists r w1 n' now,
    deliver (renderedNotification n) env w = (inr r, w1) /\
    w'.(w_db).(notifications) = jm_set n.(n_id) n' w.(w_db).(notifications) /\
    n' = (let k := (default 0 n.(n_attemptCount) + 1)%Z in
          let err := default "delivery_failed" r.(dl_error) in
          if r.(dl_ok) then sentNotification (toISOString (env_clock env w1.(w_clk))) n
          else if (opts.(wo_maxAttempts) <=? k)%Z then
            deadNotification (toISOString (env_clock env w1.(w_clk))) err k n
          else retryNotification (toISOString (env_clock env w1.(w_clk))) err
            (toISOString (now + backoffMs k (default 1000 opts.(wo_retryInitialBackoffMs))
              (default 60000 opts.(wo_retryMaxBackoffMs))))%Z k n))).
  { unfold processOne. cbv zeta. apply wp_deliver. intros r w1 Er Hdb. wp_step.
    destruct (dl_ok r) eqn:Eok; [|destruct (_ <=? _)%Z eqn:Emax; [|wp_step]].
    - apply wp_saveLogged; [total_auto|keeps_auto|]. intros [] w' Hn. exists r, w1.
      eexists _, 0%Z. split_and!; [done| |cbv zeta; rewrite ?Eok; reflexivity]. rewrite Hn. simpl. by rewrite Hdb.
    - apply wp_saveLogged; [total_auto|keeps_auto|]. intros [] w' Hn. exists r, w1.
      eexists _, 0%Z. split_and!; [done| |cbv zeta; rewrite ?Eok; reflexivity]. rewrite Hn. simpl. by rewrite Hdb.
    - apply (wp_intro _ _ _ tt _ _ eq_refl). exists r, w1.
      eexists _, _. split_and!; [done| |cbv zeta; rewrite ?Eok; reflexivity]. simpl. by rewrite Hdb. }
  apply wp_elim in Hwp as ([] & w' & E & r & w1 & n' & now & Er & Hn & ->).
  exists r, w1, w'. eexists _, now. split_and!; [done|done| | |].
  - intros id. by rewrite Hn, jm_get_set.
  - cbv zeta. by destruct (dl_ok r); [|destruct (_ <=? _)%Z].
  - cbv zeta. destruct (dl_ok r); [done|]. destruct (_ <=? _)%Z; simpl.
    + split_and!; try done.
    + split_and!; try done. intros Hrange t Ht. by apply retry_due.
Qed.

(** A provider that always refuses. *)
Definition failingEnv : Env :=
  demoEnvWith (defaultConfig <| cfg_notificationProviderMode := Some "fail_always" |>).
Definition queuedNote : NotificationEvent :=
  queuedNotification (demoId "ntf" 0) "notification.hello" "u1" Ch_inapp [] "2026-01-01T00:00:00.000Z".
Lemma delivery_outcomes_witness :
  exists w' n', processOne (notificationOptions defaultConfig) queuedNote failingEnv demoQueued = (inr tt, w') /\
    jm_get queuedNote.(n_id) w'.(w_db).(notifications) = Some n' /\ n'.(n_status) = NS_retry_scheduled.
Proof.
  assert (Hd : queuedNote.(n_deadLetter) <> Some true) by discriminate.
  destruct (delivery_outcomes (notificationOptions defaultConfig) queuedNote failingEnv demoQueued Hd)
    as (r & w1 & w' & n' & now & Er & E & Hn & _ & H).
  exists w', n'. split; [exact E|]. split; [rewrite Hn; reflexivity|].
  vm_compute in Er. injection Er as <- _. cbv zeta in H. exact (proj1 (proj2 (proj2 H))).
Defined.

(** * Idempotency keys *)

#[export] Instance keyOrder_total : TotalCmp keyOrder.
Proof. apply asc_total. exact (asc_total codes _ lex_total). Qed.

Lemma keyOrder_eq x y : cmp_le keyOrder x y -> cmp_le keyOrder y x -> x.1 = y.1.
Proof.
  unfold cmp_le. rewrite (tc_anti (cmp := keyOrder) x y). intros H1 H2.
  destruct (keyOrder x y) eqn:E; try done.
  by apply lex_compare_eq, (inj codes) in E.
Qed.
(** The sorted entries of an object do not depend on the order they came in. *)
Lemma sorted_entries p q : NoDup p.*1 -> p ≡ₚ q -> js_sort keyOrder p = js_sort keyOrder q.
Proof.
  intros Hnd Hpq.
  apply (StronglySorted_unique_strong (cmp_le keyOrder)); [|apply js_sort_total, _..|by rewrite !js_sort_perm].
  intros [k1 v1] [k2 v2] H1 H2 Hle Hge. pose proof (keyOrder_eq _ _ Hle Hge) as Hk. simpl in Hk. subst k2.
  rewrite js_sort_perm in H1. rewrite js_sort_perm, <-Hpq in H2.
  pose proof (jm_in_get _ _ _ Hnd H1). pose proof (jm_in_get _ _ _ Hnd H2). congruence.
Qed.
Lemma json_ok_perm p q : p ≡ₚ q -> json_ok (JObj p) -> json_ok (JObj q).
Proof. intros Hpq. rewrite !json_ok_members. by rewrite Hpq. Qed.

(** The payload fingerprint identifies the payload as an object: two JSON
    payloads have the same fingerprint exactly when they have the same entries,
    in whatever order their keys were written. *)
Theorem fingerprint_identifies_payload p q :
  json_ok (JObj p) -> json_ok (JObj q) ->
  (stablePayloadFingerprint p = stablePayloadFingerprint q <-> p ≡ₚ q).
Proof.
  intros Hp Hq. unfold stablePayloadFingerprint. split.
  - intros Heq. apply json_stringify_inj in Heq;
      [|by eapply json_ok_perm; [symmetry; apply js_sort_perm|]..].
    injection Heq as Heq. by rewrite <-(js_sort_perm keyOrder p), Heq, js_sort_perm.
  - intros Hpq. rewrite (sorted_entries p q); [done|by apply json_ok_members in Hp as []|done].
Qed.
Lemma fingerprint_identifies_payload_witness :
  json_ok (JObj [("b", JNum 2); ("a", JStr "x")]) /\
  stablePayloadFingerprint [("b", JNum 2); ("a", JStr "x")] =
  stablePayloadFingerprint [("a", JStr "x"); ("b", JNum 2)].
Proof.
  assert (H1 : json_ok (JObj [("b", JNum 2); ("a", JStr "x")])).
  { apply json_ok_members. split; [apply (bool_decide_unpack _); exact I|repeat constructor]. }
  assert (H2 : json_ok (JObj [("a", JStr "x"); ("b", JNum 2)])).
  { apply json_ok_members. split; [apply (bool_decide_unpack _); exact I|repeat constructor]. }
  split; [exact H1|].
  apply (fingerprint_identifies_payload _ _ H1 H2). apply Permutation_swap.
Defined.

(** * Enqueueing twice *)

Definition outboxKeyed (key : string) (db : Db) : Prop := has db.(notificationOutboxIdempotency) key.

Definition itemKey (env : Env) (it : FanoutNotificationItem) : string :=
  env.(env_sha256) (idempotencyBody it.(it_eventType) it.(it_recipientId)
    (channel_str it.(it_channel)) it.(it_payload)).
Lemma enqueue_keyed now it env w : outboxKeyed (itemKey env it) (enqueueOutboxItem now it env w).2.(w_db).
Proof.
  assert (Hwp : wp (enqueueOutboxItem now it) env w (fun _ w' => outboxKeyed (itemKey env it) w'.(w_db))).
  { unfold enqueueOutboxItem, domainNotificationIdempotencyKey, sha256, appendNotificationOutbox.
    repeat wp_step. cbn [o_idempotencyKey]. fold (itemKey env it).
    destruct (jm_has _ _) eqn:E; repeat wp_step.
    - unfold jm_has in E. unfold outboxKeyed, has. simpl. destruct (jm_get _ _) eqn:E'; [|done].
      by eexists.
    - apply (wp_total (on_db logged)); [total_auto|keeps_auto|]. intros [] w' (_ & _ & _ & Hi).
      unfold outboxKeyed, has. rewrite Hi. simpl. rewrite jm_get_set_eq. by eexists. }
  apply wp_elim in Hwp as ([] & w' & E & H). by rewrite E.
Qed.
Lemma enqueue_known now it env w :
  outboxKeyed (itemKey env it) w.(w_db) -> (enqueueOutboxItem now it env w).2.(w_db) = w.(w_db).
Proof.
  intros [id Hid]. unfold enqueueOutboxItem, domainNotificationIdempotencyKey, sha256, appendNotificationOutbox.
  rewrite bind_askEnv, bind_randomId. cbn [o_idempotencyKey]. rewrite bind_assoc, bind_asks.
  unfold jm_has. simpl. fold (itemKey env it). by rewrite Hid.
Qed.
Lemma outboxKeyed_evolves env n0 n1 n db db' key :
  db_wf env n1 db -> db_wf env n db' -> db_evolves env n0 n db db' -> outboxKeyed key db -> outboxKeyed key db'.
Proof.
  intros Hwf Hwf' He [id Hid]. apply Hwf.(wf_outbox_index _ _ _) in Hid as (o & Ho & Hk).
  destruct (ev_outbox _ _ _ _ _ He id o Ho) as (o' & Ho' & Hev).
  exists id. apply Hwf'.(wf_outbox_index _ _ _). exists o'. split; [done|]. by destruct Hev as (_ & -> & _).
Qed.

(** A notification is enqueued once: after an item was put in the outbox,
    enqueueing it again, at any later time of the run and with the keys of its
    payload in any order, leaves the store exactly as it is. *)
Theorem enqueued_once env w w2 now now2 it it2 :
  reachable env w -> rtc (transition env) (enqueueOutboxItem now it env w).2 w2 ->
  ids_distinct env w2.(w_rnd) ->
  it2.(it_eventType) = it.(it_eventType) -> it2.(it_recipientId) = it.(it_recipientId) ->
  it2.(it_channel) = it.(it_channel) -> NoDup it.(it_payload).*1 -> it.(it_payload) ≡ₚ it2.(it_payload) ->
  (enqueueOutboxItem now2 it2 env w2).2.(w_db) = w2.(w_db).
Proof.
  intros Hreach Hrun Hd Hty Hri Hch Hnd Hp. apply enqueue_known.
  assert (itemKey env it2 = itemKey env it) as ->.
  { unfold itemKey, idempotencyBody, stablePayloadFingerprint. rewrite Hty, Hri, Hch.
    by rewrite (sorted_entries _ _ Hnd Hp). }
  pose proof (enqueue_keyed now it env w) as Hk.
  destruct (step_enqueueOutboxItem 0 now it env w) as [Hle1 Hs1].
  destruct (run_step 0 _ _ _ Hrun) as [Hle2 Hs2]. set (w1 := (enqueueOutboxItem now it env w).2) in *.
  assert (Hd1 : ids_distinct env w1.(w_rnd)) by by eapply ids_distinct_le.
  assert (Hwf : db_wf env w.(w_rnd) w.(w_db)) by (apply reachable_ok; [done|by eapply ids_distinct_le]).
  destruct Hs1 as [Hwf1 _]; [simpl; lia|done..|]. destruct Hs2 as [Hwf2 He2]; [simpl; lia|done..|].
  exact (outboxKeyed_evolves _ _ _ _ _ _ _ Hwf1 Hwf2 He2 Hk).
Qed.

Definition demoItem : FanoutNotificationItem :=
  mkItem "dispute.created" "t1" Ch_inapp [("disputeId", JStr c_dsp); ("contractId", JStr c_ctr)] None.
Definition demoItem' : FanoutNotificationItem :=
  mkItem "dispute.created" "t1" Ch_inapp [("contractId", JStr c_ctr); ("disputeId", JStr c_dsp)] None.
Definition demoEnqueued : World := (enqueueOutboxItem "2026-01-01T00:00:00.000Z" demoItem outboxEnv outboxFiled).2.
Definition demoReviewed : World := runCalls outboxEnv [demoReview] demoEnqueued.
Lemma enqueued_once_witness :
  (enqueueOutboxItem "2026-02-01T00:00:00.000Z" demoItem' outboxEnv demoReviewed).2.(w_db) = demoReviewed.(w_db).
Proof.
  assert (Hreach : reachable outboxEnv outboxFiled) by apply runCalls_reachable.
  assert (Hids : ids_distinct outboxEnv demoReviewed.(w_rnd)) by ids.
  assert (Hnd : NoDup demoItem.(it_payload).*1) by (apply (bool_decide_unpack _); exact I).
  assert (Hp : demoItem.(it_payload) ≡ₚ demoItem'.(it_payload)) by apply Permutation_swap.
  assert (Hrun : rtc (transition outboxEnv)
    (enqueueOutboxItem "2026-01-01T00:00:00.000Z" demoItem outboxEnv outboxFiled).2 demoReviewed).
  { unfold demoReviewed, demoEnqueued. apply runCalls_rtc. }
  exact (enqueued_once outboxEnv outboxFiled demoReviewed "2026-01-01T00:00:00.000Z" "2026-02-01T00:00:00.000Z"
    demoItem demoItem' Hreach Hrun Hids
    eq_refl eq_refl eq_refl Hnd Hp).
Defined.
