(* ===== verification/EvidenceProps.v ===== *)
(** Properties of the evidence vault: what the retention run deletes, that
    what is downloaded is what was uploaded, how pinning is retried, and that
    encrypted evidence kept by the mock storage cannot be read back. *)
From S2P Require Import Prelude JsString JsMap JsDate Types Config World Utils MemoryRepo Http Auth Notify Logic.
From S2P Require Import Contracts Evidence Inv Loops Steps ContractSteps System Demo SystemProps Wp NotifyProps.

(** * The retention run *)

Lemma total_purgeOne req e : total (purgeOne req e).
Proof.
  unfold purgeOne, deleteEvidence. apply total_bind; [apply total_try; intros; apply total_ret|intros _]. total_auto.
Qed.
(** The stores that differ in their evidence and logs only. *)
Definition purgeOnly (db db' : Db) : Prop := background (db <| evidences := db'.(evidences) |>) db'.
Lemma purge_rows req l env w :
  wp (forEach (purgeOne req) l) env w (fun _ w' => purgeOnly w.(w_db) w'.(w_db) /\
    forall id, jm_get id w'.(w_db).(evidences) =
      if decide (id ∈ e_id <$> l) then None else jm_get id w.(w_db).(evidences)).
Proof.
  revert w. induction l as [|e l IH]; intros w; cbn [forEach].
  { apply wp_ret. split; [by repeat split|]. intros id. by rewrite decide_False by apply not_elem_of_nil. }
  apply wp_bind.
  assert (Hone : wp (purgeOne req e) env w (fun _ w' => purgeOnly w.(w_db) w'.(w_db) /\
    w'.(w_db).(evidences) = jm_delete e.(e_id) w.(w_db).(evidences))).
  { unfold purgeOne. apply wp_bind. apply (wp_total Same).
    { apply total_try. intros. apply total_ret. }
    { apply keeps_try; [apply _|apply same_unpinIfPinata|intros; apply keeps_ret, _]. }
    intros [] w1 [Hdb _]. unfold deleteEvidence. wp_step.
    apply (wp_background); [total_auto|keeps_auto|]. intros [] w2 Hb.
    destruct Hb as (?&He&?&?&?&?&?&?&?&?&?). simpl in *. rewrite Hdb in *.
    split; [|done]. by split_and!. }
  eapply wp_wand; [exact Hone|]. clear Hone. intros [] w1 (Hp & He).
  eapply wp_wand; [apply IH|]. intros [] w2 (Hp2 & Hrows). split.
  { unfold purgeOnly, background in *. simpl in *. intuition congruence. }
  intros id. rewrite Hrows, fmap_cons, He, jm_delete_get.
  destruct (decide (id ∈ e_id <$> l)) as [Hin|Hin]; [by rewrite decide_True by by right|].
  case_decide as Heq; [subst; by rewrite decide_True by by left|].
  rewrite decide_False; [done|]. by intros [|]%elem_of_cons.
Qed.

(** C28: The retention run always ends, deletes exactly the evidence whose
    retention date lies before the instant it reads and that no legal hold
    covers, reports exactly the deleted identifiers, and changes nothing else
    than the logs; unpinning that fails does not stop it. *)
Theorem retention_run_exact env n w req :
  db_wf env n w.(w_db) -> iso_range (env.(env_clock) w.(w_clk)) ->
  let now := env.(env_clock) w.(w_clk) in
  exists res w' ids, postRetentionRun req env w = (inr res, w') /\ res.(rs_status) = 200%Z /\
    jget "purgedIds" res.(rs_body) = JArr (JStr <$> ids) /\ NoDup ids /\ purgeOnly w.(w_db) w'.(w_db) /\
    (forall id, jm_get id w'.(w_db).(evidences) =
       if decide (id ∈ ids) then None else jm_get id w.(w_db).(evidences)) /\
    (forall id, id ∈ ids <-> exists e, jm_get id w.(w_db).(evidences) = Some e /\
       evidencePastRetention (toISOString now) e = true) /\
    (forall id e r hold, jm_get id w.(w_db).(evidences) = Some e ->
       e.(e_retainUntil) = Some (toISOString r) -> e.(e_legalHoldUntil) = toISOString <$> hold ->
       iso_range r -> (forall h, hold = Some h -> iso_range h) ->
       (id ∈ ids <-> (r < now)%Z /\ ~ holds_at e hold now)).
Proof.
  intros Hwf Hnow now.
  set (past := filter (fun e => evidencePastRetention (toISOString now) e) (jm_values w.(w_db).(evidences))).
  assert (Hwp : wp (postRetentionRun req) env w (fun res w' => res.(rs_status) = 200%Z /\
    jget "purgedIds" res.(rs_body) = JArr (JStr <$> (e_id <$> past)) /\ purgeOnly w.(w_db) w'.(w_db) /\
    forall id, jm_get id w'.(w_db).(evidences) =
       if decide (id ∈ e_id <$> past) then None else jm_get id w.(w_db).(evidences))).
  { unfold postRetentionRun, listEvidencesPastRetention. repeat wp_step. apply wp_bind.
    eapply wp_wand; [apply purge_rows|]. intros [] w' [Hp Hrows]. apply wp_ret. split_and!; try done.
    simpl. by rewrite <-list_fmap_compose. }
  apply wp_elim in Hwp as (res & w' & E & Hst & Hids & Hp & Hrows).
  assert (Hcur : current evidences e_id (jm_values w.(w_db).(evidences)) w.(w_db)).
  { eapply current_values; [apply Hwf|]. by intros k e (? & _). }
  assert (Hin : forall id, id ∈ e_id <$> past <-> exists e, jm_get id w.(w_db).(evidences) = Some e /\
       evidencePastRetention (toISOString now) e = true).
  { intros id. rewrite list_elem_of_fmap. split.
    - intros (e & -> & [He Hv]%list_elem_of_filter). exists e. split; [by apply Hcur|by apply Is_true_true].
    - intros (e & He & Hpast). destruct (keyed_get _ _ _ _ Hwf.(wf_evidences _ _ _) He) as (Hid & _).
      exists e. split; [done|]. apply list_elem_of_filter. split; [by apply Is_true_true|].
      apply jm_get_in in He. apply list_elem_of_fmap. by exists (id, e). }
  exists res, w', (e_id <$> past). split_and!; try done.
  - eapply sublist_NoDup; [apply Hcur|]. apply fmap_sublist, sublist_filter.
  - intros id e r hold He Hr Hh Hir Hih. rewrite Hin, <-(past_retention_iso e r hold now) by done.
    split; [|by eauto]. intros (e' & He' & ?). by simplify_eq.
Qed.

Definition demoUploaded : World := runCalls purgeEnv [demoContract; demoEvidence] initWorld.
Lemma retention_run_exact_witness :
  exists res w', postRetentionRun anyone purgeEnv demoUploaded = (inr res, w') /\
    (exists e, jm_get c_evd demoUploaded.(w_db).(evidences) = Some e) /\
    jm_get c_evd w'.(w_db).(evidences) = None.
Proof.
  assert (Hids : ids_distinct purgeEnv demoUploaded.(w_rnd)) by ids.
  assert (Hwf : db_wf purgeEnv demoUploaded.(w_rnd) demoUploaded.(w_db))
    by (apply reachable_ok; [apply runCalls_reachable|exact Hids]).
  assert (Hnow : iso_range (purgeEnv.(env_clock) demoUploaded.(w_clk))) by (vm_compute; split; congruence).
  destruct (retention_run_exact purgeEnv demoUploaded.(w_rnd) demoUploaded anyone Hwf Hnow)
    as (res & w' & ids & E & _ & _ & _ & _ & Hrows & Hin & _).
  destruct (jm_get c_evd demoUploaded.(w_db).(evidences)) as [e|] eqn:He; [|vm_compute in He; discriminate He].
  exists res, w'. split; [exact E|]. split; [exists e; reflexivity|]. rewrite Hrows.
  destruct (decide (c_evd ∈ ids)) as [_|Hn]; [reflexivity|]. destruct Hn. apply Hin. exists e. split; [exact He|].
  vm_compute in He. injection He as <-. vm_compute. reflexivity.
Defined.

(** * Integrity *)

(** What an upload answers 201 for. *)
Definition uploaded (env : Env) (w : World) (file : UploadedFile) (res : Response) (w' : World) : Prop :=
  res.(rs_status) = 201%Z ->
  exists id e i, jget "evidenceId" res.(rs_body) = JStr id /\ jm_get id w'.(w_db).(evidences) = Some e /\
    id = idOfUuid "evd" (env.(env_uuid) i) /\ w.(w_rnd) <= i < w'.(w_rnd) /\
    e.(e_sha256) = env.(env_sha256) file.(fl_buffer).

Lemma mono_at {A} (m : M A) env w a w' : keeps Mono m -> m env w = (inr a, w') -> w.(w_rnd) <= w'.(w_rnd).
Proof. intros Hk E. specialize (Hk env w). unfold keeps_at, Mono in Hk. by rewrite E in Hk. Qed.
Lemma uploaded_record env w f file u hash s d up w1 :
  hash = env.(env_sha256) file.(fl_buffer) -> w.(w_rnd) <= w1.(w_rnd) ->
  wlp (recordEvidence f file u hash s d up) env w1 (uploaded env w file).
Proof.
  intros Hh Hle. apply wlp_of_wp. unfold recordEvidence, countEvidenceVersions. repeat wp_step.
  apply wp_bind, (wp_total Mono); [unfold retentionStamp; total_auto|unfold retentionStamp; keeps_auto|].
  intros stamp w2 Hm. unfold Mono in Hm. simpl in Hm. unfold saveEvidence. repeat wp_step.
  cbn [e_id].
  apply wp_bind, (wp_total (fun env w w' => on_db logged env w w' /\ Mono env w w')); [total_auto| |].
  { intros env' w'. split; [by apply keeps_audit, _|by apply keeps_audit, _]. }
  intros [] w3 [Hb3 Hm3].
  apply wp_bind, (wp_total (fun env w w' => on_db logged env w w' /\ Mono env w w')); [total_auto| |].
  { intros env' w'. split; [by apply keeps_emit, _|by apply keeps_emit, _]. }
  intros [] w4 [Hb4 Hm4]. apply wp_ret. intros _. unfold Mono in *. simpl in *.
  eexists _, _, w1.(w_rnd). split_and!; [done| |done|lia|lia|].
  - destruct Hb4 as [(_&->&_) _], Hb3 as [(_&->&_) _]. simpl. apply jm_get_set_eq.
  - done.
Qed.
Lemma uploaded_store env w f file u w1 :
  w.(w_rnd) <= w1.(w_rnd) -> wlp (storeEvidence f file u) env w1 (uploaded env w file).
Proof.
  intros Hle. unfold storeEvidence. apply wlp_bind. intros hash w2 [= <- <-].
  apply wlp_bind. intros enc w3 E3. apply mono_at in E3; [|apply mono_of_same, same_attempt, same_encryptForStorage].
  destruct enc as [msg|[[payload scheme] dek]]; [by apply wlp_ret|].
  apply wlp_bind. intros up w4 E4. apply mono_at in E4; [|apply mono_of_same, same_attempt, same_ipfsUpload].
  destruct up as [msg|up]; [by apply wlp_ret|]. apply uploaded_record; [done|lia].
Qed.
Lemma wlp_withContract req id msg k env w (Q : Response -> World -> Prop) :
  (forall c, wlp (k c) env w Q) -> (forall s c m, (400 <= s < 500)%Z -> Q (err s c m) w) ->
  wlp (withContract req id msg k) env w Q.
Proof.
  intros Hk Herr. unfold withContract, getContract. apply wlp_bind. intros c w1 [= <- <-].
  destruct (jm_get id _) as [c|]; [|apply wlp_ret, Herr; lia].
  unfold mayAccess. apply wlp_bind. intros ok w1 [= <- <-]. destruct (negb _); [apply wlp_ret, Herr; lia|apply Hk].
Qed.
Lemma uploaded_post env w req f file :
  wlp (postEvidence req (Up_file (Some file)) (Valid f)) env w (uploaded env w file).
Proof.
  assert (Herr : forall w' s c m, (400 <= s < 600)%Z -> uploaded env w file (err s c m) w').
  { intros w' s c m Hs H. simpl in H. lia. }
  cbn [postEvidence handlePostEvidence withParsed]. cbv zeta.
  apply wlp_bind. intros mx w1 [= <- <-]. apply wlp_bind. intros tm w1 [= <- <-].
  destruct (tooManyDays _ _); [apply wlp_ret, Herr; lia|].
  apply wlp_withContract; [|intros; apply Herr; lia]. intros c.
  apply wlp_bind. intros ok w1 E1. apply mono_at in E1; [|apply mono_of_same, same_disputeOnContract].
  destruct (negb ok); [apply wlp_ret, Herr; lia|].
  apply wlp_bind. intros mime w2 E2. apply mono_at in E2; [|apply mono_of_same, same_attempt, same_assertMime].
  destruct mime as [msg|[]]; [apply wlp_ret, Herr; lia|]. apply uploaded_store. lia.
Qed.

(** What a download answers 200 for. *)
Definition downloaded (env : Env) (e : EvidenceFile) (res : Response) (w' : World) : Prop :=
  res.(rs_status) = 200%Z ->
  exists body, res.(rs_body) = JStr body /\
    (e.(e_storageProvider) = SP_mock \/ env.(env_sha256) body = e.(e_sha256)).
Lemma downloaded_check env req e id body w : wlp (checkIntegrity req e id body) env w (downloaded env e).
Proof.
  assert (Hsend : (e.(e_storageProvider) = SP_mock \/ env.(env_sha256) body = e.(e_sha256)) ->
    forall w1, wlp (sendContent req e id body) env w1 (downloaded env e)).
  { intros Hok w1. unfold sendContent. apply wlp_bind. intros [] w2 _. apply wlp_ret. intros _. by exists body. }
  unfold checkIntegrity. case_bool_decide as Hmock; [by apply Hsend; left|].
  apply wlp_bind. intros digest w1 [= <- <-]. case_bool_decide as Hd; [apply Hsend; by right|by apply wlp_ret].
Qed.
Lemma downloaded_decrypt env req e id body w : wlp (decryptContent req e id body) env w (downloaded env e).
Proof.
  unfold decryptContent. destruct (negb _); [apply downloaded_check|].
  apply wlp_bind. intros [msg|[dk|]] w1 _; [by apply wlp_ret| |by apply wlp_ret].
  apply wlp_bind. intros [msg|p] w2 _; [by apply wlp_ret|]. apply downloaded_check.
Qed.
Lemma downloaded_get env req id w e :
  jm_get id w.(w_db).(evidences) = Some e ->
  wlp (getEvidenceContent req id) env w (downloaded env e).
Proof.
  intros He. unfold getEvidenceContent, getEvidence. apply wlp_bind. intros ev w1 [= <- <-]. rewrite He.
  cbn [withEvidence]. apply wlp_bind. intros c w1 _. apply wlp_bind. intros ok w2 _.
  destruct (negb ok); [by apply wlp_ret|]. case_bool_decide; [apply downloaded_decrypt|].
  apply wlp_bind. intros [msg|b] w3 _; [by apply wlp_ret|]. apply downloaded_decrypt.
Qed.

(** C29: What is downloaded is what was uploaded: after an upload was answered
    201, at any later time of the run (whatever was patched or purged in
    between), a download of that evidence answered 200 carries bytes with the
    digest of the uploaded bytes, unless the evidence is kept by the mock
    storage, which keeps none. *)
Theorem download_is_upload env w req f file res w1 w2 req2 id res2 w3 :
  reachable env w -> postEvidence req (Up_file (Some file)) (Valid f) env w = (inr res, w1) ->
  res.(rs_status) = 201%Z -> jget "evidenceId" res.(rs_body) = JStr id ->
  rtc (transition env) w1 w2 -> ids_distinct env w2.(w_rnd) ->
  getEvidenceContent req2 id env w2 = (inr res2, w3) -> res2.(rs_status) = 200%Z ->
  exists e body, jm_get id w2.(w_db).(evidences) = Some e /\ res2.(rs_body) = JStr body /\
    (e.(e_storageProvider) = SP_mock \/ env.(env_sha256) body = env.(env_sha256) file.(fl_buffer)).
Proof.
  intros Hr Eup Hst Hid Hrun Hd Eget Hst2.
  destruct (uploaded_post env w req f file _ _ Eup Hst) as (id' & e0 & i & Hid' & He0 & Hi & Hlt & Hsha).
  rewrite Hid in Hid'. injection Hid' as <-.
  pose proof (step_postEvidence 0 req (Up_file (Some file)) (Valid f) env w) as [Hle1 Hs1].
  rewrite Eup in Hle1, Hs1. simpl in Hle1, Hs1.
  destruct (run_step w1.(w_rnd) _ _ _ Hrun) as [Hle2 Hs2].
  assert (Hwf : db_wf env w.(w_rnd) w.(w_db)) by (apply reachable_ok; [done|eapply ids_distinct_le, Hd; lia]).
  destruct Hs1 as [Hwf1 _]; [simpl; lia|by eapply ids_distinct_le|done|]. destruct Hs2 as [_ He2]; [simpl; lia|done..|].
  destruct (jm_get id w2.(w_db).(evidences)) as [e|] eqn:He.
  2:{ exfalso. unfold getEvidenceContent, getEvidence in Eget. rewrite bind_asks, He in Eget.
      injection Eget as <- _. done. }
  destruct (downloaded_get env req2 id w2 e He _ _ Eget Hst2) as (body & Hbody & Hok).
  exists e, body. split_and!; [done..|]. destruct Hok as [Hm|Hok]; [by left|right]. rewrite Hok, <-Hsha.
  destruct (ev_evidences _ _ _ _ _ He2 id e He) as [(e1 & He1 & Hev)|(i2 & [Hi1 Hi2] & Hid2)].
  - simplify_eq. by destruct Hev as (rc & ju & lh & ru & ->).
  - exfalso. rewrite Hi in Hid2. apply idOfUuid_inj, Hd in Hid2; simpl in *; lia.
Qed.

(** A pinning service and a gateway that answer. *)
Definition pinEnv : Env :=
  mkEnv (defaultConfig <| cfg_ipfsMode := IM_pinata |> <| cfg_pinataJwt := "jwt" |>) demoEnv.(env_clock) demoUuid
    demoEnv.(env_sha256) demoEnv.(env_hmac) demoEnv.(env_legacyDate) demoEnv.(env_rippled)
    demoEnv.(env_submit) demoEnv.(env_walletAddress)
    (fun _ _ _ => FR_resp 200 "hello" (Some (JObj [("IpfsHash", JStr "QmDemo")])))
    demoEnv.(env_base64) demoEnv.(env_encrypt) demoEnv.(env_decrypt).
Definition demoFile : UploadedFile := mkFile "hello" "a.pdf" "application/pdf" 5.
Definition demoForm : EvidenceForm := mkEvidenceForm c_ctr None EC_contract_pdf None (Some 1%Z).
Definition pinBefore : World := runCalls pinEnv [demoContract] initWorld.
Definition pinAfter : World := (postEvidence anyone (Up_file (Some demoFile)) (Valid demoForm) pinEnv pinBefore).2.
Lemma download_is_upload_witness :
  exists e body, jm_get c_evd pinAfter.(w_db).(evidences) = Some e /\ e.(e_storageProvider) = SP_pinata /\
    pinEnv.(env_sha256) body = pinEnv.(env_sha256) "hello".
Proof.
  assert (Hr : reachable pinEnv pinBefore) by apply runCalls_reachable.
  assert (Hd : ids_distinct pinEnv pinAfter.(w_rnd)) by ids.
  destruct (postEvidence anyone (Up_file (Some demoFile)) (Valid demoForm) pinEnv pinBefore) as [[x|res] w1] eqn:E.
  { vm_compute in E. discriminate E. }
  assert (Hw : w1 = pinAfter) by (unfold pinAfter; rewrite E; reflexivity). subst w1.
  assert (Hst : res.(rs_status) = 201%Z) by (vm_compute in E; injection E as <-; reflexivity).
  assert (Hid : jget "evidenceId" res.(rs_body) = JStr c_evd) by (vm_compute in E; injection E as <-; reflexivity).
  destruct (getEvidenceContent anyone c_evd pinEnv pinAfter) as [[x|res2] w3] eqn:E2.
  { vm_compute in E2. discriminate E2. }
  assert (Hst2 : res2.(rs_status) = 200%Z) by (vm_compute in E2; injection E2 as <- _; reflexivity).
  destruct (download_is_upload pinEnv pinBefore anyone demoForm demoFile res pinAfter pinAfter anyone c_evd res2 w3
    Hr E Hst Hid (rtc_refl _ _) Hd E2 Hst2) as (e & body & He & _ & Hok).
  exists e, body. vm_compute in He. injection He as <-.
  destruct Hok as [Hm|Hok]; [discriminate Hm|]. split; [vm_compute; reflexivity|]. split; [reflexivity|exact Hok].
Defined.

(** * Pinning *)

(** The reply of the [i]-th exchange of an upload, read as [pinOnce] does. *)
Definition pinReply (env : Env) (file fileName mime : string) (n : nat) : FetchReply :=
  env.(env_fetch) n env.(env_cfg).(cfg_pinataEndpoint)
    (JObj [("file", JStr file); ("fileName", JStr fileName); ("type", JStr (orOctet mime))]).
Definition pinnedHash (r : FetchReply) : option string :=
  match r with
  | FR_error _ => None
  | FR_resp status _ body =>
      if httpOk status then
        match body with
        | Some b => match jget "IpfsHash" b with JStr h => nonempty (Some h) | _ => None end
        | None => None
        end
      else None
  end.

Lemma pinOnce_reply env file fileName mime w :
  exists r, pinOnce file fileName mime env w = (r, w <| w_io := S w.(w_io) |>) /\
    match pinnedHash (pinReply env file fileName mime w.(w_io)) with
    | Some h => r = inr (mkUpload h SP_pinata)
    | None => exists e, r = inl e
    end.
Proof.
  unfold pinOnce. rewrite bind_askCfg, bind_io. fold (pinReply env file fileName mime w.(w_io)).
  destruct (pinReply _ _ _ _ _) as [msg|status text body]; cbn [pinnedHash]; [eexists; split; [done|by eexists]|].
  destruct (httpOk status); cbn [negb]; [|eexists; split; [done|by eexists]].
  destruct body as [b|]; [|eexists; split; [done|by eexists]].
  destruct (jget "IpfsHash" b); try (eexists; split; [done|by eexists]).
  unfold nonempty. destruct (truthy (Some s)); [by eexists|eexists; split; [done|by eexists]].
Qed.

(** An upload to the pinning service is retried and no more: with [n]
    attempts configured it takes the content address of the first reply that
    carries one and stops there; if none of [n] replies does, it fails after
    exactly [n] exchanges.  Nothing else is written. *)
Theorem pinning_is_retried env file fileName mime w n :
  env.(env_cfg).(cfg_pinataJwt) <> "" -> env.(env_cfg).(cfg_pinataMaxAttempts) = Z.of_nat (S n) ->
  let reply i := pinnedHash (pinReply env file fileName mime (w.(w_io) + i)) in
  (exists i h, i <= n /\ reply i = Some h /\ (forall j, j < i -> reply j = None) /\
     uploadViaPinata file fileName mime env w = (inr (mkUpload h SP_pinata), w <| w_io := w.(w_io) + S i |>)) \/
  (forall i, i <= n -> reply i = None) /\
    exists e, uploadViaPinata file fileName mime env w = (inl e, w <| w_io := w.(w_io) + S n |>).
Proof.
  intros Hjwt Hmax reply. unfold uploadViaPinata. rewrite bind_askCfg.
  assert (truthy (Some (cfg_pinataJwt (env_cfg env))) = true) as -> by (simpl; by rewrite bool_decide_false).
  cbn [negb]. rewrite bind_askCfg, Hmax, Nat2Z.id. unfold reply. clear Hmax reply.
  revert w. induction n as [|n IH]; intros w.
  all: destruct (pinOnce_reply env file fileName mime w) as (r & E & Hr).
  all: assert (Hadd : w.(w_io) + 0 = w.(w_io)) by lia.
  all: destruct (pinnedHash (pinReply env file fileName mime (w_io w))) as [h|] eqn:Ep; cbn [pinAttempts];
    unfold try_catch; rewrite E.
  - left. exists 0, h. subst r. rewrite Hadd. split_and!; [lia|done|lia|by rewrite Nat.add_1_r].
  - right. destruct Hr as [e ->]. split; [|by exists e; rewrite Nat.add_1_r].
    intros i Hi. replace i with 0 by lia. by rewrite Hadd.
  - left. exists 0, h. subst r. rewrite Hadd. split_and!; [lia|done|lia|by rewrite Nat.add_1_r].
  - destruct Hr as [e ->]. set (w1 := w <| w_io := S w.(w_io) |>).
    assert (Hio : forall i, w1.(w_io) + i = w.(w_io) + S i) by (intros; simpl; lia).
    assert (Hw1 : forall k, w1 <| w_io := w1.(w_io) + k |> = w <| w_io := w.(w_io) + S k |>).
    { intros k. rewrite Hio. done. }
    destruct (IH w1) as [(i & h & Hi & Hrep & Hbefore & Hrun)|[Hnone (e' & Hrun)]]; cbn [pinAttempts] in Hrun.
    + left. exists (S i), h. rewrite <-Hio. split_and!; [lia|done| |by rewrite Hw1 in Hrun].
      intros [|j] Hj; [by rewrite Hadd|]. rewrite <-Hio. apply Hbefore. lia.
    + right. split; [|exists e'; by rewrite Hw1 in Hrun].
      intros [|i] Hi; [by rewrite Hadd|]. rewrite <-Hio. apply Hnone. lia.
Qed.

(** The first reply is an error, the second carries an address. *)
Definition flakyEnv : Env :=
  mkEnv (pinEnv.(env_cfg) <| cfg_pinataMaxAttempts := 3%Z |>) demoEnv.(env_clock) demoUuid
    demoEnv.(env_sha256) demoEnv.(env_hmac) demoEnv.(env_legacyDate) demoEnv.(env_rippled)
    demoEnv.(env_submit) demoEnv.(env_walletAddress)
    (fun n _ _ => if (n =? 0)%nat then FR_resp 500 "busy" None
                  else FR_resp 200 "ok" (Some (JObj [("IpfsHash", JStr "QmDemo")])))
    demoEnv.(env_base64) demoEnv.(env_encrypt) demoEnv.(env_decrypt).
Lemma pinning_is_retried_witness :
  exists h w', uploadViaPinata "hello" "a.pdf" "application/pdf" flakyEnv initWorld = (inr (mkUpload h SP_pinata), w') /\
    h = "QmDemo".
Proof.
  assert (Hjwt : flakyEnv.(env_cfg).(cfg_pinataJwt) <> "") by (vm_compute; discriminate).
  assert (Hmax : flakyEnv.(env_cfg).(cfg_pinataMaxAttempts) = Z.of_nat 3) by (vm_compute; reflexivity).
  destruct (pinning_is_retried flakyEnv "hello" "a.pdf" "application/pdf" initWorld 2 Hjwt Hmax)
    as [(i & h & Hi & Hrep & _ & E)|[Hno _]].
  - exists h. eexists. split; [exact E|]. clear E.
    destruct i as [|[|[|i]]]; [discriminate Hrep|injection Hrep as <-; reflexivity..|lia].
  - specialize (Hno 1 ltac:(lia)). discriminate Hno.
Defined.

(** * The mock storage *)

(** Evidence that was encrypted and then kept by the mock storage can
    never be downloaded: the route decrypts the placeholder text, which is no
    ciphertext, and answers an error, whatever the key. *)
Theorem mock_encrypted_unavailable env req id w e res w' :
  jm_get id w.(w_db).(evidences) = Some e -> e.(e_storageProvider) = SP_mock ->
  e.(e_encryptionScheme) = Some EVIDENCE_ENCRYPTION_SCHEME ->
  (forall key, env.(env_decrypt) (mockContent e) key = None) ->
  getEvidenceContent req id env w = (inr res, w') -> (400 <= res.(rs_status))%Z.
Proof.
  intros He Hm Hs Hdec. revert res w'. change (wlp (getEvidenceContent req id) env w
    (fun res _ => (400 <= res.(rs_status))%Z)).
  unfold getEvidenceContent, getEvidence. apply wlp_bind. intros ev w1 [= <- <-]. rewrite He.
  cbn [withEvidence]. apply wlp_bind. intros c w1 _. apply wlp_bind. intros ok w2 _.
  destruct (negb ok); [by apply wlp_ret|]. rewrite bool_decide_true by done.
  unfold decryptContent. rewrite Hs, bool_decide_true by done. cbn [negb].
  apply wlp_bind. intros [msg|[dk|]] w3 _; [by apply wlp_ret| |by apply wlp_ret].
  apply wlp_bind. intros [msg|p] w4 E; [by apply wlp_ret|]. exfalso.
  revert E. unfold attempt, decryptEvidenceBuffer, try_catch. destruct (_ <? _)%nat; [done|].
  unfold askEnv, mbind, M_bind. rewrite Hdec. done.
Qed.
(** An upload in mock mode with an encryption key. *)
Definition keyEnv : Env :=
  mkEnv (defaultConfig <| cfg_encryptionKeyBase64 := "0123456789abcdef0123456789abcdef" |>) demoEnv.(env_clock) demoUuid
    demoEnv.(env_sha256) demoEnv.(env_hmac) demoEnv.(env_legacyDate) demoEnv.(env_rippled)
    demoEnv.(env_submit) demoEnv.(env_walletAddress) demoEnv.(env_fetch)
    demoEnv.(env_base64) demoEnv.(env_encrypt) demoEnv.(env_decrypt).
Definition keyWorld : World := runCalls keyEnv [demoContract; demoEvidence] initWorld.
Lemma mock_encrypted_unavailable_witness :
  exists res w', getEvidenceContent anyone c_evd keyEnv keyWorld = (inr res, w') /\ (400 <= res.(rs_status))%Z.
Proof.
  destruct (jm_get c_evd keyWorld.(w_db).(evidences)) as [e|] eqn:He; [|vm_compute in He; discriminate He].
  assert (Hm : e.(e_storageProvider) = SP_mock) by (vm_compute in He; injection He as <-; reflexivity).
  assert (Hs : e.(e_encryptionScheme) = Some EVIDENCE_ENCRYPTION_SCHEME)
    by (vm_compute in He; injection He as <-; reflexivity).
  destruct (getEvidenceContent anyone c_evd keyEnv keyWorld) as [[x|res] w'] eqn:E; [vm_compute in E; discriminate E|].
  exists res, w'. split; [reflexivity|].
  exact (mock_encrypted_unavailable keyEnv anyone c_evd keyWorld e res w' He Hm Hs (fun key => eq_refl) E).
Defined.
