(* ===== verification/DisputeProps.v ===== *)
(** Properties of the dispute routes: the quorum of the verifiers' votes and
    the ledger behind an execution. *)
From S2P Require Import Prelude JsString JsMap JsDate Types Config World Utils MemoryRepo RepoFacts Http Auth Notify.
From S2P Require Import Logic XrplTrack Contracts Disputes Inv Loops Steps XrplSteps DisputeSteps System Demo.
From S2P Require Import ContractSteps SystemProps Wp NotifyProps EvidenceProps.

(** * The quorum *)

Lemma foldr_max_ge (l : list Z) K : (0 < K)%Z -> ((K <= foldr Z.max 0 l)%Z <-> exists x, x ∈ l /\ (K <= x)%Z).
Proof.
  intros HK. induction l as [|x l IH]; simpl.
  - split; [lia|]. by intros (x & ?%not_elem_of_nil & _).
  - rewrite Z.max_le_iff, IH. split.
    + intros [?|(y & ? & ?)]; [exists x; split; [by left|done]|exists y; split; [by right|done]].
    + intros (y & [->|?]%elem_of_cons & ?); [by left|right; eauto].
Qed.
#[export] Instance decision_str_inj : Inj (=) (=) decision_str.
Proof. by intros [] []. Qed.
Lemma countBy_wf {A} (key : A -> string) l : jm_wf (countBy key l).
Proof.
  unfold countBy. assert (forall m : JsMap Z, jm_wf m ->
    jm_wf (fold_left (fun m x => jm_set (key x) (default 0%Z (jm_get (key x) m) + 1)%Z m) l m)) as H.
  { induction l as [|x l IH]; intros m Hm; simpl; [done|]. apply IH. by apply jm_set_wf. }
  apply H. constructor.
Qed.
Lemma countBy_present {A} (key : A -> string) l k :
  is_Some (jm_get k (countBy key l)) -> exists x, x ∈ l /\ key x = k.
Proof.
  unfold countBy. assert (forall m : JsMap Z,
    is_Some (jm_get k (fold_left (fun m x => jm_set (key x) (default 0%Z (jm_get (key x) m) + 1)%Z m) l m)) ->
    is_Some (jm_get k m) \/ exists x, x ∈ l /\ key x = k) as H.
  { induction l as [|x l IH]; intros m; simpl; [by left|]. intros [Hs|(y & ? & ?)]%IH.
    - rewrite jm_get_set in Hs. case_decide as Hk; [|by left]. right. exists x. split; [by left|done].
    - right. exists y. split; [by right|done]. }
  intros [Hn|]%H; [by destruct Hn|done].
Qed.

(** The verifiers who recommended [d]. *)
Definition recommenders (d : DisputeDecisionChoice) (rows : list DisputeVerifierVoteRecord) : list string :=
  v_verifierId <$> filter (fun v => v.(v_recommendation) = d) rows.

Lemma quorumMet_spec K rows :
  (0 < K)%Z ->
  quorumMet K rows = true <-> exists d, (K <= Z.of_nat (length (recommenders d rows)))%Z.
Proof.
  intros HK. unfold quorumMet, maxCount, tallyVotes. rewrite Z.leb_le, foldr_max_ge by done.
  assert (Hcount : forall d, default 0%Z (jm_get (decision_str d) (countBy (fun v => decision_str v.(v_recommendation)) rows))
    = Z.of_nat (length (recommenders d rows))).
  { intros d. rewrite countBy_get. unfold count_of, recommenders. rewrite length_fmap. do 2 f_equal.
    apply list_filter_iff. intros v. split; [by intros ?%(inj _)|by intros ->]. }
  split.
  - intros (x & Hx & Hle). apply jm_values_get in Hx as [k Hk]; [|apply countBy_wf].
    destruct (countBy_present (fun v => decision_str v.(v_recommendation)) rows k) as (v & _ & <-); [by eexists|].
    exists v.(v_recommendation). rewrite <-Hcount, Hk. done.
  - intros (d & Hle). rewrite <-Hcount in Hle.
    destruct (jm_get (decision_str d) _) as [x|] eqn:E; simpl in Hle; [|lia].
    exists x. split; [|done]. apply jm_values_get; [apply countBy_wf|]. by eexists.
Qed.

(** C30: The review state reports a quorum exactly when at least K different
    verifiers have recommended one and the same decision. *)
Theorem quorum_of_distinct_verifiers env w req id res w' :
  reachable env w -> ids_distinct env w.(w_rnd) -> (0 < env.(env_cfg).(cfg_verifierQuorumK))%Z ->
  getReviewState req id env w = (inr res, w') -> res.(rs_status) = 200%Z ->
  exists q, jget "quorumMet" res.(rs_body) = JBool q /\
    (q = true <-> exists d (vs : list string), NoDup vs /\
       (env.(env_cfg).(cfg_verifierQuorumK) <= Z.of_nat (length vs))%Z /\
       forall x, x ∈ vs -> exists rows v, jm_get id w.(w_db).(disputeVerifierVotes) = Some rows /\ v ∈ rows /\
         v.(v_verifierId) = x /\ v.(v_recommendation) = d).
Proof.
  intros Hr Hd HK. pose proof (reachable_ok _ _ Hr Hd) as Hwf.
  set (rows := default [] (jm_get id w.(w_db).(disputeVerifierVotes))).
  assert (Hnd : NoDup (v_verifierId <$> rows)).
  { unfold rows. destruct (jm_get id (disputeVerifierVotes _)) as [vs|] eqn:E; [|constructor].
    by destruct (keyed_get _ _ _ _ Hwf.(wf_votes _ _ _) E) as (_ & ? & _). }
  intros Hget Hst.
  assert (Hq : jget "quorumMet" res.(rs_body) = JBool (quorumMet env.(env_cfg).(cfg_verifierQuorumK) rows)).
  { revert Hget Hst. unfold getReviewState, withDispute, getDispute, canAccessDispute, mayAccessContractOf,
      getContract, mayAccess, listDisputeVerifierVotes.
    rewrite bind_asks. destruct (jm_get id w.(w_db).(disputes)) as [dp|]; [|by intros [= <- _]].
    unfold canAccessDispute, mayAccessContractOf, getContract. rewrite bind_assoc, bind_asks.
    destruct (jm_get _ (contracts _)) as [c|]; [|by intros [= <- _]].
    unfold mayAccess. rewrite bind_askCfg. destruct (negb _); [by intros [= <- _]|].
    rewrite bind_asks, bind_askCfg. by intros [= <- _] _. }
  exists (quorumMet env.(env_cfg).(cfg_verifierQuorumK) rows). split; [done|]. rewrite quorumMet_spec by done. split.
  - intros (d & Hle). exists d, (recommenders d rows). split_and!; [|done|].
    + unfold recommenders. eapply sublist_NoDup; [exact Hnd|]. apply fmap_sublist, sublist_filter.
    + intros x (v & -> & [Hrec Hin]%list_elem_of_filter)%list_elem_of_fmap. unfold rows in Hin.
      destruct (jm_get id (disputeVerifierVotes _)) as [vs|] eqn:E; [|by apply not_elem_of_nil in Hin].
      by exists vs, v.
  - intros (d & vs & Hvs & Hle & Hin). exists d.
    assert (length vs <= length (recommenders d rows)); [|lia].
    apply NoDup_incl_length; [by apply NoDup_ListNoDup|]. intros x Hx%list_elem_of_In.
    destruct (Hin x Hx) as (rows' & v & E & Hv & <- & Hrec). apply list_elem_of_In. unfold recommenders, rows.
    rewrite E. apply list_elem_of_fmap. exists v. split; [done|]. by apply list_elem_of_filter.
Qed.

(** A quorum of one, and two votes for different decisions. *)
Definition quorumEnv : Env := demoEnvWith (defaultConfig <| cfg_verifierQuorumK := 1%Z |>).
Definition quorumWorld : World := runCalls quorumEnv [demoContract; demoEvidence; demoDispute; demoVote] initWorld.
Lemma quorum_of_distinct_verifiers_witness :
  exists res w' q, getReviewState anyone c_dsp quorumEnv quorumWorld = (inr res, w') /\
    jget "quorumMet" res.(rs_body) = JBool q /\ q = true.
Proof.
  assert (Hr : reachable quorumEnv quorumWorld) by apply runCalls_reachable.
  assert (Hd : ids_distinct quorumEnv quorumWorld.(w_rnd)) by ids.
  assert (HK : (0 < quorumEnv.(env_cfg).(cfg_verifierQuorumK))%Z) by (vm_compute; reflexivity).
  destruct (getReviewState anyone c_dsp quorumEnv quorumWorld) as [[x|res] w'] eqn:E; [vm_compute in E; discriminate E|].
  assert (Hst : res.(rs_status) = 200%Z) by (vm_compute in E; injection E as <- _; reflexivity).
  destruct (quorum_of_distinct_verifiers quorumEnv quorumWorld anyone c_dsp res w' Hr Hd HK E Hst) as (q & Hq & Hiff).
  exists res, w', q. split; [reflexivity|]. split; [exact Hq|]. apply Hiff.
  exists DD_finish_to_tenant, ["v1"]. split; [apply NoDup_singleton|]. split; [vm_compute; congruence|].
  intros x ->%list_elem_of_singleton.
  destruct (jm_get c_dsp quorumWorld.(w_db).(disputeVerifierVotes)) as [rows|] eqn:Hv; [|vm_compute in Hv; discriminate Hv].
  vm_compute in Hv. injection Hv as <-. eexists _, _.
  split; [reflexivity|]. split; [apply list_elem_of_here|]. split; vm_compute; reflexivity.
Defined.

(** * Execution *)

Lemma wlp_withDispute req id msg k env w (Q : Response -> World -> Prop) :
  (forall d, jm_get id w.(w_db).(disputes) = Some d -> wlp (k d) env w Q) ->
  (forall s c m, (400 <= s < 500)%Z -> Q (err s c m) w) ->
  wlp (withDispute req id msg k) env w Q.
Proof.
  intros Hk Herr. unfold withDispute, getDispute. apply wlp_bind. intros d w1 [= <- <-].
  destruct (jm_get id _) as [d|] eqn:Hd; [|apply wlp_ret, Herr; lia].
  apply wlp_bind. intros ok w1 E.
  assert (w1 = w) as ->.
  { revert E. unfold canAccessDispute, mayAccessContractOf, getContract, mayAccess. rewrite bind_asks.
    by destruct (jm_get (d_contractId d) _); intros [= _ <-]. }
  destruct (negb ok); [apply wlp_ret, Herr; lia|by apply Hk].
Qed.
Lemma same_wlp {A} (m : M A) env w a w' : keeps Same m -> m env w = (inr a, w') -> w'.(w_db) = w.(w_db).
Proof. intros Hk E. specialize (Hk env w). unfold keeps_at in Hk. rewrite E in Hk. apply Hk. Qed.

(** Where the hash of an execution comes from when none is made up. *)
Definition ledgerHash (env : Env) (b : ExecutionBody) (h : string) : Prop :=
  match nonempty b.(xb_txHash) with
  | Some given => h = toUpperCase given
  | None => exists w1 w2, trySubmitDisputeExecution b env w1 = (inr (Some h), w2)
  end.
Lemma executionHash_strict env id b w :
  syntheticExecutionPathEffective env.(env_cfg) = false ->
  wlp (executionHash id b) env w (fun r w1 => w1.(w_db) = w.(w_db) /\
    match r with
    | inl res => (400 <= res.(rs_status) < 600)%Z
    | inr eh => eh.(eh_synthetic) = false /\ ledgerHash env b eh.(eh_txHash)
    end).
Proof.
  intros Hsyn r w1 E. split; [eapply same_wlp; [apply same_executionHash|exact E]|]. revert E.
  unfold executionHash, ledgerHash. rewrite bind_askCfg, Hsyn. destruct (nonempty (xb_txHash b)) as [given|].
  { by intros [= <- _]. }
  unfold mbind at 1, M_bind, try_catch. unfold mbind at 1, M_bind.
  destruct (trySubmitDisputeExecution b env w) as [[e|[h|]] w2] eqn:Et; intros [= <- _]; [simpl; lia| |simpl; lia].
  split; [done|eauto].
Qed.

(** Without the service's own wallet nothing is submitted. *)
Lemma trySubmit_off env b w :
  env.(env_cfg).(cfg_submitEnabled) = false -> trySubmitDisputeExecution b env w = (inr None, w).
Proof. intros Hoff. unfold trySubmitDisputeExecution. by rewrite !bind_askCfg, Hoff. Qed.

Lemma wlp_trackExecution id b eh env w (Q : option Response -> World -> Prop) :
  (forall res w1, res.(rs_status) = 409%Z -> w1.(w_db) = w.(w_db) -> Q (Some res) w1) -> (forall w1, Q None w1) ->
  wlp (trackExecution id b eh) env w Q.
Proof.
  intros Hres HNone. unfold trackExecution. cbv zeta. apply wlp_bind. intros on w1 [= _ <-].
  destruct (negb on); [apply wlp_bind; intros; by apply wlp_ret|].
  apply wlp_bind. intros live w2 E2. destruct (typeMismatch _ _ _) as [ty|].
  { apply wlp_ret, Hres; [done|]. eapply same_wlp; [apply same_getTxStatus|exact E2]. }
  apply wlp_bind. intros _ w3 _. apply wlp_bind. intros _ w4 _. by apply wlp_ret.
Qed.
(** The answer 202 and the row it leaves. *)
Lemma requested req d b eh now env w :
  wp (requestExecution req d b eh now) env w (fun res w' =>
    res.(rs_status) = 202%Z /\ jget "txHash" res.(rs_body) = JStr eh.(eh_txHash) /\
    jget "synthetic" res.(rs_body) = JBool eh.(eh_synthetic) /\
    (d_status <$> jm_get d.(d_id) w'.(w_db).(disputes)) = Some DS_execution_pending).
Proof.
  unfold requestExecution, recordExecutionRequest, saveDispute. wp_step. cbv zeta. wp_step.
  assert (Hrest : forall (m : M unit) w1 (k : unit -> Handler),
    total m -> keeps (on_db background) m ->
    (forall w2, w2.(w_db).(disputes) = w1.(w_db).(disputes) -> wp (k tt) env w2 (fun res w' =>
      res.(rs_status) = 202%Z /\ jget "txHash" res.(rs_body) = JStr eh.(eh_txHash) /\
      jget "synthetic" res.(rs_body) = JBool eh.(eh_synthetic) /\
      (d_status <$> jm_get d.(d_id) w'.(w_db).(disputes)) = Some DS_execution_pending)) ->
    wp (m ≫= k) env w1 (fun res w' =>
      res.(rs_status) = 202%Z /\ jget "txHash" res.(rs_body) = JStr eh.(eh_txHash) /\
      jget "synthetic" res.(rs_body) = JBool eh.(eh_synthetic) /\
      (d_status <$> jm_get d.(d_id) w'.(w_db).(disputes)) = Some DS_execution_pending)).
  { intros m0 w1 k Ht Hk HQ. apply wp_bind, wp_background; [done..|]. intros [] w2 (_&_&?&_). by apply HQ. }
  apply Hrest; [total_auto|keeps_auto|]. intros w2 H2.
  apply Hrest; [total_auto|keeps_auto|]. intros w3 H3.
  apply Hrest; [unfold notifyParties, getContract; total_auto; by destruct a; simpl; total_auto|keeps_auto|].
  intros w4 H4. repeat wp_step. split_and!; [done..|]. simpl. rewrite H4, H3, H2.
  change (d_status <$> jm_get d.(d_id) (jm_set d.(d_id) (upd d_updatedAt (fun _ => now)
    (upd d_status (fun _ => DS_execution_pending) d)) w.(w_db).(disputes)) = Some DS_execution_pending).
  by rewrite jm_get_set_eq.
Qed.

(** C31: Where synthetic hashes are off (always in the strict tier), only a
    transaction of the ledger executes a dispute: an accepted request names the
    client's hash or the one the ledger returned for the service's own
    submission, says it is not synthetic, and leaves the dispute
    execution_pending.  Any other answer is an error and leaves the store as it
    was, whatever refused the request: no access, no decision, a submission that
    failed, a transaction of another type; and a request without a hash, where
    the service submits nothing itself, is refused. *)
Theorem execution_is_ledger_backed env n req id b w res w' :
  db_wf env n w.(w_db) -> syntheticExecutionPathEffective env.(env_cfg) = false ->
  postExecution req id (Valid b) env w = (inr res, w') ->
  (res.(rs_status) = 202%Z ->
     exists h, ledgerHash env b h /\ jget "txHash" res.(rs_body) = JStr h /\
       jget "synthetic" res.(rs_body) = JBool false /\
       (d_status <$> jm_get id w'.(w_db).(disputes)) = Some DS_execution_pending) /\
  (res.(rs_status) <> 202%Z -> (400 <= res.(rs_status) < 600)%Z /\ w'.(w_db) = w.(w_db)) /\
  (nonempty b.(xb_txHash) = None -> env.(env_cfg).(cfg_submitEnabled) = false ->
     (400 <= res.(rs_status) < 500)%Z /\ w'.(w_db) = w.(w_db)).
Proof.
  intros Hwf Hsyn. revert res w'.
  change (wlp (postExecution req id (Valid b)) env w (fun res w' =>
    (res.(rs_status) = 202%Z -> exists h, ledgerHash env b h /\ jget "txHash" res.(rs_body) = JStr h /\
       jget "synthetic" res.(rs_body) = JBool false /\
       (d_status <$> jm_get id w'.(w_db).(disputes)) = Some DS_execution_pending) /\
    (res.(rs_status) <> 202%Z -> (400 <= res.(rs_status) < 600)%Z /\ w'.(w_db) = w.(w_db)) /\
    (nonempty b.(xb_txHash) = None -> env.(env_cfg).(cfg_submitEnabled) = false ->
       (400 <= res.(rs_status) < 500)%Z /\ w'.(w_db) = w.(w_db)))).
  unfold postExecution, executionGuards. cbn [withParsed].
  apply wlp_withDispute; [|intros s c m Hs; simpl; split_and!; [lia|split; [lia|done]|done]].
  intros d Hd. destruct (keyed_get _ _ _ _ Hwf.(wf_disputes _ _ _) Hd) as (Hid & _).
  case_bool_decide as Hdec; [|apply wlp_ret; simpl; split_and!; [done|split; [lia|done]|split; [lia|done]]]. cbn [negb].
  unfold finishExecution. apply wlp_bind. intros r w1 E.
  destruct (executionHash_strict env (d_id d) b w Hsyn _ _ E) as [Hdb Hr]. destruct r as [res|eh].
  - apply wlp_ret. split_and!; [lia|done|]. intros Hno Hoff. split; [|done]. revert E. unfold executionHash.
    rewrite bind_askCfg, Hsyn, Hno. unfold mbind at 1, M_bind, try_catch. unfold mbind at 1, M_bind.
    rewrite trySubmit_off by done. intros [= <- _]. simpl. lia.
  - destruct Hr as [Hs Hh]. apply wlp_bind. intros now w2 Enow. apply wlp_bind.
    assert (Hdb2 : w2.(w_db) = w.(w_db)) by (by injection Enow as _ <-). clear Enow.
    assert (Hoff : nonempty b.(xb_txHash) = None -> env.(env_cfg).(cfg_submitEnabled) = false -> False).
    { intros Hno Hoff. unfold ledgerHash in Hh. rewrite Hno in Hh. destruct Hh as (v1 & v2 & Hv).
      by rewrite trySubmit_off in Hv. }
    assert (Hkeyed : disputes_keyed w.(w_db)).
    { intros k x Hx. by apply (keyed_get _ _ _ _ Hwf.(wf_disputes _ _ _)) in Hx as []. }
    intros stop w3 Etrack. pose proof Etrack as Hstop.
    eapply wlp_trackExecution with (Q := fun stop w3 => forall res, stop = Some res ->
      res.(rs_status) = 409%Z /\ w3.(w_db) = w.(w_db)) in Hstop;
      [|intros res w4 H409 Hw4 ? [= <-]; split; [done|by rewrite Hw4, Hdb2]|done].
    destruct stop as [res|].
    { destruct (Hstop res eq_refl) as [H409 Hw3]. apply wlp_ret. split_and!; [lia|split; [lia|done]|].
      intros Hno Ho. by destruct (Hoff Hno Ho). }
    pose proof (settledKept_trackExecution (d_id d) b eh env w2) as Hkept.
    unfold keeps_at in Hkept. rewrite Etrack in Hkept. unfold on_db in Hkept. simpl in Hkept. rewrite Hdb2 in Hkept.
    specialize (Hkept Hkeyed id d Hd ltac:(by rewrite Hdec)).
    apply wlp_bind. intros held w4 [= <- <-]. rewrite Hid, Hkept. simpl.
    apply wlp_of_wp. eapply wp_wand; [apply requested|]. intros res w5 (H202 & H1 & H2 & H3).
    split_and!; [| |intros; exfalso; auto].
    + intros _. exists eh.(eh_txHash). rewrite Hs in H2. by rewrite Hid in H3.
    + intros H. by destruct H.
Qed.

(** The strict tier: a hash of the ledger is taken, none is refused. *)
Definition strictEnv : Env := demoEnvWith (defaultConfig <| cfg_syntheticExecutionHashEnabled := false |>).
Definition strictDecided : World :=
  runCalls strictEnv [demoContract; demoEvidence; demoDispute; demoReview; demoDecision] initWorld.
Definition demoHash : string := of_chars (pad 64 7).
Definition execBody (h : option string) : ExecutionBody :=
  mkExecutionBody TX_EscrowFinish "rOwnerOwnerOwnerOwner" (JNum 7) Net_testnet h.
Lemma execution_is_ledger_backed_witness :
  exists res w', postExecution anyone c_dsp (Valid (execBody (Some demoHash))) strictEnv strictDecided = (inr res, w') /\
    res.(rs_status) = 202%Z /\
    exists h, ledgerHash strictEnv (execBody (Some demoHash)) h /\ jget "txHash" res.(rs_body) = JStr h.
Proof.
  assert (Hwf : db_wf strictEnv strictDecided.(w_rnd) strictDecided.(w_db)).
  { apply reachable_ok; [apply runCalls_reachable|ids]. }
  destruct (postExecution anyone c_dsp (Valid (execBody (Some demoHash))) strictEnv strictDecided) as [[x|res] w'] eqn:E;
    [vm_compute in E; discriminate E|].
  assert (Hst : res.(rs_status) = 202%Z) by (vm_compute in E; injection E as <- _; reflexivity).
  destruct (execution_is_ledger_backed strictEnv _ anyone c_dsp _ _ res w' Hwf (eq_refl _) E) as [H _].
  destruct (H Hst) as (h & Hh & Hj & _). exists res, w'. eauto.
Defined.
