(* ===== verification/ReputationProps.v ===== *)
(** Properties of the reputation webhook and its dead-letter queue: the queue
    refines a bounded map that counts failed attempts. *)
From S2P Require Import Prelude JsString JsMap JsDate Types Config World Utils MemoryRepo Http Auth Notify XrplTrack.
From S2P Require Import Contracts Reputation Demo.

(** * The invariant of the queue *)

Definition dlq_entry_ok (k : string) (e : ReputationDlqEntry) : Prop :=
  e.(dlq_idempotencyKey) = k /\ e.(dlq_body).(rep_idempotencyKey) = k /\ (1 <= e.(dlq_attempts))%Z.
(** Unique keys, each entry under the key of its body, at most 500 of them. *)
Record dlq_ok (m : JsMap ReputationDlqEntry) : Prop := mkDlqOk {
  dlq_wf : jm_wf m; dlq_keyed : jm_all dlq_entry_ok m; dlq_bounded : (jm_size m <= DLQ_MAX)%nat }.

(** * The abstract queue: attempts by key *)

Abbreviation AttemptLog := (gmap string Z) (only parsing).
Definition attempts (m : JsMap ReputationDlqEntry) : AttemptLog := dlq_attempts <$> jm_to_gmap m.

(** A delivery succeeds and clears the key; or it fails and is counted, and a
    full queue gives up one other key for a new one. *)
Definition cleared (k : string) (a : AttemptLog) : AttemptLog := delete k a.
Definition counted (k : string) (a : AttemptLog) : AttemptLog := <[k := (default 0 (a !! k) + 1)%Z]> a.
Inductive attempt_step (k : string) (accepted : bool) (a : AttemptLog) : AttemptLog -> Prop :=
  | attempt_ok : accepted = true -> attempt_step k accepted a (cleared k a)
  | attempt_failed : accepted = false -> is_Some (a !! k) \/ size a < DLQ_MAX ->
      attempt_step k accepted a (counted k a)
  | attempt_evicts old : accepted = false -> a !! k = None -> size a = DLQ_MAX -> is_Some (a !! old) ->
      attempt_step k accepted a (counted k (delete old a)).

Lemma attempts_lookup m k : attempts m !! k = dlq_attempts <$> jm_get k m.
Proof. unfold attempts. by rewrite lookup_fmap, jm_get_gmap. Qed.
Lemma attempts_size m : jm_wf m -> size (attempts m) = jm_size m.
Proof.
  intros Hwf. unfold attempts, jm_to_gmap, jm_size. rewrite map_size_fmap.
  by rewrite <-map_size_list_to_map.
Qed.
Lemma attempts_set k e m : attempts (jm_set k e m) = <[k := e.(dlq_attempts)]> (attempts m).
Proof. unfold attempts. by rewrite jm_set_gmap, fmap_insert. Qed.
Lemma attempts_delete k m : attempts (jm_delete k m) = delete k (attempts m).
Proof. unfold attempts. by rewrite jm_delete_gmap, fmap_delete. Qed.

Lemma jm_size_delete {V} k (m : JsMap V) : (jm_size (jm_delete k m) <= jm_size m)%nat.
Proof. apply length_filter. Qed.
Lemma jm_size_keys {V} (m : JsMap V) : jm_size m = length (jm_keys m).
Proof. unfold jm_keys. by rewrite length_fmap. Qed.
(** Deleting what is not there. *)
Lemma jm_delete_absent {V} k (m : JsMap V) : k ∉ jm_keys m -> jm_delete k m = m.
Proof.
  unfold jm_keys, jm_delete. induction m as [|[k' v] m IH]; csimpl; [done|].
  rewrite not_elem_of_cons. intros [Hne Hout]. rewrite filter_cons_True by (simpl; congruence).
  by rewrite IH.
Qed.
Lemma dlq_ok_delete k m : dlq_ok m -> dlq_ok (jm_delete k m).
Proof.
  intros [? ? ?]. split; [by apply jm_delete_wf|by apply jm_all_delete|].
  pose proof (jm_size_delete k m). lia.
Qed.

(** The entry a failed delivery leaves. *)
Definition recordedEntry (body : ReputationOutboundBody) (st : option Z) (er : option string) (t : string)
    (m : JsMap ReputationDlqEntry) : ReputationDlqEntry :=
  mkDlqEntry body.(rep_idempotencyKey) body t st er
    (default 0 (dlq_attempts <$> jm_get body.(rep_idempotencyKey) m) + 1)%Z.

Lemma jm_all_set_entry body st er t m :
  jm_all dlq_entry_ok m -> jm_all dlq_entry_ok (jm_set body.(rep_idempotencyKey) (recordedEntry body st er t m) m).
Proof.
  intros H. apply jm_all_set; [done|]. split_and!; [done..|]. simpl.
  destruct (jm_get _ m) as [e|] eqn:E; simpl; [|lia]. destruct (jm_all_get _ _ _ _ H E) as (_ & _ & ?). lia.
Qed.

(** With room, or for a known key, nothing is dropped; a full queue drops its
    first key. *)
Lemma dlqRecord_spec body st er t m :
  dlq_ok m ->
  let k := body.(rep_idempotencyKey) in
  let e := recordedEntry body st er t m in
  (is_Some (jm_get k m) \/ (jm_size m < DLQ_MAX)%nat -> dlqRecord body st er t m = jm_set k e m) /\
  (jm_get k m = None -> jm_size m = DLQ_MAX -> exists old,
     is_Some (jm_get old m) /\ dlqRecord body st er t m = jm_delete old (jm_set k e m) /\
     jm_size (dlqRecord body st er t m) = DLQ_MAX).
Proof.
  intros [Hwf Hk Hb] k e. change (dlqRecord body st er t m) with (dlqTrim (jm_set k e m)). unfold dlqTrim. clearbody e.
  assert (Hsz : jm_size (jm_set k e m) = if jm_has k m then jm_size m else S (jm_size m)).
  { rewrite !jm_size_keys, jm_set_keys. case_match; [done|]. rewrite length_app. simpl. lia. }
  unfold jm_has in Hsz. split.
  - intros Hroom. destruct (Nat.ltb_spec DLQ_MAX (jm_size (jm_set k e m))) as [Hlt|]; [|done].
    destruct Hroom as [[x Hx]|?]; [rewrite Hx in Hsz; lia|]. destruct (jm_get k m); lia.
  - intros Hnone Hfull. rewrite Hnone in Hsz. rewrite Hsz, Hfull. replace (S DLQ_MAX - DLQ_MAX) with 1 by lia.
    destruct (Nat.ltb_spec DLQ_MAX (S DLQ_MAX)); [|lia].
    destruct m as [|[old v] m]; [discriminate Hfull|]. exists old.
    assert (Hne : k <> old) by (intros ->; simpl in Hnone; by rewrite decide_True in Hnone).
    split; [simpl; rewrite decide_True by done; eauto|].
    simpl jm_set. rewrite decide_False by done. simpl. split; [done|].
    simpl in Hnone. rewrite decide_False in Hnone by done. rewrite jm_set_absent by done.
    unfold jm_wf, jm_keys in Hwf. csimpl in Hwf. apply NoDup_cons in Hwf as [Hout _].
    unfold jm_delete. rewrite filter_cons_False by naive_solver. rewrite filter_app, filter_cons_True by done.
    fold (jm_delete old m). rewrite jm_delete_absent by done.
    unfold jm_size in *. rewrite length_app. simpl in *. lia.
Qed.

(** What the receiver answered, in the world of the delivery. *)
Definition webhookReply (env : Env) (w : World) (body : ReputationOutboundBody) : FetchReply :=
  env.(env_fetch) w.(w_io) (trim env.(env_cfg).(cfg_outboundWebhookUrl))
    (reputationEnvelope body (toISOString (env.(env_clock) w.(w_clk)))).
Definition accepts (r : FetchReply) : bool :=
  match r with FR_resp status _ _ => ((200 <=? status) && (status <=? 299))%Z | FR_error _ => false end.
Definition replyStatus (r : FetchReply) : option Z :=
  match r with FR_resp status _ _ => Some status | FR_error _ => None end.
Definition replyError (r : FetchReply) : string :=
  match r with FR_resp _ text _ => str_take 500 text | FR_error msg => msg end.

Lemma deliver_queue env w body :
  (deliverReputationOutboundWebhook body env w).1 = inr tt /\
  (deliverReputationOutboundWebhook body env w).2.(w_dlq) =
    if accepts (webhookReply env w body) then jm_delete body.(rep_idempotencyKey) w.(w_dlq)
    else dlqRecord body (replyStatus (webhookReply env w body)) (Some (replyError (webhookReply env w body)))
           (toISOString (env.(env_clock) (S w.(w_clk)))) w.(w_dlq).
Proof.
  unfold webhookReply, deliverReputationOutboundWebhook. rewrite bind_askCfg, bind_nowIso, bind_io.
  cbn -[accepts dlqRecord].
  destruct (env_fetch env _ _ _) as [msg|st text b]; [split; reflexivity|].
  cbn [accepts]. destruct (_ && _); split; reflexivity.
Qed.

(** C33: The dead-letter queue refines a map of attempt counts: a delivery the
    receiver takes (2xx) clears its key, any other one is counted, and only a
    queue of 500 entries gives up another key.  The entry of a failed delivery
    holds its body, the status and what went wrong, and the queue stays well
    formed. *)
Theorem dead_letters_refine env w body :
  dlq_ok w.(w_dlq) ->
  let r := webhookReply env w body in
  let k := body.(rep_idempotencyKey) in
  let w' := (deliverReputationOutboundWebhook body env w).2 in
  attempt_step k (accepts r) (attempts w.(w_dlq)) (attempts w'.(w_dlq)) /\ dlq_ok w'.(w_dlq) /\
  (accepts r = false -> exists e, jm_get k w'.(w_dlq) = Some e /\ e.(dlq_body) = body /\
     e.(dlq_lastHttpStatus) = replyStatus r /\ e.(dlq_lastError) = Some (replyError r)).
Proof.
  intros Hok r k w'. pose proof (deliver_queue env w body) as [_ Hq]. fold w' r in Hq. rewrite Hq. clear Hq w'.
  destruct (accepts r).
  { rewrite attempts_delete. split_and!; [by apply attempt_ok|by apply dlq_ok_delete|done]. }
  set (t := toISOString _).
  destruct (dlqRecord_spec body (replyStatus r) (Some (replyError r)) t _ Hok) as [Hroom Hfull].
  fold k in Hroom, Hfull. set (e := recordedEntry body (replyStatus r) (Some (replyError r)) t w.(w_dlq)) in *.
  pose proof (jm_all_set_entry body (replyStatus r) (Some (replyError r)) t _ Hok.(dlq_keyed _)) as Hall.
  destruct Hok as [Hwf Hk Hb].
  destruct (decide (is_Some (jm_get k w.(w_dlq)) \/ jm_size w.(w_dlq) < DLQ_MAX)) as [Hr|Hf].
  - rewrite (Hroom Hr). split_and!.
    + rewrite attempts_set. unfold e, recordedEntry. simpl. fold k. rewrite <-attempts_lookup. apply attempt_failed; [done|].
      rewrite attempts_size, attempts_lookup by done. destruct Hr as [[? ->]|?]; [left; eauto|by right].
    + split; [by apply jm_set_wf|done|].
      rewrite jm_size_keys, jm_set_keys. unfold jm_has. rewrite jm_size_keys in Hb, Hr.
      destruct Hr as [[? ->]|?]; [done|]. destruct (jm_get k _); [lia|]. rewrite length_app. simpl. lia.
    + intros _. exists e. by rewrite jm_get_set_eq.
  - destruct (jm_get k w.(w_dlq)) as [x|] eqn:Hnone; [destruct Hf; left; eauto|].
    assert (jm_size w.(w_dlq) = DLQ_MAX) as Hsz by (destruct (decide (jm_size w.(w_dlq) < DLQ_MAX)); [destruct Hf; by right|lia]).
    destruct (Hfull eq_refl Hsz) as (old & Hold & Heq & Hlen).
    assert (old <> k) as Hne by (intros ->; rewrite Hnone in Hold; by destruct Hold).
    split_and!.
    + rewrite Heq, attempts_delete, attempts_set, delete_insert_ne by done.
      replace (dlq_attempts e) with (default 0 (delete old (attempts w.(w_dlq)) !! k) + 1)%Z.
      * apply attempt_evicts; [done|by rewrite attempts_lookup, Hnone|by rewrite attempts_size|].
        rewrite attempts_lookup. destruct Hold as [? ->]. eauto.
      * unfold e, recordedEntry. simpl. fold k. by rewrite lookup_delete_ne, attempts_lookup, Hnone.
    + split; [rewrite Heq; by apply jm_delete_wf, jm_set_wf|rewrite Heq; by apply jm_all_delete|lia].
    + intros _. exists e. by rewrite Heq, jm_delete_get, decide_False, jm_get_set_eq.
Qed.

(** A receiver that is down, tried twice. *)
Definition demoReputation : ReputationOutboundBody :=
  mkReputation "rep_1" "reputation.score" "tenant" "t1" None None.
Definition triedOnce : World := (deliverReputationOutboundWebhook demoReputation demoEnv initWorld).2.
Lemma triedOnce_ok : dlq_ok triedOnce.(w_dlq).
Proof.
  split.
  - apply (bool_decide_unpack _). vm_compute. exact I.
  - repeat constructor; vm_compute; congruence.
  - vm_compute. lia.
Qed.
Lemma dead_letters_refine_witness :
  attempts (deliverReputationOutboundWebhook demoReputation demoEnv triedOnce).2.(w_dlq) !! "rep_1" = Some 2%Z /\
  exists e, jm_get "rep_1" (deliverReputationOutboundWebhook demoReputation demoEnv triedOnce).2.(w_dlq) = Some e /\
    e.(dlq_lastError) = Some "offline".
Proof.
  destruct (dead_letters_refine demoEnv triedOnce demoReputation triedOnce_ok) as (_ & _ & H).
  destruct (H eq_refl) as (e & He & _ & _ & Herr).
  split; [vm_compute; reflexivity|]. exists e. split; [exact He|exact Herr].
Defined.
