(* ===== verification/SettlementProps.v ===== *)
(** Properties of the settlements: what a ledger close does to the monthly
    rows of the running contracts. *)
From S2P Require Import Prelude JsString JsMap JsDate Types Config World Utils MemoryRepo Http Auth Notify Logic.
From S2P Require Import XrplTrack XrplWorkers Inv Loops System Demo SystemProps Wp AuditProps.
From Stdlib Require Import Ascii.

(** * Settlement identifiers tell contracts apart *)

Lemma sanitize_id c : id_char c = true -> sanitize c = c.
Proof. unfold sanitize. by intros ->. Qed.
Lemma map_sanitize l : Forall (fun c => id_char c = true) l -> sanitize <$> l = l.
Proof. induction 1 as [|c l Hc _ IH]; csimpl; [done|]. by rewrite sanitize_id, IH. Qed.
Lemma contract_id_chars env n id :
  sound_env env -> drawn env n "ctr" id -> Forall (fun c => id_char c = true) (chars id).
Proof.
  intros Hs (i & _ & ->). unfold idOfUuid. rewrite !chars_app. apply Forall_app. split; [by repeat constructor|].
  apply Forall_app. split; [by repeat constructor|]. eapply Forall_impl; [apply (sound_uuid env Hs i)|].
  intros c Hc. unfold id_char. cbv beta in Hc. destruct (is_digit c); [by rewrite orb_true_r|].
  simpl in Hc. by rewrite Hc.
Qed.
Lemma settlement_id_inj env n id id' y m :
  sound_env env -> drawn env n "ctr" id -> drawn env n "ctr" id' ->
  settlementDeterministicId id y m = settlementDeterministicId id' y m -> id = id'.
Proof.
  intros Hs H1 H2 Heq%(f_equal chars). unfold settlementDeterministicId, map_chars in Heq.
  rewrite !chars_app, !chars_of_chars, !map_sanitize in Heq by (by eapply contract_id_chars).
  apply app_inv_head, app_inv_tail in Heq. by apply (inj chars).
Qed.

(** * The loop over the contracts *)

Section touch_loop.
Context (p : TouchParams).
Definition rowOf (c : Contract) : string :=
  settlementDeterministicId c.(c_id) p.(tp_periodYear) p.(tp_periodMonth).
Definition touchedRow (c : Contract) (o : option SettlementRecord) : option SettlementRecord :=
  match touchSettlement p c.(c_id) o with Some s => Some s | None => o end.

Lemma touchStep_get c st k :
  jm_get k (touchStep p st c).1 =
  if decide (touchEligible c = true /\ rowOf c = k) then touchedRow c (jm_get k st.1) else jm_get k st.1.
Proof.
  destruct st as [m n]. simpl. destruct (touchEligible c) eqn:He.
  2:{ rewrite decide_False by naive_solver. done. }
  fold (rowOf c). destruct (decide (rowOf c = k)) as [<-|Hne].
  - rewrite decide_True by done. unfold touchedRow. destruct (touchSettlement _ _ _); [apply jm_get_set_eq|done].
  - rewrite decide_False by naive_solver. destruct (touchSettlement _ _ _); [by apply jm_get_set_ne|done].
Qed.
Lemma touchLoop_other cs st k :
  (forall c, c ∈ cs -> touchEligible c = true -> rowOf c <> k) ->
  jm_get k (fold_left (touchStep p) cs st).1 = jm_get k st.1.
Proof.
  revert st. induction cs as [|c cs IH]; intros st Hk; [done|]. simpl. rewrite IH.
  - rewrite touchStep_get, decide_False; [done|]. intros [He Hr]. by apply (Hk c); [left|..].
  - intros c' Hin. apply Hk. by right.
Qed.
Lemma touchLoop_row cs st c :
  NoDup (rowOf <$> cs) -> c ∈ cs -> touchEligible c = true ->
  jm_get (rowOf c) (fold_left (touchStep p) cs st).1 = touchedRow c (jm_get (rowOf c) st.1).
Proof.
  revert st. induction cs as [|c' cs IH]; intros st Hnd Hin He; [by apply not_elem_of_nil in Hin|].
  csimpl in Hnd. apply NoDup_cons in Hnd as [Hout Hnd]. apply elem_of_cons in Hin as [<-|Hin]; simpl.
  - rewrite touchLoop_other, touchStep_get, decide_True; [done..|].
    intros c' Hc' _ Heq. apply Hout. rewrite <-Heq. by apply list_elem_of_fmap_2.
  - rewrite IH by done. rewrite touchStep_get, decide_False; [done|]. intros [_ Heq]. apply Hout. rewrite Heq.
    by apply list_elem_of_fmap_2.
Qed.
End touch_loop.

(** The contracts of a well-formed store have different rows. *)
Lemma contract_ids env n db : db_wf env n db -> c_id <$> jm_values db.(contracts) = jm_keys db.(contracts).
Proof.
  intros Hwf. unfold jm_values, jm_keys. rewrite <-list_fmap_compose. apply list_fmap_ext. intros i [k c] Hi.
  assert (jm_get k db.(contracts) = Some c) as Hc.
  { apply jm_in_get; [apply Hwf.(wf_contracts _ _ _)|by eapply list_elem_of_lookup_2]. }
  by destruct (keyed_get _ _ _ _ Hwf.(wf_contracts _ _ _) Hc) as [? _].
Qed.
Lemma rows_differ env n db p :
  sound_env env -> db_wf env n db -> NoDup (rowOf p <$> jm_values db.(contracts)).
Proof.
  intros Hs Hwf. pose proof Hwf.(wf_contracts _ _ _) as Hk.
  assert (Hnd : NoDup (c_id <$> jm_values db.(contracts))) by (rewrite (contract_ids _ _ _ Hwf); apply Hk).
  assert (Hrow : rowOf p <$> jm_values db.(contracts) =
    (fun id => settlementDeterministicId id p.(tp_periodYear) p.(tp_periodMonth)) <$> (c_id <$> jm_values db.(contracts))).
  { by rewrite <-list_fmap_compose. }
  rewrite Hrow. apply NoDup_fmap_2_strong; [|done].
  assert (Hd : forall x, x ∈ c_id <$> jm_values db.(contracts) -> drawn env n "ctr" x).
  { intros x (c & -> & Hc)%list_elem_of_fmap. by destruct (keyed_value _ _ _ Hk Hc) as (k & _ & -> & ?). }
  intros x y Hx Hy. eapply settlement_id_inj; eauto.
Qed.

(** * A ledger close *)

Definition running (c : Contract) : Prop := c.(c_status) = CS_active \/ c.(c_status) = CS_escrow_validated.
Lemma running_spec c : touchEligible c = true <-> running c.
Proof. unfold touchEligible, running. by rewrite orb_true_iff, !bool_decide_eq_true. Qed.

(** What the loop leaves, at the end of the handler. *)
Lemma handleLedgerClosed_settlements env w ledger time :
  ledger.(lg_ledger_time) = Some time ->
  ingestionKey ledger.(lg_ledger_index) ("ledger:" +:+ num_str ledger.(lg_ledger_index))
    "xrpl_subscribe_ledger_closed" ∉ w.(w_db).(xrplIngestionDedup) ->
  let '(y, m) := calendarMonthFromLedgerStream (Some time) 0 in
  wp (handleLedgerClosed ledger true) env w (fun _ w' => exists now,
    w'.(w_db).(settlements) = (fold_left (touchStep (mkTouch y m ledger.(lg_ledger_index) now))
      (jm_values w.(w_db).(contracts)) (w.(w_db).(settlements), 0%Z)).1).
Proof.
  intros Ht Hnew. destruct (calendarMonthFromLedgerStream (Some time) 0) as [y m] eqn:Hym.
  unfold handleLedgerClosed, tryRecordXrplIngestionEvent. wp_step. wp_step. rewrite bool_decide_false by done.
  repeat wp_step. simpl negb. cbv iota. repeat wp_step.
  apply wp_bind, wp_background; [total_auto|keeps_auto|]. intros [] w1 Hb1.
  unfold afterSettlementLedgerClosedEvent. rewrite Ht. simpl negb. cbv iota. repeat wp_step.
  rewrite Hym. unfold touchSettlementsOnLedgerClose. repeat wp_step.
  apply wp_background; [total_auto|keeps_auto|]. intros [] w2 Hb2. simpl in Hb2.
  destruct Hb1 as (Hc & _ & _ & _ & _ & _ & _ & _ & _ & Hs & _). destruct Hb2 as (_ & _ & _ & _ & _ & _ & _ & _ & _ & Hs2 & _).
  simpl in *. rewrite Hs2, Hc, Hs. eauto.
Qed.

(** C32: A new ledger close touches the row of the ledger's calendar month of
    every running contract exactly once: it creates the row with a count of
    one, adds one to the count of a row that is not archived and keeps its
    status and amounts, and leaves an archived row and all other rows as they
    are. *)
Theorem ledger_close_touches env w ledger time :
  sound_env env -> db_wf env w.(w_rnd) w.(w_db) -> ledger.(lg_ledger_time) = Some time ->
  ingestionKey ledger.(lg_ledger_index) ("ledger:" +:+ num_str ledger.(lg_ledger_index))
    "xrpl_subscribe_ledger_closed" ∉ w.(w_db).(xrplIngestionDedup) ->
  let '(y, m) := calendarMonthFromLedgerStream (Some time) 0 in
  let row (c : Contract) := settlementDeterministicId c.(c_id) y m in
  exists w', handleLedgerClosed ledger true env w = (inr tt, w') /\
    (forall c, c ∈ jm_values w.(w_db).(contracts) -> running c ->
       match jm_get (row c) w.(w_db).(settlements) with
       | None => exists s, jm_get (row c) w'.(w_db).(settlements) = Some s /\ s.(s_contractId) = c.(c_id) /\
           s.(s_periodYear) = y /\ s.(s_periodMonth) = m /\ s.(s_status) = SS_collecting /\
           s.(s_ledgerCloseCount) = Some 1%Z /\ s.(s_lastLedgerIndex) = Some ledger.(lg_ledger_index)
       | Some s => if decide (s.(s_status) = SS_archived) then jm_get (row c) w'.(w_db).(settlements) = Some s
           else exists s', jm_get (row c) w'.(w_db).(settlements) = Some s' /\ s'.(s_status) = s.(s_status) /\
             s'.(s_ledgerCloseCount) = Some (default 0%Z s.(s_ledgerCloseCount) + 1)%Z /\
             s'.(s_lastLedgerIndex) = Some ledger.(lg_ledger_index) /\ s'.(s_amountMinor) = s.(s_amountMinor)
       end) /\
    (forall k, (forall c, c ∈ jm_values w.(w_db).(contracts) -> running c -> row c <> k) ->
       jm_get k w'.(w_db).(settlements) = jm_get k w.(w_db).(settlements)).
Proof.
  intros Hs Hwf Ht Hnew. pose proof (handleLedgerClosed_settlements env w ledger time Ht Hnew) as H.
  destruct (calendarMonthFromLedgerStream _ _) as [y m]. intros row.
  apply wp_elim in H as ([] & w' & E & now & Hset). exists w'. split; [done|]. rewrite Hset.
  set (p := mkTouch y m _ now). split.
  - intros c Hc Hrun%running_spec. change (row c) with (rowOf p c).
    rewrite (touchLoop_row p) by (try done; by eapply rows_differ). cbn [fst]. unfold touchedRow.
    destruct (jm_get (rowOf p c) _) as [s|]; simpl; [|eexists; by split_and!].
    case_bool_decide; case_decide; try done. eexists. by split_and!.
  - intros k Hk. apply (touchLoop_other p). intros c Hc Hrun%running_spec. by apply Hk.
Qed.

(** A validated escrow and two closes in one month. *)
Definition closeEnv : Env :=
  mkEnv settleEnv.(env_cfg) boundedEnv.(env_clock) demoUuid
    demoEnv.(env_sha256) demoEnv.(env_hmac) demoEnv.(env_legacyDate) demoEnv.(env_rippled)
    demoEnv.(env_submit) demoEnv.(env_walletAddress) demoEnv.(env_fetch) demoEnv.(env_base64)
    demoEnv.(env_encrypt) demoEnv.(env_decrypt).
Lemma closeEnv_sound : sound_env closeEnv.
Proof. split; apply boundedEnv_sound. Qed.
Definition closedOnce : World :=
  (runTask (K_ledger_stream (mkLedger 100 None (Some 820000000%Z) None)) closeEnv
    (runCalls closeEnv [demoContract; demoStatus CS_escrow_pending; demoStatus CS_escrow_validated] initWorld)).2.
Definition secondClose : LedgerStream := mkLedger 101 None (Some 820000003%Z) None.
Lemma closedOnce_wf : db_wf closeEnv closedOnce.(w_rnd) closedOnce.(w_db).
Proof.
  apply reachable_ok; [|ids]. eapply rtc_r; [apply runCalls_reachable|].
  exact (T_job closeEnv (K_ledger_stream (mkLedger 100 None (Some 820000000%Z) None)) _).
Qed.
Lemma ledger_close_touches_witness :
  exists w' s, handleLedgerClosed secondClose true closeEnv closedOnce = (inr tt, w') /\
    jm_get (settlementDeterministicId c_ctr 2025 12) w'.(w_db).(settlements) = Some s /\
    s.(s_ledgerCloseCount) = Some 2%Z.
Proof.
  assert (Hnew : ingestionKey 101 ("ledger:" +:+ num_str 101) "xrpl_subscribe_ledger_closed"
    ∉ closedOnce.(w_db).(xrplIngestionDedup)) by (apply (bool_decide_unpack _); vm_compute; exact I).
  pose proof (ledger_close_touches closeEnv closedOnce secondClose 820000003 closeEnv_sound closedOnce_wf
    eq_refl Hnew) as H.
  assert (Hym : calendarMonthFromLedgerStream (Some 820000003%Z) 0 = (2025, 12)%Z) by (vm_compute; reflexivity).
  rewrite Hym in H. destruct H as (w' & E & Hrow & _).
  destruct (jm_get c_ctr closedOnce.(w_db).(contracts)) as [c|] eqn:Hc; [|vm_compute in Hc; discriminate Hc].
  assert (Hin : c ∈ jm_values closedOnce.(w_db).(contracts)).
  { apply list_elem_of_fmap. exists (c_ctr, c). split; [reflexivity|by apply jm_get_in]. }
  vm_compute in Hc. injection Hc as Hc.
  assert (Hrun : running c) by (subst c; right; reflexivity).
  specialize (Hrow c Hin Hrun).
  assert (Hid : c.(c_id) = c_ctr) by (subst c; vm_compute; reflexivity). rewrite Hid in Hrow.
  destruct (jm_get (settlementDeterministicId c_ctr 2025 12) closedOnce.(w_db).(settlements)) as [s|] eqn:Hs;
    [|vm_compute in Hs; discriminate Hs].
  assert (Hst : s.(s_status) = SS_collecting /\ s.(s_ledgerCloseCount) = Some 1%Z).
  { vm_compute in Hs. injection Hs as <-. split; reflexivity. }
  destruct Hst as [Hst Hcount]. rewrite decide_False in Hrow by (rewrite Hst; discriminate).
  destruct Hrow as (s' & Hs' & _ & Hcount' & _). exists w', s'. split; [exact E|]. split; [exact Hs'|].
  rewrite Hcount', Hcount. reflexivity.
Defined.
