(* ===== verification/XrplProps.v ===== *)
(** The XRPL side: what reconciling a transaction with the ledger does to it
    and to its dispute, the policy worker's backoff and give-up, the leases on
    its jobs, the rate limit of the transaction stream, the deduplication of
    stream messages, and runs where execution goes wrong. *)
From S2P Require Import Prelude JsString JsMap JsDate Types Config World Utils MemoryRepo Http Auth Notify Logic.
From S2P Require Import XrplTrack XrplWorkers Contracts Evidence Disputes XrplApi NotifyApi Settlements Export Inv.
From S2P Require Import Loops Steps ContractSteps XrplSteps DisputeSteps System Demo SystemProps Wp.

(** * Reconciliation *)

(** A dispute after the transaction [t] was reconciled: a pending execution is
    resolved by a validated transaction. *)
Definition settledDispute (t : XrplTransaction) (now : string) (d : DisputeCase) : DisputeCase :=
  if t.(x_validated) && bool_decide (t.(x_disputeId) = Some d.(d_id))
     && bool_decide (d.(d_status) = DS_execution_pending)
  then d <| d_status := if bool_decide (t.(x_outcomeClass) = Some OC_success) then DS_executed else DS_rejected |>
         <| d_updatedAt := now |>
  else d.

Lemma wp_resolveDispute t d env w (Q : unit -> World -> Prop) :
  (forall now w', w'.(w_db).(xrplTxs) = w.(w_db).(xrplTxs) ->
     w'.(w_db).(disputes) = jm_set d.(d_id)
       (d <| d_status := if bool_decide (t.(x_outcomeClass) = Some OC_success) then DS_executed else DS_rejected |>
          <| d_updatedAt := now |>) w.(w_db).(disputes) -> Q tt w') ->
  wp (resolveDispute t d) env w Q.
Proof.
  intros HQ. unfold resolveDispute, saveDispute, getContract. wp_step. apply wp_modify.
  apply wp_background; [total_auto|keeps_auto|]. intros [] w' (_ & _ & Hd & _ & Hx & _).
  eapply HQ; [exact Hx|exact Hd].
Qed.

Lemma drawn_nonempty env n p id : drawn env n p id -> p <> "" -> id <> "".
Proof. intros (i & _ & ->) Hp E. unfold idOfUuid in E. by destruct p. Qed.

Lemma settled_others t now (m : JsMap DisputeCase) did d id :
  (forall k x, jm_get k m = Some x -> x.(d_id) = k) ->
  t.(x_validated) = true -> t.(x_disputeId) = Some did -> jm_get did m = Some d ->
  d.(d_status) = DS_execution_pending ->
  jm_get id (jm_set d.(d_id)
    (d <| d_status := if bool_decide (t.(x_outcomeClass) = Some OC_success) then DS_executed else DS_rejected |>
       <| d_updatedAt := now |>) m) = settledDispute t now <$> jm_get id m.
Proof.
  intros Hk Hv Hx Hd Hs. pose proof (Hk _ _ Hd) as Hid. rewrite jm_get_set. case_decide as E.
  - subst id. rewrite Hid, Hd. simpl. unfold settledDispute.
    rewrite Hv, Hx, Hid, Hs, (bool_decide_true (Some did = _)), (bool_decide_true (_ = DS_execution_pending)) by done.
    by rewrite <-Hid.
  - destruct (jm_get id m) as [d'|] eqn:Hd'; [|done]. simpl. unfold settledDispute.
    rewrite (Hk _ _ Hd'), Hx. rewrite (bool_decide_false (Some did = Some id)) by congruence.
    by rewrite andb_false_r.
Qed.
Lemma settled_none t now (m : JsMap DisputeCase) id :
  (forall d, jm_get id m = Some d -> settledDispute t now d = d) ->
  jm_get id m = settledDispute t now <$> jm_get id m.
Proof. intros H. destruct (jm_get id m) as [d|]; [|done]. simpl. by rewrite H. Qed.

(** The dispute part of [applyLiveTxStatus]. *)
Definition settleOf (t : XrplTransaction) : M unit :=
  match t.(x_disputeId) with
  | Some did =>
      if truthy (Some did) && t.(x_validated) then
        dispute ← getDispute did;
        match dispute with
        | Some d => if bool_decide (d.(d_status) = DS_execution_pending) then resolveDispute t d else mret tt
        | None => mret tt
        end
      else mret tt
  | None => mret tt
  end.

Section settle.
Context (env : Env) (t : XrplTransaction) (w : World).
Context (Hkeys : forall k x, jm_get k w.(w_db).(disputes) = Some x -> x.(d_id) = k /\ k <> "").
Context (Q : unit -> World -> Prop).

Lemma wp_settleOf :
  (forall now w', w'.(w_db).(xrplTxs) = w.(w_db).(xrplTxs) ->
    (forall id, jm_get id w'.(w_db).(disputes) = settledDispute t now <$> jm_get id w.(w_db).(disputes)) ->
    Q tt w') -> wp (settleOf t) env w Q.
Proof using Hkeys.
  intros HQ.
  assert (Hno : (forall id d, jm_get id w.(w_db).(disputes) = Some d -> settledDispute t "" d = d) ->
                wp (mret tt) env w Q).
  { intros H. apply wp_ret, (HQ ""); [done|]. intros id. apply settled_none, H. }
  unfold settleOf. destruct (x_disputeId t) as [did|] eqn:Hdid.
  2:{ apply Hno. intros id d _. unfold settledDispute. by rewrite Hdid, andb_false_r. }
  destruct (truthy (Some did) && x_validated t) eqn:Hv.
  2:{ apply Hno. intros id d Hd. unfold settledDispute. rewrite Hdid.
      destruct (x_validated t); [|done]. rewrite andb_true_r in Hv. simpl in Hv. bool_to_prop. subst did.
      destruct (Hkeys _ _ Hd) as [<- ?]. by rewrite bool_decide_false by congruence. }
  apply andb_prop in Hv as [_ Hv]. unfold getDispute. wp_step.
  destruct (jm_get did _) as [d|] eqn:Hd.
  2:{ apply Hno. intros id d' Hd'. unfold settledDispute. rewrite Hdid. destruct (Hkeys _ _ Hd') as [<- _].
      rewrite bool_decide_false by congruence. by rewrite andb_false_r. }
  case_bool_decide as Hs.
  2:{ apply Hno. intros id d' Hd'. unfold settledDispute. rewrite Hdid. destruct (Hkeys _ _ Hd') as [<- _].
      destruct (decide (did = d_id d')) as [->|Hne].
      - assert (d' = d) as -> by congruence. by rewrite (bool_decide_false (d_status d = _)), andb_false_r by done.
      - rewrite (bool_decide_false (Some did = _)) by congruence. by rewrite andb_false_r. }
  apply wp_resolveDispute. intros now w' Hx Hds. apply (HQ now); [done|]. intros id. rewrite Hds.
  apply (settled_others t now _ did d id); try done. intros k x Hk. by apply Hkeys.
Qed.
End settle.

Lemma wp_applyLive env n w txHash live t (Q : bool -> World -> Prop) :
  db_wf env n w.(w_db) -> jm_get txHash w.(w_db).(xrplTxs) = Some t ->
  let t' := reconciled live (toISOString (env_clock env (w_clk w))) t in
  (forall now w', w'.(w_db).(xrplTxs) = jm_set txHash t' w.(w_db).(xrplTxs) ->
     (forall id, jm_get id w'.(w_db).(disputes) = settledDispute t' now <$> jm_get id w.(w_db).(disputes)) ->
     Q true w') ->
  wp (applyLiveTxStatus txHash live) env w Q.
Proof.
  intros Hwf Ht t' HQ. pose proof (keyed_get _ _ _ _ Hwf.(wf_xrplTxs _ _ _) Ht) as Hh. simpl in Hh.
  unfold applyLiveTxStatus, getXrplTx, recordXrplTxOutcomeClassified, saveXrplTx. wp_step. rewrite Ht.
  repeat wp_step. fold t'. cbv zeta. apply wp_bind. fold (settleOf t'). apply wp_settleOf.
  - simpl. intros k x Hx. destruct (keyed_get _ _ _ _ Hwf.(wf_disputes _ _ _) Hx) as (? & Hdr & _).
    split; [done|]. by eapply drawn_nonempty.
  - intros now w' Hx Hd. apply wp_ret, (HQ now); [|exact Hd]. rewrite Hx. simpl. by rewrite Hh.
Qed.

Lemma classify_success rc :
  classifyXrplResultCode rc = OC_success <-> exists c, rc = Some c /\ startsWith c "tes" = true.
Proof.
  unfold classifyXrplResultCode. destruct rc as [c|]; [|split; [done|by intros (? & ? & _)]].
  destruct (decide (c = "")) as [->|Hc]; [split; [done|by intros (? & [= <-] & ?)]|].
  assert (truthy (Some c) = true) as -> by (simpl; by rewrite bool_decide_false). cbn [negb].
  destruct (startsWith c "tes") eqn:Hp; [split; eauto|].
  split; [by repeat case_match|]. intros (? & [= <-] & ?). congruence.
Qed.
Lemma statusOfLive_success v rc :
  statusOfLive v (classifyXrplResultCode rc) = TS_validated_success <->
  v = true /\ exists c, rc = Some c /\ startsWith c "tes" = true.
Proof.
  rewrite <-classify_success. unfold statusOfLive.
  destruct v, (classifyXrplResultCode rc); vm_compute; split; try done; by intros [].
Qed.

(** C19: Reconciling a tracked transaction with what the ledger says always
    succeeds, changes that row alone among the transactions, marks it validated
    exactly when the ledger does and successful exactly when the ledger
    validated it with a tes code; and the only dispute it touches is the one
    being executed by it: if it is execution_pending and the transaction is
    validated it becomes executed (tes) or rejected (anything else). *)
Theorem live_status_applied env n w txHash live t :
  db_wf env n w.(w_db) -> jm_get txHash w.(w_db).(xrplTxs) = Some t ->
  exists w' t' now, applyLiveTxStatus txHash live env w = (inr true, w') /\
    (forall h, jm_get h w'.(w_db).(xrplTxs) =
       if decide (txHash = h) then Some t' else jm_get h w.(w_db).(xrplTxs)) /\
    t'.(x_txHash) = txHash /\ t'.(x_disputeId) = t.(x_disputeId) /\ t'.(x_retries) = t.(x_retries) /\
    t'.(x_validated) = live.(lt_validated) /\ t'.(x_resultCode) = live.(lt_resultCode) /\
    (t'.(x_trackingStatus) = TS_validated_success <->
       live.(lt_validated) = true /\ exists rc, live.(lt_resultCode) = Some rc /\ startsWith rc "tes" = true) /\
    (t'.(x_trackingStatus) = TS_pending_validation <-> live.(lt_validated) = false) /\
    (forall id, jm_get id w'.(w_db).(disputes) = settledDispute t' now <$> jm_get id w.(w_db).(disputes)).
Proof.
  intros Hwf Ht. pose proof (keyed_get _ _ _ _ Hwf.(wf_xrplTxs _ _ _) Ht) as Hh. simpl in Hh.
  set (t' := reconciled live (toISOString (env_clock env (w_clk w))) t).
  assert (Hwp : wp (applyLiveTxStatus txHash live) env w (fun r w' => r = true /\
    w'.(w_db).(xrplTxs) = jm_set txHash t' w.(w_db).(xrplTxs) /\ exists now, forall id,
      jm_get id w'.(w_db).(disputes) = settledDispute t' now <$> jm_get id w.(w_db).(disputes))).
  { eapply wp_applyLive; [done..|]. eauto. }
  apply wp_elim in Hwp as (r & w' & E & -> & Hx & now & Hds).
  exists w', t', now. split_and!; try done.
  - intros h. by rewrite Hx, jm_get_set.
  - apply statusOfLive_success.
  - simpl. unfold statusOfLive. destruct (lt_validated live); simpl; [|done]. by case_bool_decide.
Qed.

(** An execution under a placeholder hash, then the ledger's verdict. *)
Definition demoExecute : Call :=
  C_postExecution c_dsp (Valid (mkExecutionBody TX_EscrowFinish "rHb9CJAWyB4rj91VRWn96DkukG4bwdtyTh"
    (JNum 7) Net_testnet None)).
Definition demoPending : World := runCalls demoEnv [demoExecute] demoDecided.
Definition demoHash : string := default "" (head (jm_keys demoPending.(w_db).(xrplTxs))).
Definition demoVerdict : LiveTxStatus :=
  mkLive demoHash true (Some 90%Z) (Some "tesSUCCESS") (Some "EscrowFinish") None noEscrowFields.
Lemma demoPending_reachable : reachable demoEnv demoPending.
Proof. unfold reachable. etrans; [apply demoDecided_reachable|apply runCalls_rtc]. Qed.
Lemma demoPending_wf : db_wf demoEnv demoPending.(w_rnd) demoPending.(w_db).
Proof. apply reachable_ok; [apply demoPending_reachable|ids]. Qed.

Lemma live_status_applied_witness :
  (d_status <$> jm_get c_dsp demoPending.(w_db).(disputes)) = Some DS_execution_pending /\
  exists w', applyLiveTxStatus demoHash demoVerdict demoEnv demoPending = (inr true, w') /\
    (d_status <$> jm_get c_dsp w'.(w_db).(disputes)) = Some DS_executed.
Proof.
  split; [vm_compute; reflexivity|].
  destruct (jm_get demoHash demoPending.(w_db).(xrplTxs)) as [t|] eqn:Ht; [|vm_compute in Ht; discriminate Ht].
  destruct (live_status_applied demoEnv _ demoPending demoHash demoVerdict t demoPending_wf Ht)
    as (w' & t' & now & E & _).
  exists w'. split; [exact E|].
  assert (w' = (applyLiveTxStatus demoHash demoVerdict demoEnv demoPending).2) as -> by (rewrite E; reflexivity).
  vm_compute. reflexivity.
Defined.

(** * The policy worker *)

(** The delay before a probe is retried doubles with the attempts from
    the base interval, never below it and never above the configured maximum,
    never decreases, and (exponent capped at 14) its computation stays below
    2^53, within the integers a JavaScript number represents. *)
Theorem policy_backoff_bounds base maxB n m :
  (0 < base <= maxB)%Z -> (n <= m)%Z ->
  (base <= policyJobBackoffMs base maxB n <= maxB)%Z /\
  (policyJobBackoffMs base maxB n <= policyJobBackoffMs base maxB m)%Z /\
  ((0 <= n <= 14)%Z -> policyJobBackoffMs base maxB n = Z.min maxB (base * 2 ^ n)) /\
  ((base <= 2 ^ 38)%Z -> (base * 2 ^ Z.min (Z.max 0 n) 14 < 2 ^ 53)%Z).
Proof.
  intros Hb Hnm. unfold policyJobBackoffMs.
  assert (Hpos : forall k, (0 <= k)%Z -> (1 <= 2 ^ k)%Z) by (intros k ?; pose proof (Z.pow_pos_nonneg 2 k); lia).
  set (en := Z.min (Z.max 0 n) 14). set (em := Z.min (Z.max 0 m) 14).
  assert (2 ^ en <= 2 ^ em)%Z as He by (apply Z.pow_le_mono_r; lia).
  pose proof (Hpos en ltac:(lia)). split_and!; [nia|nia|nia| |].
  - intros Hn. replace en with n in * by lia. nia.
  - intros Hs. assert (2 ^ en <= 2 ^ 14)%Z by (apply Z.pow_le_mono_r; lia).
    change (2 ^ 14)%Z with 16384%Z in *. change (2 ^ 38)%Z with 274877906944%Z in *.
    change (2 ^ 53)%Z with 9007199254740992%Z. nia.
Qed.
Lemma policy_backoff_bounds_witness :
  (0 < 30000 <= 300000)%Z /\ (30000 <= policyJobBackoffMs 30000 300000 2 <= 300000)%Z /\
  policyJobBackoffMs 30000 300000 2 = 120000%Z.
Proof.
  split; [lia|]. split; [|reflexivity].
  exact (proj1 (policy_backoff_bounds 30000 300000 2 3 ltac:(lia) ltac:(lia))).
Defined.

(** * The rate limit *)

(** The calls at the given times, one after the other: how many were granted,
    and the bucket left. *)
Fixpoint consumeAll (capacity rate : Z) (times : list Z) (b : TokenBucket) : Z * TokenBucket :=
  match times with
  | [] => (0%Z, b)
  | t :: ts =>
      let '(ok, b1) := tryConsume capacity rate t b in
      let '(n, b2) := consumeAll capacity rate ts b1 in
      ((if ok : bool then n + 1 else n)%Z, b2)
  end.

Lemma tryConsume_account capacity rate t b now :
  (0 <= capacity)%Z -> (0 <= rate)%Z -> (0 <= b.(tb_millitokens) <= capacity * 1000)%Z ->
  (b.(tb_lastRefillMs) <= now)%Z -> (t <= now)%Z ->
  let '(ok, b1) := tryConsume capacity rate t b in
  (0 <= b1.(tb_millitokens) <= capacity * 1000)%Z /\ (b1.(tb_lastRefillMs) <= now)%Z /\
  ((if ok : bool then 1000 else 0) + b1.(tb_millitokens) + rate * (now - b1.(tb_lastRefillMs))
    <= b.(tb_millitokens) + rate * (now - b.(tb_lastRefillMs)))%Z.
Proof.
  intros Hc Hr Hb Hl Ht. unfold tryConsume.
  destruct ((0 <? t - tb_lastRefillMs b) && (0 <? rate))%Z eqn:E; simpl.
  - apply andb_prop in E as [E1 E2]. bool_to_prop.
    destruct (1000 <=? _)%Z eqn:E3; simpl; bool_to_prop; simpl in *; nia.
  - destruct (1000 <=? _)%Z eqn:E3; simpl; bool_to_prop; simpl in *; nia.
Qed.

(** C21: The transaction stream is rate limited: from a bucket within its
    capacity, whatever the times of the messages up to [now], at most as many
    are let through as there are tokens plus what [rate] tokens per second
    refill by [now]; the bucket stays within its capacity, and a message that
    finds a whole token is let through. *)
Theorem token_bucket_limit capacity rate times b now :
  (0 <= capacity)%Z -> (0 <= rate)%Z -> (0 <= b.(tb_millitokens) <= capacity * 1000)%Z ->
  (b.(tb_lastRefillMs) <= now)%Z -> Forall (fun t => (t <= now)%Z) times ->
  let '(granted, b') := consumeAll capacity rate times b in
  (1000 * granted <= b.(tb_millitokens) + rate * (now - b.(tb_lastRefillMs)))%Z /\
  (0 <= b'.(tb_millitokens) <= capacity * 1000)%Z /\
  (forall t, (1000 <= b.(tb_millitokens))%Z -> (tryConsume capacity rate t b).1 = true).
Proof.
  intros Hc Hr Hb Hl Hts.
  assert (H : let '(granted, b') := consumeAll capacity rate times b in
    (1000 * granted + b'.(tb_millitokens) + rate * (now - b'.(tb_lastRefillMs))
       <= b.(tb_millitokens) + rate * (now - b.(tb_lastRefillMs)))%Z /\
    (0 <= b'.(tb_millitokens) <= capacity * 1000)%Z /\ (b'.(tb_lastRefillMs) <= now)%Z).
  { revert b Hb Hl. induction Hts as [|t ts Ht _ IH]; intros b Hb Hl; simpl; [lia|].
    pose proof (tryConsume_account capacity rate t b now Hc Hr Hb Hl Ht) as Hone.
    destruct (tryConsume capacity rate t b) as [ok b1]. destruct Hone as (Hb1 & Hl1 & Hone).
    specialize (IH b1 Hb1 Hl1). destruct (consumeAll capacity rate ts b1) as [n b2].
    destruct IH as (? & ? & ?). destruct ok; split_and!; lia. }
  destruct (consumeAll capacity rate times b) as [granted b']. destruct H as (H & Hb' & Hl').
  split_and!; [nia|lia|lia|]. intros t Htok. unfold tryConsume.
  destruct ((0 <? t - tb_lastRefillMs b) && (0 <? rate))%Z eqn:E; simpl.
  - apply andb_prop in E as [E1 E2]. bool_to_prop.
    replace (1000 <=? _)%Z with true; [done|]. symmetry. apply Z.leb_le. nia.
  - replace (1000 <=? _)%Z with true; [done|]. symmetry. by apply Z.leb_le.
Qed.
Lemma token_bucket_limit_witness :
  (consumeAll 2 2 [0; 0; 0; 500; 600]%Z (newBucket 2 0)).1 = 3%Z /\ (1000 * 3 <= 2000 + 2 * (600 - 0))%Z.
Proof.
  split; [reflexivity|].
  exact (proj1 (token_bucket_limit 2 2 [0; 0; 0; 500; 600]%Z (newBucket 2 0) 600 ltac:(lia) ltac:(lia)
    ltac:(simpl; lia) ltac:(simpl; lia) ltac:(repeat constructor; lia))).
Defined.

(** * Stream messages are handled once *)

Definition isRecorded (key : string) (w : World) : Prop := key ∈ w.(w_db).(xrplIngestionDedup).

Definition dedupGrows (db db' : Db) : Prop := db.(xrplIngestionDedup) `prefix_of` db'.(xrplIngestionDedup).
#[export] Instance dedupGrows_preorder : PreOrder dedupGrows.
Proof. split; unfold dedupGrows; [intros ?; reflexivity|intros ? ? ?; by etrans]. Qed.
#[export] Instance dedupGrows_quiet : Quiet (on_db dedupGrows).
Proof.
  apply quiet_of_background; [apply _|]. intros db db' (_ & _ & _ & _ & _ & E & _). unfold dedupGrows. by rewrite E.
Qed.
Lemma dedupGrows_modify f : (forall db, (f db).(xrplIngestionDedup) = db.(xrplIngestionDedup)) ->
  keeps (on_db dedupGrows) (modify f).
Proof. intros H env w. unfold keeps_at, on_db, dedupGrows. simpl. by rewrite H. Qed.

Lemma grows_recorded {A} (m : M A) key env w :
  keeps (on_db dedupGrows) m -> isRecorded key w -> isRecorded key (m env w).2.
Proof.
  intros Hm Hk. destruct (Hm env w) as [l El]. unfold isRecorded. rewrite El. apply elem_of_app. by left.
Qed.

Lemma tryRecord_seen i h src env w :
  isRecorded (ingestionKey i h src) w -> tryRecordXrplIngestionEvent i h src env w = (inr false, w).
Proof. intros H. unfold tryRecordXrplIngestionEvent. rewrite bind_asks. by rewrite bool_decide_true. Qed.
Lemma tryRecord_records i h src env w :
  isRecorded (ingestionKey i h src) (tryRecordXrplIngestionEvent i h src env w).2.
Proof.
  unfold tryRecordXrplIngestionEvent, isRecorded. rewrite bind_asks. case_bool_decide; [done|].
  simpl. apply elem_of_app. right. by apply list_elem_of_singleton.
Qed.

(** After a recording, whatever follows keeps the record. *)
Lemma recorded_after {A} i h src (k : bool -> M A) env w :
  (forall b, keeps (on_db dedupGrows) (k b)) ->
  isRecorded (ingestionKey i h src) ((tryRecordXrplIngestionEvent i h src ≫= k) env w).2.
Proof.
  intros Hk. pose proof (tryRecord_records i h src env w) as Hr. unfold mbind, M_bind.
  destruct (tryRecordXrplIngestionEvent i h src env w) as [[e|b] w1]; [done|]. by apply grows_recorded.
Qed.
#[local] Hint Extern 3 (keeps (on_db dedupGrows) (modify _)) => apply dedupGrows_modify; intros; reflexivity : keeps.

Lemma grows_applyLive h l : keeps (on_db dedupGrows) (applyLiveTxStatus h l).
Proof.
  unfold applyLiveTxStatus, resolveDispute, getXrplTx, getDispute, getContract, saveXrplTx, saveDispute,
    recordXrplTxOutcomeClassified. keeps_auto.
Qed.

Lemma processTransaction_recorded stream hash i t env w :
  txHashFromStream stream = Some hash -> jnum (jget "ledger_index" stream) = Some i -> (0 <= i)%Z ->
  jm_get hash w.(w_db).(xrplTxs) = Some t ->
  isRecorded (ingestionKey i hash "xrpl_subscribe_transaction") (processTransaction stream env w).2.
Proof.
  intros Hh Hi Hpos Ht. unfold processTransaction, getXrplTx. rewrite Hh, Hi. cbn [default]. 
  replace (_ <? 0)%Z with false by (symmetry; apply Z.ltb_ge; exact Hpos). rewrite bind_asks, Ht.
  apply recorded_after. intros b. pose proof grows_applyLive. keeps_auto.
Qed.
Lemma processTransaction_seen stream hash i env w :
  txHashFromStream stream = Some hash -> jnum (jget "ledger_index" stream) = Some i ->
  isRecorded (ingestionKey i hash "xrpl_subscribe_transaction") w ->
  processTransaction stream env w = (inr tt, w).
Proof.
  intros Hh Hi Hr. unfold processTransaction, getXrplTx. rewrite Hh, Hi. cbn [default].
  destruct (_ <? 0)%Z; [done|]. rewrite bind_asks. destruct (jm_get hash _); [|done].
  unfold mbind at 1, M_bind. by rewrite tryRecord_seen.
Qed.

(** C22: A stream message is handled once: after the validated message of a
    tracked transaction was handled, handling it again at any later time, with
    any requests, ticks and messages in between, changes nothing at all; and
    so it is with a ledger close, which counts and touches settlements once. *)
Theorem stream_messages_once env w stream hash i t w2 ledger touch w3 :
  reachable env w -> ids_distinct env w2.(w_rnd) -> ids_distinct env w3.(w_rnd) ->
  txHashFromStream stream = Some hash -> jnum (jget "ledger_index" stream) = Some i -> (0 <= i)%Z ->
  jm_get hash w.(w_db).(xrplTxs) = Some t ->
  rtc (transition env) (processTransaction stream env w).2 w2 ->
  rtc (transition env) (handleLedgerClosed ledger touch env w).2 w3 ->
  processTransaction stream env w2 = (inr tt, w2) /\
  handleLedgerClosed ledger touch env w3 = (inr tt, w3).
Proof.
  intros Hr Hd2 Hd3 Hh Hi Hpos Ht Hrun2 Hrun3.
  assert (Hlater : forall (m : M unit) key w', (forall n0, keeps (Step n0) m) ->
    isRecorded key (m env w).2 -> rtc (transition env) (m env w).2 w' -> ids_distinct env w'.(w_rnd) ->
    isRecorded key w').
  { intros m key w' Hm Hk Hrun Hd. destruct (run_step (m env w).2.(w_rnd) _ _ _ Hrun) as [Hle Hs].
    assert (Hd1 : ids_distinct env (m env w).2.(w_rnd)) by by eapply ids_distinct_le.
    destruct (Hm w.(w_rnd) env w) as [Hle0 Hs0].
    destruct Hs0 as [Hwf _]; [done..|apply reachable_ok; [done|by eapply ids_distinct_le]|].
    destruct Hs as [_ He]; [done..|]. destruct (ev_dedup _ _ _ _ _ He) as [l El].
    unfold isRecorded. rewrite El. apply elem_of_app. by left. }
  split.
  - eapply processTransaction_seen; [done..|]. eapply (Hlater (processTransaction stream)); try done.
    + intros n0. unfold processTransaction. keeps_reads.
    + by eapply processTransaction_recorded.
  - unfold handleLedgerClosed. unfold mbind at 1, M_bind. rewrite tryRecord_seen; [done|].
    eapply (Hlater (handleLedgerClosed ledger touch)); try done.
    + intros n0. apply step_handleLedgerClosed.
    + apply recorded_after. unfold afterSettlementLedgerClosedEvent, touchSettlementsOnLedgerClose.
      intros b. keeps_auto.
Qed.

Definition demoStream : JsVal :=
  JObj [("hash", JStr demoHash); ("ledger_index", JNum 90); ("validated", JBool true);
        ("engine_result", JStr "tesSUCCESS");
        ("transaction", JObj [("TransactionType", JStr "EscrowFinish")])].
Definition demoLedger : LedgerStream := mkLedger 100 None (Some 820000000%Z) None.
Definition demoStreamed : World := (processTransaction demoStream demoEnv demoPending).2.
Definition demoClosed : World := (handleLedgerClosed demoLedger true demoEnv demoPending).2.
Lemma stream_messages_once_witness :
  (d_status <$> jm_get c_dsp demoStreamed.(w_db).(disputes)) = Some DS_executed /\
  processTransaction demoStream demoEnv demoStreamed = (inr tt, demoStreamed).
Proof.
  split; [vm_compute; reflexivity|].
  destruct (jm_get demoHash demoPending.(w_db).(xrplTxs)) as [t|] eqn:Ht; [|vm_compute in Ht; discriminate Ht].
  assert (Hd2 : ids_distinct demoEnv demoStreamed.(w_rnd)) by ids.
  assert (Hd3 : ids_distinct demoEnv demoClosed.(w_rnd)) by ids.
  assert (Hh : txHashFromStream demoStream = Some demoHash) by (vm_compute; reflexivity).
  assert (Hi : jnum (jget "ledger_index" demoStream) = Some 90%Z) by (vm_compute; reflexivity).
  destruct (stream_messages_once demoEnv demoPending demoStream demoHash 90 t demoStreamed demoLedger true
    demoClosed demoPending_reachable Hd2 Hd3 Hh Hi ltac:(lia) Ht (rtc_refl _ _) (rtc_refl _ _)) as [H _].
  exact H.
Defined.

(** * Leases on the probe jobs *)

Lemma putJob_spec x env w : exists db',
  putJob x env w = (inr tt, w <| w_db := db' |>) /\
  db'.(delayedJobs) = jm_set x.(j_id) x w.(w_db).(delayedJobs).
Proof. by eexists. Qed.

(** The candidates of a claim. *)
Definition claimCandidates (legacy : string -> option Z) (kind : string) (nowMs : Z) (limit : nat) (db : Db) :
    list DelayedJob :=
  take limit (js_sort (by_asc j_runAfter)
    (filter (fun j => jobClaimable legacy kind nowMs j) (jm_values db.(delayedJobs)))).

Lemma claim_outcome env n w kind now limit ttl :
  db_wf env n w.(w_db) -> iso_range now ->
  let cand := claimCandidates env.(env_legacyDate) kind now limit w.(w_db) in
  exists db', claimDueDelayedJobs kind (toISOString now) limit ttl env w
    = (inr (claimedJob (toISOString (now + ttl)) (toISOString now) <$> cand), w <| w_db := db' |>) /\
  (forall j, j ∈ cand -> jobClaimable env.(env_legacyDate) kind now j = true /\
     jm_get j.(j_id) w.(w_db).(delayedJobs) = Some j /\
     jm_get j.(j_id) db'.(delayedJobs) = Some (claimedJob (toISOString (now + ttl)) (toISOString now) j)) /\
  (forall k, k ∉ j_id <$> cand -> jm_get k db'.(delayedJobs) = jm_get k w.(w_db).(delayedJobs)).
Proof.
  intros Hwf Hnow cand.
  destruct (current_selection delayedJobs j_id (fun k j => j.(j_id) = k) w.(w_db)
    (fun j => jobClaimable env.(env_legacyDate) kind now j) (by_asc j_runAfter) limit (wf_jobs _ _ _ Hwf))
    as [[Hnd Hcur] Hall]; [done|].
  destruct (claim_result delayedJobs putJob j_id (claimedJob (toISOString (now + ttl)) (toISOString now))
    (fun x => putJob_spec (claimedJob _ _ x)) cand env w Hnd) as (db' & E & Hin & Hout).
  exists db'. split_and!.
  - unfold claimDueDelayedJobs. rewrite bind_askEnv. unfold date_parse. rewrite parse_iso_toISOString by done.
    rewrite bind_asks. cbv zeta. unfold mbind at 1, M_bind. unfold cand, claimCandidates in E |- *.
    by rewrite E.
  - intros j Hj. rewrite Forall_forall in Hall. split_and!; [by apply Hall|by apply Hcur|by apply Hin].
  - apply Hout.
Qed.

(** The jobs left by a claim are still under their identifiers. *)
Lemma claim_wf env n w kind now limit ttl jobs w1 :
  db_wf env n w.(w_db) -> claimDueDelayedJobs kind now limit ttl env w = (inr jobs, w1) ->
  keyed (fun k j => j.(j_id) = k) w1.(w_db).(delayedJobs).
Proof.
  intros Hwf E.
  assert (Hk : keeps (on_db (fun db db' => keyed (fun k j => j.(j_id) = k) db.(delayedJobs) ->
                                          keyed (fun k j => j.(j_id) = k) db'.(delayedJobs)))
                 (claimDueDelayedJobs kind now limit ttl)).
  { assert (PreOrder (fun db db' => keyed (fun k j => j.(j_id) = k) db.(delayedJobs) ->
                                   keyed (fun k j => j.(j_id) = k) db'.(delayedJobs))) by (split; red; auto).
    unfold claimDueDelayedJobs. keeps_auto. intros env0 w0 Hkey. simpl. by apply keyed_set. }
  specialize (Hk env w). unfold keeps_at, on_db in Hk. rewrite E in Hk. apply Hk, Hwf.
Qed.
Lemma claim_total kind now limit ttl : total (claimDueDelayedJobs kind now limit ttl).
Proof. unfold claimDueDelayedJobs, putJob. total_auto. Qed.

(** Whoever claims gets jobs that are in the store, without a running lease. *)
Lemma claim_from env w kind now limit ttl jobs w1 :
  keyed (fun k j => j.(j_id) = k) w.(w_db).(delayedJobs) -> iso_range now ->
  claimDueDelayedJobs kind (toISOString now) limit ttl env w = (inr jobs, w1) ->
  forall j, j ∈ jobs -> exists j0, jm_get j.(j_id) w.(w_db).(delayedJobs) = Some j0 /\
    jobClaimable env.(env_legacyDate) kind now j0 = true.
Proof.
  intros Hk Hnow E j Hj. unfold claimDueDelayedJobs in E. rewrite bind_askEnv in E. unfold date_parse in E.
  rewrite parse_iso_toISOString in E by done. rewrite bind_asks in E. unfold mbind at 1, M_bind in E.
  destruct (forEach _ _ env w) as [[e|[]] w2]; [done|]. injection E as <- _.
  apply list_elem_of_fmap in Hj as (j0 & -> & Hj0). exists j0.
  eapply elem_of_sublist in Hj0; [|apply sublist_take].
  apply elem_of_js_sort, list_elem_of_filter in Hj0 as [Hc Hv].
  apply keyed_value with (P := fun k j => j.(j_id) = k) in Hv as (k & Hg & <-); [|done].
  split; [exact Hg|by apply Is_true_true].
Qed.

(** C23: A claimed probe job is leased: as long as the lease of a claim has
    not run out, no other claim gets the job; every claimed job was due and of
    the asked kind, and at most [limit] jobs are claimed. *)
Theorem job_leases_exclusive env n w kind now1 limit1 ttl jobs1 w1 kind2 now2 limit2 ttl2 :
  db_wf env n w.(w_db) -> iso_range now1 -> iso_range (now1 + ttl) -> iso_range now2 ->
  claimDueDelayedJobs kind (toISOString now1) limit1 ttl env w = (inr jobs1, w1) ->
  (now2 < now1 + ttl)%Z ->
  (length jobs1 <= limit1)%nat /\
  (forall j, j ∈ jobs1 -> j.(j_kind) = kind /\ parsedLe env.(env_legacyDate) j.(j_runAfter) now1 = true) /\
  exists jobs2 w2, claimDueDelayedJobs kind2 (toISOString now2) limit2 ttl2 env w1 = (inr jobs2, w2) /\
    forall j, j ∈ jobs1 -> forall j', j' ∈ jobs2 -> j'.(j_id) <> j.(j_id).
Proof.
  intros Hwf Hn1 Hlock Hn2 E Hlt. pose proof (claim_wf _ _ _ _ _ _ _ _ _ Hwf E) as Hk1.
  destruct (claim_outcome env n w kind now1 limit1 ttl Hwf Hn1) as (db1 & E1 & Hin & Hout).
  rewrite E1 in E. injection E as <- <-. split_and!.
  - rewrite length_fmap. unfold claimCandidates. rewrite length_take. lia.
  - intros j' (j & -> & Hj)%list_elem_of_fmap. destruct (Hin j Hj) as [Hc _]. unfold jobClaimable in Hc.
    bool_to_prop. by split.
  - destruct (claim_total kind2 (toISOString now2) limit2 ttl2 env (w <| w_db := db1 |>)) as (jobs2 & w2 & E2).
    exists jobs2, w2. split; [exact E2|]. intros j' (j & -> & Hj)%list_elem_of_fmap j2 Hj2 Heq. simpl in Heq.
    destruct (claim_from _ _ _ _ _ _ _ _ Hk1 Hn2 E2 j2 Hj2) as (j0 & Hg & Hc).
    destruct (Hin j Hj) as (_ & _ & Hg1). rewrite Heq in Hg. simpl in Hg. rewrite Hg1 in Hg. injection Hg as <-.
    apply andb_prop in Hc as [_ Hc].
    change (j_lockedUntil (claimedJob _ _ j)) with (Some (toISOString (now1 + ttl))) in Hc.
    rewrite toISOString_truthy in Hc. unfold parsedLe, date_parse in Hc. cbn [from_option id] in Hc.
    rewrite parse_iso_toISOString in Hc by done. bool_to_prop. lia.
Qed.

(** The job scheduled for a transaction that has been pending for too long. *)
Definition demoJob : DelayedJob :=
  mkJob (xrplTxPolicyJobId "ABCDEF0123456789") XRPL_TX_POLICY_JOB_KIND [("txHash", JStr "ABCDEF0123456789")]
    (toISOString 1767225600000) 0 64 None None (toISOString 1767225600000) (toISOString 1767225600000).
Definition jobWorld : World := (createDelayedJobIfAbsent demoJob demoEnv initWorld).2.
Lemma jobWorld_wf : db_wf demoEnv jobWorld.(w_rnd) jobWorld.(w_db).
Proof.
  destruct (step_createDelayedJobIfAbsent 0 demoJob demoEnv initWorld) as [_ H].
  apply H; [simpl; lia|ids|apply emptyDb_wf].
Qed.
Lemma job_leases_exclusive_witness :
  exists jobs1 w1, claimDueDelayedJobs XRPL_TX_POLICY_JOB_KIND (toISOString 1767225600000) 10 120000 demoEnv jobWorld
      = (inr jobs1, w1) /\ length jobs1 = 1 /\
    exists jobs2 w2, claimDueDelayedJobs XRPL_TX_POLICY_JOB_KIND (toISOString 1767225601000) 10 120000 demoEnv w1
      = (inr jobs2, w2) /\ forall j, j ∈ jobs1 -> forall j', j' ∈ jobs2 -> j'.(j_id) <> j.(j_id).
Proof.
  destruct (claimDueDelayedJobs XRPL_TX_POLICY_JOB_KIND (toISOString 1767225600000) 10 120000 demoEnv jobWorld)
    as [[e|jobs1] w1] eqn:E; [vm_compute in E; discriminate E|].
  assert (Hr1 : iso_range 1767225600000) by (vm_compute; split; [discriminate|reflexivity]).
  assert (Hr2 : iso_range (1767225600000 + 120000)) by (vm_compute; split; [discriminate|reflexivity]).
  assert (Hr3 : iso_range 1767225601000) by (vm_compute; split; [discriminate|reflexivity]).
  destruct (job_leases_exclusive demoEnv jobWorld.(w_rnd) jobWorld XRPL_TX_POLICY_JOB_KIND 1767225600000 10 120000
    jobs1 w1 XRPL_TX_POLICY_JOB_KIND 1767225601000 10 120000 jobWorld_wf Hr1 Hr2 Hr3 E eq_refl)
    as (_ & _ & jobs2 & w2 & E2 & Hne).
  exists jobs1, w1. split; [reflexivity|]. split.
  - vm_compute in E. injection E as <- _. reflexivity.
  - exists jobs2, w2. split; [exact E2|exact Hne].
Defined.

(** * Giving up on a hash the ledger does not know *)

(** What a probe that found nothing leaves of the transaction and its job. *)
Definition probeCounted (opts : XrplTxPolicyWorkerOptions) (job : DelayedJob) (tx tx' : XrplTransaction)
    (db' : Db) : Prop :=
  tx'.(x_retries) = (tx.(x_retries) + 1)%Z /\
  if (opts.(po_maxNotFoundProbes) <=? tx.(x_retries) + 1)%Z then
    isPolicyCandidate tx' = false /\ tx'.(x_trackingStatus) = TS_validated_fail /\
    tx'.(x_validated) = false /\ tx'.(x_outcomeClass) = Some OC_manual_review /\
    jm_get job.(j_id) db'.(delayedJobs) = None
  else
    isPolicyCandidate tx' = true /\
    exists job' ms, jm_get job.(j_id) db'.(delayedJobs) = Some job' /\
      job'.(j_attempts) = (job.(j_attempts) + 1)%Z /\ job'.(j_lockedUntil) = None /\
      job'.(j_runAfter) = toISOString (ms + policyJobBackoffMs opts.(po_intervalMs)
                            opts.(po_maxBackoffMs) (job.(j_attempts) + 1)).

(** A probe that does not find the transaction is counted on it.  Below
    the configured number of probes the transaction stays a candidate, and its
    job is requeued, unlocked, one attempt later and after the backoff; when
    the number is reached, the transaction is left for manual review as failed
    but not validated, is no candidate any more, and its job is deleted. *)
Theorem probes_are_bounded env w opts job job0 h tx st :
  jm_get h w.(w_db).(xrplTxs) = Some tx -> tx.(x_txHash) = h -> isPolicyCandidate tx = true ->
  jm_get job.(j_id) w.(w_db).(delayedJobs) = Some job0 ->
  exists st' w' tx', notFoundProbe opts job h tx st env w = (inr st', w') /\
    jm_get h w'.(w_db).(xrplTxs) = Some tx' /\ probeCounted opts job tx tx' w'.(w_db).
Proof.
  intros Htx Hh Hcand Hjob.
  enough (Hwp : wp (notFoundProbe opts job h tx st) env w (fun _ w' => exists tx',
    jm_get h w'.(w_db).(xrplTxs) = Some tx' /\ probeCounted opts job tx tx' w'.(w_db))).
  { apply wp_elim in Hwp as (st' & w' & E & tx' & H). by exists st', w', tx'. }
  unfold probeCounted.
  unfold notFoundProbe, getXrplTx, saveXrplTx, recordXrplTxOutcomeClassified, deleteDelayedJob, requeueJob,
    bumpDelayedJob. wp_step. rewrite Htx. simpl. wp_step.
  destruct (_ <=? _)%Z; repeat wp_step.
  - apply wp_background; [total_auto|keeps_auto|]. intros st' w' (_ & _ & _ & _ & Hx & _ & Hj & _).
    eexists. rewrite Hx, Hj. simpl. rewrite Hh, jm_get_set_eq, jm_delete_get, decide_True by done. by split_and!.
  - simpl. rewrite Hjob. repeat wp_step. simpl. rewrite Hh, !jm_get_set_eq. eexists. split; [done|].
    split; [done|]. split; [exact Hcand|]. by eexists _, _.
Qed.

Definition probeOpts : XrplTxPolicyWorkerOptions := mkPolicyOptions 30000 120000 10 2 None 300000.
Definition unknownTx : XrplTransaction :=
  mkXrplTx "xrt_1" "ABCDEF0123456789" "EscrowCreate" None None Net_testnet TS_pending_validation false
    None None None 1 "2026-01-01T00:00:00.000Z" None None None None.
Definition unknownWorld : World := jobWorld <| w_db := (w_db jobWorld) <| xrplTxs := [("ABCDEF0123456789", unknownTx)] |> |>.
Lemma probes_are_bounded_witness :
  (po_maxNotFoundProbes probeOpts <=? x_retries unknownTx + 1)%Z = true /\
  exists st' w' tx', notFoundProbe probeOpts demoJob "ABCDEF0123456789" unknownTx tick0 demoEnv unknownWorld
      = (inr st', w') /\
    jm_get "ABCDEF0123456789" w'.(w_db).(xrplTxs) = Some tx' /\ tx'.(x_trackingStatus) = TS_validated_fail.
Proof.
  split; [reflexivity|].
  destruct (probes_are_bounded demoEnv unknownWorld probeOpts demoJob demoJob "ABCDEF0123456789" unknownTx tick0
    eq_refl eq_refl eq_refl eq_refl) as (st' & w' & tx' & E & Ht & H).
  exists st', w', tx'. split; [exact E|]. split; [exact Ht|].
  exact (proj1 (proj2 (proj2 H))).
Defined.

(** * Two runs that go wrong *)

(** A policy tick over transactions that are all settled changes nothing. *)
Lemma scheduleProbe_idle opts now l env w :
  Forall (fun t => isPolicyCandidate t = false) l -> forEach (scheduleProbe opts now) l env w = (inr tt, w).
Proof.
  induction 1 as [|t l Ht _ IH]; [done|]. simpl. unfold mbind, M_bind, scheduleProbe. by rewrite Ht.
Qed.
Lemma policyTick_idle opts env w :
  Forall (fun t => isPolicyCandidate t = false) (jm_values w.(w_db).(xrplTxs)) ->
  w.(w_db).(delayedJobs) = [] ->
  (policyTick opts env w).2.(w_db) = w.(w_db).
Proof.
  intros Hall Hjobs.
  assert (Hf : filter (fun t => negb (truthy t.(x_account)) && negb t.(x_validated) && isPolicyCandidate t)
                 (jm_values w.(w_db).(xrplTxs)) = []).
  { induction Hall as [|t l Ht _ IH]; [done|]. rewrite filter_cons_False; [exact IH|]. rewrite Ht, andb_false_r.
    intros []. }
  enough (Hwp : wp (policyTick opts) env w (fun _ w' => w'.(w_db) = w.(w_db))).
  { unfold wp in Hwp. by destruct (policyTick opts env w) as [[e|a] w']. }
  unfold policyTick, xrplEnabled, listXrplTxs, recordXrplTxPolicyTickEnd. wp_step.
  destruct (negb _); [by apply wp_ret|]. repeat wp_step. simpl. rewrite Hf, take_nil.
  assert (Hrest : forall st w1, w1.(w_db) = w.(w_db) -> wp (txs' ← asks (fun db => jm_values db.(xrplTxs));
    forEach (scheduleProbe opts (toISOString (env_clock env (w_clk w)))) txs';;
    jobs ← claimDueDelayedJobs XRPL_TX_POLICY_JOB_KIND (toISOString (env_clock env (w_clk w)))
      (Z.to_nat opts.(po_batchSize)) (default 120000%Z opts.(po_lockTtlMs));
    st2 ← foldM (runJob opts) (st <| tk_jobsClaimed := Z.of_nat (length jobs) |>) jobs;
    recordXrplTxPolicyTickEnd st2) env w1 (fun _ w' => w'.(w_db) = w.(w_db))).
  { intros st w1 Hw1. wp_step. apply wp_bind, (wp_intro _ _ _ tt w1); [|].
    { apply scheduleProbe_idle. by rewrite Hw1. }
    apply wp_bind, (wp_intro _ _ _ [] w1); [|].
    { unfold claimDueDelayedJobs. rewrite bind_askEnv. destruct (date_parse _ _); [|done]. rewrite bind_asks.
      rewrite Hw1, Hjobs. simpl. rewrite take_nil. by destruct w1. }
    simpl. wp_step. unfold recordXrplTxPolicyTickEnd. repeat wp_step. exact Hw1. }
  destruct (0 <? _)%Z; simpl; by apply Hrest.
Qed.

(** The ledger has already validated the transaction a decided dispute is
    executed with. *)
Definition givenHash : string := "0123456789ABCDEF0123456789ABCDEF0123456789ABCDEF0123456789ABCDEF".
Definition validatedReply : RippledReply :=
  RR_ok (JObj [("hash", JStr givenHash); ("validated", JBool true); ("ledger_index", JNum 90);
               ("TransactionType", JStr "EscrowFinish"); ("meta", JObj [("TransactionResult", JStr "tesSUCCESS")])]).
Definition liveEnv (reply : RippledReply) : Env :=
  let cfg := defaultConfig <| cfg_xrplEnabled := true |> <| cfg_wssUrl := "wss://ledger" |> in
  mkEnv cfg demoEnv.(env_clock) demoUuid demoEnv.(env_sha256) demoEnv.(env_hmac) demoEnv.(env_legacyDate)
    (fun _ _ => reply) demoEnv.(env_submit) demoEnv.(env_walletAddress) demoEnv.(env_fetch) demoEnv.(env_base64)
    demoEnv.(env_encrypt) demoEnv.(env_decrypt).
Definition executeGiven : Call :=
  C_postExecution c_dsp (Valid (mkExecutionBody TX_EscrowFinish "rHb9CJAWyB4rj91VRWn96DkukG4bwdtyTh"
    (JNum 7) Net_testnet (Some givenHash))).
Definition beforeExecution : list Call :=
  [demoContract; demoEvidence; demoDispute; demoReview; demoVote; demoDecision].
Definition validatedEnv : Env := liveEnv validatedReply.
Definition validatedWorld : World := runCalls validatedEnv (beforeExecution ++ [executeGiven]) initWorld.

(** When the execution of a decided dispute is requested with a
    transaction the ledger has already validated, the transaction is recorded
    as validated_success but the dispute is left execution_pending (the
    reconciliation runs before the status is set), and no number of ticks of
    the policy worker ever resolves it. *)
Theorem validated_execution_stays_pending :
  reachable validatedEnv validatedWorld /\
  (exists t, jm_get givenHash validatedWorld.(w_db).(xrplTxs) = Some t /\
     t.(x_disputeId) = Some c_dsp /\ t.(x_validated) = true /\ t.(x_trackingStatus) = TS_validated_success) /\
  forall n, (d_status <$> jm_get c_dsp
    (runTasks validatedEnv (replicate n K_policy_worker) validatedWorld).(w_db).(disputes))
    = Some DS_execution_pending.
Proof.
  split; [apply runCalls_reachable|]. split; [vm_compute; eexists; split_and!; reflexivity|].
  intros n.
  enough (Hn : forall w, w.(w_db) = validatedWorld.(w_db) ->
            (runTasks validatedEnv (replicate n K_policy_worker) w).(w_db) = validatedWorld.(w_db)).
  { rewrite (Hn validatedWorld eq_refl). vm_compute. reflexivity. }
  induction n as [|n IH]; intros w Hw; [exact Hw|]. apply IH. rewrite <-Hw.
  apply (policyTick_idle (policyOptions validatedEnv.(env_cfg))).
  - rewrite Hw. vm_compute. repeat constructor.
  - rewrite Hw. vm_compute. reflexivity.
Qed.

(** ** Execution requests that overlap *)

(** What a request needs to pass the checks. *)
Lemma executionGuards_pass q id b d c env w :
  jm_get id w.(w_db).(disputes) = Some d -> d.(d_status) = DS_decided ->
  jm_get d.(d_contractId) w.(w_db).(contracts) = Some c -> canAccessContract env.(env_cfg) q c = true ->
  forall k, executionGuards q id (Valid b) k env w = k d b env w.
Proof.
  intros Hd Hs Hc Hacc k. unfold executionGuards, withParsed, withDispute, getDispute, canAccessDispute,
    mayAccessContractOf, getContract, mayAccess, askCfg.
  by rewrite bind_asks, Hd, bind_assoc, bind_asks, Hc, bind_askEnv, Hacc, Hs.
Qed.

Definition decidedWorld : World := runCalls validatedEnv beforeExecution initWorld.
Definition executor : Request := anyone <| rq_method := "POST" |> <| rq_bluesafeAuth := None |>.
Definition givenBody : ExecutionBody :=
  mkExecutionBody TX_EscrowFinish "rHb9CJAWyB4rj91VRWn96DkukG4bwdtyTh" (JNum 7) Net_testnet (Some givenHash).
Definition resumed (d : DisputeCase) (w : World) : World :=
  (errorMiddleware (finishExecution executor d givenBody) validatedEnv w).2.

Lemma resumes d w xs :
  overlap validatedEnv (mkService w (mkPending executor d givenBody :: xs) []) (mkService (resumed d w) xs []).
Proof. exact (O_execution_resumes validatedEnv w (mkPending executor d givenBody) [] xs []). Qed.
Definition refreshed (w : World) : World := (serve (C_postRefresh givenHash) anyone validatedEnv w).2.
Lemma refreshes w xs : overlap validatedEnv (mkService w xs []) (mkService (refreshed w) xs []).
Proof. apply O_transition, T_serve. Qed.

(** Two requests have found the dispute decided.  The first goes on, the ledger
    confirms its transaction and the dispute is executed; the second then takes
    the executed dispute back to execution_pending. *)
Definition decidedDispute : DisputeCase :=
  default (mkDispute "" "" RB_tenant "" DS_filed [] "" "" None None) (jm_get c_dsp decidedWorld.(w_db).(disputes)).
Definition executedWorld : World := refreshed (resumed decidedDispute decidedWorld).
Lemma requests_wait xs :
  overlap validatedEnv (mkService decidedWorld xs [])
    (mkService decidedWorld (mkPending executor decidedDispute givenBody :: xs) []).
Proof.
  apply (O_execution_waits validatedEnv anyone executor c_dsp (Valid givenBody)); [reflexivity|].
  destruct (jm_get c_ctr decidedWorld.(w_db).(contracts)) as [c|] eqn:Hc; [|vm_compute in Hc; discriminate Hc].
  apply executionGuards_pass with (c := c); [|vm_compute; reflexivity| |reflexivity].
  - unfold decidedDispute. destruct (jm_get c_dsp _) as [d|] eqn:Hd; [reflexivity|vm_compute in Hd; discriminate Hd].
  - rewrite <-Hc. f_equal.
Qed.
Lemma execution_overtaken : exists s s', runs validatedEnv s s' /\
  (d_status <$> jm_get c_dsp s.(sv_world).(w_db).(disputes)) = Some DS_executed /\
  (d_status <$> jm_get c_dsp s'.(sv_world).(w_db).(disputes)) = Some DS_execution_pending.
Proof.
  exists (mkService executedWorld [mkPending executor decidedDispute givenBody] []),
    (mkService (resumed decidedDispute executedWorld) [] []).
  split; [|split; vm_compute; reflexivity]. split; [|apply rtc_once, resumes|ids].
  etrans; [apply (transitions_overlap validatedEnv _ decidedWorld), runCalls_rtc|].
  eapply rtc_l; [apply requests_wait|]. eapply rtc_l; [apply requests_wait|].
  eapply rtc_l; [apply resumes|]. apply rtc_once, refreshes.
Qed.

(** The ledger cannot be reached. *)
Definition offlineEnv : Env := liveEnv (RR_connect_error "offline").
Definition backfillCall : Call := C_postBackfill (Valid (mkBackfill "rPT1Sjq2YGrBMTttX4GZHjKu9dyfzbpAYe" None None)).
Definition trackPending : Call :=
  C_postTrack (Valid (mkTrackTx "ABCDEF0123456789" "EscrowCreate" (Some "rHb9CJAWyB4rj91VRWn96DkukG4bwdtyTh") Net_testnet)).
Definition offlineWorld : World :=
  runCalls offlineEnv [trackPending; backfillCall; backfillCall] initWorld.

(** With the live mode on and a ledger that never answers, two account
    backfills of one account mark the pending transaction of another account
    validated_success: a failed live backfill falls through to the simulated
    one, which takes every unvalidated transaction. *)
Theorem failed_backfill_simulates :
  (forall n q, offlineEnv.(env_rippled) n q = RR_connect_error "offline") /\
  offlineEnv.(env_cfg).(cfg_xrplEnabled) = true /\
  reachable offlineEnv offlineWorld /\
  exists t, jm_get "ABCDEF0123456789" offlineWorld.(w_db).(xrplTxs) = Some t /\
    t.(x_account) = Some "rHb9CJAWyB4rj91VRWn96DkukG4bwdtyTh" /\
    t.(x_validated) = true /\ t.(x_trackingStatus) = TS_validated_success.
Proof.
  split; [reflexivity|]. split; [reflexivity|]. split; [apply runCalls_reachable|].
  vm_compute. eexists. split_and!; reflexivity.
Qed.
