(* ===== verification/StreamWorker.v ===== *)
(** The connection loop of the stream worker
    ([services/xrpl-subscribe.worker.ts], [startXrplSubscribeWorker]) and the
    figures it keeps for [/health] ([services/xrpl-subscribe-state.ts]): a
    state machine whose events are what the socket, the repository and the
    timers do, in any order. *)
From S2P Require Import Prelude JsString JsDate XrplWorkers.

(** * [xrpl-subscribe-state.ts] *)

(** Wall-clock seconds are kept as milliseconds. *)
Record SubscribeState := mkSubscribeState {
  ss_started : bool; ss_connected : bool; ss_lastConnectedAt : option string; ss_lastDisconnectedAt : option string;
  ss_accountsSubscribed : nat; ss_ledgerStreamSubscribed : bool; ss_lastLedgerIndex : option Z;
  ss_ledgerClosedEvents : Z; ss_disconnectCycles : Z; ss_transactionStreamProcessed : Z;
  ss_transactionStreamThrottled : Z; ss_lastLedgerCloseWallMs : Z; ss_ledgerCloseIntervalSumMs : Z;
  ss_ledgerCloseIntervalSampleCount : Z }.
#[export] Instance eta_SubscribeState : Eta SubscribeState := fun s =>
  mkSubscribeState s.(ss_started) s.(ss_connected) s.(ss_lastConnectedAt) s.(ss_lastDisconnectedAt)
    s.(ss_accountsSubscribed) s.(ss_ledgerStreamSubscribed) s.(ss_lastLedgerIndex) s.(ss_ledgerClosedEvents)
    s.(ss_disconnectCycles) s.(ss_transactionStreamProcessed) s.(ss_transactionStreamThrottled)
    s.(ss_lastLedgerCloseWallMs) s.(ss_ledgerCloseIntervalSumMs) s.(ss_ledgerCloseIntervalSampleCount).
Definition initialSubscribeState : SubscribeState := mkSubscribeState false false None None 0 false None 0 0 0 0 0 0 0.

Definition markXrplSubscribeWorkerStarted (s : SubscribeState) : SubscribeState := s <| ss_started := true |>.
Definition markXrplSubscribeConnected (now : Z) (s : SubscribeState) : SubscribeState :=
  s <| ss_connected := true |> <| ss_lastConnectedAt := Some (toISOString now) |>.
Definition markXrplSubscribeDisconnected (now : Z) (s : SubscribeState) : SubscribeState :=
  s <| ss_connected := false |> <| ss_lastDisconnectedAt := Some (toISOString now) |>
    <| ss_disconnectCycles := (s.(ss_disconnectCycles) + 1)%Z |> <| ss_accountsSubscribed := 0 |>
    <| ss_ledgerStreamSubscribed := false |>.
Definition setXrplSubscribeSyncSnapshot (accountsSubscribed : nat) (ledgerStreamSubscribed : bool) (s : SubscribeState) :
    SubscribeState :=
  s <| ss_accountsSubscribed := accountsSubscribed |> <| ss_ledgerStreamSubscribed := ledgerStreamSubscribed |>.
Definition recordXrplSubscribeLedgerClosed (ledgerIndex now : Z) (s : SubscribeState) : SubscribeState :=
  let s1 := s <| ss_lastLedgerIndex := Some ledgerIndex |>
              <| ss_ledgerClosedEvents := (s.(ss_ledgerClosedEvents) + 1)%Z |> in
  let s2 := if (0 <? s.(ss_lastLedgerCloseWallMs))%Z then
              s1 <| ss_ledgerCloseIntervalSumMs :=
                      (s.(ss_ledgerCloseIntervalSumMs) + (now - s.(ss_lastLedgerCloseWallMs)))%Z |>
                 <| ss_ledgerCloseIntervalSampleCount := (s.(ss_ledgerCloseIntervalSampleCount) + 1)%Z |>
            else s1 in
  s2 <| ss_lastLedgerCloseWallMs := now |>.
Definition recordXrplSubscribeTransactionProcessed (s : SubscribeState) : SubscribeState :=
  s <| ss_transactionStreamProcessed := (s.(ss_transactionStreamProcessed) + 1)%Z |>.
Definition recordXrplSubscribeTransactionThrottled (s : SubscribeState) : SubscribeState :=
  s <| ss_transactionStreamThrottled := (s.(ss_transactionStreamThrottled) + 1)%Z |>.

(** * The worker *)

Record StreamOptions := mkStreamOptions { so_wssUrl : string; so_disabled : bool; so_transactionsStream : bool }.
Definition ledgerStreams (o : StreamOptions) : list string :=
  if o.(so_transactionsStream) then ["ledger"; "transactions"] else ["ledger"].

(** An empty list of accounts or streams is left out of the message. *)
Inductive Request :=
  | Unsubscribe (accounts streams : list string)
  | Subscribe (streams accounts : list string).

(** Where a run of [syncSubscriptions] waits. *)
Inductive SyncPc :=
  | Listing
  | Unsubscribing (accounts : list string)
  | Subscribing (accounts : list string).
Record Refresh := mkRefresh { rf_conn : nat; rf_pc : SyncPc }.

(** Where [runLoop] waits; clients are numbered in the order of their making. *)
Inductive Phase :=
  | Connecting (c : nat)
  | Syncing (c : nat) (pc : SyncPc)
  | Waiting (c : nat)
  | Closing (c : nat)
  | Sleeping (ms : Z)
  | Finished.
#[export] Instance SyncPc_eq_dec : EqDecision SyncPc.
Proof. solve_decision. Defined.
#[export] Instance Phase_eq_dec : EqDecision Phase.
Proof. solve_decision. Defined.

(** [w_up] is the client that is connected: a client is disconnected before the
    next one is made.  [w_refreshes] are the runs that [refreshTimer] started,
    [w_log] the requests that were sent, oldest first.  [w_unhandled]: a promise
    that nobody awaits was rejected, which ends a Node process. *)
Record Worker := mkWorker {
  w_stopped : bool; w_refreshTimer : option nat; w_prevAccounts : list string; w_prevLedgerSubscribed : bool;
  w_prevTransactionsSubscribed : bool; w_reconnectAttempt : nat; w_phase : Phase; w_refreshes : list Refresh;
  w_up : option nat; w_clients : nat; w_log : list (nat * Request); w_state : SubscribeState; w_unhandled : bool }.
#[export] Instance eta_Worker : Eta Worker := fun w =>
  mkWorker w.(w_stopped) w.(w_refreshTimer) w.(w_prevAccounts) w.(w_prevLedgerSubscribed)
    w.(w_prevTransactionsSubscribed) w.(w_reconnectAttempt) w.(w_phase) w.(w_refreshes) w.(w_up) w.(w_clients)
    w.(w_log) w.(w_state) w.(w_unhandled).

(** ** [syncSubscriptions] *)

(** A request on a client that is not connected is rejected at once. *)
Definition send (c : nat) (r : Request) (w : Worker) : option Worker :=
  if bool_decide (w.(w_up) = Some c) then Some (w <| w_log := w.(w_log) ++ [(c, r)] |>) else None.

Inductive Progress := Done (w : Worker) | Await (pc : SyncPc) (w : Worker) | Throw (w : Worker).

Definition subscribe (o : StreamOptions) (c : nat) (accounts : list string) (w : Worker) : Progress :=
  let w1 := w <| w_prevAccounts := accounts |> <| w_prevLedgerSubscribed := true |>
              <| w_prevTransactionsSubscribed := o.(so_transactionsStream) |> in
  match send c (Subscribe (ledgerStreams o) accounts) w1 with
  | Some w2 => Await (Subscribing accounts) w2
  | None => Throw w1
  end.
Definition prevStreams (w : Worker) : list string :=
  (if w.(w_prevLedgerSubscribed) then ["ledger"] else []) ++
  (if w.(w_prevTransactionsSubscribed) then ["transactions"] else []).
Definition afterListing (o : StreamOptions) (c : nat) (accounts : list string) (w : Worker) : Progress :=
  if bool_decide (accounts = w.(w_prevAccounts)) && w.(w_prevLedgerSubscribed)
     && Bool.eqb w.(w_prevTransactionsSubscribed) o.(so_transactionsStream) then Done w
  else if (0 <? length w.(w_prevAccounts))%nat || w.(w_prevLedgerSubscribed) || w.(w_prevTransactionsSubscribed) then
    match send c (Unsubscribe w.(w_prevAccounts) (prevStreams w)) w with
    | Some w1 => Await (Unsubscribing accounts) w1
    | None => Throw w
    end
  else subscribe o c accounts w.

(** What an awaited promise does. *)
Inductive Reply := Listed (accounts : list string) | Answered | Rejected.
Definition resume (o : StreamOptions) (c : nat) (pc : SyncPc) (r : Reply) (w : Worker) : Progress :=
  match r, pc with
  | Listed accounts, Listing => afterListing o c accounts w
  | Answered, Unsubscribing accounts => subscribe o c accounts w
  | Answered, Subscribing accounts =>
      Done (w <| w_state := setXrplSubscribeSyncSnapshot (length accounts) true w.(w_state) |>)
  | _, _ => Throw w
  end.
(** Accounts answer the listing; the ledger answers on an open connection. *)
Definition answers (c : nat) (pc : SyncPc) (r : Reply) (w : Worker) : bool :=
  match r, pc with
  | Rejected, _ | Listed _, Listing => true
  | Answered, (Unsubscribing _ | Subscribing _) => bool_decide (w.(w_up) = Some c)
  | _, _ => false
  end.

(** ** [runLoop] *)

(** The [finally] block, up to its [await]. *)
Definition closing (c : nat) (now : Z) (w : Worker) : Worker :=
  w <| w_phase := Closing c |> <| w_refreshTimer := None |>
    <| w_state := markXrplSubscribeDisconnected now w.(w_state) |>.
(** [setInterval(..)] and the wait for ["disconnected"]. *)
Definition watching (c : nat) (w : Worker) : Worker := w <| w_phase := Waiting c |> <| w_refreshTimer := Some c |>.

Inductive Event :=
  | Connected (now : Z)
  | ConnectFailed (now : Z)
  | SyncReplied (r : Reply) (now : Z)
  | RefreshReplied (i : nat) (r : Reply)
  | Tick
  | Dropped (now : Z)
  | Disconnected
  | SleepOver
  | Shutdown.

(** [None]: the event cannot happen in this state. *)
Definition react (o : StreamOptions) (e : Event) (w : Worker) : option Worker :=
  if w.(w_unhandled) then None
  else match e, w.(w_phase) with
  | Connected now, Connecting c =>
      let w1 := w <| w_up := Some c |> <| w_reconnectAttempt := 0 |>
                  <| w_state := markXrplSubscribeConnected now w.(w_state) |> in
      Some (if w.(w_stopped) then watching c w1 else w1 <| w_phase := Syncing c Listing |>)
  | ConnectFailed now, Connecting c => Some (closing c now w)
  | SyncReplied r now, Syncing c pc =>
      if answers c pc r w then
        Some match resume o c pc r w with
             | Done w1 => watching c w1
             | Await pc' w1 => w1 <| w_phase := Syncing c pc' |>
             | Throw w1 => closing c now w1
             end
      else None
  | RefreshReplied i r, _ =>
      match w.(w_refreshes) !! i with
      | Some (mkRefresh c pc) =>
          if answers c pc r w then
            Some match resume o c pc r w with
                 | Done w1 => w1 <| w_refreshes := delete i w.(w_refreshes) |>
                 | Await pc' w1 => w1 <| w_refreshes := <[i := mkRefresh c pc']> w.(w_refreshes) |>
                 | Throw w1 => w1 <| w_refreshes := delete i w.(w_refreshes) |> <| w_unhandled := true |>
                 end
          else None
      | None => None
      end
  | Tick, _ =>
      match w.(w_refreshTimer) with
      | Some c =>
          Some (if w.(w_stopped) || negb (bool_decide (w.(w_up) = Some c)) then w
                else w <| w_refreshes := w.(w_refreshes) ++ [mkRefresh c Listing] |>)
      | None => None
      end
  | Dropped now, phase =>
      match w.(w_up) with
      | Some c =>
          let w1 := w <| w_up := None |> in
          Some (if bool_decide (phase = Waiting c) then closing c now w1 else w1)
      | None => None
      end
  | Disconnected, Closing c =>
      let w1 := w <| w_up := None |> <| w_prevAccounts := [] |> <| w_prevLedgerSubscribed := false |>
                  <| w_prevTransactionsSubscribed := false |> in
      Some (if w.(w_stopped) then w1 <| w_phase := Finished |>
            else w1 <| w_phase := Sleeping (reconnectDelay (Z.of_nat w.(w_reconnectAttempt))) |>
                    <| w_reconnectAttempt := S w.(w_reconnectAttempt) |>)
  | SleepOver, Sleeping _ =>
      Some (if w.(w_stopped) then w <| w_phase := Finished |>
            else w <| w_phase := Connecting w.(w_clients) |> <| w_clients := S w.(w_clients) |>)
  | Shutdown, _ => Some (w <| w_stopped := true |> <| w_refreshTimer := None |>)
  | _, _ => None
  end.

Definition startXrplSubscribeWorker (o : StreamOptions) (s : SubscribeState) : option Worker :=
  if o.(so_disabled) || bool_decide (trim o.(so_wssUrl) = "") then None
  else Some (mkWorker false None [] false false 0 (Connecting 0) [] None 1 [] (markXrplSubscribeWorkerStarted s) false).

Fixpoint reacts (o : StreamOptions) (es : list Event) (w : Worker) : option Worker :=
  match es with
  | [] => Some w
  | e :: es' => w1 ← react o e w; reacts o es' w1
  end.

(** * What the loop keeps *)

Definition requestsOf (c : nat) (w : Worker) : list Request := (filter (fun p => p.1 = c) w.(w_log)).*2.
Definition unsubscribing (c : nat) (r : Refresh) : Prop := r.(rf_conn) = c /\ exists a, r.(rf_pc) = Unsubscribing a.
(** The last request is the subscription that the variables name, unless a
    refresh has unsubscribed and is about to subscribe again. *)
Definition subscribed (o : StreamOptions) (c : nat) (w : Worker) : Prop :=
  w.(w_prevLedgerSubscribed) = true /\ w.(w_prevTransactionsSubscribed) = o.(so_transactionsStream) /\
  (last (requestsOf c w) = Some (Subscribe (ledgerStreams o) w.(w_prevAccounts)) \/
   exists r, r ∈ w.(w_refreshes) /\ unsubscribing c r).
Definition no_subscription (w : Worker) : Prop :=
  w.(w_prevAccounts) = [] /\ w.(w_prevLedgerSubscribed) = false /\ w.(w_prevTransactionsSubscribed) = false.
Definition client_of (p : Phase) : option nat :=
  match p with Connecting c | Syncing c _ | Waiting c | Closing c => Some c | _ => None end.
Definition online (p : Phase) : bool := match p with Syncing _ _ | Waiting _ => true | _ => false end.

Record loop_inv (o : StreamOptions) (w : Worker) : Prop := mkLoopInv {
  li_up c : w.(w_up) = Some c -> exists p, w.(w_phase) = p /\ client_of p = Some c /\ p <> Connecting c;
  li_waiting c : w.(w_phase) = Waiting c -> w.(w_up) = Some c;
  li_timer c : w.(w_refreshTimer) = Some c -> w.(w_phase) = Waiting c;
  li_refresh r : r ∈ w.(w_refreshes) -> w.(w_up) = Some r.(rf_conn) -> w.(w_phase) = Waiting r.(rf_conn);
  li_clients c : client_of w.(w_phase) = Some c -> c < w.(w_clients);
  li_old r : r ∈ w.(w_refreshes) -> r.(rf_conn) < w.(w_clients) /\ w.(w_phase) <> Connecting r.(rf_conn);
  li_none : match w.(w_phase) with
            | Connecting _ | Sleeping _ | Finished | Syncing _ Listing => no_subscription w
            | Syncing _ (Unsubscribing _) => False
            | Syncing c (Subscribing _) => subscribed o c w
            | Waiting c => w.(w_stopped) = true \/ subscribed o c w
            | Closing _ => True
            end;
  li_state : w.(w_state).(ss_connected) = online w.(w_phase);
  li_delay ms : w.(w_phase) = Sleeping ms ->
    exists k, w.(w_reconnectAttempt) = S k /\ ms = reconnectDelay (Z.of_nat k) }.

Lemma requestsOf_send c r w w1 : send c r w = Some w1 ->
  w.(w_up) = Some c /\ w1 = w <| w_log := w.(w_log) ++ [(c, r)] |> /\ last (requestsOf c w1) = Some r.
Proof.
  unfold send. case_bool_decide as Hup; [|done]. intros [= <-]. split; [done|split; [done|]].
  unfold requestsOf. cbn. rewrite filter_app, filter_cons_True by done. rewrite filter_nil, fmap_app, last_app. done.
Qed.

(** What [syncSubscriptions] changes: its own variables, the log and the figures. *)
Lemma subscribe_await o c a w pc w1 : subscribe o c a w = Await pc w1 ->
  w.(w_up) = Some c /\ pc = Subscribing a /\
  w1 = w <| w_prevAccounts := a |> <| w_prevLedgerSubscribed := true |>
         <| w_prevTransactionsSubscribed := o.(so_transactionsStream) |>
         <| w_log := w.(w_log) ++ [(c, Subscribe (ledgerStreams o) a)] |> /\
  last (requestsOf c w1) = Some (Subscribe (ledgerStreams o) a).
Proof.
  unfold subscribe. destruct (send c _ _) as [w2|] eqn:E; [|done]. intros [= <- <-].
  apply requestsOf_send in E as (Hup & -> & Hl). cbn in Hup. split_and!; try done.
Qed.
Lemma subscribe_done o c a w w1 : subscribe o c a w <> Done w1.
Proof. unfold subscribe. by destruct (send _ _ _). Qed.

Definition believes (o : StreamOptions) (w : Worker) : Prop :=
  w.(w_prevLedgerSubscribed) = true /\ w.(w_prevTransactionsSubscribed) = o.(so_transactionsStream).
Inductive resumed (o : StreamOptions) (c : nat) (pc : SyncPc) (w : Worker) : Progress -> Prop :=
  | resumed_same : pc = Listing -> believes o w -> resumed o c pc w (Done w)
  | resumed_set a : pc = Subscribing a -> w.(w_up) = Some c ->
      resumed o c pc w (Done (w <| w_state := setXrplSubscribeSyncSnapshot (length a) true w.(w_state) |>))
  | resumed_unsubscribe a r : pc = Listing -> w.(w_up) = Some c -> ~ no_subscription w ->
      resumed o c pc w (Await (Unsubscribing a) (w <| w_log := w.(w_log) ++ [(c, r)] |>))
  | resumed_subscribe a w1 : w.(w_up) = Some c -> (pc = Listing -> no_subscription w) ->
      subscribe o c a w = Await (Subscribing a) w1 -> resumed o c pc w (Await (Subscribing a) w1)
  | resumed_throw w1 : w1.(w_phase) = w.(w_phase) -> w1.(w_up) = w.(w_up) -> w1.(w_refreshes) = w.(w_refreshes) ->
      w1.(w_clients) = w.(w_clients) -> w1.(w_stopped) = w.(w_stopped) -> w1.(w_refreshTimer) = w.(w_refreshTimer) ->
      resumed o c pc w (Throw w1).

Lemma resumed_subscribing o c pc a w : (pc = Listing -> no_subscription w) -> resumed o c pc w (subscribe o c a w).
Proof.
  intros Hpc. destruct (subscribe o c a w) as [w1|pc' w1|w1] eqn:E.
  - by apply subscribe_done in E.
  - destruct (subscribe_await _ _ _ _ _ _ E) as (Hup & -> & _). by apply resumed_subscribe.
  - unfold subscribe in E. destruct (send _ _ _); [done|]. injection E as <-. by constructor.
Qed.
Lemma resume_resumed o c pc r w : answers c pc r w = true -> resumed o c pc w (resume o c pc r w).
Proof.
  intros Ha. destruct r as [a| |], pc as [|a'|a']; try done; try (by constructor).
  - cbn. unfold afterListing. destruct (bool_decide _ && _ && _) eqn:Hs.
    { bool_to_prop. apply eqb_prop in H0. by apply resumed_same. }
    destruct (_ || _ || _) eqn:Hp; [|apply resumed_subscribing; intros _].
    + destruct (send c _ w) as [w1|] eqn:E; [|by constructor]. apply requestsOf_send in E as (Hup & -> & _).
      apply resumed_unsubscribe; [done..|]. intros (H1 & H2 & H3). rewrite H1, H2, H3 in Hp. done.
    + bool_to_prop. apply Nat.ltb_ge in H. destruct (w_prevAccounts w) eqn:E; [|cbn in H; lia]. done.
  - cbn. by apply resumed_subscribing.
  - cbn in *. bool_to_prop. by eapply resumed_set.
Qed.

Section loop.
Context (o : StreamOptions) (w : Worker) (Hinv : loop_inv o w).

(** Nobody uses a client that is not connected any more. *)
Lemma stale_refresh r : r ∈ w.(w_refreshes) -> (forall c, w.(w_phase) <> Waiting c) -> w.(w_up) <> Some r.(rf_conn).
Proof. intros Hr Hp Hup. by apply (Hp r.(rf_conn)), (li_refresh _ _ Hinv). Qed.

Lemma loop_inv_closing c now w1 :
  client_of w.(w_phase) = Some c -> w1.(w_up) = w.(w_up) -> (forall c', w1.(w_phase) <> Waiting c' -> w.(w_phase) <> Waiting c') ->
  w1.(w_refreshes) = w.(w_refreshes) -> w1.(w_clients) = w.(w_clients) ->
  (forall c', w.(w_phase) <> Waiting c') -> loop_inv o (closing c now w1).
Proof.
  intros Hc Hup _ Hr Hcl Hw. constructor; cbn; try done.
  - intros c' Hup'. rewrite Hup in Hup'. destruct (li_up _ _ Hinv _ Hup') as (p & <- & Hp & _).
    exists (Closing c). split; [done|]. split; [cbn; congruence|done].
  - intros r Hr' Hup'. rewrite Hr in Hr'. rewrite Hup in Hup'. by apply (stale_refresh r) in Hr'.
  - intros c' [= <-]. rewrite Hcl. by apply (li_clients _ _ Hinv).
  - intros r Hr'. rewrite Hr in Hr'. rewrite Hcl. split; [by apply (li_old _ _ Hinv)|done].
Qed.

Lemma loop_connected c now : w.(w_phase) = Connecting c ->
  let w1 := w <| w_up := Some c |> <| w_reconnectAttempt := 0 |>
              <| w_state := markXrplSubscribeConnected now w.(w_state) |> in
  loop_inv o (if w.(w_stopped) then watching c w1 else w1 <| w_phase := Syncing c Listing |>).
Proof.
  intros Hp w1. assert (Hold : forall r, r ∈ w.(w_refreshes) -> r.(rf_conn) <> c).
  { intros r Hr Hc. destruct (li_old _ _ Hinv r Hr) as [_ Hx]. congruence. }
  pose proof (li_none _ _ Hinv) as Hn. rewrite Hp in Hn.
  assert (Hc : c < w.(w_clients)) by (apply (li_clients o w Hinv c); by rewrite Hp).
  destruct w.(w_stopped) eqn:Hs; constructor; cbn; try done.
  all: try (intros c' [= <-]; eexists; split; [done|]; by split).
  all: try (intros r Hr [= Hup]; symmetry in Hup; by apply Hold in Hup).
  all: try (intros r Hr; split; [by apply (li_old _ _ Hinv)|done]).
  all: try (intros c' [= <-]; done).
  - by left.
  - intros c' Ht. apply (li_timer _ _ Hinv) in Ht. by rewrite Hp in Ht.
Qed.

Lemma loop_dropped c now : w.(w_up) = Some c ->
  let w1 := w <| w_up := None |> in
  loop_inv o (if bool_decide (w.(w_phase) = Waiting c) then closing c now w1 else w1).
Proof.
  intros Hup w1. case_bool_decide as Hp; constructor; cbn; try done.
  - intros c' [= <-]. apply (li_clients _ _ Hinv). by rewrite Hp.
  - intros r Hr. split; [by apply (li_old _ _ Hinv)|done].
  - intros c' Hp'. pose proof (li_waiting _ _ Hinv _ Hp') as Hup'. congruence.
  - apply (li_timer _ _ Hinv).
  - apply (li_clients _ _ Hinv).
  - apply (li_old _ _ Hinv).
  - apply (li_none _ _ Hinv).
  - apply (li_state _ _ Hinv).
  - apply (li_delay _ _ Hinv).
Qed.

Lemma loop_disconnected c : w.(w_phase) = Closing c ->
  let w1 := w <| w_up := None |> <| w_prevAccounts := [] |> <| w_prevLedgerSubscribed := false |>
              <| w_prevTransactionsSubscribed := false |> in
  loop_inv o (if w.(w_stopped) then w1 <| w_phase := Finished |>
              else w1 <| w_phase := Sleeping (reconnectDelay (Z.of_nat w.(w_reconnectAttempt))) |>
                      <| w_reconnectAttempt := S w.(w_reconnectAttempt) |>).
Proof.
  intros Hp w1. pose proof (li_state _ _ Hinv) as Hst. rewrite Hp in Hst.
  destruct w.(w_stopped); constructor; cbn; try done.
  all: try (intros c' Ht; apply (li_timer _ _ Hinv) in Ht; by rewrite Hp in Ht).
  all: try (intros r Hr; split; [by apply (li_old _ _ Hinv)|done]).
  intros ms [= <-]. by eexists.
Qed.

Lemma loop_slept ms : w.(w_phase) = Sleeping ms ->
  loop_inv o (if w.(w_stopped) then w <| w_phase := Finished |>
              else w <| w_phase := Connecting w.(w_clients) |> <| w_clients := S w.(w_clients) |>).
Proof.
  intros Hp. pose proof (li_state _ _ Hinv) as Hst. pose proof (li_none _ _ Hinv) as Hn. rewrite Hp in Hst, Hn.
  assert (Hup : forall c, w.(w_up) <> Some c).
  { intros c Hup. destruct (li_up _ _ Hinv _ Hup) as (p & <- & Hc & _). by rewrite Hp in Hc. }
  destruct w.(w_stopped); constructor; cbn; try done.
  all: try (intros c' Ht; apply (li_timer _ _ Hinv) in Ht; by rewrite Hp in Ht).
  all: try (intros c Hc; by apply Hup in Hc).
  all: try (intros r Hr Hc; by apply Hup in Hc).
  - intros r Hr. split; [by apply (li_old _ _ Hinv)|done].
  - intros c [= <-]. lia.
  - intros r Hr. destruct (li_old _ _ Hinv r Hr) as [H1 H2]. split; [lia|]. intros [= Hc]. lia.
Qed.

Lemma loop_synced c pc r now : w.(w_phase) = Syncing c pc -> answers c pc r w = true ->
  loop_inv o match resume o c pc r w with
             | Done w1 => watching c w1
             | Await pc' w1 => w1 <| w_phase := Syncing c pc' |>
             | Throw w1 => closing c now w1
             end.
Proof.
  intros Hp Ha. pose proof (li_none _ _ Hinv) as Hn. rewrite Hp in Hn. pose proof (li_state _ _ Hinv) as Hst. rewrite Hp in Hst.
  assert (Hc : client_of w.(w_phase) = Some c) by by rewrite Hp.
  assert (Hnw : forall c', w.(w_phase) <> Waiting c') by (rewrite Hp; done).
  pose proof (li_clients _ _ Hinv c Hc) as Hcl.
  assert (Hno : forall r', r' ∈ w.(w_refreshes) -> w.(w_up) <> Some r'.(rf_conn)) by (intros; by apply stale_refresh).
  assert (Htm : forall c', w.(w_refreshTimer) <> Some c').
  { intros c' Ht. apply (li_timer _ _ Hinv) in Ht. by rewrite Hp in Ht. }
  destruct (resume_resumed o c pc r w Ha) as [-> [Hb _]|a -> Hup|a q -> Hup Hns|a w1 Hup Hpc E|w1 H1 H2 H3 H4 _ _].
  - destruct Hn as (_ & Hn & _). congruence.
  - constructor; cbn; try done.
    + intros c' Hup'. exists (Waiting c). split; [done|]. split; [cbn; congruence|done].
    + intros c' [= <-]. done.
    + intros c' [= <-]. done.
    + intros r' Hr' Hup'. by apply Hno in Hr'.
    + intros c' [= <-]. done.
    + intros r' Hr'. split; [by apply (li_old _ _ Hinv)|done].
    + by right.
  - done.
  - destruct (subscribe_await _ _ _ _ _ _ E) as (_ & _ & -> & Hl). constructor; cbn; try done.
    + intros c' Hup'. exists (Syncing c (Subscribing a)). split; [done|]. split; [cbn; congruence|done].
    + intros c' Ht. by apply Htm in Ht.
    + intros r' Hr' Hup'. by apply Hno in Hr'.
    + intros c' [= <-]. done.
    + intros r' Hr'. split; [by apply (li_old _ _ Hinv)|done].
    + split; [done|]. split; [done|]. by left.
  - by apply loop_inv_closing.
Qed.

(** What leaves the loop itself alone. *)
Lemma loop_inv_frame w1 :
  w1.(w_phase) = w.(w_phase) -> w1.(w_up) = w.(w_up) -> w1.(w_refreshTimer) = w.(w_refreshTimer) ->
  w1.(w_clients) = w.(w_clients) -> w1.(w_reconnectAttempt) = w.(w_reconnectAttempt) ->
  w1.(w_state).(ss_connected) = w.(w_state).(ss_connected) ->
  (forall r, r ∈ w1.(w_refreshes) -> w.(w_phase) = Waiting r.(rf_conn) \/
     exists r0, r0 ∈ w.(w_refreshes) /\ r0.(rf_conn) = r.(rf_conn)) ->
  match w.(w_phase) with
  | Connecting _ | Sleeping _ | Finished | Syncing _ Listing => no_subscription w1
  | Syncing _ (Unsubscribing _) => False
  | Syncing c (Subscribing _) => subscribed o c w1
  | Waiting c => w1.(w_stopped) = true \/ subscribed o c w1
  | Closing _ => True
  end -> loop_inv o w1.
Proof.
  intros Hp Hup Ht Hc Ha Hs Hr Hn. constructor; rewrite ?Hp, ?Hup, ?Ht, ?Hc, ?Ha, ?Hs; try apply Hinv; [..|done].
  - intros r Hr1 Hup1. destruct (Hr r Hr1) as [Hw|(r0 & Hr0 & E)]; [done|]. rewrite <-E in *. by apply (li_refresh _ _ Hinv).
  - intros r Hr1. destruct (Hr r Hr1) as [Hw|(r0 & Hr0 & <-)]; [|by apply (li_old _ _ Hinv)].
    split; [|by rewrite Hw]. apply (li_clients o w Hinv). by rewrite Hw.
Qed.
Lemma elem_of_delete_ne {A} (l : list A) i x y : l !! i = Some x -> y ∈ l -> y <> x -> y ∈ delete i l.
Proof.
  intros Hi Hy Hne. rewrite <-(take_drop_middle l i x Hi) in Hy. rewrite delete_take_drop.
  rewrite elem_of_app, elem_of_cons in *. naive_solver.
Qed.
(** A refresh that ends has not just unsubscribed. *)
Lemma loop_refresh_done i c pc s : w.(w_refreshes) !! i = Some (mkRefresh c pc) -> (forall a, pc <> Unsubscribing a) ->
  s.(ss_connected) = w.(w_state).(ss_connected) ->
  loop_inv o (w <| w_state := s |> <| w_refreshes := delete i w.(w_refreshes) |>).
Proof.
  intros Hi Hpc Hs.
  assert (Hsub : forall c', subscribed o c' w -> subscribed o c' (w <| w_state := s |> <| w_refreshes := delete i w.(w_refreshes) |>)).
  { intros c' (H1 & H2 & [Hl|(r & Hr & Hc & a & Ha)]); (split; [done|split; [done|]]); [by left|right].
    exists r. split; [|by split; [|exists a]]. eapply elem_of_delete_ne; [exact Hi|exact Hr|]. intros ->. by apply (Hpc a). }
  apply loop_inv_frame; try done.
  - intros r Hr. right. exists r. split; [|done]. by apply list_elem_of_delete_inv in Hr.
  - pose proof (li_none _ _ Hinv) as Hn. destruct w.(w_phase) as [|? []| | | |]; try done; [by apply Hsub|].
    destruct Hn; [by left|right; by apply Hsub].
Qed.
(** A refresh that has sent a request, on the client the loop watches. *)
Lemma loop_refresh_sent i c pc pc' w1 : w.(w_refreshes) !! i = Some (mkRefresh c pc) -> w.(w_up) = Some c ->
  w1.(w_phase) = w.(w_phase) -> w1.(w_up) = w.(w_up) -> w1.(w_refreshTimer) = w.(w_refreshTimer) ->
  w1.(w_clients) = w.(w_clients) -> w1.(w_reconnectAttempt) = w.(w_reconnectAttempt) ->
  w1.(w_state) = w.(w_state) -> w1.(w_stopped) = w.(w_stopped) ->
  (w.(w_stopped) = true \/ subscribed o c (w1 <| w_refreshes := <[i := mkRefresh c pc']> w.(w_refreshes) |>)) ->
  loop_inv o (w1 <| w_refreshes := <[i := mkRefresh c pc']> w.(w_refreshes) |>).
Proof.
  intros Hi Hup H1 H2 H3 H4 H5 H6 H7 Hsub.
  assert (Hw : w.(w_phase) = Waiting c).
  { by apply (li_refresh _ _ Hinv (mkRefresh c pc)); [eapply list_elem_of_lookup_2|]. }
  apply loop_inv_frame; try done; cbn.
  - by rewrite H6.
  - intros r [j Hj]%list_elem_of_lookup. apply list_lookup_insert_Some in Hj as [(-> & <- & _)|(_ & Hj)]; [by left|right].
    exists r. split; [by eapply list_elem_of_lookup_2|done].
  - rewrite Hw. destruct Hsub; [left; congruence|by right].
Qed.

Lemma loop_refreshed i c pc r w1 : w.(w_refreshes) !! i = Some (mkRefresh c pc) -> answers c pc r w = true ->
  w1 = match resume o c pc r w with
       | Done w1 => w1 <| w_refreshes := delete i w.(w_refreshes) |>
       | Await pc' w1 => w1 <| w_refreshes := <[i := mkRefresh c pc']> w.(w_refreshes) |>
       | Throw w1 => w1 <| w_refreshes := delete i w.(w_refreshes) |> <| w_unhandled := true |>
       end ->
  w1.(w_unhandled) = false -> loop_inv o w1.
Proof.
  intros Hi Ha -> Hu.
  destruct (resume_resumed o c pc r w Ha) as [-> Hb|a -> Hup|a q -> Hup Hns|a w1 Hup Hpc E|w1 _ _ _ _ _ _]; [..|done].
  - by apply (loop_refresh_done i c Listing w.(w_state)).
  - by apply (loop_refresh_done i c (Subscribing a)).
  - eapply loop_refresh_sent; try done. pose proof (li_none _ _ Hinv) as Hn.
    rewrite (li_refresh _ _ Hinv (mkRefresh c Listing)) in Hn by (done || by eapply list_elem_of_lookup_2).
    destruct Hn as [Hn|(H1 & H2 & _)]; [by left|right]. split; [done|split; [done|right]].
    exists (mkRefresh c (Unsubscribing a)). split; [|by split; [|exists a]].
    apply list_elem_of_lookup. exists i. apply list_lookup_insert_eq. by eapply lookup_lt_Some.
  - destruct (subscribe_await _ _ _ _ _ _ E) as (_ & _ & -> & Hl).
    eapply loop_refresh_sent; try done. right. split; [done|split; [done|]]. by left.
Qed.

Lemma loop_step e w1 : react o e w = Some w1 -> w1.(w_unhandled) = false -> loop_inv o w1.
Proof.
  unfold react. destruct w.(w_unhandled); [done|].
  destruct e as [now|now|r now|i r| |now| | |].
  - destruct w.(w_phase) eqn:Hp; try done. intros [= <-] _. by apply loop_connected.
  - destruct w.(w_phase) eqn:Hp; try done. intros [= <-] _. by apply loop_inv_closing; rewrite ?Hp.
  - destruct w.(w_phase) as [|c pc| | | |] eqn:Hp; try done. destruct (answers c pc r w) eqn:Ha; [|done].
    intros [= <-] _. by apply loop_synced.
  - destruct (w.(w_refreshes) !! i) as [[c pc]|] eqn:Hi; [|done]. destruct (answers c pc r w) eqn:Ha; [|done].
    intros [= E] Hu. by eapply loop_refreshed.
  - destruct w.(w_refreshTimer) as [c|] eqn:Ht; [|done]. intros [= <-] _.
    destruct (_ || _) eqn:Hs; [done|]. bool_to_prop. pose proof (li_timer _ _ Hinv _ Ht) as Hw.
    apply loop_inv_frame; try done; cbn.
    + intros r [Hr| ->%list_elem_of_singleton]%elem_of_app; [right; by exists r|by left].
    + pose proof (li_none _ _ Hinv) as Hn. rewrite Hw in *. destruct Hn as [Hn|(H1 & H2 & H3)]; [by left|right].
      split; [done|split; [done|]]. destruct H3 as [H3|(r & Hr & Hu')]; [by left|right]. exists r. split; [|done].
      cbn. apply elem_of_app. by left.
  - destruct w.(w_up) as [c|] eqn:Hup; [|done]. intros [= <-] _. by apply loop_dropped.
  - destruct w.(w_phase) eqn:Hp; try done. intros [= <-] _. by eapply loop_disconnected.
  - destruct w.(w_phase) eqn:Hp; try done. intros [= <-] _. by eapply loop_slept.
  - intros [= <-] _. constructor; cbn; try apply Hinv; try done.
    pose proof (li_none _ _ Hinv) as Hn. destruct w.(w_phase) as [|? []| | | |]; try done. by left.
Qed.
End loop.

(** * Runs *)

Lemma reacts_snoc o es e w w1 : reacts o (es ++ [e]) w = Some w1 <->
  exists w0, reacts o es w = Some w0 /\ react o e w0 = Some w1.
Proof.
  revert w. induction es as [|e' es IH]; intros w; cbn.
  - split; [intros (w0 & H & [= <-])%bind_Some; by exists w|intros (w0 & [= <-] & ->); done].
  - split.
    + intros (w2 & H2 & (w0 & H0 & H1)%IH)%bind_Some. exists w0. by rewrite H2.
    + intros (w0 & (w2 & H2 & H0)%bind_Some & H1). rewrite H2. cbn. apply IH. by exists w0.
Qed.
Lemma unhandled_stays o es w w1 : reacts o es w = Some w1 -> w1.(w_unhandled) = false -> w.(w_unhandled) = false.
Proof.
  revert w. induction es as [|e es IH]; cbn; intros w; [by intros [= ->]|].
  intros (w2 & H2 & _)%bind_Some _. unfold react in H2. by destruct w.(w_unhandled).
Qed.
Lemma loop_inv_initial o w : startXrplSubscribeWorker o initialSubscribeState = Some w -> loop_inv o w.
Proof.
  unfold startXrplSubscribeWorker. destruct (_ || _); [done|]. intros [= <-]. constructor; cbn; try done.
  all: try (intros r Hr; by apply not_elem_of_nil in Hr). intros c [= <-]. lia.
Qed.
Lemma loop_inv_reacts o es w w1 :
  loop_inv o w -> reacts o es w = Some w1 -> w1.(w_unhandled) = false -> loop_inv o w1.
Proof.
  revert w. induction es as [|e es IH]; cbn; intros w Hi; [by intros [= <-]|].
  intros (w2 & H2 & H3)%bind_Some Hu. apply (IH w2); [|done|done].
  apply (loop_step o w Hi e); [done|]. by eapply unhandled_stays.
Qed.

(** The connections lost or refused since the last one that was made. *)
Definition failures (es : list Event) : nat :=
  foldl (fun k e => match e with Connected _ => 0 | Disconnected => S k | _ => k end) 0 es.
Lemma failures_snoc es e :
  failures (es ++ [e]) = match e with Connected _ => 0 | Disconnected => S (failures es) | _ => failures es end.
Proof. unfold failures. by rewrite foldl_app. Qed.
Lemma resume_attempt o c pc r w : forall w1,
  resume o c pc r w = Done w1 \/ (exists pc', resume o c pc r w = Await pc' w1) \/ resume o c pc r w = Throw w1 ->
  w1.(w_reconnectAttempt) = w.(w_reconnectAttempt) /\ w1.(w_phase) = w.(w_phase).
Proof.
  intros w1 H. unfold resume, afterListing, subscribe, send in H.
  destruct r, pc; repeat case_match; destruct H as [H|[[? H]|H]]; by simplify_eq.
Qed.
Lemma react_attempt o e w w1 : react o e w = Some w1 ->
  (w.(w_phase) = Finished -> w1.(w_phase) = Finished) /\
  (w1.(w_phase) <> Finished -> w1.(w_reconnectAttempt) =
    match e with Connected _ => 0 | Disconnected => S w.(w_reconnectAttempt) | _ => w.(w_reconnectAttempt) end).
Proof.
  unfold react. destruct w.(w_unhandled); [done|]. destruct e as [now|now|r now|i r| |now| | |].
  4: { destruct (w.(w_refreshes) !! i) as [[c pc]|]; [|done]. destruct (answers c pc r w); [|done]. intros [= <-].
       destruct (resume o c pc r w) as [w2|pc' w2|w2] eqn:E; destruct (resume_attempt o c pc r w w2) as [Ha Hp]; eauto;
         cbn; rewrite Ha, Hp; done. }
  all: repeat case_match; intros; simplify_eq; try done; (split; [try done; try congruence|intros; cbn in *; try done]).
  1-3: by edestruct resume_attempt as [Ha _]; [|exact Ha]; eauto.
  bool_to_prop. congruence.
Qed.
Lemma attempts_counted o es w w1 :
  reacts o es w = Some w1 -> w.(w_reconnectAttempt) = 0 -> w1.(w_phase) <> Finished ->
  w1.(w_reconnectAttempt) = failures es.
Proof.
  revert w1. induction es as [|e es IH] using rev_ind; intros w1; [by intros [= ->]|].
  intros (w0 & H0 & H1)%reacts_snoc Hw Hf. rewrite failures_snoc. destruct (react_attempt _ _ _ _ H1) as [Hp Ha].
  rewrite (Ha Hf), (IH w0 H0 Hw) by auto. by destruct e.
Qed.

(** Something can still happen to a worker that was not stopped: in three more
    events it tries the next connection, whatever it waits for. *)
Lemma reconnects o w : loop_inv o w -> w.(w_unhandled) = false -> w.(w_stopped) = false -> w.(w_phase) <> Finished ->
  exists es w1 c, length es <= 3 /\ reacts o es w = Some w1 /\ w1.(w_phase) = Connecting c.
Proof.
  intros Hi Hu Hs Hf.
  assert (Hslept : forall w2 ms, w2.(w_unhandled) = false -> w2.(w_stopped) = false -> w2.(w_phase) = Sleeping ms ->
    exists w1 c, react o SleepOver w2 = Some w1 /\ w1.(w_phase) = Connecting c).
  { intros w2 ms H1 H2 Hms. unfold react. rewrite H1, Hms, H2. by do 2 eexists. }
  assert (Hclosed : forall w2, w2.(w_unhandled) = false -> w2.(w_stopped) = false ->
    (exists c, w2.(w_phase) = Closing c) \/ (exists ms, w2.(w_phase) = Sleeping ms) ->
    exists es w1 c, length es <= 2 /\ reacts o es w2 = Some w1 /\ w1.(w_phase) = Connecting c).
  { intros w2 H1 H2 [[c Hc]|[ms Hms]].
    - assert (exists w3 ms, react o Disconnected w2 = Some w3 /\ w3.(w_unhandled) = false /\ w3.(w_stopped) = false /\
        w3.(w_phase) = Sleeping ms) as (w3 & ms & E & H3 & H4 & H5).
      { unfold react. rewrite H1, Hc, H2. do 2 eexists. split; [done|]. by cbn. }
      destruct (Hslept w3 ms H3 H4 H5) as (w1 & c' & E' & Hc'). exists [Disconnected; SleepOver], w1, c'. cbn.
      rewrite E. cbn. rewrite E'. split; [lia|done].
    - destruct (Hslept w2 ms H1 H2 Hms) as (w1 & c' & E' & Hc'). exists [SleepOver], w1, c'. cbn.
      rewrite E'. split; [lia|done]. }
  assert (Hstep : forall e w2 c, react o e w = Some w2 -> w2.(w_unhandled) = false -> w2.(w_stopped) = false ->
    w2.(w_phase) = Closing c -> exists es w1 c, length es <= 3 /\ reacts o es w = Some w1 /\ w1.(w_phase) = Connecting c).
  { intros e w2 c He H1 H2 H3. destruct (Hclosed w2) as (es & w1 & c' & Hl & Hr & Hc); [done..|left; eauto|].
    exists (e :: es), w1, c'. cbn. rewrite He. split; [lia|done]. }
  destruct w.(w_phase) as [c|c pc|c|c|ms|] eqn:Hp; [| | | | |done].
  - exists [], w, c. cbn. by split; [lia|].
  - eapply (Hstep (SyncReplied Rejected 0) _ c); [unfold react; by rewrite Hu, Hp|..]; by destruct pc.
  - eapply (Hstep (Dropped 0) _ c); [unfold react; rewrite Hu, Hp, (li_waiting _ _ Hi _ Hp), bool_decide_eq_true_2 by done; done|..]; done.
  - destruct (Hclosed w) as (es & w1 & c' & Hl & H); [done..|left; by exists c|]. exists es, w1, c'. split; [lia|done].
  - destruct (Hclosed w) as (es & w1 & c' & Hl & H); [done..|right; by exists ms|]. exists es, w1, c'. split; [lia|done].
Qed.

(** C20: whatever the sockets, the repository and the timers do, as long as the
    process runs: a connection that the worker watches while no refresh is under
    way has the wanted streams and the accounts last listed as its last request,
    and is still connected, so that the drop the worker waits for cannot have
    been missed; the refresh timer runs only then; /health says connected
    exactly while the worker is; the next attempt waits one second, doubled for
    every failure since the last connection, sixty at most; and unless it was
    stopped, the worker can always come to that attempt. *)
Theorem stream_loop_sound o w0 es w :
  startXrplSubscribeWorker o initialSubscribeState = Some w0 -> reacts o es w0 = Some w -> w.(w_unhandled) = false ->
  (forall c, w.(w_phase) = Waiting c -> w.(w_stopped) = false -> (forall r, r ∈ w.(w_refreshes) -> r.(rf_conn) <> c) ->
     last (requestsOf c w) = Some (Subscribe (ledgerStreams o) w.(w_prevAccounts))) /\
  (forall c, w.(w_phase) = Waiting c -> w.(w_up) = Some c) /\
  (forall c, w.(w_refreshTimer) = Some c -> w.(w_phase) = Waiting c) /\
  w.(w_state).(ss_connected) = online w.(w_phase) /\
  (forall ms, w.(w_phase) = Sleeping ms -> exists k, failures es = S k /\
     ms = Z.min 60000 (1000 * 2 ^ Z.of_nat k) /\ (1000 <= ms <= 60000)%Z) /\
  (w.(w_stopped) = false -> w.(w_phase) <> Finished -> exists es' w1 c,
     length es' <= 3 /\ reacts o es' w = Some w1 /\ w1.(w_phase) = Connecting c).
Proof.
  intros H0 Hr Hu. pose proof (loop_inv_reacts _ _ _ _ (loop_inv_initial _ _ H0) Hr Hu) as Hi. split_and!.
  - intros c Hc Hs Hq. pose proof (li_none _ _ Hi) as Hn. rewrite Hc in Hn.
    destruct Hn as [Hn|(_ & _ & [Hl|(r & Hr' & Hrc & _)])]; [congruence|done|]. by apply Hq in Hr'.
  - apply (li_waiting _ _ Hi).
  - apply (li_timer _ _ Hi).
  - apply (li_state _ _ Hi).
  - intros ms Hms. destruct (li_delay _ _ Hi ms Hms) as (k & Hk & ->). exists k. split; [|split; [done|]].
    + rewrite <-Hk. symmetry. eapply attempts_counted; [exact Hr| |by rewrite Hms].
      unfold startXrplSubscribeWorker in H0. destruct (_ || _); [done|]. by injection H0 as <-.
    + unfold reconnectDelay. assert (0 < 2 ^ Z.of_nat k)%Z by (apply Z.pow_pos_nonneg; lia). lia.
  - intros Hs Hf. by apply reconnects.
Qed.

Definition demoStream : StreamOptions := mkStreamOptions "wss://ledger" false true.
(** Two refused connections, then one that is refreshed and dropped. *)
Definition demoRun : list Event :=
  [ConnectFailed 0; Disconnected; SleepOver; ConnectFailed 1; Disconnected; SleepOver;
   Connected 3000; SyncReplied (Listed ["rA"]) 3000; SyncReplied Answered 3001; Tick; RefreshReplied 0 (Listed ["rA"; "rB"]);
   RefreshReplied 0 Answered; RefreshReplied 0 Answered].
Lemma stream_loop_sound_witness : exists w0 w,
  startXrplSubscribeWorker demoStream initialSubscribeState = Some w0 /\ reacts demoStream demoRun w0 = Some w /\
  w.(w_phase) = Waiting 2 /\
  last (requestsOf 2 w) = Some (Subscribe ["ledger"; "transactions"] ["rA"; "rB"]) /\ w.(w_up) = Some 2.
Proof.
  eexists _, _. split; [reflexivity|]. split; [vm_compute; reflexivity|]. split; [reflexivity|].
  match goal with |- last (requestsOf 2 ?w) = _ /\ _ =>
    destruct (stream_loop_sound demoStream _ demoRun w eq_refl eq_refl eq_refl) as (H1 & H2 & _) end.
  split; [|apply (H2 2); reflexivity]. rewrite (H1 2); [reflexivity..|]. intros r Hr. by apply not_elem_of_nil in Hr.
Defined.

(** Nobody awaits the refreshes of the timer: a request of theirs that fails,
    for instance because the connection drops, ends the process. *)
Example failed_refresh_ends_process : exists w0 w,
  startXrplSubscribeWorker demoStream initialSubscribeState = Some w0 /\
  reacts demoStream [Connected 0; SyncReplied (Listed []) 0; SyncReplied Answered 0; Tick; RefreshReplied 0 (Listed ["rA"]);
                     Dropped 60000; RefreshReplied 0 Rejected] w0 = Some w /\
  w.(w_unhandled) = true /\ forall e, react demoStream e w = None.
Proof. eexists _, _. split; [reflexivity|]. split; [vm_compute; reflexivity|]. by split. Qed.

(** Two refreshes at once: the accounts of the first stay subscribed. *)
Example overlapping_refreshes : exists w0 w,
  startXrplSubscribeWorker demoStream initialSubscribeState = Some w0 /\
  reacts demoStream [Connected 0; SyncReplied (Listed []) 0; SyncReplied Answered 0; Tick; Tick;
                     RefreshReplied 0 (Listed ["rA"]); RefreshReplied 1 (Listed ["rB"]); RefreshReplied 0 Answered;
                     RefreshReplied 1 Answered; RefreshReplied 0 Answered; RefreshReplied 0 Answered] w0 = Some w /\
  w.(w_prevAccounts) = ["rB"] /\
  requestsOf 0 w = [Subscribe ["ledger"; "transactions"] []; Unsubscribe [] ["ledger"; "transactions"];
                    Unsubscribe [] ["ledger"; "transactions"]; Subscribe ["ledger"; "transactions"] ["rA"];
                    Subscribe ["ledger"; "transactions"] ["rB"]].
Proof. eexists _, _. split; [reflexivity|]. split; [vm_compute; reflexivity|]. by split. Qed.

(** The intervals between ledger closes add up to the time from the first to
    the last. *)
Lemma intervals_telescope (first : Z) (closes : list (Z * Z)) s : (0 < first)%Z ->
  s.(ss_lastLedgerCloseWallMs) = first -> Forall (fun p => (0 < p.2)%Z) closes ->
  let s' := foldl (fun s p => recordXrplSubscribeLedgerClosed p.1 p.2 s) s closes in
  (s'.(ss_ledgerCloseIntervalSumMs) - s.(ss_ledgerCloseIntervalSumMs) = s'.(ss_lastLedgerCloseWallMs) - first)%Z /\
  (s'.(ss_ledgerCloseIntervalSampleCount) - s.(ss_ledgerCloseIntervalSampleCount) = Z.of_nat (length closes))%Z.
Proof.
  revert first s. induction closes as [|[i t] closes IH]; cbn; intros first s Hf Hs Hall; [lia|].
  apply Forall_cons in Hall as [Ht Hall]. cbn in Ht.
  destruct (IH t (recordXrplSubscribeLedgerClosed i t s)) as [H1 H2]; [done|done|done|].
  unfold recordXrplSubscribeLedgerClosed in H1, H2 |- *. rewrite Hs, (proj2 (Z.ltb_lt 0 first)) in * by done. cbn in *. lia.
Qed.
