(* ===== verification/Footprint.v ===== *)
(** Who writes what: the decisions of the disputes are written by
    [POST .../decision] alone, and at most once per dispute. *)
From S2P Require Import Prelude JsString JsMap JsDate Types Config World Utils MemoryRepo Http Auth Notify Logic.
From S2P Require Import XrplTrack XrplWorkers Contracts Evidence Disputes XrplApi NotifyApi Settlements Export.
From S2P Require Import Reports Reputation Inv Loops Steps ContractSteps XrplSteps NotifySteps DisputeSteps System.
From S2P Require Import Demo SystemProps.

(** The bodies to open. *)
Create HintDb code discriminated.
#[export] Hint Unfold dispatchOneOutboxRow runOutboxFanoutTick processOne processBatch upsertTrackedTx
  recordXrplTxOutcomeClassified resolveDispute applyLiveTxStatus youngerThan backfillAccount
  scheduleProbe requeueJob notFoundProbe runJob recordXrplTxPolicyTickEnd policyTick consumeToken
  processTransaction handleTransaction afterSettlementLedgerClosedEvent handleLedgerClosed
  postContract notifyContractEnd patchContractStatus patchEscrowAnchor retentionStamp recordEvidence
  storeEvidence handlePostEvidence postEvidence postEvidenceVerify getEvidenceById sendContent
  checkIntegrity decryptContent getEvidenceContent patchEvidenceMetadata purgeOne postRetentionRun
  postDispute reviewDeadline patchDisputeStatus postVerifierVote postEscalate trackExecution
  recordExecutionRequest requestExecution executionGuards heldDispute finishExecution postExecution
  postVerifierRegistry autoEscalate
  announceExpired scanOne postReviewSlaScan refreshTracked postTrack getXrplTransaction postRefresh
  getAccountEscrows liveBackfillOne liveBackfill simulateOne simulatedBackfill postBackfill
  postNotification dispatchOne postDispatch postOutboxRetry announceSettlement
  patchSettlementStatus postExportJob runExportJob runExportJobTick : code.

Section footprint.
Context (R : relation Db) `{!Quiet (on_db R)}.

(** What only asks the outside. *)
Lemma on_db_same {A} (m : M A) : keeps Same m -> keeps (on_db R) m.
Proof.
  intros H env w. destruct (H env w) as [Hd _]. unfold keeps_at, on_db. rewrite Hd.
  pose proof (frame_pre (R := on_db R) env). change (on_db R env w w). reflexivity.
Qed.
End footprint.

Ltac asks_only := apply on_db_same; [apply _|]; first
  [ apply same_clientRequest | apply same_getTxStatus | apply same_getAccountTxResults
  | apply same_reconcileAnchor | apply same_attempt; asks_inner | apply same_disputeOnContract
  | apply same_checkEvidences | apply same_executionHash | apply same_probeLedger
  | apply same_getAccountEscrowsPage | apply same_deliver | apply same_exportLines
  | apply same_unpinIfPinata ]
with asks_inner := eauto with keeps.
Ltac footprint := repeat first [progress keeps_auto | asks_only | progress autounfold with model writes
  | progress autounfold with code].

(** * Decisions *)

Definition decisionsSame (db db' : Db) : Prop := db'.(decisions) = db.(decisions).
#[export] Instance decisionsSame_preorder : PreOrder decisionsSame.
Proof. split; [by intros db|]. unfold decisionsSame. congruence. Qed.
#[export] Instance decisionsSame_quiet : Quiet (on_db decisionsSame).
Proof. apply quiet_of_background; [apply _|]. by intros db db' (_&_&_&?&_). Qed.
#[local] Hint Extern 3 (keeps (on_db decisionsSame) (modify _)) => (intros ? ?; reflexivity) : keeps.

Lemma decisionsSame_handler c req :
  (forall id p, c <> C_postDecision id p) -> keeps (on_db decisionsSame) (handler c req).
Proof.
  intros Hc. destruct c; try (by edestruct Hc); simpl; try solve [eauto with keeps typeclass_instances];
    try (apply on_db_same; [apply _|]; first
      [ apply same_getContracts | apply same_getContractById | apply same_getReviewState
      | apply same_getDisputes | apply same_getDisputeById | apply same_getXrplTransactions
      | apply same_getOutbox | apply same_getNotificationById | apply same_getSettlements
      | apply same_getSettlementById | apply same_getStatsSummary | apply same_getReportSummary
      | apply same_reportAudits | apply same_getRetentionDue | apply same_getVerifierRegistry
      | apply same_getEvents | apply same_getExportJobById | apply same_getArtifactUrl
      | apply same_getAudits | apply same_getExportArtifact | apply same_getHealth ]);
    footprint.
Qed.
Lemma decisionsSame_task k : keeps (on_db decisionsSame) (runTask k).
Proof.
  unfold runTask. apply keeps_bind; [apply _|apply keeps_askEnv, _|intros cfg].
  destruct k; try solve [eauto with keeps typeclass_instances]; footprint.
Qed.

(** ** One decision per dispute *)

Definition underReview (s : DisputeStatus) : bool := openForReview s.
(** A dispute with a decision is past its review, and has one decision. *)
Record decided (db : Db) : Prop := mkDecided {
  dc_past : forall k x, jm_get k db.(decisions) = Some x ->
    exists d, jm_get x.(cd_disputeId) db.(disputes) = Some d /\ openForReview d.(d_status) = false;
  dc_once : forall k1 k2 x1 x2, jm_get k1 db.(decisions) = Some x1 -> jm_get k2 db.(decisions) = Some x2 ->
    x1.(cd_disputeId) = x2.(cd_disputeId) -> k1 = k2 }.

Lemma past_review_stays a b : b ∈ disputeLater a -> openForReview a = false -> openForReview b = false.
Proof. intros Hb Ha. destruct a; try done; simpl in Hb; by destruct b; set_solver. Qed.

Lemma decided_same env (n0 n : nat) db db' :
  decided db -> db'.(decisions) = db.(decisions) -> db_evolves env n0 n db db' -> decided db'.
Proof.
  intros [Hp Ho] Hs He. split; rewrite Hs; [|done]. intros k x Hx.
  destruct (Hp k x Hx) as (d & Hd & Hop).
  destruct (ev_disputes _ _ _ _ _ He _ _ Hd) as (d' & Hd' & _ & _ & _ & _ & _ & _ & Hst).
  exists d'. split; [done|]. eapply past_review_stays; [by apply dispute_reach|done].
Qed.

(** From a well-formed store, the invariant is kept. *)
Definition DecisionStep (env : Env) (w w' : World) : Prop :=
  w.(w_rnd) <= w'.(w_rnd) /\
  (ids_distinct env w'.(w_rnd) -> db_wf env w.(w_rnd) w.(w_db) -> decided w.(w_db) -> decided w'.(w_db)).

Lemma decisionStep_of_same env w w' :
  Step w.(w_rnd) env w w' -> w'.(w_db).(decisions) = w.(w_db).(decisions) -> DecisionStep env w w'.
Proof.
  intros [Hle H] Hs. split; [done|]. intros Hd Hwf Hdec.
  eapply decided_same; [done|done|apply H; auto].
Qed.

(** What [postDecision] writes. *)
Definition withDecision (x : CaseDecision) (d : DisputeCase) (db : Db) : Db :=
  db <| decisions := jm_set x.(cd_id) x db.(decisions) |>
     <| disputes := jm_set d.(d_id) d db.(disputes) |>.

Lemma withDecision_decided x d d0 db :
  decided db -> jm_get d.(d_id) db.(disputes) = Some d0 -> openForReview d0.(d_status) = true ->
  openForReview d.(d_status) = false -> x.(cd_disputeId) = d.(d_id) ->
  decided (withDecision x d db).
Proof.
  intros [Hp Ho] Hd0 Hopen Hpast Hx.
  assert (Hnone : forall k y, jm_get k db.(decisions) = Some y -> y.(cd_disputeId) <> d.(d_id)).
  { intros k y Hy He. destruct (Hp k y Hy) as (d1 & Hd1 & Hop). rewrite He in Hd1. congruence. }
  split; simpl.
  - intros k y. rewrite !jm_get_set. case_decide.
    + intros [= <-]. exists d. by rewrite decide_True.
    + intros Hy. rewrite decide_False by (intros ?; by eapply Hnone). by eapply Hp.
  - intros k1 k2 y1 y2. rewrite !jm_get_set. repeat case_decide; intros; simplify_eq; try done.
    + exfalso. eapply Hnone; [done|]. congruence.
    + exfalso. eapply Hnone; [done|]. congruence.
    + by eapply Ho.
Qed.

Lemma decisionStep_postDecision req id p env w :
  DecisionStep env w (postDecision req id p env w).2.
Proof.
  split; [apply (step_postDecision 0 req id p env w)|]. intros Hdist Hwf Hdec.
  (* the error answers change nothing *)
  assert (Hq : keeps_at (on_db (fun db db' => db = w.(w_db) -> decided db')) (postDecision req id p) env w); [|by apply Hq].
  unfold keeps_at, on_db. intros _.
  destruct p as [flat|b]; [done|]. unfold postDecision, withParsed, withDispute, getDispute. rewrite bind_asks.
  destruct (jm_get id _) as [d|] eqn:Hd; [|done].
  unfold canAccessDispute, mayAccessContractOf, getContract. rewrite bind_assoc, bind_asks.
  destruct (jm_get (d_contractId d) _) as [c|]; [|done].
  unfold mayAccess, askCfg. rewrite bind_askEnv. destruct (negb _); [done|].
  destruct (openForReview (d_status d)) eqn:Hopen; [|done]. cbn [negb].
  rewrite bind_randomId, bind_nowIso. unfold saveDecision. rewrite bind_modify, bind_nowIso. cbv zeta.
  unfold saveDispute. rewrite bind_modify.
  destruct (keyed_get _ _ _ _ Hwf.(wf_disputes _ _ _) Hd) as (Hid & _).
  match goal with |- decided (w_db (?k env ?w2).2) =>
    assert (Hk : keeps (on_db background) k) by (unfold notifyParties, getContract; keeps_auto);
    specialize (Hk env w2); unfold keeps_at, on_db in Hk;
    assert (Hw2 : decided w2.(w_db))
  end.
  { match goal with |- decided (w_db ?w2) =>
      let x := eval cbn in (decisions (w_db w2)) in
      match x with jm_set _ ?x1 _ =>
        let dd := eval cbn in (disputes (w_db w2)) in
        match dd with jm_set _ ?d1 _ => change (decided (withDecision x1 d1 w.(w_db))) end end end.
    eapply withDecision_decided with (d0 := d); [done|simpl; by rewrite Hid|done..]. }
  destruct Hk as (_ & _ & Hds & Hdc & _). destruct Hw2 as [Hp Ho]. split; rewrite Hdc; [|done].
  intros k x Hx. rewrite Hds. by eapply Hp.
Qed.

Definition isDecision (c : Call) : bool := match c with C_postDecision _ _ => true | _ => false end.
Lemma decisionStep_transition env w w' : transition env w w' -> DecisionStep env w w'.
Proof.
  intros [c req w1|k w1].
  - unfold serve, errorMiddleware, askCfg, try_catch, mbind, M_bind, askEnv.
    destruct (chain _ _ _) as [res|q]; [apply decisionStep_of_same; [reflexivity|done]|].
    assert (Hmid : DecisionStep env w1 (handler c q env w1).2).
    { destruct (isDecision c) eqn:Hc; [destruct c; try done; apply decisionStep_postDecision|].
      apply decisionStep_of_same; [apply step_handler|]. apply decisionsSame_handler. by intros ? ? ->. }
    by destruct (handler c q env w1) as [[e|r] w2].
  - apply decisionStep_of_same; [apply step_job|apply decisionsSame_task].
Qed.

Lemma run_decided env w w' :
  rtc (transition env) w w' -> ids_distinct env w'.(w_rnd) ->
  db_wf env w.(w_rnd) w.(w_db) -> decided w.(w_db) -> decided w'.(w_db).
Proof.
  induction 1 as [|w1 w2 w3 Ht Hrun IH]; [done|]. intros Hd Hwf Hdec.
  destruct (run_step w2.(w_rnd) _ _ _ Hrun) as [Hle _].
  assert (Hd2 : ids_distinct env w2.(w_rnd)) by by eapply ids_distinct_le.
  apply IH; [done| |by apply (decisionStep_transition env w1)].
  destruct (transition_step w1.(w_rnd) _ _ _ Ht) as [_ Hev]. by apply Hev.
Qed.

Lemma reachable_decided env w : reachable env w -> ids_distinct env w.(w_rnd) -> decided w.(w_db).
Proof.
  intros Hr Hd. eapply run_decided; [done|done|apply emptyDb_wf|]. by split.
Qed.

(** * Properties *)

(** C13: whatever requests, ticks and stream messages were served, a dispute
    is decided at most once: the decisions of one dispute are one row, and its
    dispute has left the review for good. *)
Theorem one_decision_per_dispute env w k1 k2 x1 x2 :
  reachable env w -> ids_distinct env w.(w_rnd) ->
  jm_get k1 w.(w_db).(decisions) = Some x1 -> jm_get k2 w.(w_db).(decisions) = Some x2 ->
  x1.(cd_disputeId) = x2.(cd_disputeId) ->
  k1 = k2 /\ x1 = x2 /\
  exists d, jm_get x1.(cd_disputeId) w.(w_db).(disputes) = Some d /\
    (d.(d_status) = DS_decided \/ d.(d_status) = DS_execution_pending \/
     d.(d_status) = DS_executed \/ d.(d_status) = DS_rejected \/ d.(d_status) = DS_closed).
Proof.
  intros Hr Hd H1 H2 He. destruct (reachable_decided env w Hr Hd) as [Hp Ho].
  assert (k1 = k2) as -> by by eapply Ho. split; [done|]. split; [congruence|].
  destruct (Hp _ _ H1) as (d & ? & Hop). exists d. split; [done|].
  destruct (d_status d); try discriminate Hop; tauto.
Qed.

Definition demoDecisionId : string := default "" (head (jm_keys demoDecided.(w_db).(decisions))).
Lemma one_decision_per_dispute_witness :
  exists x d, jm_get demoDecisionId demoDecided.(w_db).(decisions) = Some x /\
    jm_get x.(cd_disputeId) demoDecided.(w_db).(disputes) = Some d /\ d.(d_status) <> DS_filed.
Proof.
  eexists. eassert (Hx : jm_get demoDecisionId demoDecided.(w_db).(decisions) = Some _)
    by (vm_compute; reflexivity).
  destruct (one_decision_per_dispute demoEnv demoDecided demoDecisionId demoDecisionId _ _
    demoDecided_reachable demoDecided_ids Hx Hx eq_refl) as (_ & _ & d & Hd & Hs).
  exists d. split; [exact Hx|]. split; [exact Hd|].
  intros E. rewrite E in Hs. destruct Hs as [Hs|[Hs|[Hs|[Hs|Hs]]]]; discriminate Hs.
Defined.
