(* ===== verification/CoreTx.v ===== *)
(** The shared library of the [packages/xrpl-core] package: hex and memo
    encodings ([lib/hex.ts], [lib/memo.ts]), Ripple time ([lib/time.ts]),
    PREIMAGE-SHA-256 conditions ([lib/condition.ts]), and the transaction
    builders of its services ([escrow/], [payment/], [multisig/], [insurance/],
    [nft/], [credential/]).  A transaction is the object the builder returns;
    a builder that may throw returns the message on the left. *)
From S2P Require Import Prelude JsString JsMap JsDate Json.
From Stdlib Require Import Ascii.

(** Objects whose last fields are only set when there is a value. *)
Definition when {A} (name : string) (o : option A) (f : A -> JsVal) : list (string * JsVal) :=
  match o with Some a => [(name, f a)] | None => [] end.

#[export] Instance sum_ret {E} : MRet (sum E) := fun A a => inr a.
#[export] Instance sum_bind {E} : MBind (sum E) := fun A B k m =>
  match m with inr a => k a | inl e => inl e end.

(** * Hex ([lib/hex.ts]) *)

Definition hexByte (c : ascii) : list ascii := [hex_digit (code c / 16); hex_digit (code c mod 16)]%N.
(** [Buffer.from(b).toString("hex").toUpperCase()] *)
Definition bytesToHex (b : list ascii) : string := of_chars (flat_map hexByte b).
Definition utf8ToHex (s : string) : string := bytesToHex (chars s).
(** [Buffer.from(h, "hex")]: pairs of digits, up to the first that is none. *)
Fixpoint hexPairs (l : list ascii) : list ascii :=
  match l with
  | a :: b :: l' =>
      match hex_val a, hex_val b with
      | Some x, Some y => ascii_of_N (16 * x + y) :: hexPairs l'
      | _, _ => []
      end
  | _ => []
  end.
Definition fromHex (h : string) : list ascii := hexPairs (chars h).
Definition hexToUtf8 (h : string) : string := of_chars (fromHex h).

(** * Time ([lib/time.ts]), on whole seconds *)

Definition RIPPLE_EPOCH_OFFSET : Z := 946684800.
Definition unixToRippleEpoch (unixSeconds : Z) : string + Z :=
  if (unixSeconds <? RIPPLE_EPOCH_OFFSET)%Z then
    inl ("unix seconds out of range for Ripple Epoch: " +:+ num_str unixSeconds)
  else inr (unixSeconds - RIPPLE_EPOCH_OFFSET)%Z.
Definition rippleEpochToUnix (rippleSeconds : Z) : Z := (rippleSeconds + RIPPLE_EPOCH_OFFSET)%Z.
Definition addDaysUnix (unixSeconds days : Z) : Z := (unixSeconds + days * 86400)%Z.

(** * Domain types ([lib/types.ts]) *)

Inductive DisputeRuling := TENANT_WINS | LANDLORD_WINS | SYSTEM_FAULT.
#[export] Instance DisputeRuling_eq : EqDecision DisputeRuling. Proof. solve_decision. Defined.
Definition ruling_str (r : DisputeRuling) : string :=
  match r with TENANT_WINS => "TENANT_WINS" | LANDLORD_WINS => "LANDLORD_WINS" | SYSTEM_FAULT => "SYSTEM_FAULT" end.
Record LeaseParties := mkParties { lp_tenant : string; lp_landlord : string; lp_bluesafe : string }.
Definition SLASH_TENANT_BPS : Z := 7000.
Definition SLASH_INSURANCE_BPS : Z := 3000.
Definition BPS_DENOM : Z := 10000.

(** * Memos ([lib/memo.ts]) *)

(** [data] is a string, or a [Buffer] given by its bytes: both are hex-encoded
    byte by byte. *)
Record MemoInput := mkMemo { mi_type : option string; mi_data : option string; mi_format : option string }.
Definition encodeMemo (m : MemoInput) : JsVal :=
  let hex s := JStr (utf8ToHex s) in
  JObj [("Memo", JObj (when "MemoType" (nonempty m.(mi_type)) hex ++
                       when "MemoFormat" (nonempty m.(mi_format)) hex ++ when "MemoData" m.(mi_data) hex))].
Definition encodeMemos (inputs : list MemoInput) : JsVal := JArr (encodeMemo <$> inputs).
Definition jsonMemo (type : string) (payload : JsVal) : MemoInput :=
  mkMemo (Some type) (Some (json_stringify payload)) (Some "application/json").
Definition utilityBillMemo (yearMonth kepcoUsageHashHex billHashHex : string) : JsVal :=
  encodeMemo (jsonMemo "UTILITY_BILL"
    (JObj [("ym", JStr yearMonth); ("kepco", JStr (toLowerCase kepcoUsageHashHex));
           ("bill", JStr (toLowerCase billHashHex))])).

(** * Crypto-conditions ([lib/condition.ts]) *)

Definition byte (n : N) : ascii := ascii_of_N n.
Record PreimageCondition := mkCondition {
  pc_preimage : list ascii; pc_condition : string; pc_fulfillment : string }.

Section conditions.
(** SHA-256, on bytes. *)
Context (sha256 : list ascii -> list ascii).

Definition buildPreimageCondition (preimage : list ascii) : string + PreimageCondition :=
  let n := N.of_nat (length preimage) in
  if ((length preimage =? 0) || (127 <? length preimage))%nat then inl "preimage must be 1..127 bytes"
  else
    let condition := byte 160 :: byte 37 :: byte 128 :: byte 32 :: sha256 preimage ++
                     [byte 129; byte 1; byte n] in
    let inner := byte 128 :: byte n :: preimage in
    let fulfillment := byte 160 :: byte (N.of_nat (length inner)) :: inner in
    inr (mkCondition preimage (bytesToHex condition) (bytesToHex fulfillment)).
Definition checklistPreimage (canonicalJson : string) : string + PreimageCondition :=
  buildPreimageCondition (sha256 (chars canonicalJson)).

(** [restoreConditionFromFulfillment] of [EscrowService.ts]: the buffer's bytes
    by index ([undefined] beyond its end). *)
Definition restoreConditionFromFulfillment (fulfillmentHex : string) : string + string :=
  let f := fromHex fulfillmentHex in
  if negb (bool_decide (f !! 0 = Some (byte 160)) && bool_decide (f !! 2 = Some (byte 128))) then
    inl "not a PREIMAGE-SHA-256 fulfillment"
  else
    let preimageLen := from_option (fun c => N.to_nat (code c)) 0 (f !! 3) in
    c ← buildPreimageCondition (slice 4 preimageLen f);
    mret c.(pc_condition).

(** * Escrows ([escrow/EscrowService.ts]) *)

Record DepositEscrowInput := mkDepositInput {
  di_tenant : string; di_landlord : string; di_amount : JsVal; di_leaseEndUnix : Z;
  di_finishOffsetDays : option Z; di_cancelOffsetDays : option Z;
  di_condition : option PreimageCondition; di_destinationTag : option Z; di_memos : option JsVal }.
Record StakeEscrowInput := mkStakeInput {
  si_landlord : string; si_stakeHolder : string; si_amount : JsVal; si_leaseEndUnix : Z;
  si_finishOffsetDays : option Z; si_cancelOffsetDays : option Z;
  si_destinationTag : option Z; si_memos : option JsVal }.
Record FinishInput := mkFinishInput {
  fi_account : string; fi_owner : string; fi_offerSequence : Z; fi_fulfillment : option string;
  fi_memos : option JsVal }.
Record CancelInput := mkCancelInput {
  ci_account : string; ci_owner : string; ci_offerSequence : Z; ci_memos : option JsVal }.

Definition buildDepositEscrow (p : DepositEscrowInput) : string + JsVal :=
  let finishUnix := addDaysUnix p.(di_leaseEndUnix) (default 7%Z p.(di_finishOffsetDays)) in
  let cancelUnix := addDaysUnix p.(di_leaseEndUnix) (default 30%Z p.(di_cancelOffsetDays)) in
  finishAfter ← unixToRippleEpoch finishUnix;
  cancelAfter ← unixToRippleEpoch cancelUnix;
  mret (JObj ([("TransactionType", JStr "EscrowCreate"); ("Account", JStr p.(di_tenant));
               ("Destination", JStr p.(di_landlord)); ("Amount", p.(di_amount));
               ("FinishAfter", JNum finishAfter); ("CancelAfter", JNum cancelAfter)]
              ++ when "Condition" p.(di_condition) (fun c => JStr c.(pc_condition))
              ++ when "DestinationTag" p.(di_destinationTag) JNum ++ when "Memos" p.(di_memos) id)).
Definition buildStakeEscrow (p : StakeEscrowInput) : string + JsVal :=
  let finishUnix := addDaysUnix p.(si_leaseEndUnix) (default 7%Z p.(si_finishOffsetDays)) in
  let cancelUnix := addDaysUnix p.(si_leaseEndUnix) (default 30%Z p.(si_cancelOffsetDays)) in
  finishAfter ← unixToRippleEpoch finishUnix;
  cancelAfter ← unixToRippleEpoch cancelUnix;
  mret (JObj ([("TransactionType", JStr "EscrowCreate"); ("Account", JStr p.(si_landlord));
               ("Destination", JStr p.(si_stakeHolder)); ("Amount", p.(si_amount));
               ("FinishAfter", JNum finishAfter); ("CancelAfter", JNum cancelAfter)]
              ++ when "DestinationTag" p.(si_destinationTag) JNum ++ when "Memos" p.(si_memos) id)).
Definition buildFinish (p : FinishInput) : string + JsVal :=
  let base := [("TransactionType", JStr "EscrowFinish"); ("Account", JStr p.(fi_account));
               ("Owner", JStr p.(fi_owner)); ("OfferSequence", JNum p.(fi_offerSequence))] in
  match nonempty p.(fi_fulfillment) with
  | Some f =>
      condition ← restoreConditionFromFulfillment f;
      mret (JObj (base ++ [("Fulfillment", JStr f); ("Condition", JStr condition)]
                  ++ when "Memos" p.(fi_memos) id))
  | None => mret (JObj (base ++ when "Memos" p.(fi_memos) id))
  end.
Definition buildCancel (p : CancelInput) : JsVal :=
  JObj ([("TransactionType", JStr "EscrowCancel"); ("Account", JStr p.(ci_account));
         ("Owner", JStr p.(ci_owner)); ("OfferSequence", JNum p.(ci_offerSequence))]
        ++ when "Memos" p.(ci_memos) id).

(** * Payments ([payment/PaymentService.ts]) *)

Definition buildPayment (from to : string) (amount : JsVal) (destinationTag : option Z)
    (memos : option JsVal) (invoiceID : option string) : JsVal :=
  JObj ([("TransactionType", JStr "Payment"); ("Account", JStr from); ("Destination", JStr to);
         ("Amount", amount)]
        ++ when "DestinationTag" destinationTag JNum ++ when "Memos" memos id
        ++ when "InvoiceID" (nonempty invoiceID) JStr).

Record UtilityPaymentInput := mkUtilityInput {
  ui_tenant : string; ui_landlord : string; ui_amount : JsVal; ui_yearMonth : string;
  ui_kepcoUsagePayload : string; ui_invoicePayload : string; ui_destinationTag : option Z }.
(** [createHash("sha256").update(input, "utf8").digest("hex")] *)
Definition sha256Hex (input : string) : string := toLowerCase (bytesToHex (sha256 (chars input))).
Record VerificationResult := mkVerification {
  vr_match : bool; vr_kepcoUsageHashHex : string; vr_billHashHex : string }.
Definition verifyUtilityBill (p : UtilityPaymentInput) : VerificationResult :=
  let kepco := sha256Hex p.(ui_kepcoUsagePayload) in
  let bill := sha256Hex p.(ui_invoicePayload) in
  mkVerification (bool_decide (kepco = bill)) kepco bill.
Definition buildMonthlyUtilityPayment (p : UtilityPaymentInput) : JsVal :=
  let v := verifyUtilityBill p in
  JObj ([("TransactionType", JStr "Payment"); ("Account", JStr p.(ui_tenant));
         ("Destination", JStr p.(ui_landlord)); ("Amount", p.(ui_amount));
         ("Memos", JArr [utilityBillMemo p.(ui_yearMonth) v.(vr_kepcoUsageHashHex) v.(vr_billHashHex)])]
        ++ when "DestinationTag" p.(ui_destinationTag) JNum).
End conditions.

(** * Multisignature ([multisig/MultisigService.ts]) *)

Definition signerEntry (account : string) (weight : Z) : JsVal :=
  JObj [("SignerEntry", JObj [("Account", JStr account); ("SignerWeight", JNum weight)])].
Definition buildSignerListSet (holderAccount : string) (parties : LeaseParties) : JsVal :=
  JObj [("TransactionType", JStr "SignerListSet"); ("Account", JStr holderAccount); ("SignerQuorum", JNum 2);
        ("SignerEntries", JArr [signerEntry parties.(lp_tenant) 1; signerEntry parties.(lp_landlord) 1;
                                signerEntry parties.(lp_bluesafe) 1])].
Definition buildSignerListClear (holderAccount : string) : JsVal :=
  JObj [("TransactionType", JStr "SignerListSet"); ("Account", JStr holderAccount); ("SignerQuorum", JNum 0)].
Definition buildDisableMaster (holderAccount : string) : JsVal :=
  JObj [("TransactionType", JStr "AccountSet"); ("Account", JStr holderAccount); ("SetFlag", JNum 4)].

(** * The insurance pool ([insurance/InsurancePoolService.ts]) *)

Definition buildDepositFromSlashing (poolAccount funder : string) (amount : JsVal) (disputeId : string) : JsVal :=
  buildPayment funder poolAccount amount None
    (Some (encodeMemos [jsonMemo "INSURANCE_DEPOSIT_SLASHING" (JObj [("disputeId", JStr disputeId)])])) None.
Definition buildDepositFromFees (poolAccount funder : string) (amount : JsVal) (reason : string) : JsVal :=
  buildPayment funder poolAccount amount None
    (Some (encodeMemos [mkMemo (Some "INSURANCE_DEPOSIT_FEES") (Some reason) (Some "text/plain")])) None.
Definition buildCompensation (poolAccount to : string) (amount : JsVal) (disputeId reason : string) : JsVal :=
  buildPayment poolAccount to amount None
    (Some (encodeMemos [jsonMemo "INSURANCE_PAYOUT"
       (JObj [("disputeId", JStr disputeId); ("reason", JStr reason)])])) None.

(** * Tokens ([nft/NFTService.ts]) *)

Definition NFT_TAXON_CONTRACT : Z := 1.
Definition NFT_TAXON_REPUTATION : Z := 2.
Definition NFT_TAXON_DISPUTE : Z := 3.
Definition SOULBOUND_FLAGS : Z := 0.
Definition uriToHex (uri : string) : string + string :=
  if bool_decide (uri = "") then inl "URI must be non-empty"
  else
    let hex := utf8ToHex uri in
    if (512 <? str_length hex)%nat then inl "URI exceeds 256-byte XRPL limit after hex encoding" else inr hex.
Definition mintTx (issuer : string) (destination : option string) (taxon : Z) (uri : string)
    (memos : list MemoInput) : string + JsVal :=
  hex ← uriToHex uri;
  mret (JObj ([("TransactionType", JStr "NFTokenMint"); ("Account", JStr issuer)]
              ++ when "Destination" destination JStr ++
              [("NFTokenTaxon", JNum taxon); ("URI", JStr hex); ("Flags", JNum SOULBOUND_FLAGS);
               ("Memos", encodeMemos memos)])).

Record ContractNftInput := mkContractNft {
  cn_issuer : string; cn_uri : string; cn_metadataHash : string; cn_propertyAddrHash : string;
  cn_tenant : string; cn_landlord : string; cn_depositAmountReadable : string; cn_startUnix : Z;
  cn_endUnix : Z; cn_memos : option (list MemoInput) }.
Definition buildContractNFT (p : ContractNftInput) : string + JsVal :=
  mintTx p.(cn_issuer) None NFT_TAXON_CONTRACT p.(cn_uri)
    (default [] p.(cn_memos) ++ [jsonMemo "BLUESAFE_CONTRACT"
       (JObj [("tenant", JStr p.(cn_tenant)); ("landlord", JStr p.(cn_landlord));
              ("deposit", JStr p.(cn_depositAmountReadable)); ("start", JNum p.(cn_startUnix));
              ("end", JNum p.(cn_endUnix)); ("metadataHash", JStr (toLowerCase p.(cn_metadataHash)));
              ("propertyHash", JStr (toLowerCase p.(cn_propertyAddrHash)))])]).
Record ReputationSbtInput := mkReputationSbt {
  rs_issuer : string; rs_subject : string; rs_uri : string; rs_payloadHashHex : string;
  rs_previousNftId : option string; rs_memos : option (list MemoInput) }.
Definition buildReputationSBT (p : ReputationSbtInput) : string + JsVal :=
  mintTx p.(rs_issuer) (Some p.(rs_subject)) NFT_TAXON_REPUTATION p.(rs_uri)
    (default [] p.(rs_memos) ++ [jsonMemo "BLUESAFE_REPUTATION"
       (JObj [("subject", JStr p.(rs_subject)); ("payload", JStr (toLowerCase p.(rs_payloadHashHex)));
              ("previous", jnull p.(rs_previousNftId))])]).
(** The votes cast for each ruling. *)
Record Tally := mkTally { ty_tenant : nat; ty_landlord : nat; ty_system : nat }.
Definition tally_json (t : Tally) : JsVal :=
  JObj [("tenant", JNum (Z.of_nat t.(ty_tenant))); ("landlord", JNum (Z.of_nat t.(ty_landlord)));
        ("system", JNum (Z.of_nat t.(ty_system)))].
Record DisputeNftInput := mkDisputeNft {
  dn_issuer : string; dn_disputeId : string; dn_ruling : DisputeRuling; dn_votes : Tally;
  dn_panelAnonymizedHashes : list string; dn_evidenceUris : list string; dn_uri : string;
  dn_memos : option (list MemoInput) }.
Definition buildDisputeNFT (p : DisputeNftInput) : string + JsVal :=
  mintTx p.(dn_issuer) None NFT_TAXON_DISPUTE p.(dn_uri)
    (default [] p.(dn_memos) ++ [jsonMemo "BLUESAFE_DISPUTE"
       (JObj [("disputeId", JStr p.(dn_disputeId)); ("ruling", JStr (ruling_str p.(dn_ruling)));
              ("votes", tally_json p.(dn_votes)); ("panel", JArr (JStr <$> p.(dn_panelAnonymizedHashes)));
              ("evidence", JArr (JStr <$> p.(dn_evidenceUris)))])]).

(** * Credentials ([credential/CredentialService.ts]) *)

Definition unixToRipple (unixSeconds : Z) : Z := (unixSeconds - 946684800)%Z.
Record IssueCredentialInput := mkIssueCredential {
  ic_issuer : string; ic_subject : string; ic_credentialType : string; ic_expirationUnix : option Z;
  ic_documentUri : option string }.
Definition buildIssue (p : IssueCredentialInput) : JsVal :=
  JObj ([("TransactionType", JStr "CredentialCreate"); ("Account", JStr p.(ic_issuer));
         ("Subject", JStr p.(ic_subject)); ("CredentialType", JStr (utf8ToHex p.(ic_credentialType)))]
        ++ when "Expiration" p.(ic_expirationUnix) (fun u => JNum (unixToRipple u))
        ++ when "URI" (nonempty p.(ic_documentUri)) (fun u => JStr (utf8ToHex u))).
Definition buildAccept (subject issuer credentialType : string) : JsVal :=
  JObj [("TransactionType", JStr "CredentialAccept"); ("Account", JStr subject); ("Issuer", JStr issuer);
        ("CredentialType", JStr (utf8ToHex credentialType))].
Definition buildRevoke (issuer subject credentialType : string) : JsVal :=
  JObj [("TransactionType", JStr "CredentialDelete"); ("Account", JStr issuer); ("Subject", JStr subject);
        ("Issuer", JStr issuer); ("CredentialType", JStr (utf8ToHex credentialType))].
Definition buildDomainSet (owner : string) (domainId : option string) (issuers : list (string * string)) : JsVal :=
  JObj ([("TransactionType", JStr "PermissionedDomainSet"); ("Account", JStr owner);
         ("AcceptedCredentials", JArr ((fun i => JObj [("Credential",
            JObj [("Issuer", JStr i.1); ("CredentialType", JStr (utf8ToHex i.2))])]) <$> issuers))]
        ++ when "DomainID" (nonempty domainId) JStr).
(** [verifyCredential] on the objects the ledger listed for the subject, at
    [nowSeconds]. *)
Definition credentialMatches (issuer credentialType : string) (o : JsVal) : bool :=
  bool_decide (jstr (jget "LedgerEntryType" o) = Some "Credential") &&
  bool_decide (jstr (jget "Issuer" o) = Some issuer) &&
  bool_decide (jstr (jget "CredentialType" o) = Some (utf8ToHex credentialType)).
Definition verifyCredential (issuer credentialType : string) (nowSeconds : Z) (objects : list JsVal) :
    option JsVal :=
  match list_find (fun o => credentialMatches issuer credentialType o) objects with
  | None => None
  | Some (_, m) =>
      match jnum (jget "Expiration" m) with
      | Some e => if (e <=? unixToRipple nowSeconds)%Z then None else Some m
      | None => Some m
      end
  end.
