(* ===== verification/CoreDispute.v ===== *)
(** The stateful services of [packages/xrpl-core]: the submissions of
    [EscrowService], [PaymentService], [MultisigService], [InsurancePoolService]
    and [NFTService], and the dispute panel of [dispute/DisputeService.ts] with
    its in-memory rosters.  [signAndSubmit] (xrpl.js: autofill, sign,
    submitAndWait) and [multisign] are answered by the environment. *)
From S2P Require Import Prelude JsString JsMap JsDate Json CoreTx.
From Stdlib Require Import Ascii.

(** * State and effects *)

Record DisputeMeta := mkMeta {
  dm_leaseId : string; dm_parties : LeaseParties;
  dm_depositOwner : string; dm_depositSequence : Z; dm_depositFulfillment : option string;
  dm_stakeOwner : string; dm_stakeSequence : Z;
  dm_stakeAmountDrops : option string; dm_evidenceUris : list string }.
Record DisputeSubmission := mkSubmission {
  ds_disputeId : string; ds_claimant : string; ds_evidenceHashHex : string;
  ds_openedAtUnix : Z; ds_votingDeadlineUnix : Z; ds_panel : list string;
  ds_votes : JsMap DisputeRuling; ds_withdrawn : bool; ds_ruling : option DisputeRuling;
  ds_executedTxs : option (list string); ds_meta : DisputeMeta }.
#[export] Instance eta_DisputeSubmission : Eta DisputeSubmission := fun d =>
  mkSubmission d.(ds_disputeId) d.(ds_claimant) d.(ds_evidenceHashHex) d.(ds_openedAtUnix)
    d.(ds_votingDeadlineUnix) d.(ds_panel) d.(ds_votes) d.(ds_withdrawn) d.(ds_ruling)
    d.(ds_executedTxs) d.(ds_meta).
Record VerifierEntry := mkVerifier {
  ve_address : string; ve_active : bool; ve_region : option string; ve_brokerages : option (list string);
  ve_casesHandled : nat; ve_votesWithMajority : nat }.
#[export] Instance eta_VerifierEntry : Eta VerifierEntry := fun v =>
  mkVerifier v.(ve_address) v.(ve_active) v.(ve_region) v.(ve_brokerages) v.(ve_casesHandled)
    v.(ve_votesWithMajority).

(** What the ledger answers to a submission: a rejection of the promise, or
    the [hash] of the result. *)
Inductive TxReply := TR_error (msg : string) | TR_ok (hash : option string).

Record CoreEnv := mkCoreEnv {
  ce_clock : nat -> Z;                       (* Date.now(), milliseconds *)
  ce_random : nat -> Z;                      (* Math.random() * 2^53 *)
  ce_digest : nat -> string;                 (* sha256(randomBytes(16)), hex *)
  ce_sha256 : list ascii -> list ascii;
  ce_submit : nat -> JsVal -> string -> TxReply;     (* signAndSubmit(tx, wallet) *)
  ce_prepare : nat -> JsVal -> string + JsVal;       (* prepareForMultisign(tx) *)
  ce_sign : JsVal -> string -> string;               (* signFor(tx, wallet) *)
  ce_multisubmit : nat -> list string -> TxReply }.  (* multisignAndSubmit(blobs) *)

(** The two maps of the service, the draws made so far, and the transactions
    handed to the ledger, each with the address of its signer. *)
Record CoreWorld := mkCoreWorld {
  cw_disputes : JsMap DisputeSubmission;
  cw_verifiers : JsMap VerifierEntry;
  cw_votingPeriodSeconds : Z;
  cw_insurancePoolAccount : string;
  cw_clk : nat; cw_rnd : nat; cw_io : nat;
  cw_sent : list (JsVal * string) }.
#[export] Instance eta_CoreWorld : Eta CoreWorld := fun w =>
  mkCoreWorld w.(cw_disputes) w.(cw_verifiers) w.(cw_votingPeriodSeconds) w.(cw_insurancePoolAccount)
    w.(cw_clk) w.(cw_rnd) w.(cw_io) w.(cw_sent).
(** [new DisputeService(xrpl, escrow, nft, payment, insurancePoolAccount)] *)
Definition newDisputeService (insurancePoolAccount : string) : CoreWorld :=
  mkCoreWorld [] [] (7 * 24 * 60 * 60) insurancePoolAccount 0 0 0 [].

(** A thrown [Error] is its message; the writes made before it stay. *)
Definition CM (A : Type) : Type := CoreEnv -> CoreWorld -> (string + A) * CoreWorld.
#[export] Instance CM_ret : MRet CM := fun A a _ w => (inr a, w).
#[export] Instance CM_bind : MBind CM := fun A B k m env w =>
  match m env w with
  | (inr a, w') => k a env w'
  | (inl e, w') => (inl e, w')
  end.
Definition cthrow {A} (msg : string) : CM A := fun _ w => (inl msg, w).
Definition cget {A} (f : CoreWorld -> A) : CM A := fun _ w => (inr (f w), w).
Definition cput (f : CoreWorld -> CoreWorld) : CM unit := fun _ w => (inr tt, f w).
Definition cask {A} (f : CoreEnv -> A) : CM A := fun env w => (inr (f env), w).
Definition liftE {A} (r : string + A) : CM A := fun _ w => (r, w).
(** [Math.floor(Date.now() / 1000)] *)
Definition nowUnix : CM Z := fun env w =>
  (inr (env.(ce_clock) w.(cw_clk) / 1000)%Z, w <| cw_clk := S w.(cw_clk) |>).
(** [Math.floor(Math.random() * n)] for [n > 0]. *)
Definition randomBelow (n : nat) : CM nat := fun env w =>
  (inr (Z.to_nat ((env.(ce_random) w.(cw_rnd) mod 2 ^ 53) * Z.of_nat n / 2 ^ 53)),
   w <| cw_rnd := S w.(cw_rnd) |>).
Definition randomDisputeId : CM string := fun env w =>
  (inr (str_take 24 (env.(ce_digest) w.(cw_rnd))), w <| cw_rnd := S w.(cw_rnd) |>).

(** [xrpl.signAndSubmit(tx, wallet)]: the hash of the validated transaction. *)
Definition signAndSubmit (tx : JsVal) (wallet : string) : CM (option string) := fun env w =>
  let w' := w <| cw_io := S w.(cw_io) |> <| cw_sent := w.(cw_sent) ++ [(tx, wallet)] |> in
  match env.(ce_submit) w.(cw_io) tx wallet with
  | TR_error msg => (inl msg, w')
  | TR_ok h => (inr h, w')
  end.

(** * Submissions of the other services *)

Definition monthlyUtilityPayment (p : UtilityPaymentInput) (tenantWallet : string) : CM (option string) :=
  sha ← cask ce_sha256;
  if negb (verifyUtilityBill sha p).(vr_match) then
    cthrow ("utility-bill mismatch for " +:+ p.(ui_yearMonth) +:+ ": tenant should raise a dispute, not pay")
  else signAndSubmit (buildMonthlyUtilityPayment sha p) tenantWallet.

Definition compensateUser (poolAccount to : string) (amount : JsVal) (disputeId reason poolWallet : string) :
    CM (option string) :=
  if negb (bool_decide (poolWallet = poolAccount)) then cthrow "poolWallet does not match poolAccount"
  else signAndSubmit (buildCompensation poolAccount to amount disputeId reason) poolWallet.

Definition depositFromSlashing (poolAccount : string) (amount : JsVal) (disputeId funderWallet : string) :
    CM (option string) :=
  signAndSubmit (buildDepositFromSlashing poolAccount funderWallet amount disputeId) funderWallet.
Definition depositFromFees (poolAccount : string) (amount : JsVal) (reason funderWallet : string) :
    CM (option string) :=
  signAndSubmit (buildDepositFromFees poolAccount funderWallet amount reason) funderWallet.
Definition issue (p : IssueCredentialInput) (issuerWallet : string) : CM (option string) :=
  signAndSubmit (buildIssue p) issuerWallet.
Definition accept (subject issuer credentialType subjectWallet : string) : CM (option string) :=
  signAndSubmit (buildAccept subject issuer credentialType) subjectWallet.
Definition revoke (issuer subject credentialType issuerWallet : string) : CM (option string) :=
  signAndSubmit (buildRevoke issuer subject credentialType) issuerWallet.
Definition submitSignerList (holderWallet : string) (parties : LeaseParties) : CM (option string) :=
  signAndSubmit (buildSignerListSet holderWallet parties) holderWallet.
Definition broadcast (signedBlobs : list string) : CM (option string) :=
  if (length signedBlobs <? 2)%nat then cthrow "need at least 2 signed blobs to meet quorum"
  else fun env w =>
    let w' := w <| cw_io := S w.(cw_io) |> in
    match env.(ce_multisubmit) w.(cw_io) signedBlobs with
    | TR_error msg => (inl msg, w')
    | TR_ok h => (inr h, w')
    end.
Definition prepare (tx : JsVal) : CM JsVal := fun env w =>
  (env.(ce_prepare) w.(cw_io) tx, w <| cw_io := S w.(cw_io) |>).
Definition signAndBroadcast (tx : JsVal) (signers : list string) : CM (option string) :=
  prepared ← prepare tx;
  blobs ← cask (fun env => env.(ce_sign) prepared <$> signers);
  broadcast blobs.

(** * The roster *)

Definition registerVerifier (address : string) (region : option string) (brokerages : option (list string)) :
    CM unit :=
  known ← cget (fun w => jm_has address w.(cw_verifiers));
  if known : bool then cthrow "verifier already registered"
  else cput (fun w => w <| cw_verifiers :=
         jm_set address (mkVerifier address true region brokerages 0 0) w.(cw_verifiers) |>).

(** Mutating the entry of a verifier in place. *)
Definition updateVerifier (address : string) (f : VerifierEntry -> VerifierEntry) : CM unit :=
  cput (fun w => match jm_get address w.(cw_verifiers) with
                 | Some v => w <| cw_verifiers := jm_set address (f v) w.(cw_verifiers) |>
                 | None => w
                 end).
Definition deactivateVerifier (address : string) : CM unit :=
  known ← cget (fun w => jm_has address w.(cw_verifiers));
  if negb known then cthrow "verifier not found"
  else updateVerifier address (fun v => v <| ve_active := false |>).
Definition listVerifiers : CM (list VerifierEntry) := cget (fun w => jm_values w.(cw_verifiers)).

(** * Panels *)

Record PanelSelectionParams := mkPanelParams {
  ps_panelSize : option Z; ps_excludeAddresses : option (list string);
  ps_excludeRegion : option string; ps_excludeBrokerages : option (list string) }.
#[export] Instance eta_PanelSelectionParams : Eta PanelSelectionParams := fun p =>
  mkPanelParams p.(ps_panelSize) p.(ps_excludeAddresses) p.(ps_excludeRegion) p.(ps_excludeBrokerages).

Definition eligible (opts : PanelSelectionParams) (v : VerifierEntry) : bool :=
  if negb v.(ve_active) || bool_decide (v.(ve_address) ∈ default [] opts.(ps_excludeAddresses)) then false
  else if truthy opts.(ps_excludeRegion) && bool_decide (v.(ve_region) = opts.(ps_excludeRegion)) then false
  else if match opts.(ps_excludeBrokerages) with
          | Some ex => existsb (fun b => bool_decide (b ∈ ex)) (default [] v.(ve_brokerages))
          | None => false
          end then false
  else true.

(** [[arr[i], arr[j]] = [arr[j], arr[i]]] *)
Definition swap (i j : nat) (arr : list string) : list string :=
  match arr !! i, arr !! j with
  | Some x, Some y => <[j := x]> (<[i := y]> arr)
  | _, _ => arr
  end.
(** [k] rounds of the loop, from index [i] down. *)
Fixpoint shuffleTail (k i : nat) (arr : list string) : CM (list string) :=
  match k with
  | O => mret arr
  | S k' => j ← randomBelow (S i); shuffleTail k' (pred i) (swap i j arr)
  end.
Definition selectVerifiers (opts : PanelSelectionParams) : CM (list string) :=
  let panelSize := default 5%Z opts.(ps_panelSize) in
  pool ← cget (fun w => filter (fun v => eligible opts v) (jm_values w.(cw_verifiers)));
  if (Z.of_nat (length pool) <? panelSize)%Z then
    cthrow ("not enough eligible verifiers: have " +:+ num_str (Z.of_nat (length pool)) +:+ ", need "
            +:+ num_str panelSize)
  else
    let arr := ve_address <$> pool in
    arr' ← shuffleTail (Z.to_nat panelSize) (pred (length arr)) arr;
    mret (drop (length arr - Z.to_nat panelSize) arr').

(** * Disputes *)

Definition requireOpen (id : string) : CM DisputeSubmission :=
  d ← cget (fun w => jm_get id w.(cw_disputes));
  match d with
  | None => cthrow "dispute not found"
  | Some d =>
      if d.(ds_withdrawn) then cthrow "dispute withdrawn"
      else match d.(ds_ruling) with
           | Some _ => cthrow "dispute already executed"
           | None => mret d
           end
  end.
(** Mutating the dispute [d] that the map holds under [id]. *)
Definition updateDispute (id : string) (f : DisputeSubmission -> DisputeSubmission) : CM unit :=
  cput (fun w => match jm_get id w.(cw_disputes) with
                 | Some d => w <| cw_disputes := jm_set id (f d) w.(cw_disputes) |>
                 | None => w
                 end).

Definition submitDispute (claimant evidenceHashHex : string) (meta : DisputeMeta)
    (panelSelection : option PanelSelectionParams) : CM DisputeSubmission :=
  let tenant := meta.(dm_parties).(lp_tenant) in
  let landlord := meta.(dm_parties).(lp_landlord) in
  if negb (bool_decide (claimant = tenant)) && negb (bool_decide (claimant = landlord)) then
    cthrow "claimant must be a lease party"
  else
    disputeId ← randomDisputeId;
    openedAtUnix ← nowUnix;
    let sel := default (mkPanelParams None None None None) panelSelection in
    panel ← selectVerifiers (sel <| ps_excludeAddresses :=
      Some (default [] sel.(ps_excludeAddresses) ++ [tenant; landlord]) |>);
    period ← cget cw_votingPeriodSeconds;
    let submission := mkSubmission disputeId claimant evidenceHashHex openedAtUnix (openedAtUnix + period)
                        panel [] false None None meta in
    cput (fun w => w <| cw_disputes := jm_set disputeId submission w.(cw_disputes) |>);;
    mret submission.

Definition collectVote (disputeId verifier : string) (ruling : DisputeRuling) : CM unit :=
  d ← requireOpen disputeId;
  if negb (bool_decide (verifier ∈ d.(ds_panel))) then cthrow "not on panel"
  else if jm_has verifier d.(ds_votes) then cthrow "already voted"
  else
    updateDispute disputeId (fun d => d <| ds_votes := jm_set verifier ruling d.(ds_votes) |>);;
    updateVerifier verifier (fun v => v <| ve_casesHandled := S v.(ve_casesHandled) |>).

Definition withdrawDispute (disputeId claimant : string) : CM unit :=
  d ← requireOpen disputeId;
  if negb (bool_decide (d.(ds_claimant) = claimant)) then cthrow "not the claimant"
  else updateDispute disputeId (fun d => d <| ds_withdrawn := true |>).
Definition getDispute (id : string) : CM (option DisputeSubmission) := cget (fun w => jm_get id w.(cw_disputes)).

(** * The verdict *)

Definition votesFor (r : DisputeRuling) (d : DisputeSubmission) : nat :=
  length (filter (fun v => v = r) (jm_values d.(ds_votes))).
Definition countVotes (d : DisputeSubmission) : Tally :=
  mkTally (votesFor TENANT_WINS d) (votesFor LANDLORD_WINS d) (votesFor SYSTEM_FAULT d).

Definition computeRuling (d : DisputeSubmission) : CM DisputeRuling :=
  let tally := countVotes d in
  let majority := (length d.(ds_panel) / 2 + 1)%nat in
  if (majority <=? tally.(ty_tenant))%nat then mret TENANT_WINS
  else if (majority <=? tally.(ty_landlord))%nat then mret LANDLORD_WINS
  else if (majority <=? tally.(ty_system))%nat then mret SYSTEM_FAULT
  else
    now ← nowUnix;
    if (now <? d.(ds_votingDeadlineUnix))%Z then cthrow "no majority yet and voting still open"
    else if (tally.(ty_landlord) <? tally.(ty_tenant))%nat && (tally.(ty_system) <? tally.(ty_tenant))%nat then
      mret TENANT_WINS
    else if (tally.(ty_tenant) <? tally.(ty_landlord))%nat && (tally.(ty_system) <? tally.(ty_landlord))%nat then
      mret LANDLORD_WINS
    else mret SYSTEM_FAULT.

(** * Settlement *)

(** [pushHash(d, await ...)] *)
Definition pushHash (disputeId : string) (hash : option string) : CM unit :=
  match nonempty hash with
  | Some h => updateDispute disputeId (fun d =>
      d <| ds_executedTxs := (fun l => l ++ [h]) <$> d.(ds_executedTxs) |>)
  | None => mret tt
  end.
Definition submitFor (disputeId : string) (tx : JsVal) (wallet : string) : CM unit :=
  h ← signAndSubmit tx wallet; pushHash disputeId h.

Definition cancelDepositTx (d : DisputeSubmission) (signer : string) : JsVal :=
  buildCancel (mkCancelInput signer d.(ds_meta).(dm_depositOwner) d.(ds_meta).(dm_depositSequence) None).
Definition cancelDeposit (d : DisputeSubmission) (signer : string) : CM unit :=
  submitFor d.(ds_disputeId) (cancelDepositTx d signer) signer.
Definition finishDeposit (d : DisputeSubmission) (signer : string) : CM unit :=
  sha ← cask ce_sha256;
  tx ← liftE (buildFinish sha (mkFinishInput signer d.(ds_meta).(dm_depositOwner)
         d.(ds_meta).(dm_depositSequence) d.(ds_meta).(dm_depositFulfillment) None));
  submitFor d.(ds_disputeId) tx signer.
Definition finishStakeInput (d : DisputeSubmission) (signer : string) : FinishInput :=
  mkFinishInput signer d.(ds_meta).(dm_stakeOwner) d.(ds_meta).(dm_stakeSequence) None None.
Definition finishStake (d : DisputeSubmission) (signer : string) : CM unit :=
  sha ← cask ce_sha256;
  tx ← liftE (buildFinish sha (finishStakeInput d signer));
  submitFor d.(ds_disputeId) tx signer.

(** [BigInt(s)]: white space around a decimal with an optional sign, or an
    unsigned literal with a base; the empty literal is zero. *)
Fixpoint digitsIn (base acc : N) (l : list ascii) : option N :=
  match l with
  | [] => Some acc
  | c :: l' => match hex_val c with
               | Some x => if (x <? base)%N then digitsIn base (base * acc + x) l' else None
               | None => None
               end
  end%N.
Definition digits1 (base : N) (l : list ascii) : option Z :=
  match l with [] => None | _ => Z.of_N <$> digitsIn base 0 l end.
Definition parseBigInt (s : string) : option Z :=
  match chars (trim s) with
  | [] => Some 0%Z
  | "0"%char :: "x"%char :: l | "0"%char :: "X"%char :: l => digits1 16 l
  | "0"%char :: "o"%char :: l | "0"%char :: "O"%char :: l => digits1 8 l
  | "0"%char :: "b"%char :: l | "0"%char :: "B"%char :: l => digits1 2 l
  | "-"%char :: l => Z.opp <$> digits1 10 l
  | "+"%char :: l => digits1 10 l
  | l => digits1 10 l
  end.

(** The two shares of a slashed stake; [BigInt] division truncates. *)
Definition toTenant (total : Z) : Z := Z.quot (total * SLASH_TENANT_BPS) BPS_DENOM.
Definition toInsurance (total : Z) : Z := (total - toTenant total)%Z.
Definition slashStake (d : DisputeSubmission) (funder : string) : CM unit :=
  match nonempty d.(ds_meta).(dm_stakeAmountDrops) with
  | None => cthrow "slashStake requires meta.stakeAmountDrops (XRP drops as string)"
  | Some drops =>
      finishStake d funder;;
      total ← liftE (match parseBigInt drops with
                     | Some n => inr n
                     | None => inl ("Cannot convert " +:+ drops +:+ " to a BigInt")
                     end);
      pool ← cget cw_insurancePoolAccount;
      let tenantPay := buildPayment funder d.(ds_meta).(dm_parties).(lp_tenant)
                         (JStr (num_str (toTenant total))) None None None in
      let poolPay := buildPayment funder pool (JStr (num_str (toInsurance total))) None None None in
      submitFor d.(ds_disputeId) tenantPay funder;;
      submitFor d.(ds_disputeId) poolPay funder
  end.

Record JudgmentArgs := mkJudgment {
  ja_disputeId : string; ja_bluesafeWallet : string; ja_issuerWallet : string; ja_poolFunderWallet : string;
  ja_judgmentUri : string; ja_panelAnonymizedHashes : list string }.

Definition settleEscrows (d : DisputeSubmission) (ruling : DisputeRuling) (args : JudgmentArgs) : CM unit :=
  match ruling with
  | TENANT_WINS => cancelDeposit d args.(ja_bluesafeWallet);; slashStake d args.(ja_poolFunderWallet)
  | LANDLORD_WINS => finishDeposit d args.(ja_bluesafeWallet);; finishStake d args.(ja_bluesafeWallet)
  | SYSTEM_FAULT => cancelDeposit d args.(ja_bluesafeWallet);; finishStake d args.(ja_bluesafeWallet)
  end.
Definition mintJudgment (d : DisputeSubmission) (ruling : DisputeRuling) (tally : Tally) (args : JudgmentArgs) :
    CM unit :=
  tx ← liftE (buildDisputeNFT (mkDisputeNft args.(ja_issuerWallet) d.(ds_disputeId) ruling tally
         args.(ja_panelAnonymizedHashes) d.(ds_meta).(dm_evidenceUris) args.(ja_judgmentUri) None));
  submitFor d.(ds_disputeId) tx args.(ja_issuerWallet).
Fixpoint trackAccuracy (ruling : DisputeRuling) (votes : list (string * DisputeRuling)) : CM unit :=
  match votes with
  | [] => mret tt
  | (v, vote) :: rest =>
      (if bool_decide (vote = ruling) then
         updateVerifier v (fun e => e <| ve_votesWithMajority := S e.(ve_votesWithMajority) |>)
       else mret tt);;
      trackAccuracy ruling rest
  end.

Definition executeJudgment (args : JudgmentArgs) : CM (option DisputeSubmission) :=
  d ← requireOpen args.(ja_disputeId);
  ruling ← computeRuling d;
  updateDispute args.(ja_disputeId) (fun d => d <| ds_ruling := Some ruling |> <| ds_executedTxs := Some [] |>);;
  let tally := countVotes d in
  settleEscrows d ruling args;;
  mintJudgment d ruling tally args;;
  trackAccuracy ruling d.(ds_votes);;
  getDispute args.(ja_disputeId).
