(* ===== verification/CoreProps.v ===== *)
(** Properties of the dispute panel of [packages/xrpl-core]: who sits on a
    panel, what the votes decide, which transactions a verdict submits, and
    what the rosters record. *)
From S2P Require Import Prelude JsString JsMap JsDate CoreTx CoreDispute.
From Stdlib Require Import Ascii.

(** * Returning computations *)

Definition creturns {A} (m : CM A) (env : CoreEnv) (w : CoreWorld) (Q : A -> CoreWorld -> Prop) : Prop :=
  forall a w', m env w = (inr a, w') -> Q a w'.

Section creturns.
Context {A B : Type} (env : CoreEnv) (w : CoreWorld).
Lemma creturns_bind (m : CM A) (k : A -> CM B) Q :
  creturns m env w (fun a w1 => creturns (k a) env w1 Q) -> creturns (m ≫= k) env w Q.
Proof.
  unfold creturns, mbind, CM_bind. intros H b w'. destruct (m env w) as [[e|a] w1]; [done|]. by apply H.
Qed.
Lemma creturns_wand (m : CM A) (Q Q' : A -> CoreWorld -> Prop) :
  creturns m env w Q -> (forall a w1, Q a w1 -> Q' a w1) -> creturns m env w Q'.
Proof. unfold creturns. eauto. Qed.
Lemma creturns_ret (a : A) (Q : A -> CoreWorld -> Prop) : Q a w -> creturns (mret a) env w Q.
Proof. by intros H a' w' [= <- <-]. Qed.
Lemma creturns_throw msg (Q : A -> CoreWorld -> Prop) : creturns (cthrow msg) env w Q.
Proof. by intros a w'. Qed.
Lemma creturns_get (f : CoreWorld -> A) (Q : A -> CoreWorld -> Prop) : Q (f w) w -> creturns (cget f) env w Q.
Proof. by intros H a' w' [= <- <-]. Qed.
Lemma creturns_ask (f : CoreEnv -> A) (Q : A -> CoreWorld -> Prop) : Q (f env) w -> creturns (cask f) env w Q.
Proof. by intros H a' w' [= <- <-]. Qed.
Lemma creturns_put f (Q : unit -> CoreWorld -> Prop) : Q tt (f w) -> creturns (cput f) env w Q.
Proof. by intros H a' w' [= <- <-]. Qed.
Lemma creturns_lift (r : string + A) (Q : A -> CoreWorld -> Prop) :
  (forall a, r = inr a -> Q a w) -> creturns (liftE r) env w Q.
Proof. intros H a' w' [= -> <-]. by apply H. Qed.
End creturns.

(** * Panels *)

Lemma insert_perm (x y : string) i l : l !! i = Some x -> y :: l ≡ₚ x :: <[i := y]> l.
Proof.
  revert i. induction l as [|z l IH]; intros [|i] Hi; simpl in *; [done..| |].
  - injection Hi as ->. constructor.
  - rewrite Permutation_swap, (IH i Hi). constructor.
Qed.
Lemma swap_perm i j l : swap i j l ≡ₚ l.
Proof.
  unfold swap. destruct (l !! i) as [x|] eqn:Hi; [|done]. destruct (l !! j) as [y|] eqn:Hj; [|done].
  apply (Permutation_cons_inv (a := y)). rewrite (insert_perm x y i l Hi). symmetry. apply insert_perm.
  destruct (decide (i = j)) as [<-|Hne]; [|by rewrite list_lookup_insert_ne].
  rewrite list_lookup_insert_eq by (by eapply lookup_lt_Some). congruence.
Qed.
(** The loop only permutes, and consumes one random draw per round. *)
Lemma shuffleTail_perm k i l env w : exists l',
  shuffleTail k i l env w = (inr l', w <| cw_rnd := k + w.(cw_rnd) |>) /\ l' ≡ₚ l.
Proof.
  revert i l w. induction k as [|k IH]; intros i l w; simpl.
  - exists l. by destruct w.
  - unfold mbind, CM_bind, randomBelow.
    destruct (IH (pred i) (swap i (Z.to_nat ((ce_random env (cw_rnd w) mod 2 ^ 53) * Z.of_nat (S i) / 2 ^ 53)) l)
      (w <| cw_rnd := S w.(cw_rnd) |>)) as (l' & E & Hp).
    exists l'. rewrite E. split; [|by rewrite Hp, swap_perm]. do 2 f_equal. simpl. unfold upd. simpl. f_equal. lia.
Qed.

(** The roster: entries under their own address. *)
Definition roster_ok (m : JsMap VerifierEntry) : Prop :=
  jm_wf m /\ jm_all (fun k v => v.(ve_address) = k) m.
Lemma roster_get m a v : roster_ok m -> jm_get a m = Some v -> v.(ve_address) = a.
Proof. intros [_ H] Hg. by apply (jm_all_get _ _ _ _ H Hg). Qed.
Lemma roster_addresses m : roster_ok m -> ve_address <$> jm_values m = jm_keys m.
Proof.
  intros [Hwf H]. unfold jm_values, jm_keys. rewrite <-list_fmap_compose. apply list_fmap_ext. intros i [k v] Hi.
  apply (jm_all_get _ _ _ _ H). apply jm_in_get; [done|]. by eapply list_elem_of_lookup_2.
Qed.

(** The conditions under which a verifier may sit. *)
Record may_sit (opts : PanelSelectionParams) (v : VerifierEntry) : Prop := mkMaySit {
  sit_active : v.(ve_active) = true;
  sit_address : v.(ve_address) ∉ default [] opts.(ps_excludeAddresses);
  sit_region : forall r, opts.(ps_excludeRegion) = Some r -> r <> "" -> v.(ve_region) <> Some r;
  sit_brokerages : forall ex b, opts.(ps_excludeBrokerages) = Some ex -> b ∈ ex ->
    b ∉ default [] v.(ve_brokerages) }.
Lemma eligible_spec opts v : eligible opts v = true <-> may_sit opts v.
Proof.
  unfold eligible. split.
  - destruct (negb _ || _) eqn:H1; [done|]. destruct (truthy _ && _) eqn:H2; [done|].
    destruct (match ps_excludeBrokerages opts with Some _ => _ | None => _ end) eqn:H3; [done|]. intros _. bool_to_prop. split; [done..| |].
    + intros r Hr Hne Hv. apply andb_false_iff in H2 as [H2|H2]; [rewrite Hr in H2; simpl in H2|]; bool_to_prop; congruence.
    + intros ex b Hex Hb Hin. rewrite Hex in H3. rewrite <-not_true_iff_false in H3. apply H3.
      apply existsb_exists. exists b. split; [by apply list_elem_of_In|by apply bool_decide_eq_true].
  - intros [H1 H2 H3 H4]. rewrite H1, bool_decide_false by done. simpl.
    destruct (truthy _ && _) eqn:E2.
    { apply andb_prop in E2 as [(r & Hr & Hne)%truthy_Some E]. bool_to_prop. by destruct (H3 r Hr Hne); congruence. }
    destruct (ps_excludeBrokerages opts) as [ex|] eqn:Hex; [|done].
    destruct (existsb _ _) eqn:E3; [|done]. apply existsb_exists in E3 as (b & Hin%list_elem_of_In & Hb).
    bool_to_prop. by destruct (H4 ex b eq_refl Hb).
Qed.

Definition pool_of (opts : PanelSelectionParams) (m : JsMap VerifierEntry) : list string :=
  ve_address <$> filter (fun v => eligible opts v) (jm_values m).
Lemma pool_NoDup opts m : roster_ok m -> NoDup (pool_of opts m).
Proof.
  intros H. eapply sublist_NoDup; [apply H|]. rewrite <-(roster_addresses m H). apply fmap_sublist, sublist_filter.
Qed.
Lemma pool_spec opts m a : roster_ok m ->
  a ∈ pool_of opts m <-> exists v, jm_get a m = Some v /\ may_sit opts v.
Proof.
  intros H. unfold pool_of. rewrite list_elem_of_fmap. split.
  - intros (v & -> & [Hv Hin]%list_elem_of_filter). apply Is_true_true, eligible_spec in Hv.
    apply jm_values_get in Hin as [k Hk]; [|apply H]. pose proof (roster_get _ _ _ H Hk) as ->. eauto.
  - intros (v & Hk & Hv%eligible_spec). exists v. split; [by rewrite (roster_get _ _ _ H Hk)|].
    apply list_elem_of_filter. split; [by apply Is_true_true|]. apply jm_values_get; [apply H|]. eauto.
Qed.

Lemma selectVerifiers_spec opts env w :
  let n := default 5%Z opts.(ps_panelSize) in
  let pool := pool_of opts w.(cw_verifiers) in
  if (Z.of_nat (length pool) <? n)%Z then exists msg, selectVerifiers opts env w = (inl msg, w)
  else exists panel rest, selectVerifiers opts env w = (inr panel, w <| cw_rnd := Z.to_nat n + w.(cw_rnd) |>) /\
    rest ++ panel ≡ₚ pool /\ length panel = Z.to_nat n.
Proof.
  intros n pool.
  assert (Heq : exists msg, selectVerifiers opts env w =
    if (Z.of_nat (length pool) <? n)%Z then (inl msg, w)
    else match shuffleTail (Z.to_nat n) (pred (length pool)) pool env w with
         | (inl e, w1) => (inl e, w1)
         | (inr l, w1) => (inr (drop (length pool - Z.to_nat n) l), w1)
         end).
  { unfold selectVerifiers, pool, pool_of. rewrite !length_fmap. fold n. unfold mbind, CM_bind, cget.
    rewrite !length_fmap. eexists. case_match; reflexivity. }
  destruct Heq as [msg ->]. destruct (_ <? n)%Z eqn:E; [by eexists|]. apply Z.ltb_ge in E.
  destruct (shuffleTail_perm (Z.to_nat n) (pred (length pool)) pool env w) as (l' & -> & Hp).
  exists (drop (length pool - Z.to_nat n) l'), (take (length pool - Z.to_nat n) l').
  split; [done|]. rewrite take_drop. split; [done|]. rewrite length_drop, Hp. lia.
Qed.

(** C34: Whatever the random draws, a panel has exactly the requested number of
    members, all different, each a registered active verifier outside the
    excluded addresses, region and brokerages; the draw fails exactly when
    fewer verifiers may sit than are needed; and it changes neither roster. *)
Theorem panel_is_eligible env w opts :
  roster_ok w.(cw_verifiers) ->
  let n := default 5%Z opts.(ps_panelSize) in
  let w' := (selectVerifiers opts env w).2 in
  w'.(cw_verifiers) = w.(cw_verifiers) /\ w'.(cw_disputes) = w.(cw_disputes) /\
  match (selectVerifiers opts env w).1 with
  | inr panel => length panel = Z.to_nat n /\ NoDup panel /\
      forall a, a ∈ panel -> exists v, jm_get a w.(cw_verifiers) = Some v /\ may_sit opts v
  | inl _ => forall l, NoDup l -> (forall a, a ∈ l -> exists v, jm_get a w.(cw_verifiers) = Some v /\ may_sit opts v) ->
      (Z.of_nat (length l) < n)%Z
  end.
Proof.
  intros Hok n w'. pose proof (selectVerifiers_spec opts env w) as H. cbv zeta in H. fold n in H. unfold w'. clear w'.
  pose proof (pool_NoDup opts _ Hok) as Hnd. pose proof (fun a => pool_spec opts _ a Hok) as Hspec.
  destruct (_ <? n)%Z eqn:E.
  - destruct H as [msg ->]. cbn [fst snd]. split_and!; [done..|]. apply Z.ltb_lt in E. intros l Hl Hin.
    assert (length l <= length (pool_of opts (cw_verifiers w)))%nat; [|lia].
    apply NoDup_incl_length; [by apply NoDup_ListNoDup|]. intros a Ha%list_elem_of_In.
    apply list_elem_of_In, Hspec, Hin, Ha.
  - destruct H as (panel & rest & -> & Hp & Hlen). cbn [fst snd]. split_and!; [done..| |].
    + rewrite <-Hp in Hnd. by apply NoDup_app in Hnd as (_ & _ & ?).
    + intros a Ha. apply Hspec. rewrite <-Hp. apply elem_of_app. by right.
Qed.

(** * A concrete service *)

(** Draws count up, digests are spelled by their number, every transaction is
    validated under its number. *)
Definition coreEnvWith (submit : nat -> JsVal -> string -> TxReply) : CoreEnv :=
  mkCoreEnv (fun n => 1767225600000 + 1000 * Z.of_nat n)%Z (fun n => 4503599627370496 * Z.of_nat n)%Z
    (fun n => of_chars (pad 64 (10 ^ 50 * Z.of_nat (S n)))) (fun _ => repeat (byte 7) 32) submit
    (fun _ tx => inr tx) (fun _ s => s) (fun _ _ => TR_ok None).
Definition coreEnv : CoreEnv := coreEnvWith (fun n _ _ => TR_ok (Some ("tx" +:+ num_str (Z.of_nat n)))).
Definition runCore {A} (m : CM A) (env : CoreEnv) (w : CoreWorld) : CoreWorld := (m env w).2.
Definition roster6 : CoreWorld :=
  fold_left (fun w a => runCore (registerVerifier a (Some "Seoul") None) coreEnv w)
    ["v1"; "v2"; "v3"; "v4"; "v5"; "v6"] (newDisputeService "rPool").
Definition panelOf3 : PanelSelectionParams := mkPanelParams (Some 3%Z) (Some ["v2"]) None None.
Lemma roster6_ok : roster_ok roster6.(cw_verifiers).
Proof. split; [apply (bool_decide_unpack _); vm_compute; exact I|]. repeat constructor. Qed.
Lemma panel_is_eligible_witness :
  exists panel w', selectVerifiers panelOf3 coreEnv roster6 = (inr panel, w') /\ length panel = 3 /\ NoDup panel /\
    "v2" ∉ panel.
Proof.
  destruct (panel_is_eligible coreEnv roster6 panelOf3 roster6_ok) as (_ & _ & H).
  destruct (selectVerifiers panelOf3 coreEnv roster6) as [[e|panel] w'] eqn:E; [vm_compute in E; discriminate E|].
  cbn [fst] in H. destruct H as (Hlen & Hnd & Hsit). exists panel, w'. split; [reflexivity|]. split; [exact Hlen|].
  split; [exact Hnd|]. intros Hin. destruct (Hsit "v2" Hin) as (v & Hv & [_ Hout _ _]).
  apply Hout. rewrite (roster_get _ _ _ roster6_ok Hv). apply list_elem_of_here.
Defined.

(** * What a verdict does *)

(** The accuracy counters after a verdict. *)
Definition bumpOne (ruling : DisputeRuling) (m : JsMap VerifierEntry) (av : string * DisputeRuling) :
    JsMap VerifierEntry :=
  if bool_decide (av.2 = ruling) then
    match jm_get av.1 m with
    | Some e => jm_set av.1 (e <| ve_votesWithMajority := S e.(ve_votesWithMajority) |>) m
    | None => m
    end
  else m.
Definition bumped (ruling : DisputeRuling) (votes : list (string * DisputeRuling)) (m : JsMap VerifierEntry) :
    JsMap VerifierEntry := fold_left (bumpOne ruling) votes m.
Lemma trackAccuracy_bumped ruling votes env w :
  trackAccuracy ruling votes env w = (inr tt, w <| cw_verifiers := bumped ruling votes w.(cw_verifiers) |>).
Proof.
  revert w. induction votes as [|[a vote] votes IH]; intros w; simpl; [by destruct w|].
  unfold mbind, CM_bind, bumpOne. simpl. case_bool_decide; simpl; [|apply IH].
  destruct (jm_get a (cw_verifiers w)) as [e|]; simpl; by rewrite IH.
Qed.

Definition oneMore (e : VerifierEntry) : VerifierEntry :=
  e <| ve_votesWithMajority := S e.(ve_votesWithMajority) |>.
Lemma bumpOne_get ruling m b vote a :
  jm_get a (bumpOne ruling m (b, vote)) =
  if decide (a = b /\ vote = ruling) then oneMore <$> jm_get a m else jm_get a m.
Proof.
  unfold bumpOne. simpl. case_bool_decide as Hv.
  - destruct (decide (a = b)) as [->|Hne].
    + rewrite decide_True by done. destruct (jm_get b m) eqn:Hg; [by rewrite jm_get_set_eq|by rewrite Hg].
    + rewrite decide_False by naive_solver. destruct (jm_get b m); [|done]. rewrite jm_get_set_ne; congruence.
  - by rewrite decide_False by naive_solver.
Qed.
Lemma bumped_get ruling votes m a : jm_wf votes ->
  jm_get a (bumped ruling votes m) =
  if decide (jm_get a votes = Some ruling) then oneMore <$> jm_get a m else jm_get a m.
Proof.
  unfold jm_wf, jm_keys, bumped. revert m. induction votes as [|[b vote] votes IH]; intros m Hnd; csimpl in *; [done|].
  apply NoDup_cons in Hnd as [Hout Hnd]. simpl. rewrite IH, bumpOne_get by done. destruct (decide (a = b)) as [->|Hne].
  - rewrite (decide_False (P := jm_get b votes = Some ruling)).
    2:{ intros Hb. apply Hout. apply jm_get_elem. by rewrite Hb. }
    repeat case_decide; naive_solver.
  - by rewrite (decide_False (P := a = b /\ _)) by naive_solver.
Qed.

(** The row of a dispute under judgment: only the hashes and the ruling move. *)
Definition judged (d : DisputeSubmission) (r : DisputeRuling) (hashes : list string) : DisputeSubmission :=
  d <| ds_ruling := Some r |> <| ds_executedTxs := Some hashes |>.
(** The hashes the ledger returns for [txs], the first of them its [n]-th
    exchange. *)
Fixpoint ledgerHashes (env : CoreEnv) (n : nat) (txs : list (JsVal * string)) : list string :=
  match txs with
  | [] => []
  | (tx, wallet) :: rest =>
      match env.(ce_submit) n tx wallet with
      | TR_ok h => option_list (nonempty h)
      | TR_error _ => []
      end ++ ledgerHashes env (S n) rest
  end.
Lemma ledgerHashes_app env n txs txs' :
  ledgerHashes env n (txs ++ txs') = ledgerHashes env n txs ++ ledgerHashes env (length txs + n) txs'.
Proof.
  revert n. induction txs as [|[tx wl] txs IH]; intros n; simpl; [done|].
  by rewrite IH, app_assoc, Nat.add_succ_r.
Qed.

Lemma jm_set_set {V} k (v v' : V) m : jm_set k v (jm_set k v' m) = jm_set k v m.
Proof.
  induction m as [|[k' v''] m IH]; simpl; [by rewrite decide_True|].
  case_decide as H; simpl; [by rewrite decide_True|]. rewrite decide_False by done. by rewrite IH.
Qed.
Lemma jm_set_same {V} k (v : V) m : jm_get k m = Some v -> jm_set k v m = m.
Proof. induction m as [|[k' v'] m IH]; simpl; [done|]. case_decide; intros; [congruence|]. by rewrite IH. Qed.

(** While [d] is judged: transactions go to the ledger, their hashes to the row
    of [d], and nothing else moves. *)
Definition judging (d : DisputeSubmission) (r : DisputeRuling) (env : CoreEnv) (w w' : CoreWorld) : Prop :=
  forall hs, jm_get d.(ds_disputeId) w.(cw_disputes) = Some (judged d r hs) -> exists txs,
    w' = w <| cw_sent := w.(cw_sent) ++ txs |> <| cw_io := length txs + w.(cw_io) |>
           <| cw_disputes := jm_set d.(ds_disputeId) (judged d r (hs ++ ledgerHashes env w.(cw_io) txs))
                               w.(cw_disputes) |>.
Definition judges {A} (d : DisputeSubmission) (r : DisputeRuling) (m : CM A) : Prop :=
  forall env w, judging d r env w (m env w).2.

Section judges.
Context (d : DisputeSubmission) (r : DisputeRuling).
Lemma judging_refl env w : judging d r env w w.
Proof.
  intros hs Hd. exists []. simpl. rewrite !app_nil_r, jm_set_same by done. by destruct w.
Qed.
Lemma judging_trans env w1 w2 w3 : judging d r env w1 w2 -> judging d r env w2 w3 -> judging d r env w1 w3.
Proof.
  intros H1 H2 hs Hd. destruct (H1 hs Hd) as [txs ->]. clear H1.
  destruct (H2 (hs ++ ledgerHashes env (cw_io w1) txs)) as [txs' ->]; [simpl; apply jm_get_set_eq|].
  exists (txs ++ txs'). simpl. rewrite jm_set_set, length_app, ledgerHashes_app, !app_assoc.
  unfold upd. simpl. f_equal. lia.
Qed.
Lemma judges_bind {A B} (m : CM A) (k : A -> CM B) :
  judges d r m -> (forall a, judges d r (k a)) -> judges d r (m ≫= k).
Proof.
  intros Hm Hk env w. unfold mbind, CM_bind. specialize (Hm env w).
  destruct (m env w) as [[e|a] w1]; [done|]. eapply judging_trans; [exact Hm|apply Hk].
Qed.
Lemma judges_read {A} (m : CM A) : (forall env w, (m env w).2 = w) -> judges d r m.
Proof. intros H env w. rewrite H. apply judging_refl. Qed.

(** A transaction is handed over and, when the ledger takes it, its hash kept. *)
Lemma judges_submitFor tx wallet : judges d r (submitFor d.(ds_disputeId) tx wallet).
Proof.
  intros env w hs Hd. exists [(tx, wallet)]. unfold submitFor, signAndSubmit, pushHash, updateDispute, cput.
  unfold mbind, CM_bind. simpl. destruct (ce_submit env (cw_io w) tx wallet) as [msg|h].
  - simpl. rewrite app_nil_r, jm_set_same by done. done.
  - simpl. destruct (nonempty h) as [h'|]; simpl.
    + rewrite Hd. done.
    + rewrite app_nil_r, jm_set_same by done. done.
Qed.
End judges.

Lemma judges_settle d r env w args : judging d r env w (settleEscrows d r args env w).2.
Proof.
  revert env w. change (judges d r (settleEscrows d r args)).
  assert (Hfin : forall signer, judges d r (finishStake d signer)).
  { intros s. unfold finishStake. apply judges_bind; [by apply judges_read|]. intros sha.
    apply judges_bind; [by apply judges_read|]. intros tx. apply judges_submitFor. }
  unfold settleEscrows, cancelDeposit. destruct r.
  - apply judges_bind; [apply judges_submitFor|]. intros _. unfold slashStake.
    destruct (nonempty _); [|by apply judges_read]. apply judges_bind; [apply Hfin|]. intros _.
    apply judges_bind; [by apply judges_read|]. intros total. apply judges_bind; [by apply judges_read|].
    intros pool. apply judges_bind; [apply judges_submitFor|]. intros _. apply judges_submitFor.
  - apply judges_bind; [|intros _; apply Hfin]. unfold finishDeposit. apply judges_bind; [by apply judges_read|].
    intros sha. apply judges_bind; [by apply judges_read|]. intros tx. apply judges_submitFor.
  - apply judges_bind; [apply judges_submitFor|]. intros _. apply Hfin.
Qed.
Lemma judges_mint d r r' tally args : judges d r (mintJudgment d r' tally args).
Proof. unfold mintJudgment. apply judges_bind; [by apply judges_read|]. intros tx. apply judges_submitFor. Qed.

(** ** The ruling *)

(** More than half of the panel. *)
Definition majority (d : DisputeSubmission) (r : DisputeRuling) : Prop := length d.(ds_panel) < 2 * votesFor r d.
Definition plurality (d : DisputeSubmission) (r : DisputeRuling) : Prop :=
  forall r', r' <> r -> votesFor r' d < votesFor r d.
(** The verdict on [d] at the second [now]. *)
Definition verdict (d : DisputeSubmission) (now : Z) (r : DisputeRuling) : Prop :=
  majority d r \/
  ((forall r', ~ majority d r') /\ (d.(ds_votingDeadlineUnix) <= now)%Z /\
   (plurality d r \/ (r = SYSTEM_FAULT /\ ~ plurality d TENANT_WINS /\ ~ plurality d LANDLORD_WINS))).

Lemma majority_spec d r : (length d.(ds_panel) / 2 + 1 <=? votesFor r d)%nat = true <-> majority d r.
Proof.
  unfold majority. rewrite Nat.leb_le. pose proof (Nat.div_mod_eq (length (ds_panel d)) 2) as H.
  pose proof (Nat.mod_upper_bound (length (ds_panel d)) 2 ltac:(lia)). lia.
Qed.
Lemma plurality_tenant d : plurality d TENANT_WINS <->
  votesFor LANDLORD_WINS d < votesFor TENANT_WINS d /\ votesFor SYSTEM_FAULT d < votesFor TENANT_WINS d.
Proof. split; [intros H; split; by apply H|]. by intros [??] [] Hne. Qed.
Lemma plurality_landlord d : plurality d LANDLORD_WINS <->
  votesFor TENANT_WINS d < votesFor LANDLORD_WINS d /\ votesFor SYSTEM_FAULT d < votesFor LANDLORD_WINS d.
Proof. split; [intros H; split; by apply H|]. by intros [??] [] Hne. Qed.

Lemma computeRuling_spec d env w :
  let now := (env.(ce_clock) w.(cw_clk) / 1000)%Z in
  exists clk', (computeRuling d env w).2 = w <| cw_clk := clk' |> /\
  match (computeRuling d env w).1 with
  | inr r => verdict d now r
  | inl e => e = "no majority yet and voting still open" /\ (forall r, ~ majority d r) /\
      (now < d.(ds_votingDeadlineUnix))%Z
  end.
Proof.
  intros now. unfold computeRuling. cbn [countVotes ty_tenant ty_landlord ty_system].
  destruct (_ <=? votesFor TENANT_WINS d)%nat eqn:E1.
  { exists w.(cw_clk). split; [by destruct w|]. left. by apply majority_spec. }
  destruct (_ <=? votesFor LANDLORD_WINS d)%nat eqn:E2.
  { exists w.(cw_clk). split; [by destruct w|]. left. by apply majority_spec. }
  destruct (_ <=? votesFor SYSTEM_FAULT d)%nat eqn:E3.
  { exists w.(cw_clk). split; [by destruct w|]. left. by apply majority_spec. }
  assert (Hno : forall r, ~ majority d r).
  { intros [] H%majority_spec; congruence. }
  exists (S w.(cw_clk)). unfold mbind, CM_bind, nowUnix. fold now.
  destruct (Z.ltb_spec now (ds_votingDeadlineUnix d)); [done|].
  destruct ((votesFor LANDLORD_WINS d <? _)%nat && _) eqn:E4;
    [|destruct ((votesFor TENANT_WINS d <? _)%nat && _) eqn:E5].
  - apply andb_prop in E4 as [?%Nat.ltb_lt ?%Nat.ltb_lt]. split; [done|].
    change (verdict d now TENANT_WINS). right. split_and!; [done..|]. left. by apply plurality_tenant.
  - apply andb_prop in E5 as [?%Nat.ltb_lt ?%Nat.ltb_lt]. split; [done|].
    change (verdict d now LANDLORD_WINS). right. split_and!; [done..|]. left. by apply plurality_landlord.
  - split; [done|]. change (verdict d now SYSTEM_FAULT). right. split_and!; [done..|]. right.
    rewrite plurality_tenant, plurality_landlord. apply andb_false_iff in E4, E5. rewrite !Nat.ltb_ge in E4, E5.
    split; [done|]. lia.
Qed.

(** ** Every outcome of a judgment *)

(** The disputes are filed under their identifiers. *)
Definition disputes_ok (m : JsMap DisputeSubmission) : Prop :=
  jm_wf m /\ jm_all (fun k d => d.(ds_disputeId) = k /\ jm_wf d.(ds_votes)) m.
Lemma disputes_get m k d : disputes_ok m -> jm_get k m = Some d -> d.(ds_disputeId) = k /\ jm_wf d.(ds_votes).
Proof. intros [_ H] Hg. by apply (jm_all_get _ _ _ _ H Hg). Qed.

(** The transactions of a verdict, each with its signer. *)
Definition finishStakeTx (d : DisputeSubmission) (signer : string) : JsVal :=
  JObj [("TransactionType", JStr "EscrowFinish"); ("Account", JStr signer);
        ("Owner", JStr d.(ds_meta).(dm_stakeOwner)); ("OfferSequence", JNum d.(ds_meta).(dm_stakeSequence))].
Definition payTx (from to : string) (drops : Z) : JsVal :=
  JObj [("TransactionType", JStr "Payment"); ("Account", JStr from); ("Destination", JStr to);
        ("Amount", JStr (num_str drops))].
Definition escrowTxs (env : CoreEnv) (pool : string) (d : DisputeSubmission) (r : DisputeRuling)
    (args : JudgmentArgs) (txs : list (JsVal * string)) : Prop :=
  let bluesafe := args.(ja_bluesafeWallet) in
  let funder := args.(ja_poolFunderWallet) in
  match r with
  | TENANT_WINS => exists drops total,
      d.(ds_meta).(dm_stakeAmountDrops) = Some drops /\ parseBigInt drops = Some total /\
      txs = [(cancelDepositTx d bluesafe, bluesafe); (finishStakeTx d funder, funder);
             (payTx funder d.(ds_meta).(dm_parties).(lp_tenant) (total * 7 ÷ 10), funder);
             (payTx funder pool (total - total * 7 ÷ 10), funder)]%Z
  | LANDLORD_WINS => exists tx,
      buildFinish env.(ce_sha256) (mkFinishInput bluesafe d.(ds_meta).(dm_depositOwner)
        d.(ds_meta).(dm_depositSequence) d.(ds_meta).(dm_depositFulfillment) None) = inr tx /\
      txs = [(tx, bluesafe); (finishStakeTx d bluesafe, bluesafe)]
  | SYSTEM_FAULT => txs = [(cancelDepositTx d bluesafe, bluesafe); (finishStakeTx d bluesafe, bluesafe)]
  end.
Definition judgmentNft (d : DisputeSubmission) (r : DisputeRuling) (args : JudgmentArgs) : string + JsVal :=
  buildDisputeNFT (mkDisputeNft args.(ja_issuerWallet) d.(ds_disputeId) r (countVotes d)
    args.(ja_panelAnonymizedHashes) d.(ds_meta).(dm_evidenceUris) args.(ja_judgmentUri) None).

Lemma toTenant_share total : toTenant total = (total * 7 ÷ 10)%Z.
Proof.
  unfold toTenant, SLASH_TENANT_BPS, BPS_DENOM. replace (total * 7000)%Z with (total * 7 * 1000)%Z by lia.
  change 10000%Z with (10 * 1000)%Z. apply Z.quot_mul_cancel_r; lia.
Qed.

(** What was handed over, when a computation returns. *)
Definition hands (w : CoreWorld) (txs : list (JsVal * string)) (w' : CoreWorld) : Prop :=
  w'.(cw_sent) = w.(cw_sent) ++ txs /\ w'.(cw_insurancePoolAccount) = w.(cw_insurancePoolAccount).
Lemma hands_refl w : hands w [] w.
Proof. split; [by rewrite app_nil_r|done]. Qed.
Lemma hands_app w1 w2 w3 l l' : hands w1 l w2 -> hands w2 l' w3 -> hands w1 (l ++ l') w3.
Proof. intros [H1 P1] [H2 P2]. split; [by rewrite H2, H1, app_assoc|congruence]. Qed.
Lemma hands_submitFor id tx wallet env w :
  creturns (submitFor id tx wallet) env w (fun _ w' => hands w [(tx, wallet)] w').
Proof.
  intros [] w'. unfold submitFor, signAndSubmit, pushHash, updateDispute, cput, mbind, CM_bind. simpl.
  destruct (ce_submit env (cw_io w) tx wallet) as [msg|h]; [done|]. simpl.
  destruct (nonempty h); simpl; [destruct (jm_get id _)|]; by intros [= <-].
Qed.
Lemma hands_finishStake d signer env w :
  creturns (finishStake d signer) env w (fun _ w' => hands w [(finishStakeTx d signer, signer)] w').
Proof. exact (hands_submitFor _ (finishStakeTx d signer) signer env w). Qed.

(** One transaction, then the rest. *)
Lemma hands_seq {A} (m : CM unit) (k : CM A) env w txs (P : list (JsVal * string) -> Prop) :
  creturns m env w (fun _ w' => hands w txs w') ->
  (forall w1, hands w txs w1 -> creturns k env w1 (fun _ w' => exists l, hands w1 l w' /\ P (txs ++ l))) ->
  creturns (m ≫= fun _ => k) env w (fun _ w' => exists l, hands w l w' /\ P l).
Proof.
  intros Hm Hk. apply creturns_bind. eapply creturns_wand; [exact Hm|]. intros ? w1 H1.
  eapply creturns_wand; [by apply Hk|]. intros ? w2 (l & H2 & HP). exists (txs ++ l).
  split; [exact (hands_app _ _ _ _ _ H1 H2)|done].
Qed.
Lemma hands_last {A} (m : CM A) env w txs (P : list (JsVal * string) -> Prop) :
  creturns m env w (fun _ w' => hands w txs w') -> P txs ->
  creturns m env w (fun _ w' => exists l, hands w l w' /\ P l).
Proof. intros Hm HP. eapply creturns_wand; [exact Hm|]. intros ? w1 H1. by exists txs. Qed.

Lemma nonempty_Some o s : nonempty o = Some s -> o = Some s.
Proof. unfold nonempty. destruct (truthy o); congruence. Qed.
Lemma settle_hands d r args env w :
  creturns (settleEscrows d r args) env w (fun _ w' => exists txs,
    hands w txs w' /\ escrowTxs env w.(cw_insurancePoolAccount) d r args txs).
Proof.
  unfold settleEscrows, cancelDeposit. destruct r; simpl.
  - eapply hands_seq; [apply hands_submitFor|]. intros w1 [_ Hp]. unfold slashStake.
    destruct (nonempty _) as [drops|] eqn:Hd; [|apply creturns_throw].
    apply nonempty_Some in Hd.
    eapply hands_seq; [apply hands_finishStake|]. intros w2 [_ Hp2].
    apply creturns_bind, creturns_lift. intros total Ht. apply creturns_bind, creturns_get. cbv zeta.
    eapply hands_seq; [apply hands_submitFor|]. intros w3 _. eapply hands_last; [apply hands_submitFor|].
    exists drops, total. split_and!; [done| |].
    + by destruct (parseBigInt drops) as [n|]; [injection Ht as ->|].
    + unfold toInsurance. rewrite toTenant_share, Hp2, Hp. done.
  - apply creturns_bind. unfold finishDeposit. apply creturns_bind, creturns_ask, creturns_bind, creturns_lift.
    intros tx Htx. eapply creturns_wand; [apply hands_submitFor|]. intros ? w1 H1.
    eapply creturns_wand; [apply hands_finishStake|]. intros ? w2 H2.
    eexists. split; [exact (hands_app _ _ _ _ _ H1 H2)|]. by exists tx.
  - eapply hands_seq; [apply hands_submitFor|]. intros w1 _. by eapply hands_last; [apply hands_finishStake|].
Qed.
Lemma mint_hands d r args env w :
  creturns (mintJudgment d r (countVotes d) args) env w (fun _ w' => exists nft,
    hands w [(nft, args.(ja_issuerWallet))] w' /\ judgmentNft d r args = inr nft).
Proof.
  unfold mintJudgment. apply creturns_bind, creturns_lift. intros nft Hn.
  eapply creturns_wand; [apply hands_submitFor|]. intros ? w1 H1. by exists nft.
Qed.

(** An open dispute, the only kind the operations work on. *)
Definition open (w : CoreWorld) (id : string) (d : DisputeSubmission) : Prop :=
  jm_get id w.(cw_disputes) = Some d /\ d.(ds_withdrawn) = false /\ d.(ds_ruling) = None.
Lemma requireOpen_spec id env w :
  (exists d, requireOpen id env w = (inr d, w) /\ open w id d) \/
  (exists e, requireOpen id env w = (inl e, w) /\ forall d, ~ open w id d).
Proof.
  unfold requireOpen, open, mbind, CM_bind, cget. destruct (jm_get id _) as [d|]; [|right; eexists; split; [done|naive_solver]].
  destruct (ds_withdrawn d) eqn:Hw; [right; eexists; split; [done|naive_solver congruence]|].
  destruct (ds_ruling d) eqn:Hr; [right; eexists; split; [done|naive_solver congruence]|]. left. by exists d.
Qed.

(** The world after a verdict [r] on [d] and the transactions [txs]. *)
Definition afterVerdict (env : CoreEnv) (d : DisputeSubmission) (r : DisputeRuling) (txs : list (JsVal * string))
    (clk : nat) (w : CoreWorld) : CoreWorld :=
  w <| cw_clk := clk |> <| cw_sent := w.(cw_sent) ++ txs |> <| cw_io := length txs + w.(cw_io) |>
    <| cw_disputes := jm_set d.(ds_disputeId) (judged d r (ledgerHashes env w.(cw_io) txs)) w.(cw_disputes) |>.
Inductive judgment_outcome (env : CoreEnv) (args : JudgmentArgs) (w : CoreWorld) :
    (string + option DisputeSubmission) * CoreWorld -> Prop :=
  | jo_refused e clk : judgment_outcome env args w (inl e, w <| cw_clk := clk |>)
  | jo_failed e d r txs clk :
      open w args.(ja_disputeId) d -> verdict d (env.(ce_clock) w.(cw_clk) / 1000)%Z r ->
      judgment_outcome env args w (inl e, afterVerdict env d r txs clk w)
  | jo_settled d r txs nft clk :
      open w args.(ja_disputeId) d -> verdict d (env.(ce_clock) w.(cw_clk) / 1000)%Z r ->
      escrowTxs env w.(cw_insurancePoolAccount) d r args txs -> judgmentNft d r args = inr nft ->
      let txs' := txs ++ [(nft, args.(ja_issuerWallet))] in
      judgment_outcome env args w
        (inr (Some (judged d r (ledgerHashes env w.(cw_io) txs'))),
         afterVerdict env d r txs' clk w <| cw_verifiers := bumped r d.(ds_votes) w.(cw_verifiers) |>).

(** The writes of the settlement, seen from the world before the verdict. *)
Definition verdictGiven (d : DisputeSubmission) (r : DisputeRuling) (clk : nat) (w : CoreWorld) : CoreWorld :=
  w <| cw_clk := clk |> <| cw_disputes := jm_set d.(ds_disputeId) (judged d r []) w.(cw_disputes) |>.
Lemma judging_afterVerdict env d r clk w w' :
  judging d r env (verdictGiven d r clk w) w' -> exists txs, w' = afterVerdict env d r txs clk w.
Proof.
  intros H. destruct (H []) as [txs ->]; [simpl; apply jm_get_set_eq|]. exists txs.
  unfold verdictGiven, afterVerdict, upd. simpl. by rewrite jm_set_set.
Qed.
Lemma updateDispute_at id f d env w : jm_get id w.(cw_disputes) = Some d ->
  updateDispute id f env w = (inr tt, w <| cw_disputes := jm_set id (f d) w.(cw_disputes) |>).
Proof. unfold updateDispute, cput. by intros ->. Qed.
Lemma cbind_eq {A B} (m : CM A) (k : A -> CM B) env w a w1 :
  m env w = (inr a, w1) -> (m ≫= k) env w = k a env w1.
Proof. unfold mbind, CM_bind. by intros ->. Qed.
Lemma cbind_err {A B} (m : CM A) (k : A -> CM B) env w e w1 :
  m env w = (inl e, w1) -> (m ≫= k) env w = (inl e, w1).
Proof. unfold mbind, CM_bind. by intros ->. Qed.

Lemma judgment_outcomes env args w :
  disputes_ok w.(cw_disputes) -> judgment_outcome env args w (executeJudgment args env w).
Proof.
  intros Hok. unfold executeJudgment.
  destruct (requireOpen_spec args.(ja_disputeId) env w) as [(d & Er & Hopen)|(e & Er & _)].
  2:{ rewrite (cbind_err _ _ _ _ _ _ Er). replace (inl e, w) with (@inl string (option DisputeSubmission) e, w <| cw_clk := w.(cw_clk) |>) by by destruct w.
      apply jo_refused. }
  rewrite (cbind_eq _ _ _ _ _ _ Er). pose proof Hopen as (Hd & _). destruct (disputes_get _ _ _ Hok Hd) as [Hid Hvotes].
  destruct (computeRuling_spec d env w) as (clk & E2 & E1).
  destruct (computeRuling d env w) as [[e|r] w1] eqn:Ec; cbn [fst snd] in E1, E2; subst w1.
  { rewrite (cbind_err _ _ _ _ _ _ Ec). apply jo_refused. }
  rewrite (cbind_eq _ _ _ _ _ _ Ec). 
  assert (Hd' : jm_get args.(ja_disputeId) (w <| cw_clk := clk |>).(cw_disputes) = Some d) by exact Hd.
  rewrite (cbind_eq _ _ _ _ _ _ (updateDispute_at _ _ _ _ _ Hd')).
  rewrite <-Hid. fold (verdictGiven d r clk w). cbv zeta.
  change (upd cw_disputes _ _) with (verdictGiven d r clk w).
  pose proof (judges_settle d r env (verdictGiven d r clk w) args) as J1.
  pose proof (settle_hands d r args env (verdictGiven d r clk w)) as H1.
  destruct (settleEscrows d r args env (verdictGiven d r clk w)) as [[e|[]] w3] eqn:Es; cbn [fst snd] in J1.
  { rewrite (cbind_err _ _ _ _ _ _ Es). apply judging_afterVerdict in J1 as [txs ->]. by apply jo_failed. }
  rewrite (cbind_eq _ _ _ _ _ _ Es). destruct (H1 _ _ Es) as (txs & Ht & Hesc). clear H1.
  pose proof (judging_trans _ _ _ _ _ _ J1 (judges_mint d r r (countVotes d) args env w3)) as J2.
  pose proof (mint_hands d r args env w3) as H2.
  destruct (mintJudgment d r (countVotes d) args env w3) as [[e|[]] w4] eqn:Em; cbn [fst snd] in J2.
  { rewrite (cbind_err _ _ _ _ _ _ Em). apply judging_afterVerdict in J2 as [txs' ->]. by apply jo_failed. }
  rewrite (cbind_eq _ _ _ _ _ _ Em). destruct (H2 _ _ Em) as (nft & Hn & Hnft).
  rewrite (cbind_eq _ _ _ _ _ _ (trackAccuracy_bumped _ _ _ _)).
  pose proof (hands_app _ _ _ _ _ Ht Hn) as [Hsent _]. apply judging_afterVerdict in J2 as [txs' ->].
  apply app_inv_head in Hsent. cbn [afterVerdict cw_sent] in Hsent.
  unfold getDispute, cget. subst txs'. simpl. rewrite jm_get_set_eq. by eapply jo_settled.
Qed.

(** C35: A judgment that returns has given the majority's ruling, or, after the
    voting deadline, the strict plurality's with SYSTEM_FAULT on a tie; it has
    handed to the ledger exactly the transactions of that ruling and the
    judgment token, in order (for the tenant: refund of the deposit, release of
    the stake, seven tenths of it to the tenant and all the rest to the
    insurance pool); the row holds the ruling and the hashes the ledger
    returned, no other dispute moves, and exactly the verifiers who voted for
    the ruling gain a vote with the majority. *)
Theorem verdict_settles env w args d' w' :
  disputes_ok w.(cw_disputes) ->
  executeJudgment args env w = (inr (Some d'), w') ->
  exists d r txs nft, open w args.(ja_disputeId) d /\ verdict d (env.(ce_clock) w.(cw_clk) / 1000)%Z r /\
    escrowTxs env w.(cw_insurancePoolAccount) d r args txs /\ judgmentNft d r args = inr nft /\
    let all := txs ++ [(nft, args.(ja_issuerWallet))] in
    w'.(cw_sent) = w.(cw_sent) ++ all /\ d' = judged d r (ledgerHashes env w.(cw_io) all) /\
    (forall k, jm_get k w'.(cw_disputes) =
       if decide (args.(ja_disputeId) = k) then Some d' else jm_get k w.(cw_disputes)) /\
    (forall a, jm_get a w'.(cw_verifiers) =
       if decide (jm_get a d.(ds_votes) = Some r) then oneMore <$> jm_get a w.(cw_verifiers)
       else jm_get a w.(cw_verifiers)).
Proof.
  intros Hok E. pose proof (judgment_outcomes env args w Hok) as H. rewrite E in H. clear E.
  inversion H as [| |d r txs nft clk Hopen Hv Htxs Hn all Heq]. subst all.
  pose proof Hopen as (Hd & _). destruct (disputes_get _ _ _ Hok Hd) as [Hid Hvotes].
  exists d, r, txs, nft. cbv zeta. split_and!; try done.
  - intros k. etrans; [exact (jm_get_set d.(ds_disputeId) k _ _)|]. by rewrite Hid.
  - intros a. simpl. by apply bumped_get.
Qed.

(** Two of three verifiers for the tenant. *)
Definition demoMeta : DisputeMeta :=
  mkMeta "lease_1" (mkParties "rTenant" "rLandlord" "rBluesafe") "rTenant" 11 None "rLandlord" 12 (Some "1001") ["ipfs://e"].
Definition demoArgs (id : string) : JudgmentArgs :=
  mkJudgment id "rBluesafe" "rIssuer" "rFunder" "ipfs://judgment" [].
Definition coreFiled : CoreWorld :=
  runCore (submitDispute "rTenant" "AB" demoMeta (Some panelOf3)) coreEnv roster6.
Definition coreId : string := default "" (head (jm_keys coreFiled.(cw_disputes))).
Definition corePanel : list string :=
  from_option ds_panel [] (jm_get coreId coreFiled.(cw_disputes)).
Definition coreVoted : CoreWorld :=
  fold_left (fun w a => runCore (collectVote coreId a TENANT_WINS) coreEnv w) (take 2 corePanel) coreFiled.
Lemma coreVoted_ok : disputes_ok coreVoted.(cw_disputes).
Proof.
  unfold disputes_ok, jm_all, jm_wf. apply (bool_decide_unpack _). vm_compute. exact I.
Qed.
Definition answered (res : (string + option DisputeSubmission) * CoreWorld) : option DisputeRuling :=
  match res.1 with inr (Some d) => d.(ds_ruling) | _ => None end.
Lemma verdict_settles_witness :
  exists d' w', executeJudgment (demoArgs coreId) coreEnv coreVoted = (inr (Some d'), w') /\
    d'.(ds_ruling) = Some TENANT_WINS /\ length w'.(cw_sent) = 5.
Proof.
  assert (Hr : answered (executeJudgment (demoArgs coreId) coreEnv coreVoted) = Some TENANT_WINS)
    by (vm_compute; reflexivity).
  assert (Hl : length (executeJudgment (demoArgs coreId) coreEnv coreVoted).2.(cw_sent) = 5) by (vm_compute; reflexivity).
  destruct (executeJudgment (demoArgs coreId) coreEnv coreVoted) as [[e|[d'|]] w'] eqn:E; [discriminate Hr| |discriminate Hr].
  destruct (verdict_settles coreEnv coreVoted _ d' w' coreVoted_ok E)
    as (d & r & txs & nft & _ & _ & _ & _ & _ & Hd' & _ & _).
  exists d', w'. split; [reflexivity|]. split; [|exact Hl]. exact Hr.
Defined.
