(* ===== verification/CoreSystem.v ===== *)
(** The dispute service of [packages/xrpl-core] as a transition system: its
    public operations, the invariant of its two maps, and what holds after any
    sequence of them. *)
From S2P Require Import Prelude JsString JsMap JsDate CoreTx CoreDispute CoreProps.
From Stdlib Require Import Ascii.

Inductive core_step (env : CoreEnv) (w : CoreWorld) : CoreWorld -> Prop :=
  | CS_register a region brokerages : core_step env w (registerVerifier a region brokerages env w).2
  | CS_deactivate a : core_step env w (deactivateVerifier a env w).2
  | CS_select opts : core_step env w (selectVerifiers opts env w).2
  | CS_submit claimant evidence meta sel : core_step env w (submitDispute claimant evidence meta sel env w).2
  | CS_vote id a r : core_step env w (collectVote id a r env w).2
  | CS_withdraw id claimant : core_step env w (withdrawDispute id claimant env w).2
  | CS_judge args : core_step env w (executeJudgment args env w).2.
Definition core_reachable (env : CoreEnv) (pool : string) : CoreWorld -> Prop :=
  rtc (core_step env) (newDisputeService pool).

(** The identifiers drawn differ: what 12 bytes of a digest of random bytes
    are used for. *)
Definition digests_distinct (env : CoreEnv) (n : nat) : Prop :=
  forall i j, i < n -> j < n -> str_take 24 (env.(ce_digest) i) = str_take 24 (env.(ce_digest) j) -> i = j.
Lemma digests_distinct_le env n m : n <= m -> digests_distinct env m -> digests_distinct env n.
Proof. intros Hle H i j Hi Hj. apply H; lia. Qed.

(** * Counting over the disputes *)

Definition voted (a : string) (d : DisputeSubmission) : Prop := is_Some (jm_get a d.(ds_votes)).
(** The verdict went the way [a] voted. *)
Definition agreed (a : string) (d : DisputeSubmission) : Prop :=
  is_Some d.(ds_ruling) /\ jm_get a d.(ds_votes) = d.(ds_ruling).
#[export] Instance voted_dec a d : Decision (voted a d).
Proof. unfold voted. apply _. Defined.
#[export] Instance agreed_dec a d : Decision (agreed a d).
Proof. unfold agreed. apply _. Defined.

Section count.
Context {V : Type} (P : V -> Prop) `{!forall v, Decision (P v)}.
Definition count (m : JsMap V) : nat := length (filter P (jm_values m)).
Definition one (v : V) : nat := if decide (P v) then 1 else 0.
Lemma count_cons v l : length (filter P (v :: l)) = one v + length (filter P l).
Proof. unfold one. rewrite filter_cons. by case_decide. Qed.
Lemma count_insert k v m : jm_get k m = None -> count (jm_set k v m) = one v + count m.
Proof.
  intros Hk. unfold count, jm_values. rewrite jm_set_absent by done.
  rewrite fmap_app, filter_app, length_app. csimpl. rewrite count_cons. simpl. lia.
Qed.
Lemma count_update k v v' m : jm_get k m = Some v -> count (jm_set k v' m) + one v = one v' + count m.
Proof.
  unfold count, jm_values. induction m as [|[k0 v0] m IH]; simpl; [done|].
  destruct (decide (k = k0)) as [Hk|Hk]; intros Hm; csimpl; rewrite !count_cons.
  - injection Hm as ->. lia.
  - specialize (IH Hm). lia.
Qed.
Lemma count_zero m : jm_wf m -> (forall k v, jm_get k m = Some v -> ~ P v) -> count m = 0.
Proof.
  intros Hwf Hno. unfold count. destruct (filter P (jm_values m)) as [|v l] eqn:E; [done|].
  assert (v ∈ filter P (jm_values m)) as [Hv Hin]%list_elem_of_filter by (rewrite E; by left).
  apply jm_values_get in Hin as [k Hk]; [|done]. by destruct (Hno k v Hk).
Qed.
End count.

(** * The invariant *)

Record row_ok (env : CoreEnv) (w : CoreWorld) (k : string) (d : DisputeSubmission) : Prop := mkRowOk {
  row_id : d.(ds_disputeId) = k;
  row_drawn : exists i, i < w.(cw_rnd) /\ k = str_take 24 (env.(ce_digest) i);
  row_panel : NoDup d.(ds_panel);
  row_seated : forall a, a ∈ d.(ds_panel) -> is_Some (jm_get a w.(cw_verifiers));
  row_parties : d.(ds_meta).(dm_parties).(lp_tenant) ∉ d.(ds_panel) /\
                d.(ds_meta).(dm_parties).(lp_landlord) ∉ d.(ds_panel);
  row_votes : jm_wf d.(ds_votes);
  row_voters : forall a, voted a d -> a ∈ d.(ds_panel) }.
Record core_ok (env : CoreEnv) (w : CoreWorld) : Prop := mkCoreOk {
  core_roster : roster_ok w.(cw_verifiers);
  core_wf : jm_wf w.(cw_disputes);
  core_rows : forall k d, jm_get k w.(cw_disputes) = Some d -> row_ok env w k d;
  core_records : forall a v, jm_get a w.(cw_verifiers) = Some v ->
    v.(ve_casesHandled) = count (voted a) w.(cw_disputes) /\
    v.(ve_votesWithMajority) <= count (agreed a) w.(cw_disputes) }.

(** A closed dispute is what it was. *)
Definition closed (d : DisputeSubmission) : Prop := d.(ds_withdrawn) = true \/ is_Some d.(ds_ruling).
Definition rows_kept (w w' : CoreWorld) : Prop :=
  forall k d, jm_get k w.(cw_disputes) = Some d -> exists d', jm_get k w'.(cw_disputes) = Some d' /\
    d'.(ds_panel) = d.(ds_panel) /\ d'.(ds_meta) = d.(ds_meta) /\
    (forall a r, jm_get a d.(ds_votes) = Some r -> jm_get a d'.(ds_votes) = Some r) /\ (closed d -> d' = d).
#[export] Instance rows_kept_preorder : PreOrder rows_kept.
Proof.
  split; [intros w k d ?; exists d; by split_and!|].
  intros w1 w2 w3 H1 H2 k d Hd. destruct (H1 k d Hd) as (d2 & Hd2 & Hp2 & Hm2 & Hv2 & Hc2).
  destruct (H2 k d2 Hd2) as (d3 & Hd3 & Hp3 & Hm3 & Hv3 & Hc3).
  exists d3. split_and!; [done|congruence|congruence|auto|].
  intros Hc. rewrite Hc3; [auto|by rewrite (Hc2 Hc)].
Qed.

(** A step that is sound if the identifiers drawn so far differ. *)
Definition sound_step (env : CoreEnv) (w w' : CoreWorld) : Prop :=
  w.(cw_rnd) <= w'.(cw_rnd) /\
  (digests_distinct env w'.(cw_rnd) -> core_ok env w -> core_ok env w' /\ rows_kept w w').
Lemma sound_same env w w' :
  w.(cw_rnd) <= w'.(cw_rnd) -> w'.(cw_disputes) = w.(cw_disputes) -> w'.(cw_verifiers) = w.(cw_verifiers) ->
  sound_step env w w'.
Proof.
  intros Hle Hd Hv. split; [done|]. intros _ [H1 H2 H3 H4]. split.
  - split; rewrite ?Hd, ?Hv; [done..| |done]. intros k d Hk. destruct (H3 k d Hk) as [? (i & ? & ?) ? ? ? ? ?].
    split; rewrite ?Hv; try done. exists i. split; [lia|done].
  - intros k d Hk. exists d. rewrite Hd. by split_and!.
Qed.

(** * The operations keep it *)

(** Only the roster moves; the records of its members do not. *)
Lemma sound_roster env w w' :
  w'.(cw_rnd) = w.(cw_rnd) -> w'.(cw_disputes) = w.(cw_disputes) ->
  (core_ok env w -> roster_ok w'.(cw_verifiers) /\
     (forall a, is_Some (jm_get a w.(cw_verifiers)) -> is_Some (jm_get a w'.(cw_verifiers))) /\
     (forall a v', jm_get a w'.(cw_verifiers) = Some v' ->
        (exists v, jm_get a w.(cw_verifiers) = Some v /\ v'.(ve_casesHandled) = v.(ve_casesHandled) /\
           v'.(ve_votesWithMajority) = v.(ve_votesWithMajority)) \/
        (jm_get a w.(cw_verifiers) = None /\ v'.(ve_casesHandled) = 0 /\ v'.(ve_votesWithMajority) = 0))) ->
  sound_step env w w'.
Proof.
  intros Hrnd Hd H. split; [lia|]. intros _ Hok. destruct (H Hok) as (Hr & Hin & Hrec).
  pose proof Hok as [H1 H2 H3 H4]. split.
  - split; [done|by rewrite Hd| |].
    + rewrite Hd. intros k d Hk. destruct (H3 k d Hk). split; rewrite ?Hrnd; auto.
    + intros a v' Hv'. rewrite Hd. destruct (Hrec a v' Hv') as [(v & Hv & -> & ->)|(Hnone & -> & ->)]; [auto|].
      split; [|lia]. symmetry. apply count_zero; [done|]. intros k d Hk Hvoted. destruct (H3 k d Hk) as [_ _ _ Hs _ _ Hvs].
      destruct (Hs a (Hvs a Hvoted)) as [? ?]. congruence.
  - intros k d Hk. exists d. rewrite Hd. by split_and!.
Qed.

(** One open dispute moves, and the records with it. *)
Lemma sound_row env w w' k d d' :
  w.(cw_rnd) = w'.(cw_rnd) -> w'.(cw_disputes) = jm_set k d' w.(cw_disputes) ->
  jm_get k w.(cw_disputes) = Some d -> ~ closed d ->
  d'.(ds_disputeId) = d.(ds_disputeId) -> d'.(ds_panel) = d.(ds_panel) -> d'.(ds_meta) = d.(ds_meta) ->
  (core_ok env w -> jm_wf d'.(ds_votes) /\ (forall a, voted a d' -> a ∈ d.(ds_panel)) /\
     (forall a r, jm_get a d.(ds_votes) = Some r -> jm_get a d'.(ds_votes) = Some r) /\
     roster_ok w'.(cw_verifiers) /\
     (forall a, is_Some (jm_get a w.(cw_verifiers)) -> is_Some (jm_get a w'.(cw_verifiers))) /\
     (forall a v', jm_get a w'.(cw_verifiers) = Some v' -> exists v, jm_get a w.(cw_verifiers) = Some v /\
        v'.(ve_casesHandled) + one (voted a) d = one (voted a) d' + v.(ve_casesHandled) /\
        v'.(ve_votesWithMajority) + one (agreed a) d <= one (agreed a) d' + v.(ve_votesWithMajority))) ->
  sound_step env w w'.
Proof.
  intros Hrnd Hd Hk Hopen Hid Hp Hm H. split; [lia|]. intros _ Hok.
  destruct (H Hok) as (Hwf' & Hvs' & Hext & Hr & Hin & Hrec). pose proof Hok as [H1 H2 H3 H4]. split.
  - split; [done|rewrite Hd; by apply jm_set_wf| |].
    + intros k0 d0. rewrite Hd, jm_get_set. case_decide as Hk0.
      * intros [= <-]. subst k0. destruct (H3 k d Hk). split; rewrite ?Hp, ?Hm, ?Hid, <-?Hrnd; auto.
      * intros Hk'. destruct (H3 k0 d0 Hk'). split; rewrite <-?Hrnd; auto.
    + intros a v' Hv'. destruct (Hrec a v' Hv') as (v & Hv & Hc & Hj). destruct (H4 a v Hv) as [Hcv Hjv].
      rewrite Hd. pose proof (count_update (voted a) k d d' _ Hk). pose proof (count_update (agreed a) k d d' _ Hk). lia.
  - intros k0 d0 Hk0. rewrite Hd, jm_get_set. case_decide as E; [|exists d0; by split_and!].
    subst k0. assert (d0 = d) as -> by congruence. exists d'. split_and!; [done..|]. by intros Hc.
Qed.

Lemma sound_register env w a region brokerages : sound_step env w (registerVerifier a region brokerages env w).2.
Proof.
  unfold registerVerifier, mbind, CM_bind, cget, jm_has. destruct (jm_get a _) as [v|] eqn:Ha; simpl.
  { by apply sound_same. }
  apply sound_roster; [done..|]. intros [[Hwf Hall] _ _ _]. simpl. split_and!.
  - split; [by apply jm_set_wf|by apply jm_all_set].
  - intros b Hb. rewrite jm_get_set. case_decide; [eauto|done].
  - intros b v'. rewrite jm_get_set. case_decide; [intros [= <-]; subst; right; done|intros Hb; left; eauto].
Qed.
Lemma sound_deactivate env w a : sound_step env w (deactivateVerifier a env w).2.
Proof.
  unfold deactivateVerifier, updateVerifier, mbind, CM_bind, cget, cput, jm_has.
  destruct (jm_get a _) as [v|] eqn:Ha; simpl; [|by apply sound_same]. rewrite Ha.
  apply sound_roster; [done..|]. intros [[Hwf Hall] _ _ _]. simpl. split_and!.
  - split; [by apply jm_set_wf|]. apply jm_all_set; [done|]. simpl. by apply (jm_all_get _ _ _ _ Hall Ha).
  - intros b Hb. rewrite jm_get_set. case_decide; [eauto|done].
  - intros b v'. rewrite jm_get_set. left. revert H. case_decide; [|eauto]. intros [= <-]. subst. eauto.
Qed.
Lemma selectVerifiers_world opts env w : exists n, (selectVerifiers opts env w).2 = w <| cw_rnd := n + w.(cw_rnd) |>.
Proof.
  pose proof (selectVerifiers_spec opts env w) as H. cbv zeta in H. destruct (_ <? _)%Z.
  - destruct H as [msg ->]. exists 0. by destruct w.
  - destruct H as (panel & rest & -> & _). by eexists.
Qed.
Lemma sound_select env w opts : sound_step env w (selectVerifiers opts env w).2.
Proof. destruct (selectVerifiers_world opts env w) as [n ->]. apply sound_same; simpl; [lia|done..]. Qed.

(** A new dispute under a new identifier. *)
Lemma sound_new env w w' k d i :
  w.(cw_rnd) <= i < w'.(cw_rnd) -> k = str_take 24 (env.(ce_digest) i) ->
  w'.(cw_disputes) = jm_set k d w.(cw_disputes) -> w'.(cw_verifiers) = w.(cw_verifiers) ->
  d.(ds_votes) = [] -> d.(ds_ruling) = None ->
  (core_ok env w -> row_ok env w' k d) -> sound_step env w w'.
Proof.
  intros Hi Hk Hd Hv Hvotes Hrul Hrow. split; [lia|]. intros Hdist Hok. pose proof Hok as [H1 H2 H3 H4].
  assert (Hnew : jm_get k w.(cw_disputes) = None).
  { destruct (jm_get k _) as [d0|] eqn:E; [|done]. destruct (H3 k d0 E) as [_ (j & Hj & Hkj) _ _ _ _ _].
    assert (i = j); [|lia]. apply Hdist; [lia..|congruence]. }
  split.
  - split; [by rewrite Hv|rewrite Hd; by apply jm_set_wf| |].
    + intros k0 d0. rewrite Hd, jm_get_set. case_decide; [intros [= <-]; subst k0; by apply Hrow|].
      intros Hk0. destruct (H3 k0 d0 Hk0) as [? (j & ? & ?) ? ? ? ? ?]. split; rewrite ?Hv; auto. exists j. split; [lia|done].
    + intros a v. rewrite Hv. intros Ha. destruct (H4 a v Ha) as [-> ?].
      rewrite Hd, !count_insert by done. unfold one.
      rewrite (decide_False (P := voted a d)), (decide_False (P := agreed a d)); [by split; lia| |].
      * intros [[? ?] _]. congruence.
      * intros [? Hx]. by rewrite Hvotes in Hx.
  - intros k0 d0 Hk0. exists d0. rewrite Hd, jm_get_set_ne by congruence. by split_and!.
Qed.

Lemma sound_submit env w claimant evidence meta sel :
  sound_step env w (submitDispute claimant evidence meta sel env w).2.
Proof.
  unfold submitDispute. destruct (_ && _); [by apply sound_same|].
  unfold mbind, CM_bind, randomDisputeId, nowUnix.
  set (w1 := w <| cw_rnd := S w.(cw_rnd) |> <| cw_clk := _ |>).
  set (opts := _ <| ps_excludeAddresses := _ |>).
  destruct (selectVerifiers_world opts env w1) as [n Hw2]. pose proof (panel_is_eligible env w1 opts) as Hpanel.
  destruct (selectVerifiers opts env w1) as [[e|panel] w2]; cbn [fst snd] in *; subst w2; simpl.
  { apply sound_same; simpl; [lia|done..]. }
  eapply (sound_new _ _ _ _ _ (cw_rnd w)); simpl; [lia|done..|]. intros Hok.
  destruct (Hpanel (core_roster _ _ Hok)) as (_ & _ & _ & Hnd & Hsit). split; simpl; try done.
  - exists (cw_rnd w). split; [lia|done].
  - intros a Ha. destruct (Hsit a Ha) as (v & Hv & _). eauto.
  - assert (Hex : forall a, a ∈ default [] opts.(ps_excludeAddresses) -> a ∉ panel).
    { intros a Hin Ha. destruct (Hsit a Ha) as (v & Hv & [_ Hout _ _]).
      apply Hout. by rewrite (roster_get _ _ _ (core_roster _ _ Hok) Hv). }
    split; apply Hex; simpl; apply elem_of_app; right; [by left|right; by left].
  - constructor.
  - intros a [? Hx]. done.
Qed.

Lemma open_not_closed w id d : open w id d -> ~ closed d.
Proof. intros (_ & Hw & Hr) [H|[? H]]; congruence. Qed.
Lemma sound_vote env w id a r : sound_step env w (collectVote id a r env w).2.
Proof.
  unfold collectVote. destruct (requireOpen_spec id env w) as [(d & E & Hopen)|(e & E & _)].
  2:{ rewrite (cbind_err _ _ _ _ _ _ E). by apply sound_same. }
  rewrite (cbind_eq _ _ _ _ _ _ E). pose proof Hopen as (Hd & _ & Hr).
  case_bool_decide as Hin; [|by apply sound_same]. simpl.
  destruct (jm_has a d.(ds_votes)) eqn:Hhas; [by apply sound_same|].
  assert (Hnone : jm_get a d.(ds_votes) = None) by (revert Hhas; unfold jm_has; by destruct (jm_get a _)).
  rewrite (cbind_eq _ _ _ _ _ _ (updateDispute_at _ _ _ _ _ Hd)).
  set (d' := d <| ds_votes := jm_set a r d.(ds_votes) |>).
  assert (Hv1 : forall b, one (voted b) d' = if decide (a = b) then 1 else one (voted b) d).
  { intros b. unfold one. destruct (decide (a = b)) as [Hb|Hb].
    - subst b. rewrite decide_True; [done|]. unfold voted. simpl. rewrite jm_get_set_eq. by eexists.
    - apply decide_ext. unfold voted. simpl. by rewrite jm_get_set_ne. }
  assert (Hag : forall b (x : DisputeSubmission), x.(ds_ruling) = None -> one (agreed b) x = 0).
  { intros b x Hx. unfold one. rewrite decide_False; [done|]. intros [[? ?] _]. congruence. }
  assert (Hvotes : core_ok env w -> jm_wf d'.(ds_votes) /\ (forall b, voted b d' -> b ∈ d.(ds_panel)) /\
    (forall b r, jm_get b d.(ds_votes) = Some r -> jm_get b d'.(ds_votes) = Some r)).
  { intros Hok. destruct (core_rows _ _ Hok _ _ Hd) as [_ _ _ _ _ Hwf Hvs]. unfold voted, d'. simpl. split_and!.
    - by apply jm_set_wf.
    - intros b. rewrite jm_get_set. case_decide; [by subst|]. apply Hvs.
    - intros b r' Hb. rewrite jm_get_set_ne; [done|congruence]. }
  unfold updateVerifier, cput. simpl. pose proof (open_not_closed _ _ _ Hopen) as Hncl.
  destruct (jm_get a w.(cw_verifiers)) as [v|] eqn:Ha; simpl;
    (eapply (sound_row _ _ _ id d d'); [done..|]; intros Hok; destruct (Hvotes Hok) as (? & ? & ?);
     pose proof (core_roster _ _ Hok) as [Hrw Hra]; simpl; split_and!; try done).
  - split; [by apply jm_set_wf|]. apply jm_all_set; [done|]. simpl. by apply (jm_all_get _ _ _ _ Hra Ha).
  - intros b Hb. rewrite jm_get_set. case_decide; [eauto|done].
  - intros b v'. rewrite jm_get_set, !Hag, Hv1 by done. case_decide as E'.
    + intros [= <-]. subst b. exists v. split; [done|]. simpl. unfold one.
      rewrite decide_False; [lia|]. unfold voted. rewrite Hnone. by intros [? ?].
    + intros Hv'. exists v'. split; [done|lia].
  - intros b v' Hv'. exists v'. split; [done|]. rewrite !Hag, Hv1 by done. case_decide; [congruence|lia].
Qed.
Lemma sound_withdraw env w id claimant : sound_step env w (withdrawDispute id claimant env w).2.
Proof.
  unfold withdrawDispute. destruct (requireOpen_spec id env w) as [(d & E & Hopen)|(e & E & _)].
  2:{ rewrite (cbind_err _ _ _ _ _ _ E). by apply sound_same. }
  rewrite (cbind_eq _ _ _ _ _ _ E). pose proof Hopen as (Hd & _ & Hr).
  case_bool_decide; [|by apply sound_same]. cbn [negb]. rewrite (updateDispute_at _ _ _ _ _ Hd).
  eapply sound_row; [done|done|exact Hd|by eapply open_not_closed|done..|].
  intros Hok. destruct (core_rows _ _ Hok _ _ Hd). split_and!; try done; [by apply Hok|].
  intros a v Hv. exists v. split; [done|]. split; [apply Nat.add_comm|rewrite Nat.add_comm; reflexivity].
Qed.

Lemma bumped_wf ruling votes m : jm_wf m -> jm_wf (bumped ruling votes m).
Proof.
  unfold bumped. revert m. induction votes as [|[a vote] votes IH]; intros m Hm; simpl; [done|]. apply IH.
  unfold bumpOne. case_bool_decide; [|done]. destruct (jm_get _ m); [by apply jm_set_wf|done].
Qed.
Lemma bumped_roster ruling votes m : jm_wf votes -> roster_ok m -> roster_ok (bumped ruling votes m).
Proof.
  intros Hv [Hwf Hall]. split; [by apply bumped_wf|]. apply List.Forall_forall. intros [k e] Hin%list_elem_of_In.
  apply jm_in_get in Hin; [|by apply bumped_wf]. rewrite bumped_get in Hin by done. simpl.
  destruct (jm_get k m) as [e0|] eqn:E; [|by case_decide].
  pose proof (jm_all_get _ _ _ _ Hall E) as He. case_decide; simpl in Hin; injection Hin as <-; exact He.
Qed.

(** A judgment draws no identifier. *)
Definition no_draw {A} (m : CM A) : Prop := forall env w, (m env w).2.(cw_rnd) = w.(cw_rnd).
Lemma no_draw_bind {A B} (m : CM A) (k : A -> CM B) : no_draw m -> (forall a, no_draw (k a)) -> no_draw (m ≫= k).
Proof.
  intros Hm Hk env w. unfold mbind, CM_bind. specialize (Hm env w). destruct (m env w) as [[e|a] w1]; [done|].
  rewrite Hk. exact Hm.
Qed.
Lemma no_draw_submitFor id tx wallet : no_draw (submitFor id tx wallet).
Proof.
  intros env w. unfold submitFor, signAndSubmit, pushHash, updateDispute, cput, mbind, CM_bind. simpl.
  destruct (ce_submit env (cw_io w) tx wallet); [done|]. simpl. destruct (nonempty hash); [|done]. simpl.
  by destruct (jm_get id _).
Qed.
Lemma no_draw_judge args : no_draw (executeJudgment args).
Proof.
  assert (Hrest : forall (A : Type) (m : CM A), (forall env w, (m env w).2 = w) -> no_draw m).
  { intros A m Hm env w. by rewrite Hm. }
  assert (Hfin : forall d signer, no_draw (finishStake d signer)).
  { intros d s. repeat (apply no_draw_bind; [by apply Hrest|intros ?]). apply no_draw_submitFor. }
  unfold executeJudgment. apply no_draw_bind; [|intros d].
  { intros env w. by destruct (requireOpen_spec args.(ja_disputeId) env w) as [(? & -> & _)|(? & -> & _)]. }
  apply no_draw_bind; [|intros r].
  { intros env w. destruct (computeRuling_spec d env w) as (clk & -> & _). done. }
  apply no_draw_bind; [|intros _]. { intros env w. unfold updateDispute, cput. simpl. by destruct (jm_get _ _). }
  apply no_draw_bind; [|intros _; apply no_draw_bind; [|intros _; apply no_draw_bind; [|by intros _; apply Hrest]]].
  - unfold settleEscrows, cancelDeposit, finishDeposit, slashStake.
    destruct r; (apply no_draw_bind; [try apply no_draw_submitFor|intros _; try apply Hfin]).
    + destruct (nonempty _); [|by apply Hrest]. apply no_draw_bind; [apply Hfin|intros _].
      do 2 (apply no_draw_bind; [by apply Hrest|intros ?]).
      apply no_draw_bind; [apply no_draw_submitFor|intros _; apply no_draw_submitFor].
    + do 2 (apply no_draw_bind; [by apply Hrest|intros ?]). apply no_draw_submitFor.
  - unfold mintJudgment. apply no_draw_bind; [by apply Hrest|intros ?]. apply no_draw_submitFor.
  - intros env w. by rewrite trackAccuracy_bumped.
Qed.

Lemma core_disputes env w : core_ok env w -> disputes_ok w.(cw_disputes).
Proof.
  intros [_ Hwf Hrows _]. split; [done|]. apply List.Forall_forall. intros [k d] Hin%list_elem_of_In.
  apply jm_in_get in Hin; [|done]. by destruct (Hrows k d Hin).
Qed.
Lemma sound_mono_judge env w w' : w'.(cw_rnd) = w.(cw_rnd) ->
  (core_ok env w -> sound_step env w w') -> sound_step env w w'.
Proof. intros Hr H. split; [lia|]. intros Hd Hok. by apply H. Qed.
Lemma sound_judge env w args : sound_step env w (executeJudgment args env w).2.
Proof.
  apply sound_mono_judge; [apply no_draw_judge|]. intros Hok0.
  pose proof (judgment_outcomes env args w (core_disputes _ _ Hok0)) as H.
  assert (Hzero : forall d r hs a, d.(ds_ruling) = None -> one (agreed a) d = 0 /\
    one (agreed a) (judged d r hs) = if decide (jm_get a d.(ds_votes) = Some r) then 1 else 0).
  { intros d r hs a Hr. unfold one. split.
    - rewrite decide_False; [done|]. intros [[? ?] _]. congruence.
    - apply decide_ext. unfold agreed. simpl. split; [tauto|]. intros ?. split; [by eexists|done]. }
  destruct H as [e clk|e d r txs clk Hopen _|d r txs nft clk Hopen _ _ _]; simpl; [by apply sound_same| |];
    pose proof Hopen as (Hd & _ & Hr); pose proof (open_not_closed _ _ _ Hopen) as Hncl;
    destruct (core_rows _ _ Hok0 _ _ Hd) as [Hid _ _ _ _ Hwf Hvs].
  - eapply (sound_row _ _ _ d.(ds_disputeId) d); [done|done|by rewrite Hid|done..|]. intros Hok. split_and!; try done.
    + apply Hok.
    + intros a v Hv. exists v. destruct (Hzero d r (ledgerHashes env (cw_io w) txs) a Hr) as [-> ->].
      split; [done|]. split; [apply Nat.add_comm|]. case_decide; lia.
  - eapply (sound_row _ _ _ d.(ds_disputeId) d
      (judged d r (ledgerHashes env (cw_io w) (txs ++ [(nft, ja_issuerWallet args)])))); [done|done|by rewrite Hid|done..|]. intros Hok. split_and!; try done.
    + apply bumped_roster; [done|apply Hok].
    + intros a Ha. simpl. rewrite bumped_get by done. case_decide; [by apply fmap_is_Some|done].
    + intros a v'. simpl. rewrite bumped_get by done.
      destruct (Hzero d r (ledgerHashes env (cw_io w) (txs ++ [(nft, ja_issuerWallet args)])) a Hr) as [-> ->].
      case_decide.
      * intros (v & -> & ->)%fmap_Some. exists v. split; [done|]. split; [apply Nat.add_comm|simpl; lia].
      * intros Hv. exists v'. split; [done|]. split; [apply Nat.add_comm|lia].
Qed.

(** * Runs *)

Lemma core_step_sound env w w' : core_step env w w' -> sound_step env w w'.
Proof.
  destruct 1; auto using sound_register, sound_deactivate, sound_select, sound_submit, sound_vote, sound_withdraw,
    sound_judge.
Qed.
Lemma core_run_sound env w w' : rtc (core_step env) w w' -> sound_step env w w'.
Proof.
  induction 1 as [w|w1 w2 w3 Hs%core_step_sound _ IH]; [by apply sound_same|].
  destruct Hs as [Hle1 H1], IH as [Hle2 H2]. split; [lia|]. intros Hd Hok.
  destruct H1 as [Hok2 Hk]; [by eapply digests_distinct_le|done|]. destruct (H2 Hd Hok2) as [Hok3 Hk'].
  split; [done|by etrans].
Qed.
Lemma newDisputeService_ok env pool : core_ok env (newDisputeService pool).
Proof. split; simpl; [split; constructor|constructor|done|done]. Qed.
Lemma core_reachable_ok env pool w :
  core_reachable env pool w -> digests_distinct env w.(cw_rnd) -> core_ok env w.
Proof. intros [_ H]%core_run_sound Hd. apply H; [done|apply newDisputeService_ok]. Qed.

(** C36: A judgment that fails after its verdict is final: whatever happens
    later, the dispute keeps the ruling with the hashes submitted so far, and
    judging it again, voting on it and withdrawing it are refused without any
    effect, so that the escrow transactions still missing are never submitted. *)
Theorem failed_judgment_is_final env pool w args e w1 w2 :
  core_reachable env pool w -> executeJudgment args env w = (inl e, w1) ->
  w1.(cw_disputes) <> w.(cw_disputes) -> rtc (core_step env) w1 w2 -> digests_distinct env w2.(cw_rnd) ->
  let id := args.(ja_disputeId) in
  exists d r hs, open w id d /\ jm_get id w2.(cw_disputes) = Some (judged d r hs) /\
    (forall args', args'.(ja_disputeId) = id ->
       executeJudgment args' env w2 = (inl "dispute already executed", w2)) /\
    (forall a v, collectVote id a v env w2 = (inl "dispute already executed", w2)) /\
    (forall a, withdrawDispute id a env w2 = (inl "dispute already executed", w2)).
Proof.
  intros Hr E Hne Hrun Hdist id. pose proof (CS_judge env w args) as Hs. rewrite E in Hs. cbn [snd] in Hs.
  destruct (core_step_sound _ _ _ Hs) as [Hle1 H1]. destruct (core_run_sound _ _ _ Hrun) as [Hle2 H2].
  assert (Hok : core_ok env w) by (eapply core_reachable_ok; [done|]; eapply digests_distinct_le; [|done]; lia).
  destruct H1 as [Hok1 _]; [by eapply digests_distinct_le|done|]. destruct (H2 Hdist Hok1) as [Hok2 Hkept].
  pose proof (judgment_outcomes env args w (core_disputes _ _ Hok)) as H. rewrite E in H. clear E.
  inversion H as [e' clk Heq|e' d r txs clk Hopen _ Heq|]; subst; [by destruct Hne|].
  pose proof Hopen as (Hd & Hw & _). destruct (core_rows _ _ Hok _ _ Hd) as [Hid _ _ _ _ _ _].
  set (hs := ledgerHashes env (cw_io w) txs) in *. exists d, r, hs.
  destruct (Hkept id (judged d r hs)) as (d2 & Hd2 & _ & _ & _ & Hc).
  { unfold id. rewrite <-Hid. apply jm_get_set_eq. }
  rewrite Hc in Hd2 by (right; by eexists). split_and!; [done..| | |].
  - intros args' Hargs. unfold executeJudgment. apply cbind_err. rewrite Hargs.
    unfold requireOpen, mbind, CM_bind, cget. rewrite Hd2. simpl. by rewrite Hw.
  - intros a v. apply cbind_err. unfold requireOpen, mbind, CM_bind, cget. rewrite Hd2. simpl. by rewrite Hw.
  - intros a. apply cbind_err. unfold requireOpen, mbind, CM_bind, cget. rewrite Hd2. simpl. by rewrite Hw.
Qed.

(** The ledger is away when the verdict is executed. *)
Definition runOps (env : CoreEnv) (ops : list (CM unit)) (w : CoreWorld) : CoreWorld :=
  fold_left (fun w m => (m env w).2) ops w.
Definition offlineEnv : CoreEnv := coreEnvWith (fun _ _ _ => TR_error "NotConnectedError").
Lemma rtc_fold {A} env (f : A -> CM unit) l w :
  (forall x w0, core_step env w0 (f x env w0).2) ->
  rtc (core_step env) w (fold_left (fun w x => (f x env w).2) l w).
Proof. intros Hf. revert w. induction l as [|x l IH]; intros w; simpl; [done|]. eapply rtc_l; [apply Hf|apply IH]. Qed.
Definition offlineFiled : CoreWorld :=
  (submitDispute "rTenant" "AB" demoMeta (Some panelOf3) offlineEnv
    (fold_left (fun w a => (registerVerifier a None None offlineEnv w).2) ["v1"; "v2"; "v3"; "v4"; "v5"; "v6"]
       (newDisputeService "rPool"))).2.
Definition offlineVoted : CoreWorld :=
  fold_left (fun w a => (collectVote coreId a TENANT_WINS offlineEnv w).2) (take 2 corePanel) offlineFiled.
Lemma registered_reachable env pool l :
  core_reachable env pool (fold_left (fun w a => (registerVerifier a None None env w).2) l (newDisputeService pool)).
Proof. exact (rtc_fold env (fun a => registerVerifier a None None) l _ (fun a w => CS_register _ _ a None None)). Qed.
Lemma filed_reachable env pool w claimant evidence meta sel :
  core_reachable env pool w -> core_reachable env pool (submitDispute claimant evidence meta sel env w).2.
Proof. intros H. eapply rtc_r; [exact H|apply CS_submit]. Qed.
Lemma voted_reachable env pool w id l :
  core_reachable env pool w ->
  core_reachable env pool (fold_left (fun w a => (collectVote id a TENANT_WINS env w).2) l w).
Proof.
  intros H. unfold core_reachable. etrans; [exact H|].
  exact (rtc_fold env (fun a => collectVote id a TENANT_WINS) l w (fun a w => CS_vote _ _ id a TENANT_WINS)).
Qed.
Lemma offlineVoted_reachable : core_reachable offlineEnv "rPool" offlineVoted.
Proof. unfold offlineVoted. apply voted_reachable. unfold offlineFiled. apply filed_reachable, registered_reachable. Qed.
Lemma digests_distinct_NoDup env n :
  NoDup ((fun i => str_take 24 (env.(ce_digest) i)) <$> seq 0 n) -> digests_distinct env n.
Proof.
  intros H i j Hi Hj Heq. eapply (NoDup_lookup _ i j (str_take 24 (ce_digest env i))) in H; [done|..].
  - by rewrite list_lookup_fmap, lookup_seq_lt by done.
  - rewrite list_lookup_fmap, lookup_seq_lt by done. simpl. by rewrite Heq.
Qed.
Lemma failed_judgment_is_final_witness :
  exists w1 d r hs, (executeJudgment (demoArgs coreId) offlineEnv offlineVoted) = (inl "NotConnectedError", w1) /\
    jm_get coreId w1.(cw_disputes) = Some (judged d r hs) /\
    executeJudgment (demoArgs coreId) offlineEnv w1 = (inl "dispute already executed", w1).
Proof.
  set (w1 := (executeJudgment (demoArgs coreId) offlineEnv offlineVoted).2).
  assert (Hmsg : (executeJudgment (demoArgs coreId) offlineEnv offlineVoted).1 = inl "NotConnectedError")
    by (vm_compute; reflexivity).
  assert (E : executeJudgment (demoArgs coreId) offlineEnv offlineVoted = (inl "NotConnectedError", w1)).
  { rewrite <-Hmsg. apply surjective_pairing. }
  assert (Hmove : from_option (fun d => bool_decide (d.(ds_ruling) = None)) true (jm_get coreId w1.(cw_disputes)) = false)
    by (vm_compute; reflexivity).
  assert (Hopen : from_option (fun d => bool_decide (d.(ds_ruling) = None)) true (jm_get coreId offlineVoted.(cw_disputes)) = true)
    by (vm_compute; reflexivity).
  assert (Hne : w1.(cw_disputes) <> offlineVoted.(cw_disputes)) by (intros Heq; rewrite Heq in Hmove; congruence).
  assert (Hdist : digests_distinct offlineEnv w1.(cw_rnd)).
  { apply digests_distinct_NoDup, (bool_decide_unpack _). vm_compute. exact I. }
  destruct (failed_judgment_is_final offlineEnv "rPool" offlineVoted (demoArgs coreId) _ w1 w1 offlineVoted_reachable
    E Hne (rtc_refl _ _) Hdist) as (d & r & hs & _ & Hd & Hj & _).
  exists w1, d, r, hs. split; [exact E|]. split; [exact Hd|]. exact (Hj (demoArgs coreId) eq_refl).
Defined.

(** C37: In every reachable state a verifier has handled exactly as many cases
    as there are disputes with its vote, and is credited with at most as many
    votes with the majority as there are rulings it voted for; the credit falls
    short, for ever, where a judgment failed after its ruling was set.  Panels
    have different registered members, never a party, and only they have voted.
    In every continuation votes stay as they were cast and closed disputes do
    not change at all. *)
Theorem records_are_accurate env pool w w' :
  core_reachable env pool w -> rtc (core_step env) w w' -> digests_distinct env w'.(cw_rnd) ->
  (forall a v, jm_get a w.(cw_verifiers) = Some v ->
     v.(ve_casesHandled) = count (voted a) w.(cw_disputes) /\
     v.(ve_votesWithMajority) <= count (agreed a) w.(cw_disputes)) /\
  (forall k d, jm_get k w.(cw_disputes) = Some d ->
     NoDup d.(ds_panel) /\ d.(ds_meta).(dm_parties).(lp_tenant) ∉ d.(ds_panel) /\
     d.(ds_meta).(dm_parties).(lp_landlord) ∉ d.(ds_panel) /\
     (forall a, a ∈ d.(ds_panel) -> is_Some (jm_get a w.(cw_verifiers))) /\
     (forall a, voted a d -> a ∈ d.(ds_panel)) /\
     exists d', jm_get k w'.(cw_disputes) = Some d' /\
       (forall a r, jm_get a d.(ds_votes) = Some r -> jm_get a d'.(ds_votes) = Some r) /\ (closed d -> d' = d)).
Proof.
  intros Hr Hrun Hdist. destruct (core_run_sound _ _ _ Hrun) as [Hle H].
  assert (Hok : core_ok env w) by (eapply core_reachable_ok; [done|]; by eapply digests_distinct_le).
  destruct (H Hdist Hok) as [_ Hkept]. split; [apply Hok|]. intros k d Hd.
  destruct (core_rows _ _ Hok k d Hd) as [_ _ ? ? [? ?] _ ?]. split_and!; try done.
  destruct (Hkept k d Hd) as (d' & ? & _ & _ & ? & ?). eauto.
Qed.
Lemma records_are_accurate_witness :
  exists v, jm_get "v3" offlineVoted.(cw_verifiers) = Some v /\
    v.(ve_casesHandled) = count (voted "v3") offlineVoted.(cw_disputes) /\ v.(ve_casesHandled) = 1.
Proof.
  assert (Hdist : digests_distinct offlineEnv offlineVoted.(cw_rnd)).
  { apply digests_distinct_NoDup, (bool_decide_unpack _). vm_compute. exact I. }
  destruct (records_are_accurate offlineEnv "rPool" offlineVoted offlineVoted offlineVoted_reachable (rtc_refl _ _) Hdist)
    as [Hrec _].
  assert (Hc : from_option ve_casesHandled 0 (jm_get "v3" offlineVoted.(cw_verifiers)) = 1) by (vm_compute; reflexivity).
  destruct (jm_get "v3" offlineVoted.(cw_verifiers)) as [v|] eqn:Hv; [|discriminate Hc].
  exists v. split; [reflexivity|]. split; [apply (Hrec "v3" v Hv)|exact Hc].
Defined.
