(* ===== verification/Sql.v ===== *)
(** The part of SQL that [repository/postgres-repository.ts] writes: statements
    on tables of rows, executed by a database that meets rows in an order of its
    own choosing, checks keys and references, and may refuse a statement or lose
    its answer.  A statement that fails changes nothing. *)
From S2P Require Import Prelude JsString JsMap JsDate Json.

(** * The database *)

(** The [n]-th statement is executed and answered, refused, or executed with
    its answer lost. *)
Inductive Delivery := Answered | Refused | Lost.

(** What the database and node-postgres add: the order in which the [n]-th
    statement meets the rows, the casts of text to [timestamptz] (milliseconds)
    and to [jsonb], the collation of text, and the process's clock and
    identifiers. *)
Record PgEnv := mkPgEnv {
  pe_scan : forall A, nat -> list A -> list A;
  pe_delivery : nat -> Delivery;
  pe_timestamptz : string -> option Z;
  pe_jsonb : string -> option JsVal;
  pe_collate : string -> string -> comparison;
  pe_nowIso : nat -> string;
  pe_randomId : nat -> string }.

(** Documented behaviour: a scan meets every row once; [timestamptz] reads the
    stamps that [toISOString] writes, and [jsonb] arrays of strings; the clock
    gives such stamps and no identifier twice; a collation orders all strings,
    and identifiers of one layout as [localeCompare] does. *)
Record pg_sound (env : PgEnv) : Prop := mkPgSound {
  ps_scan A n (l : list A) : env.(pe_scan) A n l ≡ₚ l;
  ps_iso t : iso_range t -> env.(pe_timestamptz) (toISOString t) = Some t;
  ps_now n : exists t, iso_range t /\ env.(pe_nowIso) n = toISOString t;
  ps_ids n n' : env.(pe_randomId) n = env.(pe_randomId) n' -> n = n';
  ps_total : TotalCmp env.(pe_collate);
  ps_layout a b : same_layout a b -> env.(pe_collate) a b = localeCompare a b;
  ps_strings l : env.(pe_jsonb) (json_stringify (JArr (JStr <$> l))) = Some (JArr (JStr <$> l)) }.

Section Statements.
Context {DB : Type}.

Record PgWorld := mkPgWorld { pw_db : DB; pw_n : nat }.
Definition Pg (A : Type) : Type := PgEnv -> PgWorld -> (string + A) * PgWorld.
#[export] Instance Pg_ret : MRet Pg := fun A a _ w => (inr a, w).
#[export] Instance Pg_bind : MBind Pg := fun A B k m env w =>
  match m env w with
  | (inr a, w') => k a env w'
  | (inl e, w') => (inl e, w')
  end.

(** What a statement does when it is executed: an error, or the answer with the
    tables after it. *)
Definition Body (A : Type) : Type := PgEnv -> nat -> DB -> string + (A * DB).
(** [pool.query(..)] *)
Definition query {A} (body : Body A) : Pg A := fun env w =>
  let w1 := mkPgWorld w.(pw_db) (S w.(pw_n)) in
  match env.(pe_delivery) w.(pw_n), body env w.(pw_n) w.(pw_db) with
  | Refused, _ => (inl "connection refused", w1)
  | _, inl e => (inl e, w1)
  | Answered, inr (a, db) => (inr a, mkPgWorld db (S w.(pw_n)))
  | Lost, inr (_, db) => (inl "connection terminated", mkPgWorld db (S w.(pw_n)))
  end.
Definition pg_throw {A} (e : string) : Pg A := fun _ w => (inl e, w).
(** [nowIso()] and [randomId(prefix)] of the process. *)
Definition pg_ask {A} (f : PgEnv -> nat -> A) : Pg A := fun env w => (inr (f env w.(pw_n)), w).
End Statements.
Arguments PgWorld : clear implicits.
Arguments Pg : clear implicits.
Arguments Body : clear implicits.
Arguments mkPgWorld {DB}.

(** * Expressions *)

Definition sum_bind {A B} (r : string + A) (k : A -> string + B) : string + B :=
  match r with inl e => inl e | inr a => k a end.
Notation "x <~ r ; k" := (sum_bind r (fun x => k)) (at level 100, r at next level, right associativity) : bs_scope.

(** [$i::timestamptz], of a value or of [null]. *)
Definition timestamptz (env : PgEnv) (s : string) : string + Z :=
  match env.(pe_timestamptz) s with
  | Some t => inr t
  | None => inl ("invalid input syntax for type timestamp with time zone: " +:+ s)
  end.
Definition timestamptz_opt (env : PgEnv) (o : option string) : string + option Z :=
  match o with
  | None => inr None
  | Some s => t <~ timestamptz env s; inr (Some t)
  end.
(** [$i::jsonb] of [JSON.stringify(v)]. *)
Definition jsonb (env : PgEnv) (v : JsVal) : string + JsVal :=
  match env.(pe_jsonb) (json_stringify v) with
  | Some j => inr j
  | None => inl "invalid input syntax for type json"
  end.
Definition jsonb_opt (env : PgEnv) (o : option JsVal) : string + option JsVal :=
  match o with
  | None | Some JNull | Some JUndef => inr None
  | Some v => j <~ jsonb env v; inr (Some j)
  end.
(** Columns [INTEGER] and [BIGINT]. *)
Definition int4 (z : Z) : string + Z :=
  if ((-2147483648 <=? z) && (z <=? 2147483647))%Z then inr z else inl "integer out of range".
Definition int8 (z : Z) : string + Z :=
  if ((-9223372036854775808 <=? z) && (z <=? 9223372036854775807))%Z then inr z else inl "bigint out of range".
Definition null_or {A B} (f : A -> string + B) (o : option A) : string + option B :=
  match o with None => inr None | Some a => b <~ f a; inr (Some b) end.
Definition check (ok : bool) (violated : string) : string + unit := if ok then inr tt else inl violated.

(** [column >= $i::timestamptz AND column <= $j::timestamptz], each part when the
    bound is given. *)
Definition between (env : PgEnv) (from to : option string) : string + (Z -> bool) :=
  lo <~ (if truthy from then timestamptz_opt env from else inr None);
  hi <~ (if truthy to then timestamptz_opt env to else inr None);
  inr (fun t => match lo with Some a => (a <=? t)%Z | None => true end &&
                match hi with Some b => (t <=? b)%Z | None => true end).

(** * Tables *)

Section Tables.
Context {DB R : Type} (tbl : DB -> list R) (put : list R -> DB -> DB).

(** [SELECT * FROM t WHERE p]: in the order of the scan. *)
Definition select (p : PgEnv -> string + (R -> bool)) : Body DB (list R) := fun env n db =>
  f <~ p env; inr (filter (fun r => f r) (env.(pe_scan) _ n (tbl db)), db).
(** [.. ORDER BY cmp] *)
Definition select_by (cmp : PgEnv -> R -> R -> comparison) (p : PgEnv -> string + (R -> bool)) : Body DB (list R) :=
  fun env n db => rows <~ select p env n db; inr (js_sort (cmp env) rows.1, db).
(** [SELECT count( * ) FROM t WHERE p] *)
Definition count (p : PgEnv -> string + (R -> bool)) : Body DB nat := fun env n db =>
  rows <~ select p env n db; inr (length rows.1, db).

(** [INSERT INTO t VALUES r], the constraints being [refs] and unique keys. *)
Definition insert_into (refs : DB -> R -> string + unit) (clash : R -> R -> bool) (r : R) (db : DB) : string + DB :=
  _ <~ refs db r;
  _ <~ check (negb (existsb (clash r) (tbl db))) "duplicate key value violates unique constraint";
  inr (put (tbl db ++ [r]) db).
(** [.. ON CONFLICT (k) DO NOTHING RETURNING ..]: whether a row was inserted. *)
Definition insert_new (refs : DB -> R -> string + unit) (conflict clash : R -> R -> bool) (r : R) (db : DB) :
    string + (bool * DB) :=
  if existsb (conflict r) (tbl db) then inr (false, db)
  else db' <~ insert_into refs clash r db; inr (true, db').
(** [.. ON CONFLICT (k) DO UPDATE SET ..]: [merge] sets the columns of the old
    row from the excluded one. *)
Definition upsert (refs : DB -> R -> string + unit) (conflict clash : R -> R -> bool) (merge : R -> R -> R) (r : R)
    (db : DB) : string + DB :=
  if existsb (conflict r) (tbl db) then
    _ <~ refs db r;
    inr (put ((fun old => if conflict r old then merge old r else old) <$> tbl db) db)
  else insert_into refs clash r db.
(** [UPDATE t SET .. WHERE p], with the number of rows. *)
Definition update_where (p : R -> bool) (set : R -> R) (db : DB) : nat * DB :=
  (length (filter (fun r => p r) (tbl db)), put ((fun r => if p r then set r else r) <$> tbl db) db).
Definition delete_where (p : R -> bool) (db : DB) : DB := put (filter (fun r => negb (p r)) (tbl db)) db.
(** [WITH c AS (SELECT id FROM t WHERE p ORDER BY cmp LIMIT l FOR UPDATE SKIP
    LOCKED) UPDATE t SET .. FROM c WHERE t.id = c.id RETURNING t.*]: the rows come
    back in any order. *)
Definition claim (key : R -> string) (p : R -> bool) (cmp : R -> R -> comparison) (limit : nat) (set : R -> R) :
    Body DB (list R) := fun env n db =>
  let picked := key <$> take limit (js_sort cmp (filter (fun r => p r) (env.(pe_scan) _ n (tbl db)))) in
  let hit r := bool_decide (key r ∈ picked) in
  inr (env.(pe_scan) _ n (set <$> filter (fun r => hit r) (tbl db)), put ((fun r => if hit r then set r else r) <$> tbl db) db).
End Tables.
