(* ===== verification/PgTables.v ===== *)
(** The tables of [db/migrations]: a record of columns for each, the values the
    [INSERT]s of [postgres-repository.ts] put into them, and the [rowTo..]
    functions that read them back.  A column that the code casts to a union
    of strings holds a member of the union. *)
From S2P Require Import Prelude JsString JsMap JsDate Json Types Export Sql.

(** [o ? String(o) : undefined] *)
Definition text_col (o : option string) : option string := nonempty o.
(** [toIso(d)] *)
Definition toIso (t : Z) : string := toISOString t.
(** [(r.payload as Record<..>) ?? {}] *)
Definition members (v : JsVal) : list (string * JsVal) := match v with JObj l => l | _ => [] end.

(** * contracts, evidences, disputes *)

Record ContractRow := mkContractRow {
  kc_id : string; kc_tenant_id : string; kc_landlord_id : string; kc_status : ContractStatus;
  kc_escrow_create_tx_hash : option string; kc_deposit_amount : option string; kc_stake_amount : option string;
  kc_starts_at : option Z; kc_ends_at : option Z; kc_created_at : Z; kc_updated_at : Z }.
#[export] Instance eta_ContractRow : Eta ContractRow := fun r =>
  mkContractRow r.(kc_id) r.(kc_tenant_id) r.(kc_landlord_id) r.(kc_status) r.(kc_escrow_create_tx_hash)
    r.(kc_deposit_amount) r.(kc_stake_amount) r.(kc_starts_at) r.(kc_ends_at) r.(kc_created_at) r.(kc_updated_at).
Definition rowToContract (r : ContractRow) : Contract :=
  mkContract r.(kc_id) r.(kc_tenant_id) r.(kc_landlord_id) r.(kc_status) (text_col r.(kc_escrow_create_tx_hash))
    (text_col r.(kc_deposit_amount)) (text_col r.(kc_stake_amount)) (toIso <$> r.(kc_starts_at))
    (toIso <$> r.(kc_ends_at)) (toIso r.(kc_created_at)) (toIso r.(kc_updated_at)).
Definition contractValues (env : PgEnv) (c : Contract) : string + ContractRow :=
  starts <~ timestamptz_opt env c.(c_startsAt); ends <~ timestamptz_opt env c.(c_endsAt);
  created <~ timestamptz env c.(c_createdAt); updated <~ timestamptz env c.(c_updatedAt);
  inr (mkContractRow c.(c_id) c.(c_tenantId) c.(c_landlordId) c.(c_status) c.(c_escrowCreateTxHash)
         c.(c_depositAmount) c.(c_stakeAmount) starts ends created updated).

Record EvidenceRow := mkEvidenceRow {
  ke_id : string; ke_contract_id : string; ke_dispute_id : option string; ke_uploader_id : string;
  ke_category : EvidenceCategory; ke_cid : string; ke_sha256 : string; ke_mime_type : string; ke_size_bytes : Z;
  ke_version : Z; ke_is_encrypted : bool; ke_encryption_scheme : option string; ke_retain_until : option Z;
  ke_retention_class : EvidenceRetentionClass; ke_jurisdiction : option string; ke_legal_hold_until : option Z;
  ke_storage_provider : StorageProvider; ke_local_content_hash_seed : string; ke_created_at : Z }.
#[export] Instance eta_EvidenceRow : Eta EvidenceRow := fun r =>
  mkEvidenceRow r.(ke_id) r.(ke_contract_id) r.(ke_dispute_id) r.(ke_uploader_id) r.(ke_category) r.(ke_cid)
    r.(ke_sha256) r.(ke_mime_type) r.(ke_size_bytes) r.(ke_version) r.(ke_is_encrypted) r.(ke_encryption_scheme)
    r.(ke_retain_until) r.(ke_retention_class) r.(ke_jurisdiction) r.(ke_legal_hold_until) r.(ke_storage_provider)
    r.(ke_local_content_hash_seed) r.(ke_created_at).
Definition rowToEvidence (r : EvidenceRow) : EvidenceFile :=
  mkEvidence r.(ke_id) r.(ke_contract_id) (text_col r.(ke_dispute_id)) r.(ke_uploader_id) r.(ke_category) r.(ke_cid)
    r.(ke_sha256) r.(ke_mime_type) r.(ke_size_bytes) r.(ke_version) r.(ke_is_encrypted)
    (text_col r.(ke_encryption_scheme)) (toIso <$> r.(ke_retain_until)) (Some r.(ke_retention_class))
    r.(ke_jurisdiction) (toIso <$> r.(ke_legal_hold_until)) r.(ke_storage_provider) (toIso r.(ke_created_at))
    r.(ke_local_content_hash_seed).
(** [retention_class] is [NOT NULL]. *)
Definition evidenceValues (env : PgEnv) (e : EvidenceFile) : string + EvidenceRow :=
  size <~ int4 e.(e_sizeBytes); version <~ int4 e.(e_version);
  retain <~ timestamptz_opt env e.(e_retainUntil);
  cls <~ match e.(e_retentionClass) with Some c => inr c | None => inl "null value in column retention_class" end;
  hold <~ timestamptz_opt env e.(e_legalHoldUntil); created <~ timestamptz env e.(e_createdAt);
  inr (mkEvidenceRow e.(e_id) e.(e_contractId) e.(e_disputeId) e.(e_uploaderId) e.(e_category) e.(e_cid) e.(e_sha256)
         e.(e_mimeType) size version e.(e_isEncrypted) e.(e_encryptionScheme) retain cls e.(e_jurisdiction) hold
         e.(e_storageProvider) e.(e_localContentHashSeed) created).

Record DisputeRow := mkDisputeRow {
  kd_id : string; kd_contract_id : string; kd_raised_by : DisputeParty; kd_reason_code : string;
  kd_status : DisputeStatus; kd_evidence_bundle : JsVal; kd_created_at : Z; kd_updated_at : Z;
  kd_review_deadline_at : option Z; kd_escalated_at : option Z }.
#[export] Instance eta_DisputeRow : Eta DisputeRow := fun r =>
  mkDisputeRow r.(kd_id) r.(kd_contract_id) r.(kd_raised_by) r.(kd_reason_code) r.(kd_status) r.(kd_evidence_bundle)
    r.(kd_created_at) r.(kd_updated_at) r.(kd_review_deadline_at) r.(kd_escalated_at).
(** The members of the array, which are strings. *)
Definition bundleOf (v : JsVal) : list string := match v with JArr l => omap jstr l | _ => [] end.
Definition rowToDispute (r : DisputeRow) : DisputeCase :=
  mkDispute r.(kd_id) r.(kd_contract_id) r.(kd_raised_by) r.(kd_reason_code) r.(kd_status)
    (bundleOf r.(kd_evidence_bundle)) (toIso r.(kd_created_at)) (toIso r.(kd_updated_at))
    (toIso <$> r.(kd_review_deadline_at)) (toIso <$> r.(kd_escalated_at)).
Definition disputeValues (env : PgEnv) (d : DisputeCase) : string + DisputeRow :=
  bundle <~ jsonb env (JArr (JStr <$> d.(d_evidenceBundle)));
  created <~ timestamptz env d.(d_createdAt); updated <~ timestamptz env d.(d_updatedAt);
  deadline <~ timestamptz_opt env d.(d_reviewDeadlineAt); escalated <~ timestamptz_opt env d.(d_escalatedAt);
  inr (mkDisputeRow d.(d_id) d.(d_contractId) d.(d_raisedBy) d.(d_reasonCode) d.(d_status) bundle created updated
         deadline escalated).

Record VoteRow := mkVoteRow {
  kv_id : string; kv_dispute_id : string; kv_verifier_id : string; kv_recommendation : DisputeDecisionChoice;
  kv_created_at : Z }.
Definition rowToVote (r : VoteRow) : DisputeVerifierVoteRecord :=
  mkVote r.(kv_id) r.(kv_dispute_id) r.(kv_verifier_id) r.(kv_recommendation) (toIso r.(kv_created_at)).
Definition voteValues (env : PgEnv) (v : DisputeVerifierVoteRecord) : string + VoteRow :=
  created <~ timestamptz env v.(v_createdAt);
  inr (mkVoteRow v.(v_id) v.(v_disputeId) v.(v_verifierId) v.(v_recommendation) created).

Record RegistryRow := mkRegistryRow {
  kg_id : string; kg_verifier_id : string; kg_display_label : option string; kg_active : bool; kg_created_at : Z }.
Definition rowToRegistryEntry (r : RegistryRow) : DisputeVerifierRegistryEntry :=
  mkRegistryEntry r.(kg_id) r.(kg_verifier_id) (text_col r.(kg_display_label)) r.(kg_active) (toIso r.(kg_created_at)).
Definition registryValues (env : PgEnv) (e : DisputeVerifierRegistryEntry) : string + RegistryRow :=
  created <~ timestamptz env e.(r_createdAt);
  inr (mkRegistryRow e.(r_id) e.(r_verifierId) e.(r_displayLabel) e.(r_active) created).

(** [decided_by] is always ["verifier_mock"]. *)
Record DecisionRow := mkDecisionRow {
  kn_id : string; kn_dispute_id : string; kn_decision : DisputeDecisionChoice; kn_memo : option string;
  kn_created_at : Z }.
#[export] Instance eta_DecisionRow : Eta DecisionRow := fun r =>
  mkDecisionRow r.(kn_id) r.(kn_dispute_id) r.(kn_decision) r.(kn_memo) r.(kn_created_at).
Definition decisionValues (env : PgEnv) (d : CaseDecision) : string + DecisionRow :=
  created <~ timestamptz env d.(cd_createdAt);
  inr (mkDecisionRow d.(cd_id) d.(cd_disputeId) d.(cd_decision) d.(cd_memo) created).

(** * xrpl_txs, xrpl_ingestion_events *)

Record XrplTxRow := mkXrplTxRow {
  kx_tx_hash : string; kx_id : string; kx_tx_type : string; kx_account : option string; kx_dispute_id : option string;
  kx_network : Network; kx_tracking_status : TxTrackingStatus; kx_validated : bool; kx_ledger_index : option Z;
  kx_result_code : option string; kx_outcome_class : option OutcomeClass; kx_retries : Z; kx_last_checked_at : Z;
  kx_escrow_owner : option string; kx_escrow_destination : option string; kx_escrow_offer_sequence : option Z;
  kx_escrow_submitter_account : option string }.
Definition rowToXrpl (r : XrplTxRow) : XrplTransaction :=
  mkXrplTx r.(kx_id) r.(kx_tx_hash) r.(kx_tx_type) (text_col r.(kx_account)) (text_col r.(kx_dispute_id))
    r.(kx_network) r.(kx_tracking_status) r.(kx_validated) r.(kx_ledger_index) (text_col r.(kx_result_code))
    r.(kx_outcome_class) r.(kx_retries) (toIso r.(kx_last_checked_at)) (text_col r.(kx_escrow_owner))
    (text_col r.(kx_escrow_destination)) r.(kx_escrow_offer_sequence) (text_col r.(kx_escrow_submitter_account)).
Definition xrplTxValues (env : PgEnv) (t : XrplTransaction) : string + XrplTxRow :=
  ledger <~ null_or int4 t.(x_ledgerIndex); retries <~ int4 t.(x_retries);
  checked <~ timestamptz env t.(x_lastCheckedAt); seq <~ null_or int8 t.(x_escrowOfferSequence);
  inr (mkXrplTxRow t.(x_txHash) t.(x_id) t.(x_txType) t.(x_account) t.(x_disputeId) t.(x_network) t.(x_trackingStatus)
         t.(x_validated) ledger t.(x_resultCode) t.(x_outcomeClass) retries checked t.(x_escrowOwner)
         t.(x_escrowDestination) seq t.(x_escrowSubmitterAccount)).

(** Without the columns that are written and never read. *)
Record IngestionRow := mkIngestionRow {
  ki_id : string; ki_ledger_index : Z; ki_tx_hash : string; ki_event_source : string; ki_created_at : Z }.

(** * settlements *)

Record SettlementRow := mkSettlementRow {
  ks_id : string; ks_contract_id : string; ks_period_year : Z; ks_period_month : Z; ks_status : SettlementStatus;
  ks_last_ledger_index : option Z; ks_ledger_close_count : Z; ks_created_at : Z; ks_updated_at : Z;
  ks_amount_minor : option Z; ks_currency_code : string; ks_batch_id : option string;
  ks_period_mode : SettlementPeriodMode; ks_confirmed_at : option Z }.
#[export] Instance eta_SettlementRow : Eta SettlementRow := fun r =>
  mkSettlementRow r.(ks_id) r.(ks_contract_id) r.(ks_period_year) r.(ks_period_month) r.(ks_status)
    r.(ks_last_ledger_index) r.(ks_ledger_close_count) r.(ks_created_at) r.(ks_updated_at) r.(ks_amount_minor)
    r.(ks_currency_code) r.(ks_batch_id) r.(ks_period_mode) r.(ks_confirmed_at).
Definition rowToSettlement (r : SettlementRow) : SettlementRecord :=
  mkSettlement r.(ks_id) r.(ks_contract_id) r.(ks_period_year) r.(ks_period_month) r.(ks_status)
    r.(ks_last_ledger_index) (Some r.(ks_ledger_close_count)) (toIso r.(ks_created_at)) (toIso r.(ks_updated_at))
    r.(ks_amount_minor) (Some (default "XRP" (nonempty (Some r.(ks_currency_code))))) (text_col r.(ks_batch_id))
    (Some r.(ks_period_mode)) (toIso <$> r.(ks_confirmed_at)).

(** * notifications, notification_outbox *)

Record NotificationRow := mkNotificationRow {
  kt_id : string; kt_event_type : string; kt_recipient_id : string; kt_channel : NotificationChannel;
  kt_status : NotificationStatus; kt_payload : JsVal; kt_created_at : Z; kt_attempt_count : Z;
  kt_next_attempt_at : option Z; kt_last_error : option string; kt_dead_letter : bool; kt_updated_at : Z }.
#[export] Instance eta_NotificationRow : Eta NotificationRow := fun r =>
  mkNotificationRow r.(kt_id) r.(kt_event_type) r.(kt_recipient_id) r.(kt_channel) r.(kt_status) r.(kt_payload)
    r.(kt_created_at) r.(kt_attempt_count) r.(kt_next_attempt_at) r.(kt_last_error) r.(kt_dead_letter)
    r.(kt_updated_at).
Definition rowToNotification (r : NotificationRow) : NotificationEvent :=
  mkNotification r.(kt_id) r.(kt_event_type) r.(kt_recipient_id) r.(kt_channel) r.(kt_status) (members r.(kt_payload))
    (toIso r.(kt_created_at)) (Some (toIso r.(kt_updated_at))) (Some r.(kt_attempt_count))
    (toIso <$> r.(kt_next_attempt_at)) (text_col r.(kt_last_error)) (Some r.(kt_dead_letter)).
Definition notificationValues (env : PgEnv) (n : NotificationEvent) : string + NotificationRow :=
  payload <~ jsonb env (JObj n.(n_payload)); created <~ timestamptz env n.(n_createdAt);
  attempts <~ int4 (default 0%Z n.(n_attemptCount)); next <~ timestamptz_opt env n.(n_nextAttemptAt);
  updated <~ timestamptz env (default n.(n_createdAt) n.(n_updatedAt));
  inr (mkNotificationRow n.(n_id) n.(n_eventType) n.(n_recipientId) n.(n_channel) n.(n_status) payload created attempts
         next n.(n_lastError) (default false n.(n_deadLetter)) updated).

Record OutboxRow := mkOutboxRow {
  ko_id : string; ko_idempotency_key : string; ko_event_type : string; ko_recipient_id : string;
  ko_channel : NotificationChannel; ko_payload : JsVal; ko_status : NotificationOutboxStatus; ko_attempts : Z;
  ko_last_error : option string; ko_created_at : Z; ko_updated_at : Z; ko_processing_started_at : option Z;
  ko_dispatched_notification_id : option string }.
#[export] Instance eta_OutboxRow : Eta OutboxRow := fun r =>
  mkOutboxRow r.(ko_id) r.(ko_idempotency_key) r.(ko_event_type) r.(ko_recipient_id) r.(ko_channel) r.(ko_payload)
    r.(ko_status) r.(ko_attempts) r.(ko_last_error) r.(ko_created_at) r.(ko_updated_at) r.(ko_processing_started_at)
    r.(ko_dispatched_notification_id).
Definition rowToNotificationOutbox (r : OutboxRow) : NotificationOutboxRecord :=
  mkOutbox r.(ko_id) r.(ko_idempotency_key) r.(ko_event_type) r.(ko_recipient_id) r.(ko_channel)
    (members r.(ko_payload)) r.(ko_status) r.(ko_attempts) (text_col r.(ko_last_error)) (toIso r.(ko_created_at))
    (toIso r.(ko_updated_at)) (toIso <$> r.(ko_processing_started_at)) (text_col r.(ko_dispatched_notification_id)).
Definition outboxValues (env : PgEnv) (o : NotificationOutboxRecord) : string + OutboxRow :=
  payload <~ jsonb env (JObj o.(o_payload)); attempts <~ int4 o.(o_attempts);
  created <~ timestamptz env o.(o_createdAt); updated <~ timestamptz env o.(o_updatedAt);
  started <~ timestamptz_opt env o.(o_processingStartedAt);
  inr (mkOutboxRow o.(o_id) o.(o_idempotencyKey) o.(o_eventType) o.(o_recipientId) o.(o_channel) payload o.(o_status)
         attempts o.(o_lastError) created updated started o.(o_dispatchedNotificationId)).

(** * audits, events *)

Record AuditRow := mkAuditRow {
  ka_id : string; ka_entity_type : string; ka_entity_id : string; ka_action : string; ka_actor_id : string;
  ka_before_json : option JsVal; ka_after_json : option JsVal; ka_metadata_json : option JsVal; ka_created_at : Z }.
Definition rowToAudit (r : AuditRow) : AuditLog :=
  mkAudit r.(ka_id) r.(ka_entity_type) r.(ka_entity_id) r.(ka_action) r.(ka_actor_id) r.(ka_before_json)
    r.(ka_after_json) r.(ka_metadata_json) (toIso r.(ka_created_at)).
Definition auditValues (env : PgEnv) (a : AuditLog) : string + AuditRow :=
  before <~ jsonb_opt env a.(a_before); after <~ jsonb_opt env a.(a_after); metadata <~ jsonb_opt env a.(a_metadata);
  created <~ timestamptz env a.(a_createdAt);
  inr (mkAuditRow a.(a_id) a.(a_entityType) a.(a_entityId) a.(a_action) a.(a_actorId) before after metadata created).

Record EventRow := mkEventRow {
  kl_event_id : string; kl_event_type : string; kl_occurred_at : Z; kl_entity_type : string; kl_entity_id : string;
  kl_payload : JsVal; kl_trace_id : string }.
Definition rowToEvent (r : EventRow) : EventEnvelope :=
  mkEvent r.(kl_event_id) r.(kl_event_type) (toIso r.(kl_occurred_at)) r.(kl_entity_type) r.(kl_entity_id)
    (members r.(kl_payload)) r.(kl_trace_id).
Definition eventValues (env : PgEnv) (e : EventEnvelope) : string + EventRow :=
  occurred <~ timestamptz env e.(ev_occurredAt); payload <~ jsonb env (JObj e.(ev_payload));
  inr (mkEventRow e.(ev_eventId) e.(ev_eventType) occurred e.(ev_entityType) e.(ev_entityId) payload e.(ev_traceId)).

(** * delayed_jobs, export_jobs *)

Record JobRow := mkJobRow {
  kj_id : string; kj_kind : string; kj_payload : JsVal; kj_run_after : Z; kj_attempts : Z; kj_max_attempts : Z;
  kj_locked_until : option Z; kj_last_error : option string; kj_created_at : Z; kj_updated_at : Z }.
#[export] Instance eta_JobRow : Eta JobRow := fun r =>
  mkJobRow r.(kj_id) r.(kj_kind) r.(kj_payload) r.(kj_run_after) r.(kj_attempts) r.(kj_max_attempts)
    r.(kj_locked_until) r.(kj_last_error) r.(kj_created_at) r.(kj_updated_at).
Definition rowToDelayedJob (r : JobRow) : DelayedJob :=
  mkJob r.(kj_id) r.(kj_kind) (members r.(kj_payload)) (toIso r.(kj_run_after)) r.(kj_attempts) r.(kj_max_attempts)
    (toIso <$> r.(kj_locked_until)) r.(kj_last_error) (toIso r.(kj_created_at)) (toIso r.(kj_updated_at)).
Definition jobValues (env : PgEnv) (j : DelayedJob) : string + JobRow :=
  payload <~ jsonb env (JObj j.(j_payload)); after <~ timestamptz env j.(j_runAfter);
  attempts <~ int4 j.(j_attempts); max <~ int4 j.(j_maxAttempts); locked <~ timestamptz_opt env j.(j_lockedUntil);
  created <~ timestamptz env j.(j_createdAt); updated <~ timestamptz env j.(j_updatedAt);
  inr (mkJobRow j.(j_id) j.(j_kind) payload after attempts max locked j.(j_lastError) created updated).

Record ExportRow := mkExportRow {
  kp_id : string; kp_kind : string; kp_status : ExportJobStatus; kp_filter_json : JsVal; kp_max_export : nat;
  kp_result_ndjson : option string; kp_error : option string; kp_created_at : Z; kp_updated_at : Z }.
#[export] Instance eta_ExportRow : Eta ExportRow := fun r =>
  mkExportRow r.(kp_id) r.(kp_kind) r.(kp_status) r.(kp_filter_json) r.(kp_max_export) r.(kp_result_ndjson)
    r.(kp_error) r.(kp_created_at) r.(kp_updated_at).
(** [fj as AuditFilter] *)
Definition filterOf (v : JsVal) : AuditFilter :=
  mkAuditFilter (jstr (jget "entityType" v)) (jstr (jget "entityId" v)) (jstr (jget "from" v)) (jstr (jget "to" v)).
Definition rowToExportJob (r : ExportRow) : ExportJobRecord :=
  mkExport r.(kp_id) r.(kp_kind) r.(kp_status) (filterOf r.(kp_filter_json)) r.(kp_max_export) r.(kp_result_ndjson)
    r.(kp_error) (toIso r.(kp_created_at)) (toIso r.(kp_updated_at)).
(** [CHECK (max_export >= 1 AND max_export <= 100000)] *)
Definition maxExportCheck (n : nat) : string + unit :=
  check ((1 <=? n)%nat && (n <=? Z.to_nat 100000)%nat) "violates check constraint export_jobs_max_export_check".
Definition exportValues (env : PgEnv) (j : ExportJobRecord) : string + ExportRow :=
  _ <~ check (bool_decide (j.(x_kind) = "audits_ndjson")) "violates check constraint export_jobs_kind_check";
  filter <~ jsonb env (auditFilter_json j.(x_filter)); _ <~ maxExportCheck j.(x_maxExport);
  created <~ timestamptz env j.(x_createdAt); updated <~ timestamptz env j.(x_updatedAt);
  inr (mkExportRow j.(x_jobId) j.(x_kind) j.(x_status) filter j.(x_maxExport) j.(x_resultNdjson) j.(x_error)
         created updated).

(** * The database *)

Record PgDb := mkPgDb {
  pg_contracts : list ContractRow; pg_evidences : list EvidenceRow; pg_disputes : list DisputeRow;
  pg_votes : list VoteRow; pg_registry : list RegistryRow; pg_decisions : list DecisionRow;
  pg_xrplTxs : list XrplTxRow; pg_ingestion : list IngestionRow; pg_settlements : list SettlementRow;
  pg_notifications : list NotificationRow; pg_outbox : list OutboxRow; pg_audits : list AuditRow;
  pg_events : list EventRow; pg_jobs : list JobRow; pg_exports : list ExportRow }.
#[export] Instance eta_PgDb : Eta PgDb := fun d =>
  mkPgDb d.(pg_contracts) d.(pg_evidences) d.(pg_disputes) d.(pg_votes) d.(pg_registry) d.(pg_decisions)
    d.(pg_xrplTxs) d.(pg_ingestion) d.(pg_settlements) d.(pg_notifications) d.(pg_outbox) d.(pg_audits)
    d.(pg_events) d.(pg_jobs) d.(pg_exports).
Definition emptyPg : PgDb := mkPgDb [] [] [] [] [] [] [] [] [] [] [] [] [] [] [].
