(* ===== verification/PgRepo.v ===== *)
(** [repository/postgres-repository.ts]: every method of [PostgresRepository],
    as the statements it sends.  The references are those of [db/migrations].
    [Promise.all] sends its queries one after the other. *)
From S2P Require Import Prelude JsString JsMap JsDate Json Types Utils MemoryRepo Export Sql PgTables.
From Stdlib Require Import Ascii.

Module Pg.
Notation Pg := (Sql.Pg PgDb).
Notation Body := (Sql.Body PgDb).

Definition every_row {R} : PgEnv -> string + (R -> bool) := fun _ => inr (fun _ => true).
Definition rows_where {R} (p : R -> bool) : PgEnv -> string + (R -> bool) := fun _ => inr p.
(** [ORDER BY] a column of stamps. *)
Definition by_time {R} (f : R -> Z) (_ : PgEnv) : R -> R -> comparison := asc Z.compare f.
Definition by_time_desc {R} (f : R -> Z) (_ : PgEnv) : R -> R -> comparison := desc Z.compare f.
(** A statement without an answer. *)
Definition execute (f : PgEnv -> PgDb -> string + PgDb) : Pg unit :=
  query (fun env _ db => db' <~ f env db; inr (tt, db')).
Definition clash_free {R} : R -> R -> bool := fun _ _ => false.
Definition no_refs {R} : PgDb -> R -> string + unit := fun _ _ => inr tt.
Definition references {R} (ids : list R) (key : R -> string) (id : string) : string + unit :=
  check (existsb (fun r => bool_decide (key r = id)) ids) "violates foreign key constraint".
Definition contract_ref (db : PgDb) (id : string) : string + unit := references db.(pg_contracts) kc_id id.
Definition dispute_ref (db : PgDb) (id : string) : string + unit := references db.(pg_disputes) kd_id id.
Definition same {R} (key : R -> string) (r r' : R) : bool := bool_decide (key r' = key r).
(** Counting queries page by page: [count] and then the rows. *)
Definition page {R V} (tbl : PgDb -> list R) (rowTo : R -> V) (p : PgEnv -> string + (R -> bool))
    (cmp : PgEnv -> R -> R -> comparison) (params : ListParams) : Pg (Paginated V) :=
  total ← query (count tbl p);
  rows ← query (fun env n db => r <~ select_by tbl cmp p env n db;
                 inr (slice params.(lp_offset) params.(lp_limit) r.1, db));
  mret (mkPage (rowTo <$> rows) total params.(lp_limit) params.(lp_offset)).

Definition pingStorage : Pg (bool * option string) := fun env w =>
  match query (fun _ _ db => inr (tt, db)) env w with
  | (inr _, w') => (inr (true, None), w')
  | (inl e, w') => (inr (false, Some e), w')
  end.

(** * Contracts *)

Definition getContract (id : string) : Pg (option Contract) :=
  rows ← query (select pg_contracts (rows_where (fun r => bool_decide (r.(kc_id) = id))));
  mret (rowToContract <$> head rows).
Definition setContracts (l : list ContractRow) (db : PgDb) : PgDb := db <| pg_contracts := l |>.
Definition saveContract (c : Contract) : Pg unit := execute (fun env db =>
  r <~ contractValues env c;
  upsert pg_contracts setContracts no_refs (same kc_id) (same kc_id)
    (fun old new => new <| kc_created_at := old.(kc_created_at) |>) r db).
Definition hasContract (id : string) : Pg bool :=
  rows ← query (select pg_contracts (rows_where (fun r => bool_decide (r.(kc_id) = id))));
  mret (negb (bool_decide (length (take 1 rows) = 0))).

(** * Evidence *)

Definition getEvidence (id : string) : Pg (option EvidenceFile) :=
  rows ← query (select pg_evidences (rows_where (fun r => bool_decide (r.(ke_id) = id))));
  mret (rowToEvidence <$> head rows).
Definition setEvidences (l : list EvidenceRow) (db : PgDb) : PgDb := db <| pg_evidences := l |>.
Definition saveEvidence (e : EvidenceFile) : Pg unit := execute (fun env db =>
  r <~ evidenceValues env e;
  upsert pg_evidences setEvidences (fun db r => contract_ref db r.(ke_contract_id)) (same ke_id) (same ke_id)
    (fun old new => new <| ke_created_at := old.(ke_created_at) |>) r db).
Definition findEvidenceByCid (cid : string) : Pg (option EvidenceFile) :=
  rows ← query (select pg_evidences (rows_where (fun r => bool_decide (r.(ke_cid) = cid))));
  mret (rowToEvidence <$> head (take 1 rows)).
Definition countEvidenceVersions (contractId : string) (disputeId : option string) (category : string) : Pg Z :=
  n ← query (count pg_evidences (rows_where (fun r =>
        bool_decide (r.(ke_contract_id) = contractId) && bool_decide (r.(ke_dispute_id) = disputeId)
        && bool_decide (category_str r.(ke_category) = category))));
  mret (Z.of_nat n).
Definition hasEvidence (id : string) : Pg bool :=
  rows ← query (select pg_evidences (rows_where (fun r => bool_decide (r.(ke_id) = id))));
  mret (negb (bool_decide (length (take 1 rows) = 0))).
(** A comparison with a null column is not true. *)
Definition at_least (t : Z) (c : option Z) : bool := match c with Some h => (t <=? h)%Z | None => false end.
Definition pastRetention (now : Z) (r : EvidenceRow) : bool :=
  (match r.(ke_retain_until) with Some u => (u <? now)%Z | None => false end)
  && negb (bool_decide (r.(ke_retention_class) = RC_legal_hold)
             && (bool_decide (r.(ke_legal_hold_until) = None) || at_least now r.(ke_legal_hold_until))
           || negb (bool_decide (r.(ke_retention_class) = RC_legal_hold)) && at_least now r.(ke_legal_hold_until)).
Definition listEvidencesPastRetention (nowIso : string) : Pg (list EvidenceFile) :=
  rows ← query (select pg_evidences (fun env => now <~ timestamptz env nowIso; inr (pastRetention now)));
  mret (map rowToEvidence rows).
Definition deleteEvidence (id : string) : Pg unit := execute (fun _ db =>
  inr (delete_where pg_evidences setEvidences (fun r => bool_decide (r.(ke_id) = id)) db)).

(** * Disputes *)

Definition getDispute (id : string) : Pg (option DisputeCase) :=
  rows ← query (select pg_disputes (rows_where (fun r => bool_decide (r.(kd_id) = id))));
  mret (rowToDispute <$> head rows).
Definition setDisputes (l : list DisputeRow) (db : PgDb) : PgDb := db <| pg_disputes := l |>.
Definition saveDispute (d : DisputeCase) : Pg unit := execute (fun env db =>
  r <~ disputeValues env d;
  upsert pg_disputes setDisputes (fun db r => contract_ref db r.(kd_contract_id)) (same kd_id) (same kd_id)
    (fun old new => new <| kd_created_at := old.(kd_created_at) |>) r db).
Definition setVotes (l : list VoteRow) (db : PgDb) : PgDb := db <| pg_votes := l |>.
Definition appendDisputeVerifierVote (v : DisputeVerifierVoteRecord) : Pg unit := execute (fun env db =>
  r <~ voteValues env v;
  insert_into pg_votes setVotes (fun db r => dispute_ref db r.(kv_dispute_id)) (same kv_id) r db).
Definition listDisputeVerifierVotes (disputeId : string) : Pg (list DisputeVerifierVoteRecord) :=
  rows ← query (select_by pg_votes (by_time kv_created_at)
                  (rows_where (fun r => bool_decide (r.(kv_dispute_id) = disputeId))));
  mret (map rowToVote rows).
Definition listDisputeVerifierRegistry : Pg (list DisputeVerifierRegistryEntry) :=
  rows ← query (select_by pg_registry (by_time kg_created_at) every_row);
  mret (map rowToRegistryEntry rows).
Definition setRegistry (l : list RegistryRow) (db : PgDb) : PgDb := db <| pg_registry := l |>.
Definition upsertDisputeVerifierRegistryEntry (e : DisputeVerifierRegistryEntry) : Pg unit := execute (fun env db =>
  r <~ registryValues env e;
  upsert pg_registry setRegistry no_refs (same kg_verifier_id) (same kg_id)
    (fun old new => mkRegistryRow old.(kg_id) old.(kg_verifier_id) new.(kg_display_label) new.(kg_active)
                      old.(kg_created_at)) r db).
Definition setDecisions (l : list DecisionRow) (db : PgDb) : PgDb := db <| pg_decisions := l |>.
Definition saveDecision (d : CaseDecision) : Pg unit := execute (fun env db =>
  r <~ decisionValues env d;
  upsert pg_decisions setDecisions (fun db r => dispute_ref db r.(kn_dispute_id)) (same kn_id) (same kn_id)
    (fun old new => new <| kn_created_at := old.(kn_created_at) |>) r db).

(** * XRPL transactions *)

Definition getXrplTx (txHash : string) : Pg (option XrplTransaction) :=
  rows ← query (select pg_xrplTxs (rows_where (fun r => bool_decide (r.(kx_tx_hash) = txHash))));
  mret (rowToXrpl <$> head rows).
Definition setXrplTxs (l : list XrplTxRow) (db : PgDb) : PgDb := db <| pg_xrplTxs := l |>.
Definition saveXrplTx (t : XrplTransaction) : Pg unit := execute (fun env db =>
  r <~ xrplTxValues env t;
  upsert pg_xrplTxs setXrplTxs no_refs (same kx_tx_hash) (same kx_tx_hash) (fun _ new => new) r db).
Definition listXrplTxs : Pg (list XrplTransaction) :=
  rows ← query (select pg_xrplTxs every_row); mret (map rowToXrpl rows).
(** [trim] of SQL removes spaces. *)
Definition not_blank (s : string) : bool := negb (all_chars (fun c => bool_decide (c = " "%char)) s).
(** [SELECT DISTINCT account .. LIMIT max] *)
Definition listXrplSubscribeAccounts (max : Z) : Pg (list string) :=
  query (fun env n db =>
    _ <~ check (0 <=? max)%Z "LIMIT must not be negative";
    rows <~ select pg_xrplTxs (rows_where (fun r => negb r.(kx_validated)
              && match r.(kx_account) with Some a => not_blank a | None => false end)) env n db;
    inr (take (Z.to_nat max) (remove_dups (omap kx_account rows.1)), db)).
Definition setIngestion (l : list IngestionRow) (db : PgDb) : PgDb := db <| pg_ingestion := l |>.
Definition same_event (r r' : IngestionRow) : bool :=
  bool_decide (r'.(ki_ledger_index) = r.(ki_ledger_index)) && bool_decide (r'.(ki_tx_hash) = r.(ki_tx_hash))
  && bool_decide (r'.(ki_event_source) = r.(ki_event_source)).
Definition tryRecordXrplIngestionEvent (ledgerIndex : Z) (txHash eventSource : string) : Pg bool :=
  id ← pg_ask pe_randomId;
  now ← pg_ask pe_nowIso;
  query (fun env _ db =>
    idx <~ int8 ledgerIndex; created <~ timestamptz env now;
    insert_new pg_ingestion setIngestion no_refs same_event (same ki_id)
      (mkIngestionRow id idx txHash eventSource created) db).

(** * Notifications *)

Definition setNotifications (l : list NotificationRow) (db : PgDb) : PgDb := db <| pg_notifications := l |>.
Definition saveNotification (n : NotificationEvent) : Pg unit := execute (fun env db =>
  r <~ notificationValues env n;
  upsert pg_notifications setNotifications no_refs (same kt_id) (same kt_id)
    (fun old new => new <| kt_created_at := old.(kt_created_at) |>) r db).
Definition getNotification (id : string) : Pg (option NotificationEvent) :=
  rows ← query (select pg_notifications (rows_where (fun r => bool_decide (r.(kt_id) = id))));
  mret (rowToNotification <$> head rows).
Definition dueRow (now : Z) (r : NotificationRow) : bool :=
  negb r.(kt_dead_letter)
  && (bool_decide (r.(kt_status) = NS_queued)
      || bool_decide (r.(kt_status) = NS_retry_scheduled)
         && match r.(kt_next_attempt_at) with None => true | Some t => (t <=? now)%Z end).
Definition listDueNotifications (nowIso : string) (limit : nat) : Pg (list NotificationEvent) :=
  rows ← query (fun env n db =>
    r <~ select_by pg_notifications (by_time kt_created_at)
           (fun env => now <~ timestamptz env nowIso; inr (dueRow now)) env n db;
    inr (take limit r.1, db));
  mret (map rowToNotification rows).

Definition setOutbox (l : list OutboxRow) (db : PgDb) : PgDb := db <| pg_outbox := l |>.
Definition appendNotificationOutbox (row : NotificationOutboxRecord) : Pg bool := query (fun env _ db =>
  r <~ outboxValues env row;
  insert_new pg_outbox setOutbox no_refs (same ko_idempotency_key) (same ko_id) r db).
Definition claimedRow (now : Z) (r : OutboxRow) : OutboxRow :=
  r <| ko_status := OS_processing |> <| ko_processing_started_at := Some now |> <| ko_updated_at := now |>.
Definition claimNotificationOutboxPending (limit : nat) (nowIsoStr : string) : Pg (list NotificationOutboxRecord) :=
  rows ← query (fun env n db =>
    now <~ timestamptz env nowIsoStr;
    claim pg_outbox setOutbox ko_id (fun r => bool_decide (r.(ko_status) = OS_pending))
      (asc Z.compare ko_created_at) limit (claimedRow now) env n db);
  mret (map rowToNotificationOutbox rows).
Definition updatedOutbox (new r : OutboxRow) : OutboxRow :=
  new <| ko_id := r.(ko_id) |> <| ko_idempotency_key := r.(ko_idempotency_key) |> <| ko_created_at := r.(ko_created_at) |>.
(** The statement has no [created_at]. *)
Definition updateNotificationOutbox (row : NotificationOutboxRecord) : Pg unit := execute (fun env db =>
  payload <~ jsonb env (JObj row.(o_payload)); attempts <~ int4 row.(o_attempts);
  updated <~ timestamptz env row.(o_updatedAt); started <~ timestamptz_opt env row.(o_processingStartedAt);
  inr (update_where pg_outbox setOutbox (fun r => bool_decide (r.(ko_id) = row.(o_id)))
    (updatedOutbox (mkOutboxRow "" "" row.(o_eventType) row.(o_recipientId) row.(o_channel) payload row.(o_status)
       attempts row.(o_lastError) 0 updated started row.(o_dispatchedNotificationId))) db).2).
Definition getNotificationOutbox (id : string) : Pg (option NotificationOutboxRecord) :=
  rows ← query (select pg_outbox (rows_where (fun r => bool_decide (r.(ko_id) = id))));
  mret (rowToNotificationOutbox <$> head rows).
Definition listNotificationOutboxPage (filter_ : NotificationOutboxListFilter) (params : ListParams) :
    Pg (Paginated NotificationOutboxRecord) :=
  page pg_outbox rowToNotificationOutbox
    (rows_where (fun r => match filter_.(of_status) with Some s => bool_decide (r.(ko_status) = s) | None => true end))
    (by_time_desc ko_created_at) params.
Definition staleRow (before : Z) (r : OutboxRow) : bool :=
  bool_decide (r.(ko_status) = OS_processing)
  && match r.(ko_processing_started_at) with Some t => (t <? before)%Z | None => false end.
Definition recoveredRow (now : Z) (r : OutboxRow) : OutboxRow :=
  r <| ko_status := OS_pending |> <| ko_processing_started_at := None |> <| ko_updated_at := now |>.
Definition recoverStaleNotificationOutboxProcessing (staleBeforeIso nowIsoStr : string) : Pg Z :=
  n ← query (fun env _ db =>
    before <~ timestamptz env staleBeforeIso; now <~ timestamptz env nowIsoStr;
    inr (update_where pg_outbox setOutbox (staleRow before) (recoveredRow now) db));
  mret (Z.of_nat n).

(** * Audits and events *)

Definition setAudits (l : list AuditRow) (db : PgDb) : PgDb := db <| pg_audits := l |>.
Definition appendAudit (log : AuditLog) : Pg unit := execute (fun env db =>
  r <~ auditValues env log; insert_into pg_audits setAudits no_refs (same ka_id) r db).
Definition setEvents (l : list EventRow) (db : PgDb) : PgDb := db <| pg_events := l |>.
Definition appendEvent (ev : EventEnvelope) : Pg unit := execute (fun env db =>
  r <~ eventValues env ev; insert_into pg_events setEvents no_refs (same kl_event_id) r db).
Definition auditFilterBindings (f : AuditFilter) (env : PgEnv) : string + (AuditRow -> bool) :=
  window <~ between env f.(af_from) f.(af_to);
  inr (fun r => flt_eq f.(af_entityType) r.(ka_entity_type) && flt_eq f.(af_entityId) r.(ka_entity_id)
                && window r.(ka_created_at)).
(** [ORDER BY created_at ASC, id ASC] *)
Definition auditRowOrder (env : PgEnv) : AuditRow -> AuditRow -> comparison :=
  then_by (asc Z.compare ka_created_at) (asc env.(pe_collate) ka_id).
Definition listAudits (filter : AuditFilter) : Pg (list AuditLog) :=
  rows ← query (select_by pg_audits auditRowOrder (auditFilterBindings filter));
  mret (map rowToAudit rows).
Definition listAuditsPage (filter : AuditFilter) (params : ListParams) : Pg (Paginated AuditLog) :=
  page pg_audits rowToAudit (auditFilterBindings filter) auditRowOrder params.
(** [created_at > $i OR (created_at = $i AND id > $j)] *)
Definition afterCursorRow (env : PgEnv) (t : Z) (id : string) (r : AuditRow) : bool :=
  (t <? r.(ka_created_at))%Z
  || (t =? r.(ka_created_at))%Z && match env.(pe_collate) id r.(ka_id) with Lt => true | _ => false end.
Definition keysetRows (filter : AuditFilter) (after : option AuditCursorPayload) (env : PgEnv) :
    string + (AuditRow -> bool) :=
  p <~ auditFilterBindings filter env;
  match after with
  | None => inr p
  | Some dec => t <~ timestamptz env dec.(cur_createdAt); inr (fun r => p r && afterCursorRow env t dec.(cur_id) r)
  end.
Definition keysetOf (limit : nat) (mapped : list AuditLog) : AuditKeysetPage :=
  let hasMore := (limit <? length mapped)%nat in
  let items := if hasMore then take limit mapped else mapped in
  mkKeyset items
    (match last items with
     | Some l => if hasMore then Some (encodeAuditCursor (mkCursor l.(a_createdAt) l.(a_id))) else None
     | None => None
     end).
Definition listAuditsAfterCursor (filter : AuditFilter) (limit : nat) (cursor : option string) : Pg AuditKeysetPage :=
  let page after :=
    rows ← query (fun env n db => r <~ select_by pg_audits auditRowOrder (keysetRows filter after) env n db;
                   inr (take (limit + 1) r.1, db));
    mret (keysetOf limit (map rowToAudit rows)) in
  match nonempty cursor with
  | None => page None
  | Some c => match decodeAuditCursor c with Some dec => page (Some dec) | None => pg_throw "INVALID_AUDIT_CURSOR" end
  end.
Definition listEvents (f : EventFilter) : Pg (list EventEnvelope) :=
  rows ← query (select_by pg_events (by_time kl_occurred_at) (rows_where (fun r =>
           flt_eq f.(ef_entityType) r.(kl_entity_type) && flt_eq f.(ef_entityId) r.(kl_entity_id)
           && flt_eq f.(ef_eventType) r.(kl_event_type))));
  mret (map rowToEvent rows).

(** * Delayed jobs *)

Definition setJobs (l : list JobRow) (db : PgDb) : PgDb := db <| pg_jobs := l |>.
Definition createDelayedJobIfAbsent (job : DelayedJob) : Pg bool := query (fun env _ db =>
  r <~ jobValues env job; insert_new pg_jobs setJobs no_refs (same kj_id) clash_free r db).
Definition jobDue (kind : string) (now : Z) (r : JobRow) : bool :=
  bool_decide (r.(kj_kind) = kind) && (r.(kj_run_after) <=? now)%Z
  && match r.(kj_locked_until) with None => true | Some t => (t <=? now)%Z end.
Definition leasedRow (lockUntil now : Z) (r : JobRow) : JobRow :=
  r <| kj_locked_until := Some lockUntil |> <| kj_updated_at := now |>.
(** [new Date(NaN).toISOString()] throws; [legacy] is [Date.parse] on other formats. *)
Definition claimDueDelayedJobs (legacy : string -> option Z) (kind nowIsoStr : string) (limit : nat) (lockTtlMs : Z) :
    Pg (list DelayedJob) :=
  match date_parse legacy nowIsoStr with
  | None => pg_throw "Invalid time value"
  | Some nowMs =>
      let lockUntil := toISOString (nowMs + lockTtlMs) in
      rows ← query (fun env n db =>
        now <~ timestamptz env nowIsoStr; until <~ timestamptz env lockUntil;
        claim pg_jobs setJobs kj_id (jobDue kind now) (asc Z.compare kj_run_after) limit (leasedRow until now) env n db);
      mret (map rowToDelayedJob rows)
  end.
Definition deleteDelayedJob (id : string) : Pg unit := execute (fun _ db =>
  inr (delete_where pg_jobs setJobs (fun r => bool_decide (r.(kj_id) = id)) db)).
Definition bumpDelayedJob (id runAfter : string) (attempts : Z) (lastError : option string) (updatedAt : string) : Pg unit :=
  execute (fun env db =>
    after <~ timestamptz env runAfter; n <~ int4 attempts; updated <~ timestamptz env updatedAt;
    inr (update_where pg_jobs setJobs (fun r => bool_decide (r.(kj_id) = id)) (fun r =>
      r <| kj_run_after := after |> <| kj_attempts := n |> <| kj_last_error := lastError |>
        <| kj_updated_at := updated |> <| kj_locked_until := None |>) db).2).

(** * Pages *)

Definition contractWhere (f : ContractListFilter) (env : PgEnv) : string + (ContractRow -> bool) :=
  window <~ between env f.(cf_updatedFrom) f.(cf_updatedTo);
  inr (fun r => flt_eq f.(cf_status) (contractStatus_str r.(kc_status)) && flt_eq f.(cf_tenantId) r.(kc_tenant_id)
                && flt_eq f.(cf_landlordId) r.(kc_landlord_id) && window r.(kc_updated_at)).
Definition listContractsPage (f : ContractListFilter) (params : ListParams) : Pg (Paginated Contract) :=
  page pg_contracts rowToContract (contractWhere f) (by_time_desc kc_updated_at) params.
Definition disputeWhere (f : DisputeListFilter) (env : PgEnv) : string + (DisputeRow -> bool) :=
  window <~ between env f.(df_updatedFrom) f.(df_updatedTo);
  inr (fun r => flt_eq f.(df_contractId) r.(kd_contract_id) && flt_eq f.(df_status) (disputeStatus_str r.(kd_status))
                && window r.(kd_updated_at)).
Definition listDisputesPage (f : DisputeListFilter) (params : ListParams) : Pg (Paginated DisputeCase) :=
  page pg_disputes rowToDispute (disputeWhere f) (by_time_desc kd_updated_at) params.
(** A comparison with a null account is not true. *)
Definition xrplTxWhere (f : XrplTxListFilter) (r : XrplTxRow) : bool :=
  flt_eq_opt f.(xf_account) r.(kx_account) && flt_eq f.(xf_trackingStatus) (trackingStatus_str r.(kx_tracking_status))
  && (match f.(xf_validated) with Some v => Bool.eqb r.(kx_validated) v | None => true end)
  && flt_eq f.(xf_network) (network_str r.(kx_network)).
Definition listXrplTxsPage (f : XrplTxListFilter) (params : ListParams) : Pg (Paginated XrplTransaction) :=
  page pg_xrplTxs rowToXrpl (rows_where (xrplTxWhere f)) (by_time_desc kx_last_checked_at) params.

(** * Statistics *)

(** [SELECT status, count( * ) FROM t WHERE p GROUP BY status], as the object the
    loop fills. *)
Definition group_count {R} (tbl : PgDb -> list R) (key : R -> string) (p : PgEnv -> string + (R -> bool)) :
    Pg (JsMap Z) :=
  query (fun env n db => rows <~ select tbl p env n db; inr (countBy key rows.1, db)).
Definition getOperatorStatsSummary : Pg OperatorStatsSummary :=
  contracts ← group_count pg_contracts (fun r => contractStatus_str r.(kc_status)) every_row;
  disputes ← group_count pg_disputes (fun r => disputeStatus_str r.(kd_status)) every_row;
  xrpl ← group_count pg_xrplTxs (fun r => trackingStatus_str r.(kx_tracking_status)) every_row;
  notifications ← group_count pg_notifications (fun r => notificationStatus_str r.(kt_status)) every_row;
  evidences ← query (count pg_evidences every_row);
  settlements ← group_count pg_settlements (fun r => settlementStatus_str r.(ks_status)) every_row;
  mret (mkStats contracts disputes xrpl notifications evidences settlements).

(** [$i IS NULL OR column = $i] *)
Definition null_or_eq (o : option string) (s : string) : bool :=
  match o with None => true | Some x => bool_decide (s = x) end.
(** [$1::timestamptz IS NULL OR t >= $1] and [$2::timestamptz IS NULL OR t <= $2] *)
Definition window (p : ReportSummaryParams) (env : PgEnv) : string + (Z -> bool) :=
  lo <~ timestamptz_opt env p.(rp_from); hi <~ timestamptz_opt env p.(rp_to);
  inr (fun t => match lo with Some a => (a <=? t)%Z | None => true end &&
                match hi with Some b => (t <=? b)%Z | None => true end).
Definition party (p : ReportSummaryParams) (c : ContractRow) : bool :=
  null_or_eq p.(rp_tenantId) c.(kc_tenant_id) && null_or_eq p.(rp_landlordId) c.(kc_landlord_id).
(** [JOIN contracts c ON c.id = ..], the key being unique. *)
Definition joined (p : ReportSummaryParams) (db : PgDb) (contractId : string) : bool :=
  existsb (fun c => bool_decide (c.(kc_id) = contractId) && party p c) db.(pg_contracts).
(** A query whose condition reads other tables. *)
Definition joined_count {R} (tbl : PgDb -> list R) (key : R -> string)
    (p : PgDb -> PgEnv -> string + (R -> bool)) : Pg (JsMap Z) :=
  query (fun env n db => rows <~ select tbl (p db) env n db; inr (countBy key rows.1, db)).
Definition scopedXrpl (p : ReportSummaryParams) (db : PgDb) (r : XrplTxRow) : bool :=
  bool_decide (p.(rp_tenantId) = None) && bool_decide (p.(rp_landlordId) = None)
  || existsb (fun d => bool_decide (Some d.(kd_id) = r.(kx_dispute_id)) && joined p db d.(kd_contract_id))
       db.(pg_disputes).
Definition getReportsSummary (p : ReportSummaryParams) : Pg ReportSummary :=
  global ← getOperatorStatsSummary;
  contracts ← group_count pg_contracts (fun r => contractStatus_str r.(kc_status))
    (fun env => within <~ window p env; inr (fun r => within r.(kc_updated_at) && party p r));
  disputes ← joined_count pg_disputes (fun r => disputeStatus_str r.(kd_status))
    (fun db env => within <~ window p env; inr (fun r => within r.(kd_updated_at) && joined p db r.(kd_contract_id)));
  settlements ← joined_count pg_settlements (fun r => settlementStatus_str r.(ks_status))
    (fun db env => within <~ window p env; inr (fun r => within r.(ks_updated_at) && joined p db r.(ks_contract_id)));
  xrpl ← joined_count pg_xrplTxs (fun r => trackingStatus_str r.(kx_tracking_status))
    (fun db env => within <~ window p env; inr (fun r => within r.(kx_last_checked_at) && scopedXrpl p db r));
  audits ← query (count pg_audits (fun env => within <~ window p env; inr (fun r => within r.(ka_created_at))));
  generatedAt ← pg_ask pe_nowIso;
  mret (mkReport generatedAt p global (mkScoped contracts disputes settlements xrpl audits)).

(** * Settlements *)

Definition getSettlement (id : string) : Pg (option SettlementRecord) :=
  rows ← query (select pg_settlements (rows_where (fun r => bool_decide (r.(ks_id) = id))));
  mret (rowToSettlement <$> head rows).
Definition setSettlements (l : list SettlementRow) (db : PgDb) : PgDb := db <| pg_settlements := l |>.
(** An [UPDATE]; three of the columns are [NOT NULL], which matters when there
    is a row. *)
Definition settlementNotNull (s : SettlementRecord) : bool :=
  negb (bool_decide (s.(s_ledgerCloseCount) = None)) && negb (bool_decide (s.(s_currencyCode) = None))
  && negb (bool_decide (s.(s_periodMode) = None)).
Definition settlementSet (status : SettlementStatus) (ledger : option Z) (closes updated : Z) (amount : option Z)
    (currency : string) (batch : option string) (mode : SettlementPeriodMode) (confirmed : option Z) (r : SettlementRow) :
    SettlementRow :=
  r <| ks_status := status |> <| ks_last_ledger_index := ledger |> <| ks_ledger_close_count := closes |>
    <| ks_updated_at := updated |> <| ks_amount_minor := amount |> <| ks_currency_code := currency |>
    <| ks_batch_id := batch |> <| ks_period_mode := mode |> <| ks_confirmed_at := confirmed |>.
Definition saveSettlement (s : SettlementRecord) : Pg unit := execute (fun env db =>
  ledger <~ null_or int8 s.(s_lastLedgerIndex); closes <~ null_or int4 s.(s_ledgerCloseCount);
  updated <~ timestamptz env s.(s_updatedAt); amount <~ null_or int8 s.(s_amountMinor);
  confirmed <~ timestamptz_opt env s.(s_confirmedAt);
  let hit r := bool_decide (r.(ks_id) = s.(s_id)) in
  _ <~ check (negb (existsb hit db.(pg_settlements)) || settlementNotNull s) "null value violates not-null constraint";
  inr (update_where pg_settlements setSettlements hit
    (settlementSet s.(s_status) ledger (default 0 closes)%Z updated amount (default "" s.(s_currencyCode)) s.(s_batchId)
       (default PM_calendar_utc s.(s_periodMode)) confirmed) db).2).
Definition settlementWhere (f : SettlementListFilter) (r : SettlementRow) : bool :=
  flt_eq f.(sf_contractId) r.(ks_contract_id) && flt_eq f.(sf_status) (settlementStatus_str r.(ks_status))
  && (match f.(sf_periodYear) with Some y => (r.(ks_period_year) =? y)%Z | None => true end)
  && (match f.(sf_periodMonth) with Some m => (r.(ks_period_month) =? m)%Z | None => true end).
Definition settlementRowOrder (env : PgEnv) : SettlementRow -> SettlementRow -> comparison :=
  then_by (desc Z.compare ks_period_year)
    (then_by (desc Z.compare ks_period_month) (asc env.(pe_collate) ks_contract_id)).
Definition listSettlementsPage (f : SettlementListFilter) (params : ListParams) : Pg (Paginated SettlementRecord) :=
  page pg_settlements rowToSettlement (rows_where (settlementWhere f)) settlementRowOrder params.

(** The row that the [SELECT] gives for a contract, and what a conflict does. *)
Definition touchedRow (y m ledger now : Z) (contractId : string) : SettlementRow :=
  mkSettlementRow (settlementDeterministicId contractId y m) contractId y m SS_collecting (Some ledger) 1 now now None
    "XRP" None PM_calendar_utc None.
Definition sameMonth (r r' : SettlementRow) : bool :=
  bool_decide (r'.(ks_contract_id) = r.(ks_contract_id)) && bool_decide (r'.(ks_period_year) = r.(ks_period_year))
  && bool_decide (r'.(ks_period_month) = r.(ks_period_month)).
Definition touchMerge (old new : SettlementRow) : SettlementRow :=
  if bool_decide (old.(ks_status) = SS_archived) then old
  else old <| ks_last_ledger_index := new.(ks_last_ledger_index) |>
           <| ks_ledger_close_count := (old.(ks_ledger_close_count) + 1)%Z |>
           <| ks_updated_at := new.(ks_updated_at) |>.
(** An [INTEGER] that reached its end. *)
Definition closesFit (db : PgDb) : string + unit :=
  check (forallb (fun r => r.(ks_ledger_close_count) <=? 2147483647)%Z db.(pg_settlements)) "integer out of range".
(** [INSERT .. SELECT]: one row after the other; an error undoes them all. *)
Fixpoint upsertAll (rows : list SettlementRow) (db : PgDb) : string + PgDb :=
  match rows with
  | [] => inr db
  | r :: rest =>
      db' <~ upsert pg_settlements setSettlements (fun db r => contract_ref db r.(ks_contract_id)) sameMonth (same ks_id)
               touchMerge r db;
      upsertAll rest db'
  end.
Definition touchSettlementsOnLedgerClose (p : TouchParams) : Pg Z :=
  n ← query (fun env n db =>
    y <~ int4 p.(tp_periodYear); m <~ int4 p.(tp_periodMonth); ledger <~ int8 p.(tp_ledgerIndex);
    now <~ timestamptz env p.(tp_nowIso);
    rows <~ select pg_contracts (rows_where (fun c => bool_decide (c.(kc_status) = CS_active)
                                   || bool_decide (c.(kc_status) = CS_escrow_validated))) env n db;
    _ <~ check (bool_decide (rows.1 = []) || (1 <=? m) && (m <=? 12))%Z
           "violates check constraint settlements_period_month_check";
    db' <~ upsertAll ((fun c => touchedRow y m ledger now c.(kc_id)) <$> rows.1) db;
    _ <~ closesFit db';
    inr (length rows.1, db'));
  mret (Z.of_nat n).

(** * Export jobs *)

Definition setExports (l : list ExportRow) (db : PgDb) : PgDb := db <| pg_exports := l |>.
Definition createExportJob (job : ExportJobRecord) : Pg unit := execute (fun env db =>
  r <~ exportValues env job; insert_into pg_exports setExports no_refs (same kp_id) r db).
Definition getExportJob (id : string) : Pg (option ExportJobRecord) :=
  rows ← query (select pg_exports (rows_where (fun r => bool_decide (r.(kp_id) = id))));
  mret (rowToExportJob <$> head rows).
Definition runningRow (now : Z) (r : ExportRow) : ExportRow :=
  r <| kp_status := ES_running |> <| kp_updated_at := now |>.
Definition claimExportJobsPending (limit : nat) (nowIso : string) : Pg (list ExportJobRecord) :=
  rows ← query (fun env n db =>
    now <~ timestamptz env nowIso;
    claim pg_exports setExports kp_id (fun r => bool_decide (r.(kp_status) = ES_pending))
      (asc Z.compare kp_created_at) limit (runningRow now) env n db);
  mret (map rowToExportJob rows).
Definition updateExportJob (job : ExportJobRecord) : Pg unit := execute (fun env db =>
  filter <~ jsonb env (Export.auditFilter_json job.(x_filter)); updated <~ timestamptz env job.(x_updatedAt);
  let hit r := bool_decide (r.(kp_id) = job.(x_jobId)) in
  _ <~ (if existsb hit db.(pg_exports) then maxExportCheck job.(x_maxExport) else inr tt);
  inr (update_where pg_exports setExports hit (fun r =>
    r <| kp_status := job.(x_status) |> <| kp_filter_json := filter |> <| kp_max_export := job.(x_maxExport) |>
      <| kp_result_ndjson := job.(x_resultNdjson) |> <| kp_error := job.(x_error) |> <| kp_updated_at := updated |>)
    db).2).
End Pg.
