(* ===== verification/RepoSpec.v ===== *)
(** What the callers of [AppRepository] ([app-repository.ts]) rely on, for every
    method: how the store and the answer are related.  The relation is read off
    the in-memory repository, the simpler of the two, and uses its functions for
    the conditions of a row (due, claimable, stale, touched); where the interface
    leaves an order open (rows with equal stamps, rows without an [ORDER BY]) it
    allows every arrangement.  So that the in-memory repository meets it
    ([memory_meets_spec]) only says that the relation is not too narrow; it is
    the yardstick for the other one, [PostgresRepository], whose SQL says the
    same conditions in its own terms. *)
From S2P Require Import Prelude JsString JsMap JsDate Types Config World Utils MemoryRepo RepoFacts.

(** The methods of the interface. *)
Inductive Op : Type -> Type :=
  | PingStorage : Op (bool * option string)
  | GetContract (id : string) : Op (option Contract)
  | SaveContract (c : Contract) : Op unit
  | HasContract (id : string) : Op bool
  | GetEvidence (id : string) : Op (option EvidenceFile)
  | SaveEvidence (e : EvidenceFile) : Op unit
  | FindEvidenceByCid (cid : string) : Op (option EvidenceFile)
  | CountEvidenceVersions (contractId : string) (disputeId : option string) (category : string) : Op Z
  | HasEvidence (id : string) : Op bool
  | ListEvidencesPastRetention (nowIso : string) : Op (list EvidenceFile)
  | DeleteEvidence (id : string) : Op unit
  | GetDispute (id : string) : Op (option DisputeCase)
  | SaveDispute (d : DisputeCase) : Op unit
  | AppendDisputeVerifierVote (v : DisputeVerifierVoteRecord) : Op unit
  | ListDisputeVerifierVotes (disputeId : string) : Op (list DisputeVerifierVoteRecord)
  | ListDisputeVerifierRegistry : Op (list DisputeVerifierRegistryEntry)
  | UpsertDisputeVerifierRegistryEntry (e : DisputeVerifierRegistryEntry) : Op unit
  | SaveDecision (d : CaseDecision) : Op unit
  | GetXrplTx (txHash : string) : Op (option XrplTransaction)
  | SaveXrplTx (t : XrplTransaction) : Op unit
  | ListXrplTxs : Op (list XrplTransaction)
  | ListXrplSubscribeAccounts (max : Z) : Op (list string)
  | TryRecordXrplIngestionEvent (ledgerIndex : Z) (txHash eventSource : string) : Op bool
  | SaveNotification (n : NotificationEvent) : Op unit
  | GetNotification (id : string) : Op (option NotificationEvent)
  | ListDueNotifications (nowIso : string) (limit : nat) : Op (list NotificationEvent)
  | AppendNotificationOutbox (row : NotificationOutboxRecord) : Op bool
  | ClaimNotificationOutboxPending (limit : nat) (nowIsoStr : string) : Op (list NotificationOutboxRecord)
  | UpdateNotificationOutbox (row : NotificationOutboxRecord) : Op unit
  | GetNotificationOutbox (id : string) : Op (option NotificationOutboxRecord)
  | ListNotificationOutboxPage (f : NotificationOutboxListFilter) (params : ListParams) :
      Op (Paginated NotificationOutboxRecord)
  | RecoverStaleNotificationOutboxProcessing (staleBeforeIso nowIsoStr : string) : Op Z
  | AppendAudit (log : AuditLog) : Op unit
  | AppendEvent (ev : EventEnvelope) : Op unit
  | ListAudits (f : AuditFilter) : Op (list AuditLog)
  | ListAuditsPage (f : AuditFilter) (params : ListParams) : Op (Paginated AuditLog)
  | ListAuditsAfterCursor (f : AuditFilter) (limit : nat) (cursor : option string) : Op AuditKeysetPage
  | ListEvents (f : EventFilter) : Op (list EventEnvelope)
  | CreateDelayedJobIfAbsent (job : DelayedJob) : Op bool
  | ClaimDueDelayedJobs (kind nowIsoStr : string) (limit : nat) (lockTtlMs : Z) : Op (list DelayedJob)
  | DeleteDelayedJob (id : string) : Op unit
  | BumpDelayedJob (id runAfter : string) (attempts : Z) (lastError : option string) (updatedAt : string) : Op unit
  | ListContractsPage (f : ContractListFilter) (params : ListParams) : Op (Paginated Contract)
  | ListDisputesPage (f : DisputeListFilter) (params : ListParams) : Op (Paginated DisputeCase)
  | ListXrplTxsPage (f : XrplTxListFilter) (params : ListParams) : Op (Paginated XrplTransaction)
  | GetOperatorStatsSummary : Op OperatorStatsSummary
  | GetReportsSummary (p : ReportSummaryParams) : Op ReportSummary
  | GetSettlement (id : string) : Op (option SettlementRecord)
  | SaveSettlement (s : SettlementRecord) : Op unit
  | ListSettlementsPage (f : SettlementListFilter) (params : ListParams) : Op (Paginated SettlementRecord)
  | TouchSettlementsOnLedgerClose (p : TouchParams) : Op Z
  | CreateExportJob (job : ExportJobRecord) : Op unit
  | GetExportJob (id : string) : Op (option ExportJobRecord)
  | ClaimExportJobsPending (limit : nat) (nowIso : string) : Op (list ExportJobRecord)
  | UpdateExportJob (job : ExportJobRecord) : Op unit.

(** [MemoryRepository]. *)
Definition mem_exec {A} (op : Op A) : M A :=
  match op in Op A return M A with
  | PingStorage => pingStorage
  | GetContract id => getContract id
  | SaveContract c => saveContract c
  | HasContract id => hasContract id
  | GetEvidence id => getEvidence id
  | SaveEvidence e => saveEvidence e
  | FindEvidenceByCid cid => findEvidenceByCid cid
  | CountEvidenceVersions c d k => countEvidenceVersions c d k
  | HasEvidence id => hasEvidence id
  | ListEvidencesPastRetention now => listEvidencesPastRetention now
  | DeleteEvidence id => deleteEvidence id
  | GetDispute id => getDispute id
  | SaveDispute d => saveDispute d
  | AppendDisputeVerifierVote v => appendDisputeVerifierVote v
  | ListDisputeVerifierVotes id => listDisputeVerifierVotes id
  | ListDisputeVerifierRegistry => listDisputeVerifierRegistry
  | UpsertDisputeVerifierRegistryEntry e => upsertDisputeVerifierRegistryEntry e
  | SaveDecision d => saveDecision d
  | GetXrplTx h => getXrplTx h
  | SaveXrplTx t => saveXrplTx t
  | ListXrplTxs => listXrplTxs
  | ListXrplSubscribeAccounts max => listXrplSubscribeAccounts max
  | TryRecordXrplIngestionEvent l h s => tryRecordXrplIngestionEvent l h s
  | SaveNotification n => saveNotification n
  | GetNotification id => getNotification id
  | ListDueNotifications now limit => listDueNotifications now limit
  | AppendNotificationOutbox row => appendNotificationOutbox row
  | ClaimNotificationOutboxPending limit now => claimNotificationOutboxPending limit now
  | UpdateNotificationOutbox row => updateNotificationOutbox row
  | GetNotificationOutbox id => getNotificationOutbox id
  | ListNotificationOutboxPage f params => listNotificationOutboxPage f params
  | RecoverStaleNotificationOutboxProcessing before now => recoverStaleNotificationOutboxProcessing before now
  | AppendAudit log => appendAudit log
  | AppendEvent ev => appendEvent ev
  | ListAudits f => listAudits f
  | ListAuditsPage f params => listAuditsPage f params
  | ListAuditsAfterCursor f limit cursor => listAuditsAfterCursor f limit cursor
  | ListEvents f => listEvents f
  | CreateDelayedJobIfAbsent job => createDelayedJobIfAbsent job
  | ClaimDueDelayedJobs kind now limit ttl => claimDueDelayedJobs kind now limit ttl
  | DeleteDelayedJob id => deleteDelayedJob id
  | BumpDelayedJob id after n e u => bumpDelayedJob id after n e u
  | ListContractsPage f params => listContractsPage f params
  | ListDisputesPage f params => listDisputesPage f params
  | ListXrplTxsPage f params => listXrplTxsPage f params
  | GetOperatorStatsSummary => getOperatorStatsSummary
  | GetReportsSummary p => getReportsSummary p
  | GetSettlement id => getSettlement id
  | SaveSettlement s => saveSettlement s
  | ListSettlementsPage f params => listSettlementsPage f params
  | TouchSettlementsOnLedgerClose p => touchSettlementsOnLedgerClose p
  | CreateExportJob job => createExportJob job
  | GetExportJob id => getExportJob id
  | ClaimExportJobsPending limit now => claimExportJobsPending limit now
  | UpdateExportJob job => updateExportJob job
  end.

(** * The specification *)

(** The rows in an order that the comparator allows. *)
Definition arranged {A} (cmp : A -> A -> comparison) (rows l : list A) : Prop :=
  l ≡ₚ rows /\ StronglySorted (cmp_le cmp) l.
Definition paged {A} (cmp : A -> A -> comparison) (rows : list A) (params : ListParams) (a : Paginated A) : Prop :=
  exists l, arranged cmp rows l /\ a = paginate l params.
(** The first [limit] of the rows are taken and replaced. *)
Definition claimed {V} (cmp : V -> V -> comparison) (key : V -> string) (f : V -> V) (limit : nat) (rows : list V)
    (m m' : JsMap V) (a : list V) : Prop :=
  exists l, arranged cmp rows l /\ a ≡ₚ f <$> take limit l /\
    m' = foldl (fun m v => jm_set (key v) (f v) m) m (take limit l).
(** Counts, as objects whose members have no order. *)
Definition same_counts (a b : JsMap Z) : Prop := forall k, jm_get k a = jm_get k b.
Definition same_stats (a b : OperatorStatsSummary) : Prop :=
  same_counts a.(st_contractsByStatus) b.(st_contractsByStatus) /\
  same_counts a.(st_disputesByStatus) b.(st_disputesByStatus) /\
  same_counts a.(st_xrplByTracking) b.(st_xrplByTracking) /\
  same_counts a.(st_notificationsByStatus) b.(st_notificationsByStatus) /\
  a.(st_evidencesTotal) = b.(st_evidencesTotal) /\ same_counts a.(st_settlementsByStatus) b.(st_settlementsByStatus).
Definition same_scoped (a b : ReportScopedBucket) : Prop :=
  same_counts a.(sb_contractsByStatus) b.(sb_contractsByStatus) /\
  same_counts a.(sb_disputesByStatus) b.(sb_disputesByStatus) /\
  same_counts a.(sb_settlementsByStatus) b.(sb_settlementsByStatus) /\
  same_counts a.(sb_xrplByTracking) b.(sb_xrplByTracking) /\ a.(sb_auditsCount) = b.(sb_auditsCount).

Definition reads {A} (f : Db -> A) (db : Db) (a : A) (db' : Db) : Prop := a = f db /\ db' = db.
Definition lists {A} (f : Db -> list A) (db : Db) (a : list A) (db' : Db) : Prop := a ≡ₚ f db /\ db' = db.
Definition writes {A} (f : Db -> Db) (db : Db) (a : A) (db' : Db) : Prop := db' = f db.
(** Among the contracts of one month the order is the implementation's. *)
Definition monthOrder : SettlementRecord -> SettlementRecord -> comparison :=
  then_by (desc Z.compare s_periodYear) (desc Z.compare s_periodMonth).
Definition eligible_account (t : XrplTransaction) : option string :=
  if t.(x_validated) then None else nonempty t.(x_account).
Definition touched (p : TouchParams) (db : Db) : JsMap SettlementRecord * Z :=
  fold_left (touchStep p) (jm_values db.(contracts)) (db.(settlements), 0%Z).
(** The rows after the cursor. *)
Definition keyset (f : AuditFilter) (limit : nat) (cursor : option string) (db : Db) : option AuditKeysetPage :=
  let filtered := filteredAudits f db.(audits) in
  match nonempty cursor with
  | None => Some (keysetPage filtered 0 limit)
  | Some c => (fun dec => keysetPage filtered (startAfter dec filtered) limit) <$> decodeAuditCursor c
  end.

(** [legacy] is [Date.parse] on formats that are not ISO. *)
Definition spec (legacy : string -> option Z) {A} (op : Op A) : Db -> A -> Db -> Prop :=
  match op in Op A return Db -> A -> Db -> Prop with
  | PingStorage => fun db _ db' => db' = db
  | GetContract id => reads (fun db => jm_get id db.(contracts))
  | SaveContract c => writes (fun db => db <| contracts := jm_set c.(c_id) c db.(contracts) |>)
  | HasContract id => reads (fun db => jm_has id db.(contracts))
  | GetEvidence id => reads (fun db => jm_get id db.(evidences))
  | SaveEvidence e => writes (fun db => db <| evidences := jm_set e.(e_id) e db.(evidences) |>)
  | FindEvidenceByCid cid => fun db a db' => db' = db /\
      match a with
      | Some e => e ∈ jm_values db.(evidences) /\ e.(e_cid) = cid
      | None => forall e, e ∈ jm_values db.(evidences) -> e.(e_cid) <> cid
      end
  | CountEvidenceVersions c d k => reads (fun db =>
      Z.of_nat (length (filter (fun e => sameVersionSeries c d k e) (jm_values db.(evidences)))))
  | HasEvidence id => reads (fun db => jm_has id db.(evidences))
  | ListEvidencesPastRetention now =>
      lists (fun db => filter (fun e => evidencePastRetention now e) (jm_values db.(evidences)))
  | DeleteEvidence id => writes (fun db => db <| evidences := jm_delete id db.(evidences) |>)
  | GetDispute id => reads (fun db => jm_get id db.(disputes))
  | SaveDispute d => writes (fun db => db <| disputes := jm_set d.(d_id) d db.(disputes) |>)
  | AppendDisputeVerifierVote v => writes (fun db => db <| disputeVerifierVotes :=
      jm_set v.(v_disputeId) (default [] (jm_get v.(v_disputeId) db.(disputeVerifierVotes)) ++ [v])
        db.(disputeVerifierVotes) |>)
  | ListDisputeVerifierVotes id => lists (fun db => default [] (jm_get id db.(disputeVerifierVotes)))
  | ListDisputeVerifierRegistry => fun db a db' => db' = db /\
      arranged (by_asc r_createdAt) (jm_values db.(disputeVerifierRegistry)) a
  | UpsertDisputeVerifierRegistryEntry e => writes (fun db =>
      db <| disputeVerifierRegistry := jm_set e.(r_verifierId) e db.(disputeVerifierRegistry) |>)
  | SaveDecision d => writes (fun db => db <| decisions := jm_set d.(cd_id) d db.(decisions) |>)
  | GetXrplTx h => reads (fun db => jm_get h db.(xrplTxs))
  | SaveXrplTx t => writes (fun db => db <| xrplTxs := jm_set t.(x_txHash) t db.(xrplTxs) |>)
  | ListXrplTxs => lists (fun db => jm_values db.(xrplTxs))
  | ListXrplSubscribeAccounts max => fun db a db' => db' = db /\
      let accounts := omap eligible_account (jm_values db.(xrplTxs)) in
      NoDup a /\ (forall s, s ∈ a -> s ∈ accounts) /\
      (length a < Z.to_nat max -> forall s, s ∈ accounts -> s ∈ a) /\ ((1 <= max)%Z -> length a <= Z.to_nat max)
  | TryRecordXrplIngestionEvent l h s => fun db a db' =>
      let key := ingestionKey l h s in
      if bool_decide (key ∈ db.(xrplIngestionDedup)) then a = false /\ db' = db
      else a = true /\ db' = db <| xrplIngestionDedup := db.(xrplIngestionDedup) ++ [key] |>
  | SaveNotification n => writes (fun db => db <| notifications := jm_set n.(n_id) n db.(notifications) |>)
  | GetNotification id => reads (fun db => jm_get id db.(notifications))
  | ListDueNotifications now limit => fun db a db' => db' = db /\ exists l,
      arranged (by_asc n_createdAt) (filter (fun n => notificationDue now n) (jm_values db.(notifications))) l /\
      a = take limit l
  | AppendNotificationOutbox row => fun db a db' =>
      if jm_has row.(o_idempotencyKey) db.(notificationOutboxIdempotency) then a = false /\ db' = db
      else a = true /\
        db' = db <| notificationOutboxById := jm_set row.(o_id) row db.(notificationOutboxById) |>
                 <| notificationOutboxIdempotency :=
                      jm_set row.(o_idempotencyKey) row.(o_id) db.(notificationOutboxIdempotency) |>
  | ClaimNotificationOutboxPending limit now => fun db a db' => exists m,
      claimed (by_asc o_createdAt) o_id (claimedOutbox now) limit
        (filter (fun r => r.(o_status) = OS_pending) (jm_values db.(notificationOutboxById)))
        db.(notificationOutboxById) m a /\
      db' = db <| notificationOutboxById := m |>
  | UpdateNotificationOutbox row => fun db _ db' =>
      match jm_get row.(o_id) db.(notificationOutboxById) with
      | Some old => old.(o_idempotencyKey) = row.(o_idempotencyKey) ->
          db' = db <| notificationOutboxById := jm_set row.(o_id) row db.(notificationOutboxById) |>
      | None => True
      end
  | GetNotificationOutbox id => reads (fun db => jm_get id db.(notificationOutboxById))
  | ListNotificationOutboxPage f params => fun db a db' => db' = db /\
      paged (by_desc o_createdAt) (filter (fun r => outboxFilter f r) (jm_values db.(notificationOutboxById))) params a
  | RecoverStaleNotificationOutboxProcessing before now => fun db a db' =>
      let stale := filter (fun r => outboxStale before r) (jm_values db.(notificationOutboxById)) in
      a = Z.of_nat (length stale) /\
      db' = db <| notificationOutboxById :=
        foldl (fun m v => jm_set v.(o_id) (recoveredOutbox now v) m) db.(notificationOutboxById) stale |>
  | AppendAudit log => writes (fun db => db <| audits := db.(audits) ++ [log] |>)
  | AppendEvent ev => writes (fun db => db <| events := db.(events) ++ [ev] |>)
  | ListAudits f => reads (fun db => filteredAudits f db.(audits))
  | ListAuditsPage f params => reads (fun db => paginate (filteredAudits f db.(audits)) params)
  | ListAuditsAfterCursor f limit cursor => fun db a db' => keyset f limit cursor db = Some a /\ db' = db
  | ListEvents f => lists (fun db => filter (fun e => eventFilter f e) db.(events))
  | CreateDelayedJobIfAbsent job => fun db a db' =>
      if jm_has job.(j_id) db.(delayedJobs) then a = false /\ db' = db
      else a = true /\ db' = db <| delayedJobs := jm_set job.(j_id) job db.(delayedJobs) |>
  | ClaimDueDelayedJobs kind now limit ttl => fun db a db' =>
      match date_parse legacy now with
      | None => a = [] /\ db' = db
      | Some nowMs => exists m,
          claimed (by_asc j_runAfter) j_id (claimedJob (toISOString (nowMs + ttl)) now) limit
            (filter (fun j => jobClaimable legacy kind nowMs j) (jm_values db.(delayedJobs))) db.(delayedJobs) m a /\
          db' = db <| delayedJobs := m |>
      end
  | DeleteDelayedJob id => writes (fun db => db <| delayedJobs := jm_delete id db.(delayedJobs) |>)
  | BumpDelayedJob id after n e u => writes (fun db =>
      match jm_get id db.(delayedJobs) with
      | None => db
      | Some j => db <| delayedJobs := jm_set id
          (j <| j_runAfter := after |> <| j_attempts := n |> <| j_lastError := e |> <| j_updatedAt := u |>
             <| j_lockedUntil := None |>) db.(delayedJobs) |>
      end)
  | ListContractsPage f params => fun db a db' => db' = db /\
      paged (by_desc c_updatedAt) (filter (fun c => contractFilter f c) (jm_values db.(contracts))) params a
  | ListDisputesPage f params => fun db a db' => db' = db /\
      paged (by_desc d_updatedAt) (filter (fun d => disputeFilter f d) (jm_values db.(disputes))) params a
  | ListXrplTxsPage f params => fun db a db' => db' = db /\
      paged (by_desc x_lastCheckedAt) (filter (fun t => xrplTxFilter f t) (jm_values db.(xrplTxs))) params a
  | GetOperatorStatsSummary => fun db a db' => db' = db /\ same_stats a (operatorStats db)
  | GetReportsSummary p => fun db a db' => db' = db /\
      a.(rs_window) = p /\ same_stats a.(rs_global) (operatorStats db) /\ same_scoped a.(rs_scoped) (scopedReport p db)
  | GetSettlement id => reads (fun db => withSettlementDefaults <$> jm_get id db.(settlements))
  | SaveSettlement s => writes (fun db =>
      db <| settlements := jm_set s.(s_id) (withSettlementDefaults s) db.(settlements) |>)
  | ListSettlementsPage f params => fun db a db' => db' = db /\
      paged monthOrder (filter (fun s => settlementFilter f s) (withSettlementDefaults <$> jm_values db.(settlements)))
        params a
  | TouchSettlementsOnLedgerClose p => fun db a db' =>
      ((touched p db).2 <= a <= Z.of_nat (length (filter (fun c => touchEligible c) (jm_values db.(contracts)))))%Z /\
      exists m, (forall id, jm_get id m = jm_get id (touched p db).1) /\ db' = db <| settlements := m |>
  | CreateExportJob job => writes (fun db => db <| exportJobs := jm_set job.(x_jobId) job db.(exportJobs) |>)
  | GetExportJob id => reads (fun db => jm_get id db.(exportJobs))
  | ClaimExportJobsPending limit now => fun db a db' => exists m,
      claimed (by_asc x_createdAt) x_jobId (claimedExport now) limit
        (filter (fun j => j.(x_status) = ES_pending) (jm_values db.(exportJobs))) db.(exportJobs) m a /\
      db' = db <| exportJobs := m |>
  | UpdateExportJob job => writes (fun db => db <| exportJobs := jm_set job.(x_jobId) job db.(exportJobs) |>)
  end.

(** The in-memory repository implements the specification of the interface. *)

#[export] Instance monthOrder_total : TotalCmp monthOrder := then_total _ _ _ _.

Lemma arranged_sort {A} (cmp : A -> A -> comparison) `{!TotalCmp cmp} rows : arranged cmp rows (js_sort cmp rows).
Proof. split; [apply js_sort_perm|apply (js_sort_total cmp)]. Qed.

(** A listing arranged by a finer comparator is arranged. *)
Lemma cmp_le_then {A} (c1 c2 : A -> A -> comparison) x y : cmp_le (then_by c1 c2) x y -> cmp_le c1 x y.
Proof. unfold cmp_le, then_by. by destruct (c1 x y). Qed.
Lemma StronglySorted_weaken {A} (R S : relation A) l :
  (forall x y, R x y -> S x y) -> StronglySorted R l -> StronglySorted S l.
Proof.
  intros HRS. induction 1 as [|x l _ IH Hx]; constructor; [done|]. eapply Forall_impl; [exact Hx|]. auto.
Qed.
Lemma settlementOrder_month x y : cmp_le settlementOrder x y -> cmp_le monthOrder x y.
Proof.
  unfold cmp_le, settlementOrder, monthOrder, then_by.
  destruct (desc Z.compare s_periodYear x y); [|done..]. by destruct (desc Z.compare s_periodMonth x y).
Qed.

(** [forEach] over the entries of one map is a fold over the map. *)
Ltac fold_entries l :=
  let IH := fresh "IH" in
  unfold putOutbox, putJob, updateExportJob; intros w Hkey; revert w; induction l as [|x l IH]; intros w; [by destruct w as [[] ? ? ? ? ? ?]|];
  cbn [forEach foldl]; rewrite bind_modify, IH, Hkey; done.
Lemma forEach_putOutbox f l env w :
  (forall r, o_id (f r) = o_id r) ->
  forEach (fun r => putOutbox (f r)) l env w = (inr tt, w <| w_db := w.(w_db) <| notificationOutboxById :=
    foldl (fun m v => jm_set (o_id v) (f v) m) w.(w_db).(notificationOutboxById) l |> |>).
Proof. revert w. fold_entries l. Qed.
Lemma forEach_putJob f l env w :
  (forall r, j_id (f r) = j_id r) ->
  forEach (fun r => putJob (f r)) l env w = (inr tt, w <| w_db := w.(w_db) <| delayedJobs :=
    foldl (fun m v => jm_set (j_id v) (f v) m) w.(w_db).(delayedJobs) l |> |>).
Proof. revert w. fold_entries l. Qed.
Lemma forEach_updateExport f l env w :
  (forall r, x_jobId (f r) = x_jobId r) ->
  forEach (fun r => updateExportJob (f r)) l env w = (inr tt, w <| w_db := w.(w_db) <| exportJobs :=
    foldl (fun m v => jm_set (x_jobId v) (f v) m) w.(w_db).(exportJobs) l |> |>).
Proof. revert w. fold_entries l. Qed.

(** The accounts that the loop adds. *)
Lemma subscribeAccounts_cons max out t l :
  subscribeAccounts max out (t :: l) =
    match eligible_account t with
    | None => subscribeAccounts max out l
    | Some a =>
        if bool_decide (a ∈ out) then subscribeAccounts max out l
        else if (max <=? Z.of_nat (length (out ++ [a])))%Z then out ++ [a]
        else subscribeAccounts max (out ++ [a]) l
    end.
Proof.
  cbn [subscribeAccounts]. unfold eligible_account, nonempty.
  destruct (x_account t) as [a|], (x_validated t); try done. cbn [orb]. by destruct (truthy (Some a)).
Qed.
Definition fills (max : Z) (accounts out a : list string) : Prop :=
  (length a < Z.to_nat max -> forall s, s ∈ accounts -> s ∈ a) /\ length a <= Z.to_nat max.
Lemma subscribeAccounts_spec max l out :
  NoDup out ->
  let a := subscribeAccounts max out l in
  (NoDup a /\ (forall s, s ∈ out -> s ∈ a) /\ (forall s, s ∈ a -> s ∈ out \/ s ∈ omap eligible_account l)) /\
  ((Z.of_nat (length out) < max)%Z -> fills max (omap eligible_account l) out a).
Proof.
  cbv zeta. revert out. induction l as [|t l IH]; intros out Hnd.
  - cbn. split; [split_and!; [done..|by left]|]. split; [set_solver|lia].
  - rewrite subscribeAccounts_cons. cbn [omap list_omap]. destruct (eligible_account t) as [a|]; [|by apply IH].
    case_bool_decide as Hin.
    { destruct (IH out Hnd) as ((? & Hk & Hs) & Hf). split; [split_and!; [done..|set_solver]|].
      intros [Hc ?]%Hf. split; [set_solver|done]. }
    assert (NoDup (out ++ [a])) as Hnd'.
    { apply NoDup_app. split_and!; [done| |apply NoDup_singleton]. intros x Hx ->%list_elem_of_singleton. done. }
    destruct (IH (out ++ [a]) Hnd') as ((? & Hk & Hs) & Hf).
    destruct (Z.leb_spec max (Z.of_nat (length (out ++ [a])))) as [Hle|Hgt].
    + split; [split_and!; [done|set_solver..]|]. rewrite length_app in Hle. simpl in Hle. intros Hlt.
      unfold fills. rewrite length_app. simpl. split; [intros; lia|lia].
    + split; [split_and!; [done|set_solver..]|]. intros _. destruct (Hf Hgt) as [Hc ?].
      split; [|done]. intros Hlen s [->|]%elem_of_cons; [apply Hk; set_solver|auto].
Qed.

(** What the in-memory repository refuses: a cursor that does not decode. *)
Definition refuses {A} (op : Op A) : Prop :=
  match op with
  | ListAuditsAfterCursor _ _ cursor => exists c, nonempty cursor = Some c /\ decodeAuditCursor c = None
  | _ => False
  end.
Definition meets {A} (op : Op A) (env : Env) (w : World) (r : (Exn + A) * World) : Prop :=
  match r with
  | (inr a, w') => spec env.(env_legacyDate) op w.(w_db) a w'.(w_db)
  | (inl _, w') => refuses op /\ w' = w
  end.

Lemma claimed_forEach {V} (cmp : V -> V -> comparison) `{!TotalCmp cmp} (key : V -> string) f limit rows (m : JsMap V) :
  claimed cmp key f limit rows m
    (foldl (fun m v => jm_set (key v) (f v) m) m (take limit (js_sort cmp rows)))
    (f <$> take limit (js_sort cmp rows)).
Proof. exists (js_sort cmp rows). split; [by apply arranged_sort|done]. Qed.

Lemma mem_meets_findByCid cid env w : meets (FindEvidenceByCid cid) env w (mem_exec (FindEvidenceByCid cid) env w).
Proof.
  split; [done|]. cbn. destruct (list_find _ _) as [[i e]|] eqn:E; cbn.
  - apply list_find_Some in E as (Hi & He & _). split; [|done]. by eapply list_elem_of_lookup_2.
  - apply list_find_None in E. intros e He. by apply (proj1 (Forall_forall _ _) E).
Qed.
Lemma mem_meets_subscribe max env w :
  meets (ListXrplSubscribeAccounts max) env w (mem_exec (ListXrplSubscribeAccounts max) env w).
Proof.
  split; [done|]. cbn. destruct (subscribeAccounts_spec max (jm_values w.(w_db).(xrplTxs)) [] (NoDup_nil_2)) as
    ((Hnd & _ & Hin) & Hf).
  split_and!; [done|set_solver| |].
  - intros Hlt s Hs. destruct Hf as [Hc _]; [simpl; lia|]. by apply Hc.
  - intros Hmax. destruct Hf as [_ Hl]; [simpl; lia|]. done.
Qed.
Lemma mem_meets_claimOutbox limit now env w :
  meets (ClaimNotificationOutboxPending limit now) env w (mem_exec (ClaimNotificationOutboxPending limit now) env w).
Proof.
  cbn [mem_exec]. unfold claimNotificationOutboxPending. rewrite bind_asks. unfold mbind, M_bind.
  rewrite forEach_putOutbox by done. eexists. by split; [apply claimed_forEach; apply _|].
Qed.
Lemma mem_meets_recover before now env w :
  meets (RecoverStaleNotificationOutboxProcessing before now) env w
    (mem_exec (RecoverStaleNotificationOutboxProcessing before now) env w).
Proof.
  cbn [mem_exec]. unfold recoverStaleNotificationOutboxProcessing. rewrite bind_asks. unfold mbind, M_bind.
  by rewrite forEach_putOutbox by done.
Qed.
Lemma mem_meets_claimExports limit now env w :
  meets (ClaimExportJobsPending limit now) env w (mem_exec (ClaimExportJobsPending limit now) env w).
Proof.
  cbn [mem_exec]. unfold claimExportJobsPending. rewrite bind_asks. unfold mbind, M_bind.
  rewrite forEach_updateExport by done. eexists. by split; [apply claimed_forEach; apply _|].
Qed.
Lemma mem_meets_claimJobs kind now limit ttl env w :
  meets (ClaimDueDelayedJobs kind now limit ttl) env w (mem_exec (ClaimDueDelayedJobs kind now limit ttl) env w).
Proof.
  cbn [mem_exec]. unfold claimDueDelayedJobs. rewrite bind_askEnv.
  destruct (date_parse env.(env_legacyDate) now) as [ms|] eqn:E; [|by cbn; rewrite E].
  rewrite bind_asks. unfold mbind, M_bind. rewrite forEach_putJob by done. cbn [mret M_ret meets spec]. rewrite E.
  eexists. by split; [apply claimed_forEach; apply _|].
Qed.
(** At most one settlement is touched for each eligible contract. *)
Lemma touched_bounds p l m n :
  (n <= (fold_left (touchStep p) l (m, n)).2 <= n + Z.of_nat (length (filter (fun c => touchEligible c) l)))%Z.
Proof.
  revert m n. induction l as [|c l IH]; intros m n; cbn [fold_left]; [simpl; lia|]. rewrite filter_cons.
  unfold touchStep at 2 4. destruct (touchEligible c); cbn [Is_true]; case_decide as Hc; try by destruct Hc.
  - case_match; [specialize (IH (jm_set (settlementDeterministicId c.(c_id) p.(tp_periodYear) p.(tp_periodMonth)) s m) (n + 1)%Z)
      |specialize (IH m n)]; cbn [length]; lia.
  - specialize (IH m n). lia.
Qed.
Lemma mem_meets_touch p env w :
  meets (TouchSettlementsOnLedgerClose p) env w (mem_exec (TouchSettlementsOnLedgerClose p) env w).
Proof.
  cbn. split; [|by eexists]. unfold touched.
  pose proof (touched_bounds p (jm_values w.(w_db).(contracts)) w.(w_db).(settlements) 0%Z). lia.
Qed.
Lemma mem_meets_audits f limit cursor env w :
  meets (ListAuditsAfterCursor f limit cursor) env w (mem_exec (ListAuditsAfterCursor f limit cursor) env w).
Proof.
  cbn [mem_exec]. unfold listAuditsAfterCursor, listAudits. rewrite bind_asks.
  destruct cursor as [c|]; [|done]. destruct (truthy (Some c)) eqn:Ht; [destruct (decodeAuditCursor c) eqn:Hd|].
  - split; [|done]. unfold keyset, nonempty. by rewrite Ht, Hd.
  - split; [|done]. exists c. by unfold nonempty; rewrite Ht.
  - split; [|done]. unfold keyset, nonempty. by rewrite Ht.
Qed.
Lemma mem_meets_updateOutbox row env w :
  meets (UpdateNotificationOutbox row) env w (mem_exec (UpdateNotificationOutbox row) env w).
Proof.
  cbn [mem_exec]. unfold updateNotificationOutbox. rewrite bind_asks.
  destruct (jm_get _ _) as [p|] eqn:E.
  - case_bool_decide as Hk; [rewrite bind_modify|rewrite bind_ret]; cbv [meets spec putOutbox modify];
      rewrite E; [by intros He|done].
  - rewrite bind_ret. cbv [meets spec putOutbox modify]. by rewrite E.
Qed.

(** A listing of rows is the sorted one. *)
Lemma paged_sort {A} (cmp : A -> A -> comparison) `{!TotalCmp cmp} rows params :
  paged cmp rows params (paginate (js_sort cmp rows) params).
Proof. exists (js_sort cmp rows). split; [by apply arranged_sort|done]. Qed.
Lemma mem_meets_settlements f params env w :
  meets (ListSettlementsPage f params) env w (mem_exec (ListSettlementsPage f params) env w).
Proof.
  split; [done|]. eexists. split; [|done]. split; [apply js_sort_perm|].
  eapply StronglySorted_weaken; [apply settlementOrder_month|apply (js_sort_total settlementOrder)].
Qed.
Lemma mem_meets_bump id after n e u env w :
  meets (BumpDelayedJob id after n e u) env w (mem_exec (BumpDelayedJob id after n e u) env w).
Proof.
  cbn [mem_exec]. unfold bumpDelayedJob. rewrite bind_asks. cbv [meets spec writes].
  by destruct (jm_get id w.(w_db).(delayedJobs)).
Qed.
Lemma mem_meets_createJob job env w :
  meets (CreateDelayedJobIfAbsent job) env w (mem_exec (CreateDelayedJobIfAbsent job) env w).
Proof.
  cbn [mem_exec]. unfold createDelayedJobIfAbsent. rewrite bind_asks.
  destruct (jm_has _ _) eqn:E; cbv [meets spec mret M_ret]; cbn; by rewrite E.
Qed.
Lemma mem_meets_appendOutbox row env w :
  meets (AppendNotificationOutbox row) env w (mem_exec (AppendNotificationOutbox row) env w).
Proof.
  cbn [mem_exec]. unfold appendNotificationOutbox. rewrite bind_asks.
  destruct (jm_has _ _) eqn:E; cbv [meets spec mret M_ret]; cbn; by rewrite E.
Qed.
Lemma mem_meets_ingestion l h s env w :
  meets (TryRecordXrplIngestionEvent l h s) env w (mem_exec (TryRecordXrplIngestionEvent l h s) env w).
Proof.
  cbn [mem_exec]. unfold tryRecordXrplIngestionEvent. rewrite bind_asks.
  destruct (bool_decide _) eqn:E; cbv [meets spec mret M_ret]; cbn; by rewrite E.
Qed.
#[local] Hint Resolve arranged_sort paged_sort mem_meets_findByCid mem_meets_subscribe mem_meets_claimOutbox
  mem_meets_recover mem_meets_claimExports mem_meets_claimJobs mem_meets_touch mem_meets_audits mem_meets_updateOutbox
  mem_meets_settlements mem_meets_bump mem_meets_createJob mem_meets_appendOutbox mem_meets_ingestion : bs.

(** every method of the in-memory repository does what the specification of
    [AppRepository] says for it, whatever the store and the arguments; only
    [listAuditsAfterCursor] throws, on a cursor that does not decode, and then
    nothing has changed. *)
Theorem memory_meets_spec {A} (op : Op A) env w : meets op env w (mem_exec op env w).
Proof.
  destruct op; auto with bs;
    first [done|by split|split; [done|]; eauto using arranged_sort, paged_sort with typeclass_instances].
Qed.
