(* ===== verification/PgSim.v ===== *)
(** How tables of rows stand for the maps of the store, and how the statements
    of the repository act on the maps they stand for; rules for the outcome of a
    method. *)
From S2P Require Import Prelude JsString JsMap JsDate Json Types Utils MemoryRepo RepoFacts Sql PgTables PgRepo.
From S2P Require Import RepoSpec.
From Stdlib Require Import Ascii.

(** * Lists *)

Lemma StronglySorted_map_rel {A B} (R : relation A) (S : relation B) (f : A -> B) l :
  (forall x y, x ∈ l -> y ∈ l -> R x y -> S (f x) (f y)) -> StronglySorted R l -> StronglySorted S (f <$> l).
Proof.
  intros HRS. induction 1 as [|x l _ IH Hx]; cbn; constructor.
  - apply IH. intros y z Hy Hz. apply HRS; by right.
  - apply Forall_fmap, Forall_forall. intros y Hy. apply HRS; [by left|by right|].
    by apply (proj1 (Forall_forall _ _) Hx).
Qed.
Lemma filter_bool_ext {A} (p q : A -> bool) (l : list A) :
  (forall x, x ∈ l -> p x = q x) -> filter (fun x => p x) l = filter (fun x => q x) l.
Proof.
  induction l as [|x l IH]; intros H; [done|]. rewrite !filter_cons, (H x), IH by (by left || intros; apply H; by right). done.
Qed.
Lemma filter_map_bool {A B} (f : A -> B) (p : A -> bool) (q : B -> bool) (l : list A) :
  (forall x, x ∈ l -> p x = q (f x)) -> filter (fun y => q y) (f <$> l) = f <$> filter (fun x => p x) l.
Proof.
  induction l as [|x l IH]; intros H; [done|]. rewrite fmap_cons, !filter_cons, (H x), IH by (by left || intros; apply H; by right).
  by case_decide.
Qed.

Lemma omap_cons {A B} (f : A -> option B) x (l : list A) :
  omap f (x :: l) = match f x with Some y => y :: omap f l | None => omap f l end.
Proof. done. Qed.
Lemma filter_true {A} (l : list A) : filter (fun _ => true) l = l.
Proof. induction l as [|x l IH]; [done|]. rewrite filter_cons_True by done. by f_equal. Qed.

Lemma countBy_lookup {A} (key : A -> string) (l : list A) k :
  jm_get k (countBy key l) = if decide (count_of key k l = 0%Z) then None else Some (count_of key k l).
Proof.
  unfold countBy. assert (forall m,
    jm_get k (fold_left (fun m x => jm_set (key x) (default 0%Z (jm_get (key x) m) + 1)%Z m) l m)
    = if decide (count_of key k l = 0%Z) then jm_get k m
      else Some (default 0 (jm_get k m) + count_of key k l)%Z) as H; [|by rewrite H].
  induction l as [|x l IH]; intros m; [done|]. cbn [fold_left]. rewrite IH, jm_get_set. unfold count_of.
  rewrite filter_cons. repeat case_decide; subst; cbn [length default] in *; try done; try lia; unfold id; f_equal; lia.
Qed.
Lemma countBy_perm {A} (key : A -> string) (l l' : list A) : l ≡ₚ l' -> same_counts (countBy key l) (countBy key l').
Proof.
  intros H k. rewrite !countBy_lookup. assert (count_of key k l = count_of key k l') as ->; [|done].
  unfold count_of. by rewrite H.
Qed.
Lemma countBy_map {A B} (f : A -> B) (kA : A -> string) (kB : B -> string) (l : list A) :
  (forall x, x ∈ l -> kA x = kB (f x)) -> countBy kA l = countBy kB (f <$> l).
Proof.
  unfold countBy. generalize (@nil (string * Z)) as m. induction l as [|x l IH]; intros m H; [done|].
  cbn. rewrite (H x) by by left. apply IH. intros y Hy. apply H. by right.
Qed.

(** Setting the entries of a list of values with different keys. *)
Lemma jm_get_foldl {V} (k : V -> string) (f : V -> V) (l : list V) m id :
  NoDup (k <$> l) ->
  (forall v, v ∈ l -> k v = id -> jm_get id (foldl (fun m v => jm_set (k v) (f v) m) m l) = Some (f v)) /\
  (id ∉ k <$> l -> jm_get id (foldl (fun m v => jm_set (k v) (f v) m) m l) = jm_get id m).
Proof.
  revert m. induction l as [|x l IH]; intros m; cbn; [intros _; split; [set_solver|done]|].
  intros [Hx Hl]%NoDup_cons. destruct (IH (jm_set (k x) (f x) m) Hl) as [H1 H2]. split.
  - intros v [->|Hv]%elem_of_cons E; [|by apply H1]. subst. by rewrite H2, jm_get_set_eq.
  - intros [Hne Hnin]%not_elem_of_cons. by rewrite H2, jm_get_set_ne.
Qed.
Lemma foldl_jm_set_wf {V} (k : V -> string) (f : V -> V) (l : list V) m :
  jm_wf m -> jm_wf (foldl (fun m v => jm_set (k v) (f v) m) m l).
Proof. revert m. induction l as [|x l IH]; cbn; auto with bs. Qed.

(** * Composed identifiers *)

Lemma split_at_first {A} (c : A) (a a' b b' : list A) :
  c ∉ a -> c ∉ a' -> a ++ c :: b = a' ++ c :: b' -> a = a' /\ b = b'.
Proof.
  revert a'. induction a as [|x a IH]; intros [|x' a'] Hc Hc' E; cbn in E; simplify_eq; try set_solver.
  destruct (IH a') as [-> ->]; set_solver.
Qed.
Lemma split_at_last {A} (c : A) (a a' b b' : list A) :
  c ∉ b -> c ∉ b' -> a ++ c :: b = a' ++ c :: b' -> a = a' /\ b = b'.
Proof.
  intros Hc Hc' E. apply (f_equal reverse) in E. rewrite !reverse_app, !reverse_cons, <-!app_assoc in E.
  apply split_at_first in E as [Eb Ea]; [|by rewrite elem_of_reverse..].
  by apply (inj reverse) in Eb, Ea.
Qed.
Lemma num_str_chars n c : number_start c = false -> c ∉ chars (num_str n).
Proof.
  intros Hc Hin. assert (Forall (fun c => number_start c = true) (chars (num_str n))) as H.
  { assert (forall d, Forall (fun c => is_digit c = true) d -> Forall (fun c => number_start c = true) d) as Hd.
    { intros d Hd. eapply Forall_impl; [exact Hd|]. intros x Hx. unfold number_start. by rewrite Hx. }
    destruct n as [|p|p]; [by repeat constructor|..]; destruct (pos_digits p) as (d & Hp & Hdig & _).
    - change (num_str (Z.pos p)) with (pretty (N.pos p)). rewrite Hp. auto.
    - change (chars (num_str (Z.neg p))) with ("-"%char :: chars (pretty (N.pos p))). rewrite Hp. by constructor; auto. }
  rewrite Forall_forall in H. specialize (H c Hin). congruence.
Qed.
Lemma ingestionKey_inj l h s l' h' s' :
  ":"%char ∉ chars h -> ":"%char ∉ chars h' -> ingestionKey l h s = ingestionKey l' h' s' -> l = l' /\ h = h' /\ s = s'.
Proof.
  intros Hh Hh' E. apply (f_equal chars) in E. unfold ingestionKey in E. rewrite !chars_app in E. cbn [chars app] in E.
  apply split_at_first in E as [El E]; [|by apply num_str_chars..].
  apply split_at_first in E as [Eh Es]; [|done..].
  apply (inj chars) in El, Eh, Es. by apply (inj num_str) in El.
Qed.
Lemma settlementId_inj c y m c' y' m' :
  settlementDeterministicId c y m = settlementDeterministicId c' y' m' ->
  map_chars sanitize c = map_chars sanitize c' /\ y = y' /\ m = m'.
Proof.
  intros E. apply (f_equal chars) in E. unfold settlementDeterministicId in E. rewrite !chars_app in E. cbn [chars] in E.
  injection E as E.
  assert (forall a b d : list ascii, a ++ "_"%char :: b ++ d = (a ++ "_"%char :: b) ++ d) as Hassoc.
  { intros. by rewrite <-app_assoc. }
  rewrite !Hassoc in E. apply split_at_last in E as [E Em]; [|by apply num_str_chars..].
  apply split_at_last in E as [Ec Ey]; [|by apply num_str_chars..].
  apply (inj chars) in Ec, Ey, Em. apply (inj num_str) in Ey, Em. done.
Qed.

(** * A table and the map it stands for *)

Section table.
Context {R V : Type} (key : R -> string) (rowTo : R -> V) (good : R -> Prop).
Implicit Types (rows : list R) (m : JsMap V).

(** The entries of the map are the rows, read back; keys are unique, and every
    row is as the service writes them. *)
Record table rows m : Prop := mkTable {
  t_rows : m ≡ₚ (fun r => (key r, rowTo r)) <$> rows;
  t_keys : NoDup (key <$> rows);
  t_good : Forall good rows }.

Lemma table_wf rows m : table rows m -> jm_wf m.
Proof.
  intros [Hr Hk _]. unfold jm_wf, jm_keys. rewrite Hr, <-list_fmap_compose. exact Hk.
Qed.
Lemma table_values rows m : table rows m -> jm_values m ≡ₚ rowTo <$> rows.
Proof. intros [Hr _ _]. unfold jm_values. by rewrite Hr, <-list_fmap_compose. Qed.
Lemma table_good rows m r : table rows m -> r ∈ rows -> good r.
Proof. intros [_ _ Hg]. by apply (proj1 (Forall_forall _ _) Hg). Qed.
Lemma table_get rows m r : table rows m -> r ∈ rows -> jm_get (key r) m = Some (rowTo r).
Proof.
  intros Ht Hr. apply jm_in_get; [by eapply table_wf|]. rewrite (t_rows _ _ Ht). apply list_elem_of_fmap. by exists r.
Qed.
Lemma table_row rows m id v : table rows m -> jm_get id m = Some v -> exists r, r ∈ rows /\ key r = id /\ rowTo r = v.
Proof.
  intros Ht Hv%jm_get_in. rewrite (t_rows _ _ Ht) in Hv. apply list_elem_of_fmap in Hv as (r & [= -> ->] & Hr). by exists r.
Qed.
Lemma table_none rows m id : table rows m -> jm_get id m = None <-> id ∉ key <$> rows.
Proof.
  intros Ht. split.
  - intros Hn (r & -> & Hr)%list_elem_of_fmap. by rewrite (table_get rows m r) in Hn.
  - intros Hn. destruct (jm_get id m) as [v|] eqn:E; [|done]. destruct (table_row _ _ _ _ Ht E) as (r & Hr & <- & _).
    destruct Hn. apply list_elem_of_fmap. by exists r.
Qed.
Lemma table_key_inj rows m r r' : table rows m -> r ∈ rows -> r' ∈ rows -> key r = key r' -> r = r'.
Proof.
  intros [_ Hk _] [i Hi]%list_elem_of_lookup [j Hj]%list_elem_of_lookup E.
  assert (i = j) as ->; [|congruence]. eapply (NoDup_lookup _ i j (key r) Hk); rewrite list_lookup_fmap.
  - by rewrite Hi.
  - by rewrite Hj, E.
Qed.

(** A map with the rows as its entries. *)
Lemma table_intro rows m :
  jm_wf m -> NoDup (key <$> rows) -> Forall good rows -> (forall r, r ∈ rows -> jm_get (key r) m = Some (rowTo r)) ->
  (forall id, id ∉ key <$> rows -> jm_get id m = None) -> table rows m.
Proof.
  intros Hwf Hk Hg Hget Hnone. split; [|done..].
  apply NoDup_Permutation.
  - by apply (NoDup_fmap_1 fst).
  - apply (NoDup_fmap_1 fst). by rewrite <-list_fmap_compose.
  - intros [id v]. rewrite list_elem_of_fmap. split.
    + intros Hin. apply jm_in_get in Hin; [|done].
      destruct (decide (id ∈ key <$> rows)) as [(r & -> & Hr)%list_elem_of_fmap|Hn].
      * exists r. by rewrite (Hget r Hr) in Hin; simplify_eq.
      * by rewrite (Hnone id Hn) in Hin.
    + intros (r & [= -> ->] & Hr). by apply jm_get_in, Hget.
Qed.
Lemma table_perm rows rows' m : rows ≡ₚ rows' -> table rows m -> table rows' m.
Proof. intros Hp [Hr Hk Hg]. split; by rewrite <-Hp. Qed.

(** The primary key of a row. *)
Definition keyed (id : string) (r : R) : bool := bool_decide (key r = id).
Lemma table_present rows m id : table rows m -> existsb (keyed id) rows = jm_has id m.
Proof.
  intros Ht. unfold jm_has. destruct (jm_get id m) as [v|] eqn:E.
  - destruct (table_row _ _ _ _ Ht E) as (r & Hr & <- & _). apply existsb_exists. exists r.
    split; [by apply list_elem_of_In|by apply bool_decide_eq_true].
  - apply not_true_is_false. intros (r & Hr & Hk)%existsb_exists. apply bool_decide_eq_true in Hk.
    apply (table_none _ _ _ Ht) in E. apply E, list_elem_of_fmap. exists r. by rewrite list_elem_of_In.
Qed.
(** [SELECT .. WHERE key = $1] *)
Lemma table_head rows m id : table rows m -> rowTo <$> head (filter (fun r => keyed id r) rows) = jm_get id m.
Proof.
  intros Ht. destruct (head _) as [r|] eqn:E; cbn.
  - assert (r ∈ filter (fun r => keyed id r) rows) as [Hk Hr]%list_elem_of_filter.
    { destruct (filter _ rows); [done|]. simplify_eq/=. by left. }
    unfold keyed in Hk. apply bool_decide_unpack in Hk as <-. symmetry. by apply (table_get rows).
  - symmetry. apply (table_none rows m id Ht). intros (r & -> & Hr)%list_elem_of_fmap.
    assert (r ∈ filter (fun r' => keyed (key r) r') rows) as Hin.
    { apply list_elem_of_filter. split; [|done]. unfold keyed. by apply bool_decide_pack. }
    destruct (filter _ rows); [by apply not_elem_of_nil in Hin|done].
Qed.
(** Rows chosen by a condition on what they hold. *)
Lemma table_filter rows m (p : R -> bool) (q : V -> bool) :
  table rows m -> (forall r, r ∈ rows -> good r -> p r = q (rowTo r)) ->
  filter (fun v => q v) (jm_values m) ≡ₚ rowTo <$> filter (fun r => p r) rows.
Proof.
  intros Ht H. rewrite (table_values rows m Ht). rewrite (filter_map_bool rowTo p q); [done|].
  intros r Hr. apply H; [done|]. by eapply table_good.
Qed.

(** The statements. *)
Lemma table_insert rows m r :
  table rows m -> good r -> jm_get (key r) m = None -> table (rows ++ [r]) (jm_set (key r) (rowTo r) m).
Proof.
  intros Ht Hg Hn. pose proof (proj1 (table_none _ _ _ Ht) Hn) as Hk. destruct Ht as [Hr Hnd Hgs]. split.
  - rewrite jm_set_absent, Hr by done. by rewrite fmap_app.
  - rewrite fmap_app. apply NoDup_app. split_and!; [done| |apply NoDup_singleton].
    intros x Hx ->%list_elem_of_singleton. done.
  - apply Forall_app. by split; [|constructor].
Qed.
Lemma table_update rows m m' (g : R -> R) :
  table rows m -> jm_wf m' -> (forall r, r ∈ rows -> good r -> key (g r) = key r /\ good (g r)) ->
  (forall r, r ∈ rows -> jm_get (key r) m' = Some (rowTo (g r))) ->
  (forall id, jm_get id m = None -> jm_get id m' = None) -> table (g <$> rows) m'.
Proof.
  intros Ht Hwf Hg Hget Hnone. pose proof (t_good _ _ Ht) as Hgs. rewrite Forall_forall in Hgs.
  assert (key <$> (g <$> rows) = key <$> rows) as Hkeys.
  { rewrite <-list_fmap_compose. apply list_fmap_ext. intros i r Hr%list_elem_of_lookup_2. by apply Hg; auto. }
  apply table_intro; [done| | | |].
  - rewrite Hkeys. apply Ht.
  - apply Forall_fmap, Forall_forall. intros r Hr. apply Hg; auto.
  - intros ? (r & -> & Hr)%list_elem_of_fmap. rewrite (proj1 (Hg r Hr (Hgs r Hr))). auto.
  - intros id. rewrite Hkeys. intros Hn. apply Hnone. by apply (table_none rows).
Qed.
Lemma table_set rows m id v (g : R -> R) :
  table rows m -> is_Some (jm_get id m) ->
  (forall r, r ∈ rows -> good r -> key r = id -> key (g r) = id /\ good (g r) /\ rowTo (g r) = v) ->
  table ((fun r => if keyed id r then g r else r) <$> rows) (jm_set id v m).
Proof.
  intros Ht Hid Hg. pose proof (t_good _ _ Ht) as Hgs. rewrite Forall_forall in Hgs.
  apply (table_update rows m).
  - done.
  - apply jm_set_wf. by eapply table_wf.
  - intros r Hr Hgr. unfold keyed. case_bool_decide as E; [|done]. destruct (Hg r Hr Hgr E) as (? & ? & _). by subst.
  - intros r Hr. unfold keyed. rewrite jm_get_set. case_bool_decide as E; case_decide as E'; try congruence.
    + destruct (Hg r Hr (Hgs r Hr) E) as (_ & _ & ->). done.
    + by apply (table_get rows).
  - intros k Hk. rewrite jm_get_set. case_decide; [|done]. subst. rewrite Hk in Hid. by destruct Hid.
Qed.
Lemma table_delete rows m id :
  table rows m -> table (filter (fun r => negb (keyed id r)) rows) (jm_delete id m).
Proof.
  intros Ht. pose proof (t_good _ _ Ht) as Hgs. rewrite Forall_forall in Hgs. apply table_intro.
  - apply jm_delete_wf. by eapply table_wf.
  - eapply sublist_NoDup; [apply Ht|]. apply fmap_sublist, sublist_filter.
  - apply Forall_forall. intros r [_ Hr]%list_elem_of_filter. auto.
  - intros r [Hk Hr]%list_elem_of_filter. rewrite jm_delete_get. unfold keyed in Hk.
    destruct (decide (id = key r)); [by rewrite bool_decide_eq_true_2 in Hk|by apply (table_get rows)].
  - intros k Hk. rewrite jm_delete_get. case_decide as E; [done|]. apply (table_none rows m k Ht).
    intros (r & -> & Hr)%list_elem_of_fmap. apply Hk, list_elem_of_fmap. exists r. split; [done|].
    apply list_elem_of_filter. split; [|done]. unfold keyed. by rewrite bool_decide_eq_false_2.
Qed.
(** The rows that are hit take their new values. *)
Lemma table_hit rows m (k : V -> string) (f : V -> V) (g : R -> R) (hit : R -> bool) l :
  table rows m -> (forall r, k (rowTo r) = key r) -> (forall r, r ∈ rows -> good r -> key (g r) = key r /\ good (g r)) ->
  (forall r, r ∈ rows -> good r -> rowTo (g r) = f (rowTo r)) ->
  l ≡ₚ rowTo <$> filter (fun r => hit r) rows ->
  table ((fun r => if hit r then g r else r) <$> rows) (foldl (fun m v => jm_set (k v) (f v) m) m l).
Proof.
  intros Ht Hk Hg Hf Hl. pose proof (t_good _ _ Ht) as Hgs. rewrite Forall_forall in Hgs.
  assert (NoDup (k <$> l)) as Hnd.
  { rewrite Hl, <-list_fmap_compose.
    replace ((k ∘ rowTo) <$> filter (fun r => hit r) rows) with (key <$> filter (fun r => hit r) rows).
    - eapply sublist_NoDup; [apply Ht|]. apply fmap_sublist, sublist_filter.
    - apply list_fmap_ext. intros i r _. symmetry. apply Hk. }
  pose proof (jm_get_foldl k f l m) as Hfold.
  assert (forall r, r ∈ rows -> hit r = false -> key r ∉ k <$> l) as Hmiss.
  { intros r Hr Hh. rewrite Hl, <-list_fmap_compose. intros (r' & E & [Hh' Hr']%list_elem_of_filter)%list_elem_of_fmap.
    cbn in E. rewrite Hk in E. rewrite (table_key_inj rows m r r') in Hh by done. by rewrite Hh in Hh'. }
  apply (table_update rows m).
  - done.
  - apply foldl_jm_set_wf. by eapply table_wf.
  - intros r Hr Hgr. destruct (hit r); auto.
  - intros r Hr. destruct (hit r) eqn:Hh.
    + rewrite Hf by auto. apply (Hfold (key r) Hnd); [|apply Hk]. rewrite Hl. apply list_elem_of_fmap.
      exists r. split; [done|]. apply list_elem_of_filter. by rewrite Hh.
    + rewrite (proj2 (Hfold (key r) Hnd)) by auto. by apply (table_get rows).
  - intros id Hn. rewrite (proj2 (Hfold id Hnd)); [done|]. rewrite Hl, <-list_fmap_compose.
    intros (r & -> & [_ Hr]%list_elem_of_filter)%list_elem_of_fmap. cbn in Hn. rewrite Hk, (table_get rows) in Hn; done.
Qed.
End table.
Arguments keyed {R} key id r /.

(** Rules for the queries of the PostgreSQL repository: what a method gives and
    leaves behind, whether its statements are answered or not. *)

Section outcome.
Context (env : PgEnv).
Notation PgW := (PgWorld PgDb).

(** A statement of the run was not answered. *)
Definition disturbed (w w' : PgW) : Prop :=
  exists n, w.(pw_n) <= n < w'.(pw_n) /\ env.(pe_delivery) n <> Answered.
(** Of the answer [P] holds with the database after the run; without an answer
    some statement was not answered, and the database is as before, or as after
    a run that was. *)
Definition outcome {A} (P : A -> PgW -> Prop) (w : PgW) (r : (string + A) * PgW) : Prop :=
  w.(pw_n) <= r.2.(pw_n) /\
  match r.1 with
  | inr a => P a r.2
  | inl _ => disturbed w r.2 /\ (r.2.(pw_db) = w.(pw_db) \/ exists a, P a r.2)
  end.

Lemma outcome_impl {A} (P Q : A -> PgW -> Prop) w r :
  outcome P w r -> (forall a w', w.(pw_n) <= w'.(pw_n) -> P a w' -> Q a w') -> outcome Q w r.
Proof.
  intros [Hn H] HPQ. split; [done|]. destruct r as [[e|a] w']; cbn in *; [|by auto].
  destruct H as [Hd [Hdb|[a Ha]]]; split; [done|by left|done|right; eauto].
Qed.
(** The world behind [n] statements, with the database [db]. *)
Lemma outcome_query {A} (body : Pg.Body A) (P : A -> PgW -> Prop) w a db :
  body env w.(pw_n) w.(pw_db) = inr (a, db) -> P a (mkPgWorld db (S w.(pw_n))) -> outcome P w (query body env w).
Proof.
  intros Hb HP. unfold query. rewrite Hb.
  assert (forall db', pe_delivery env w.(pw_n) <> Answered -> disturbed w (mkPgWorld db' (S w.(pw_n)))) as Hd.
  { intros db' Hd. exists w.(pw_n). cbn. split; [lia|done]. }
  destruct (pe_delivery env (pw_n w)); split; cbn; try lia; [done| |]; (split; [by apply Hd|]); [by left|right; eauto].
Qed.
Lemma outcome_map {A B} (f : A -> B) (m : Pg.Pg A) (P : B -> PgW -> Prop) w :
  outcome (fun a => P (f a)) w (m env w) -> outcome P w ((m ≫= fun a => mret (f a)) env w).
Proof.
  unfold mbind, Pg_bind. destruct (m env w) as [[e|a] w']; intros [Hn H]; split; cbn in *; try done.
  destruct H as [Hd [Hdb|[a Ha]]]; split; [done|by left|done|right; eauto].
Qed.
(** A query that changes nothing, and what follows. *)
Lemma outcome_bind {A B} (m : Pg.Pg A) (k : A -> Pg.Pg B) (S : A -> Prop) (P : B -> PgW -> Prop) w :
  outcome (fun a w' => S a /\ w'.(pw_db) = w.(pw_db)) w (m env w) ->
  (forall a w', S a -> w'.(pw_db) = w.(pw_db) -> w.(pw_n) <= w'.(pw_n) -> outcome P w' (k a env w')) ->
  outcome P w ((m ≫= k) env w).
Proof.
  unfold mbind, Pg_bind. destruct (m env w) as [[e|a] w1]; intros [Hn H] Hk; cbn in *.
  - split; [done|]. cbn. destruct H as [Hd H]. split; [done|]. left.
    destruct H as [->|(? & _ & ->)]; done.
  - destruct H as [HS Hdb]. destruct (Hk a w1 HS Hdb Hn) as [Hn' H']. split; [lia|].
    destruct (k a env w1) as [[e|b] w2]; cbn in *; [|done].
    destruct H' as [(n & Hlt & Hd) H']. split; [exists n; split; [lia|done]|]. by rewrite Hdb in H'.
Qed.
Lemma outcome_ask {A B} (f : PgEnv -> nat -> A) (k : A -> Pg.Pg B) (P : B -> PgW -> Prop) w :
  outcome P w (k (f env w.(pw_n)) env w) -> outcome P w ((pg_ask f ≫= k) env w).
Proof. done. Qed.
Lemma outcome_ret {A} (a : A) (P : A -> PgW -> Prop) w : P a w -> outcome P w ((mret a : Pg.Pg A) env w).
Proof. intros H. split; cbn; [lia|done]. Qed.

(** A method without an answer. *)
Lemma outcome_execute (f : PgEnv -> PgDb -> string + PgDb) (P : unit -> PgW -> Prop) w db :
  f env w.(pw_db) = inr db -> P tt (mkPgWorld db (S w.(pw_n))) -> outcome P w (Pg.execute f env w).
Proof. intros Hf HP. eapply outcome_query; [by rewrite Hf|done]. Qed.

Context (Hsound : pg_sound env).

(** ** Queries *)

Section reading.
Context {R V : Type} (tbl : PgDb -> list R) (rowTo : R -> V).
Context (w : PgW) (f : R -> bool) (p : PgEnv -> string + (R -> bool)).
Context (Hp : p env = inr f).
Let rows := tbl w.(pw_db).

Lemma outcome_select (P : list R -> PgW -> Prop) :
  (forall l, l ≡ₚ filter (fun r => f r) rows -> P l (mkPgWorld w.(pw_db) (S w.(pw_n)))) ->
  outcome P w (query (select tbl p) env w).
Proof using Hp Hsound.
  intros H. eapply outcome_query; [unfold select; rewrite Hp; done|]. apply H. by rewrite (ps_scan env Hsound).
Qed.
Lemma outcome_select_by (cmp : PgEnv -> R -> R -> comparison) (P : list R -> PgW -> Prop) `{!TotalCmp (cmp env)} :
  (forall l, arranged (cmp env) (filter (fun r => f r) rows) l -> P l (mkPgWorld w.(pw_db) (S w.(pw_n)))) ->
  outcome P w (query (select_by tbl cmp p) env w).
Proof using Hp Hsound.
  intros H. eapply outcome_query; [unfold select_by, select; rewrite Hp; done|]. apply H. split.
  - by rewrite js_sort_perm; cbn; rewrite (ps_scan env Hsound).
  - apply (js_sort_total (cmp env)).
Qed.
Lemma outcome_count (P : nat -> PgW -> Prop) :
  P (length (filter (fun r => f r) rows)) (mkPgWorld w.(pw_db) (S w.(pw_n))) ->
  outcome P w (query (count tbl p) env w).
Proof using Hp Hsound.
  intros H. eapply outcome_query; [unfold count, select; rewrite Hp; done|]. cbn.
  by rewrite (ps_scan env Hsound).
Qed.
Lemma outcome_group_count (key : R -> string) (P : JsMap Z -> PgW -> Prop) :
  (forall c, same_counts c (countBy key (filter (fun r => f r) rows)) -> P c (mkPgWorld w.(pw_db) (S w.(pw_n)))) ->
  outcome P w (Pg.group_count tbl key p env w).
Proof using Hp Hsound.
  intros H. eapply outcome_query; [unfold select; rewrite Hp; done|]. apply H, countBy_perm. cbn.
  by rewrite (ps_scan env Hsound).
Qed.

(** Arranged rows, read back. *)
Lemma arranged_map (cmp : R -> R -> comparison) (cmpV : V -> V -> comparison) rs l vs :
  (forall x y, x ∈ rs -> y ∈ rs -> cmp_le cmp x y -> cmp_le cmpV (rowTo x) (rowTo y)) ->
  arranged cmp rs l -> rowTo <$> rs ≡ₚ vs -> arranged cmpV vs (rowTo <$> l).
Proof.
  intros Hc [Hp' Hs] Hv. split; [by rewrite Hp'|]. eapply StronglySorted_map_rel; [|exact Hs].
  intros x y Hx Hy. rewrite Hp' in Hx, Hy. auto.
Qed.
Lemma slice_fmap (o n : nat) (l : list R) : rowTo <$> slice o n l = slice o n (rowTo <$> l).
Proof. unfold slice. by rewrite fmap_take, fmap_drop. Qed.

Lemma outcome_page (cmp : PgEnv -> R -> R -> comparison) (cmpV : V -> V -> comparison) vs params
    (P : Paginated V -> PgW -> Prop) `{!TotalCmp (cmp env)} :
  (forall x y, x ∈ filter (fun r => f r) rows -> y ∈ filter (fun r => f r) rows -> cmp_le (cmp env) x y ->
     cmp_le cmpV (rowTo x) (rowTo y)) ->
  rowTo <$> filter (fun r => f r) rows ≡ₚ vs ->
  (forall a w', paged cmpV vs params a -> w'.(pw_db) = w.(pw_db) -> w.(pw_n) <= w'.(pw_n) -> P a w') ->
  outcome P w (Pg.page tbl rowTo p cmp params env w).
Proof using Hp Hsound.
  intros Hc Hv H. unfold Pg.page.
  apply (outcome_bind _ _ (fun n => n = length (filter (fun r => f r) rows))); [by apply outcome_count|].
  intros total w1 -> Hdb Hn.
  apply (outcome_map (fun rs => mkPage (rowTo <$> rs) _ params.(lp_limit) params.(lp_offset))).
  eapply outcome_query; [unfold select_by, select; rewrite Hp; done|]. cbn. rewrite Hdb.
  apply H; cbn; [|done|lia].
  set (l := js_sort (cmp env) (filter (fun r => f r) (pe_scan env R (pw_n w1) (tbl (pw_db w))))).
  assert (arranged (cmp env) (filter (fun r => f r) rows) l) as Hl.
  { split; [unfold l; by rewrite js_sort_perm, (ps_scan env Hsound)|apply (js_sort_total (cmp env))]. }
  exists (rowTo <$> l). split; [by eapply arranged_map|]. unfold paginate.
  rewrite slice_fmap, length_fmap, <-(Permutation_length (proj1 Hl)). done.
Qed.
End reading.
End outcome.
