(* ===== verification/PgStore.v ===== *)
(** The methods of [PostgresRepository] as operations of the interface: the
    arguments as the columns keep them, the operations the constraints accept,
    and the stores that a database stands for. *)
From S2P Require Import Prelude JsString JsMap JsDate Json Types World Utils MemoryRepo RepoFacts Export Sql PgTables.
From S2P Require Import PgRepo RepoSpec PgSim.
From Stdlib Require Import Ascii.

(** [legacy] is [Date.parse] on formats that are not ISO. *)
Definition pg_exec (legacy : string -> option Z) {A} (op : Op A) : Pg.Pg A :=
  match op in Op A return Pg.Pg A with
  | PingStorage => Pg.pingStorage
  | GetContract id => Pg.getContract id
  | SaveContract c => Pg.saveContract c
  | HasContract id => Pg.hasContract id
  | GetEvidence id => Pg.getEvidence id
  | SaveEvidence e => Pg.saveEvidence e
  | FindEvidenceByCid cid => Pg.findEvidenceByCid cid
  | CountEvidenceVersions c d k => Pg.countEvidenceVersions c d k
  | HasEvidence id => Pg.hasEvidence id
  | ListEvidencesPastRetention now => Pg.listEvidencesPastRetention now
  | DeleteEvidence id => Pg.deleteEvidence id
  | GetDispute id => Pg.getDispute id
  | SaveDispute d => Pg.saveDispute d
  | AppendDisputeVerifierVote v => Pg.appendDisputeVerifierVote v
  | ListDisputeVerifierVotes id => Pg.listDisputeVerifierVotes id
  | ListDisputeVerifierRegistry => Pg.listDisputeVerifierRegistry
  | UpsertDisputeVerifierRegistryEntry e => Pg.upsertDisputeVerifierRegistryEntry e
  | SaveDecision d => Pg.saveDecision d
  | GetXrplTx h => Pg.getXrplTx h
  | SaveXrplTx t => Pg.saveXrplTx t
  | ListXrplTxs => Pg.listXrplTxs
  | ListXrplSubscribeAccounts max => Pg.listXrplSubscribeAccounts max
  | TryRecordXrplIngestionEvent l h s => Pg.tryRecordXrplIngestionEvent l h s
  | SaveNotification n => Pg.saveNotification n
  | GetNotification id => Pg.getNotification id
  | ListDueNotifications now limit => Pg.listDueNotifications now limit
  | AppendNotificationOutbox row => Pg.appendNotificationOutbox row
  | ClaimNotificationOutboxPending limit now => Pg.claimNotificationOutboxPending limit now
  | UpdateNotificationOutbox row => Pg.updateNotificationOutbox row
  | GetNotificationOutbox id => Pg.getNotificationOutbox id
  | ListNotificationOutboxPage f params => Pg.listNotificationOutboxPage f params
  | RecoverStaleNotificationOutboxProcessing before now => Pg.recoverStaleNotificationOutboxProcessing before now
  | AppendAudit log => Pg.appendAudit log
  | AppendEvent ev => Pg.appendEvent ev
  | ListAudits f => Pg.listAudits f
  | ListAuditsPage f params => Pg.listAuditsPage f params
  | ListAuditsAfterCursor f limit cursor => Pg.listAuditsAfterCursor f limit cursor
  | ListEvents f => Pg.listEvents f
  | CreateDelayedJobIfAbsent job => Pg.createDelayedJobIfAbsent job
  | ClaimDueDelayedJobs kind now limit ttl => Pg.claimDueDelayedJobs legacy kind now limit ttl
  | DeleteDelayedJob id => Pg.deleteDelayedJob id
  | BumpDelayedJob id after n e u => Pg.bumpDelayedJob id after n e u
  | ListContractsPage f params => Pg.listContractsPage f params
  | ListDisputesPage f params => Pg.listDisputesPage f params
  | ListXrplTxsPage f params => Pg.listXrplTxsPage f params
  | GetOperatorStatsSummary => Pg.getOperatorStatsSummary
  | GetReportsSummary p => Pg.getReportsSummary p
  | GetSettlement id => Pg.getSettlement id
  | SaveSettlement s => Pg.saveSettlement s
  | ListSettlementsPage f params => Pg.listSettlementsPage f params
  | TouchSettlementsOnLedgerClose p => Pg.touchSettlementsOnLedgerClose p
  | CreateExportJob job => Pg.createExportJob job
  | GetExportJob id => Pg.getExportJob id
  | ClaimExportJobsPending limit now => Pg.claimExportJobsPending limit now
  | UpdateExportJob job => Pg.updateExportJob job
  end.

(** * The arguments as the columns keep them *)

Section arguments.
Context (legacy : string -> option Z) (env : PgEnv).

(** A stamp is kept as its instant. *)
Definition iso_arg (s : string) : string + string := t <~ timestamptz env s; inr (toIso t).
Definition iso_bound (o : option string) : string + option string :=
  if truthy o then (t <~ timestamptz_opt env o; inr (toIso <$> t)) else inr None.
Definition kept_auditFilter (f : AuditFilter) : string + AuditFilter :=
  from <~ iso_bound f.(af_from); to <~ iso_bound f.(af_to);
  inr (mkAuditFilter f.(af_entityType) f.(af_entityId) from to).
(** What is stored, read back; [inl] is an argument that some column cannot
    take. *)
Definition kept_outbox (o : NotificationOutboxRecord) : string + NotificationOutboxRecord :=
  payload <~ jsonb env (JObj o.(o_payload)); attempts <~ int4 o.(o_attempts);
  updated <~ timestamptz env o.(o_updatedAt); started <~ timestamptz_opt env o.(o_processingStartedAt);
  inr ((rowToNotificationOutbox (mkOutboxRow o.(o_id) o.(o_idempotencyKey) o.(o_eventType) o.(o_recipientId) o.(o_channel)
         payload o.(o_status) attempts o.(o_lastError) 0 updated started o.(o_dispatchedNotificationId)))
       <| o_createdAt := o.(o_createdAt) |>).
Definition kept_settlement (s : SettlementRecord) : string + SettlementRecord :=
  ledger <~ null_or int8 s.(s_lastLedgerIndex); closes <~ null_or int4 s.(s_ledgerCloseCount);
  updated <~ timestamptz env s.(s_updatedAt); amount <~ null_or int8 s.(s_amountMinor);
  confirmed <~ timestamptz_opt env s.(s_confirmedAt);
  inr ((rowToSettlement (mkSettlementRow s.(s_id) s.(s_contractId) s.(s_periodYear) s.(s_periodMonth) s.(s_status) ledger
         (default 0 closes)%Z 0 updated amount (default "" s.(s_currencyCode)) s.(s_batchId)
         (default PM_calendar_utc s.(s_periodMode)) confirmed)) <| s_createdAt := s.(s_createdAt) |>).
Definition kept_export (j : ExportJobRecord) : string + ExportJobRecord :=
  filter <~ jsonb env (auditFilter_json j.(x_filter)); updated <~ timestamptz env j.(x_updatedAt);
  inr (j <| x_filter := filterOf filter |> <| x_updatedAt := toIso updated |>).
(** The decision a row stands for.  The repository only inserts decisions and
    has no reader of them: this is part of the abstraction from the tables to
    the store, not code. *)
Definition decisionOf (r : DecisionRow) : CaseDecision :=
  mkDecision r.(kn_id) r.(kn_dispute_id) r.(kn_decision) r.(kn_memo) (toIso r.(kn_created_at)).
Definition iso_then {B} (s : string) (k : string -> B) : string + B := s' <~ iso_arg s; inr (k s').
Definition kept {A} (op : Op A) : string + Op A :=
  match op in Op A return string + Op A with
  | SaveContract c => r <~ contractValues env c; inr (SaveContract (rowToContract r))
  | SaveEvidence e => r <~ evidenceValues env e; inr (SaveEvidence (rowToEvidence r))
  | ListEvidencesPastRetention now => iso_then now ListEvidencesPastRetention
  | SaveDispute d => r <~ disputeValues env d; inr (SaveDispute (rowToDispute r))
  | AppendDisputeVerifierVote v => r <~ voteValues env v; inr (AppendDisputeVerifierVote (rowToVote r))
  | UpsertDisputeVerifierRegistryEntry e =>
      r <~ registryValues env e; inr (UpsertDisputeVerifierRegistryEntry (rowToRegistryEntry r))
  | SaveDecision d => r <~ decisionValues env d; inr (SaveDecision (decisionOf r))
  | SaveXrplTx t => r <~ xrplTxValues env t; inr (SaveXrplTx (rowToXrpl r))
  | ListXrplSubscribeAccounts max =>
      _ <~ check (0 <=? max)%Z "LIMIT must not be negative"; inr (ListXrplSubscribeAccounts max)
  | TryRecordXrplIngestionEvent l h s => l' <~ int8 l; inr (TryRecordXrplIngestionEvent l' h s)
  | SaveNotification n => r <~ notificationValues env n; inr (SaveNotification (rowToNotification r))
  | ListDueNotifications now limit => iso_then now (fun now => ListDueNotifications now limit)
  | AppendNotificationOutbox row => r <~ outboxValues env row; inr (AppendNotificationOutbox (rowToNotificationOutbox r))
  | ClaimNotificationOutboxPending limit now => iso_then now (ClaimNotificationOutboxPending limit)
  | UpdateNotificationOutbox row => row' <~ kept_outbox row; inr (UpdateNotificationOutbox row')
  | RecoverStaleNotificationOutboxProcessing before now =>
      before' <~ iso_arg before; iso_then now (RecoverStaleNotificationOutboxProcessing before')
  | AppendAudit log => r <~ auditValues env log; inr (AppendAudit (rowToAudit r))
  | AppendEvent ev => r <~ eventValues env ev; inr (AppendEvent (rowToEvent r))
  | ListAudits f => f' <~ kept_auditFilter f; inr (ListAudits f')
  | ListAuditsPage f params => f' <~ kept_auditFilter f; inr (ListAuditsPage f' params)
  | ListAuditsAfterCursor f limit cursor =>
      _ <~ match nonempty cursor with
           | Some c => match decodeAuditCursor c with
                       | Some dec => t <~ timestamptz env dec.(cur_createdAt); inr tt
                       | None => inl "INVALID_AUDIT_CURSOR"
                       end
           | None => inr tt
           end;
      f' <~ kept_auditFilter f; inr (ListAuditsAfterCursor f' limit cursor)
  | CreateDelayedJobIfAbsent job => r <~ jobValues env job; inr (CreateDelayedJobIfAbsent (rowToDelayedJob r))
  | ClaimDueDelayedJobs kind now limit ttl =>
      match date_parse legacy now with
      | Some ms => _ <~ iso_arg (toISOString (ms + ttl)); iso_then now (fun now => ClaimDueDelayedJobs kind now limit ttl)
      | None => inl "Invalid time value"
      end
  | BumpDelayedJob id after n e u =>
      after' <~ iso_arg after; n' <~ int4 n; iso_then u (BumpDelayedJob id after' n' e)
  | ListContractsPage f params =>
      from <~ iso_bound f.(cf_updatedFrom); to <~ iso_bound f.(cf_updatedTo);
      inr (ListContractsPage (mkContractFilter f.(cf_status) f.(cf_tenantId) f.(cf_landlordId) from to) params)
  | ListDisputesPage f params =>
      from <~ iso_bound f.(df_updatedFrom); to <~ iso_bound f.(df_updatedTo);
      inr (ListDisputesPage (mkDisputeFilter f.(df_contractId) f.(df_status) from to) params)
  | GetReportsSummary p =>
      _ <~ timestamptz_opt env p.(rp_from); _ <~ timestamptz_opt env p.(rp_to); inr (GetReportsSummary p)
  | SaveSettlement s => s' <~ kept_settlement s; inr (SaveSettlement s')
  | TouchSettlementsOnLedgerClose p =>
      y <~ int4 p.(tp_periodYear); m <~ int4 p.(tp_periodMonth); l <~ int8 p.(tp_ledgerIndex);
      iso_then p.(tp_nowIso) (fun now => TouchSettlementsOnLedgerClose (mkTouch y m l now))
  | CreateExportJob job => r <~ exportValues env job; inr (CreateExportJob (rowToExportJob r))
  | ClaimExportJobsPending limit now => iso_then now (ClaimExportJobsPending limit)
  | UpdateExportJob job => job' <~ kept_export job; inr (UpdateExportJob job')
  | op => inr op
  end.

(** ** Arguments on which the two repositories agree

    Stamps of the years 0 to 9999; in a report's window as [toISOString] writes
    them; no empty text where the methods ask whether there is one. *)
Definition in_years (o : option string) : Prop :=
  forall s t, o = Some s -> env.(pe_timestamptz) s = Some t -> iso_range t.
Definition written (s : string) : Prop := exists t, iso_range t /\ s = toISOString t.
Definition sendable {A} (op : Op A) : Prop :=
  match op with
  | SaveContract c => in_years (Some c.(c_updatedAt))
  | SaveEvidence e =>
      e.(e_disputeId) <> Some "" /\ in_years e.(e_retainUntil) /\ in_years e.(e_legalHoldUntil)
  | ListEvidencesPastRetention now => in_years (Some now)
  | SaveDispute d => d.(d_id) <> "" /\ in_years (Some d.(d_updatedAt))
  | UpsertDisputeVerifierRegistryEntry e => in_years (Some e.(r_createdAt))
  | SaveXrplTx t => in_years (Some t.(x_lastCheckedAt))
  | TryRecordXrplIngestionEvent _ h _ => ":"%char ∉ chars h
  | SaveNotification n => in_years (Some n.(n_createdAt)) /\ in_years n.(n_nextAttemptAt)
  | ListDueNotifications now _ => in_years (Some now)
  | AppendNotificationOutbox row => in_years (Some row.(o_createdAt)) /\ in_years row.(o_processingStartedAt)
  | UpdateNotificationOutbox row => in_years row.(o_processingStartedAt)
  | ClaimNotificationOutboxPending _ now => in_years (Some now)
  | RecoverStaleNotificationOutboxProcessing before now => in_years (Some before) /\ in_years (Some now)
  | AppendAudit log => in_years (Some log.(a_createdAt))
  | ListAudits f | ListAuditsPage f _ => in_years f.(af_from) /\ in_years f.(af_to)
  | ListAuditsAfterCursor f _ cursor =>
      in_years f.(af_from) /\ in_years f.(af_to) /\
      forall c dec, nonempty cursor = Some c -> decodeAuditCursor c = Some dec -> written dec.(cur_createdAt)
  | CreateDelayedJobIfAbsent job => in_years (Some job.(j_runAfter)) /\ in_years job.(j_lockedUntil)
  | ClaimDueDelayedJobs _ now _ ttl => exists ms, iso_range ms /\ iso_range (ms + ttl) /\ now = toISOString ms
  | BumpDelayedJob _ after _ _ _ => in_years (Some after)
  | ListContractsPage f _ => in_years f.(cf_updatedFrom) /\ in_years f.(cf_updatedTo)
  | ListDisputesPage f _ => in_years f.(df_updatedFrom) /\ in_years f.(df_updatedTo)
  | GetReportsSummary p =>
      p.(rp_tenantId) <> Some "" /\ p.(rp_landlordId) <> Some "" /\
      (forall s, p.(rp_from) = Some s -> written s) /\ (forall s, p.(rp_to) = Some s -> written s)
  | SaveSettlement s => Pg.settlementNotNull s = true /\ in_years (Some s.(s_updatedAt))
  | TouchSettlementsOnLedgerClose p =>
      (1 <= p.(tp_periodMonth) <= 12)%Z /\ in_years (Some p.(tp_nowIso))
  | CreateExportJob job => in_years (Some job.(x_createdAt))
  | UpdateExportJob job => 1 <= job.(x_maxExport) <= Z.to_nat 100000
  | _ => True
  end.
End arguments.

(** * What the constraints accept *)

(** A stored entity keeps its [created_at]. *)
Definition keeps_created {V} (created : V -> string) (m : JsMap V) (id : string) (v : V) : Prop :=
  forall old, jm_get id m = Some old -> created old = created v.
Definition fresh {V} (m : JsMap V) (id : string) : Prop := jm_get id m = None.
(** The references of the new row resolve, its key is new where the statement
    only inserts, the columns that the statement leaves out are unchanged, and
    identifiers have the shapes the services give them. *)
Definition accepted (db : Db) {A} (op : Op A) : Prop :=
  match op with
  | SaveContract c => keeps_created c_createdAt db.(contracts) c.(c_id) c
  | SaveEvidence e =>
      is_Some (jm_get e.(e_contractId) db.(contracts)) /\ keeps_created e_createdAt db.(evidences) e.(e_id) e
  | SaveDispute d =>
      is_Some (jm_get d.(d_contractId) db.(contracts)) /\ keeps_created d_createdAt db.(disputes) d.(d_id) d
  | AppendDisputeVerifierVote v =>
      is_Some (jm_get v.(v_disputeId) db.(disputes)) /\
      forall id old, old ∈ default [] (jm_get id db.(disputeVerifierVotes)) -> old.(v_id) <> v.(v_id)
  | UpsertDisputeVerifierRegistryEntry e =>
      match jm_get e.(r_verifierId) db.(disputeVerifierRegistry) with
      | Some old => old.(r_id) = e.(r_id) /\ old.(r_createdAt) = e.(r_createdAt)
      | None => forall id old, jm_get id db.(disputeVerifierRegistry) = Some old -> old.(r_id) <> e.(r_id)
      end
  | SaveDecision d =>
      is_Some (jm_get d.(cd_disputeId) db.(disputes)) /\ keeps_created cd_createdAt db.(decisions) d.(cd_id) d
  | SaveXrplTx t => forall a, t.(x_account) = Some a -> Pg.not_blank a = true
  | SaveNotification n => keeps_created n_createdAt db.(notifications) n.(n_id) n
  | AppendNotificationOutbox row =>
      fresh db.(notificationOutboxIdempotency) row.(o_idempotencyKey) -> fresh db.(notificationOutboxById) row.(o_id)
  | UpdateNotificationOutbox row => exists old, jm_get row.(o_id) db.(notificationOutboxById) = Some old /\
      old.(o_idempotencyKey) = row.(o_idempotencyKey) /\ old.(o_createdAt) = row.(o_createdAt)
  | AppendAudit log => forall old, old ∈ db.(audits) -> old.(a_id) <> log.(a_id) /\ same_layout old.(a_id) log.(a_id)
  | ListAuditsAfterCursor _ _ cursor => forall c dec old, nonempty cursor = Some c -> decodeAuditCursor c = Some dec ->
      old ∈ db.(audits) -> same_layout dec.(cur_id) old.(a_id)
  | AppendEvent ev => forall old, old ∈ db.(events) -> old.(ev_eventId) <> ev.(ev_eventId)
  | SaveSettlement s => exists old, jm_get s.(s_id) db.(settlements) = Some old /\
      old.(s_contractId) = s.(s_contractId) /\ old.(s_periodYear) = s.(s_periodYear) /\
      old.(s_periodMonth) = s.(s_periodMonth) /\ old.(s_createdAt) = s.(s_createdAt)
  | TouchSettlementsOnLedgerClose p =>
      (forall id id', is_Some (jm_get id db.(contracts)) -> is_Some (jm_get id' db.(contracts)) ->
         map_chars sanitize id = map_chars sanitize id' -> id = id') /\
      forall id s, jm_get id db.(settlements) = Some s -> (default 0 s.(s_ledgerCloseCount) < 2147483647)%Z
  | CreateExportJob job => fresh db.(exportJobs) job.(x_jobId)
  | UpdateExportJob job => exists old, jm_get job.(x_jobId) db.(exportJobs) = Some old /\
      old.(x_kind) = job.(x_kind) /\ old.(x_createdAt) = job.(x_createdAt)
  | _ => True
  end.

(** * The store that a database stands for *)

Definition years_opt (o : option Z) : Prop := forall t, o = Some t -> iso_range t.
(** What the service keeps true of the rows of each table. *)
Definition good_evidence (r : EvidenceRow) : Prop :=
  r.(ke_dispute_id) <> Some "" /\ years_opt r.(ke_retain_until) /\ years_opt r.(ke_legal_hold_until).
Definition good_dispute (r : DisputeRow) : Prop := r.(kd_id) <> "" /\ iso_range r.(kd_updated_at).
Definition good_xrplTx (r : XrplTxRow) : Prop :=
  iso_range r.(kx_last_checked_at) /\ forall a, r.(kx_account) = Some a -> a = "" \/ Pg.not_blank a = true.
Definition good_notification (r : NotificationRow) : Prop :=
  iso_range r.(kt_created_at) /\ years_opt r.(kt_next_attempt_at).
Definition good_outbox (r : OutboxRow) : Prop :=
  iso_range r.(ko_created_at) /\ years_opt r.(ko_processing_started_at).
Definition good_job (r : JobRow) : Prop := iso_range r.(kj_run_after) /\ years_opt r.(kj_locked_until).
Definition good_settlement (r : SettlementRow) : Prop :=
  iso_range r.(ks_updated_at) /\ r.(ks_id) = settlementDeterministicId r.(ks_contract_id) r.(ks_period_year) r.(ks_period_month).
Definition ingested (r : IngestionRow) : string := ingestionKey r.(ki_ledger_index) r.(ki_tx_hash) r.(ki_event_source).

Record represents (env : PgEnv) (w : PgWorld PgDb) (db : Db) : Prop := mkRepresents {
  rep_contracts : table kc_id rowToContract (fun r => iso_range r.(kc_updated_at)) w.(pw_db).(pg_contracts) db.(contracts);
  rep_evidences : table ke_id rowToEvidence good_evidence w.(pw_db).(pg_evidences) db.(evidences);
  rep_disputes : table kd_id rowToDispute good_dispute w.(pw_db).(pg_disputes) db.(disputes);
  rep_votes id : default [] (jm_get id db.(disputeVerifierVotes)) ≡ₚ
    rowToVote <$> filter (fun r => r.(kv_dispute_id) = id) w.(pw_db).(pg_votes);
  rep_registry : table kg_verifier_id rowToRegistryEntry (fun r => iso_range r.(kg_created_at)) w.(pw_db).(pg_registry)
    db.(disputeVerifierRegistry);
  rep_decisions : table kn_id decisionOf (fun _ => True) w.(pw_db).(pg_decisions) db.(decisions);
  rep_xrplTxs : table kx_tx_hash rowToXrpl good_xrplTx w.(pw_db).(pg_xrplTxs) db.(xrplTxs);
  rep_ingestion : db.(xrplIngestionDedup) ≡ₚ ingested <$> w.(pw_db).(pg_ingestion);
  rep_hashes : Forall (fun r => ":"%char ∉ chars r.(ki_tx_hash)) w.(pw_db).(pg_ingestion);
  rep_ids : Forall (fun r => exists n, n < w.(pw_n) /\ r.(ki_id) = env.(pe_randomId) n) w.(pw_db).(pg_ingestion);
  rep_settlements : table ks_id rowToSettlement good_settlement w.(pw_db).(pg_settlements) db.(settlements);
  rep_months : Forall (fun r => r.(ks_contract_id) ∈ kc_id <$> w.(pw_db).(pg_contracts)) w.(pw_db).(pg_settlements);
  rep_notifications : table kt_id rowToNotification good_notification w.(pw_db).(pg_notifications) db.(notifications);
  rep_outbox : table ko_id rowToNotificationOutbox good_outbox w.(pw_db).(pg_outbox) db.(notificationOutboxById);
  rep_outboxKeys : table ko_idempotency_key ko_id (fun _ => True) w.(pw_db).(pg_outbox) db.(notificationOutboxIdempotency);
  rep_audits : db.(audits) ≡ₚ rowToAudit <$> w.(pw_db).(pg_audits);
  rep_auditIds : NoDup (ka_id <$> w.(pw_db).(pg_audits));
  rep_auditRows : Forall (fun r => iso_range r.(ka_created_at)) w.(pw_db).(pg_audits);
  rep_auditLayout r r' : r ∈ w.(pw_db).(pg_audits) -> r' ∈ w.(pw_db).(pg_audits) -> same_layout r.(ka_id) r'.(ka_id);
  rep_events : db.(events) ≡ₚ rowToEvent <$> w.(pw_db).(pg_events);
  rep_jobs : table kj_id rowToDelayedJob good_job w.(pw_db).(pg_jobs) db.(delayedJobs);
  rep_exports : table kp_id rowToExportJob (fun r => iso_range r.(kp_created_at)) w.(pw_db).(pg_exports) db.(exportJobs) }.

(** An empty database stands for an empty store. *)
Lemma represents_empty env n : represents env (mkPgWorld emptyPg n) emptyDb.
Proof.
  constructor; cbn; try (intros r r' Hr; by apply not_elem_of_nil in Hr); try done; by repeat constructor.
Qed.
