(* ===== verification/PgEntities.v ===== *)
(** The PostgreSQL repository implements the specification: contracts,
    evidence, disputes with their votes and decisions, and the transactions. *)
From S2P Require Import Prelude JsString JsMap JsDate Json Types Config World Utils MemoryRepo RepoFacts Sql PgTables.
From S2P Require Import PgRepo RepoSpec PgSim PgStore.
From Stdlib Require Import Ascii.

(** * Shared steps *)

Lemma sum_bind_inr {A B} (r : string + A) (k : A -> string + B) b :
  sum_bind r k = inr b -> exists a, r = inr a /\ k a = inr b.
Proof. destruct r as [e|a]; [done|eauto]. Qed.
(** Take apart the casts that succeeded. *)
Ltac inv_casts :=
  repeat match goal with
  | H : sum_bind _ _ = inr _ |- _ => apply sum_bind_inr in H as (? & ? & H)
  | H : inr _ = inr _ |- _ => injection H as H; subst
  end.

Lemma timestamptz_inr env s t : timestamptz env s = inr t <-> env.(pe_timestamptz) s = Some t.
Proof. unfold timestamptz. destruct (pe_timestamptz env s); naive_solver. Qed.
Lemma in_years_stamp env s t : in_years env (Some s) -> timestamptz env s = inr t -> iso_range t.
Proof. intros H ?%timestamptz_inr. by eapply H. Qed.
Lemma in_years_opt env o t : in_years env o -> timestamptz_opt env o = inr t -> years_opt t.
Proof.
  intros H Ht t' ->. destruct o as [s|]; cbn in Ht; [|done]. inv_casts. by eapply in_years_stamp.
Qed.

(** Stamps as strings are ordered as the instants. *)
Lemma by_asc_time {R V} (f : R -> Z) (g : V -> string) (rowTo : R -> V) x y :
  g (rowTo x) = toIso (f x) -> g (rowTo y) = toIso (f y) -> iso_range (f x) -> iso_range (f y) ->
  cmp_le (asc Z.compare f) x y -> cmp_le (by_asc g) (rowTo x) (rowTo y).
Proof.
  intros Hx Hy Rx Ry. unfold cmp_le, by_asc, asc. rewrite Hx, Hy. unfold toIso. by rewrite iso_localeCompare.
Qed.
Lemma by_desc_time {R V} (f : R -> Z) (g : V -> string) (rowTo : R -> V) x y :
  g (rowTo x) = toIso (f x) -> g (rowTo y) = toIso (f y) -> iso_range (f x) -> iso_range (f y) ->
  cmp_le (desc Z.compare f) x y -> cmp_le (by_desc g) (rowTo x) (rowTo y).
Proof.
  intros Hx Hy Rx Ry. unfold cmp_le, by_desc, desc. rewrite Hx, Hy. unfold toIso. by rewrite iso_localeCompare.
Qed.

(** ** Writing statements on a table *)

Section writing.
Context {R V : Type} (key : R -> string) (rowTo : R -> V) (good : R -> Prop).
Context (tbl : PgDb -> list R) (put : list R -> PgDb -> PgDb).

Lemma insert_table refs clash r pg m :
  table key rowTo good (tbl pg) m -> good r -> refs pg r = inr tt -> jm_get (key r) m = None ->
  existsb (clash r) (tbl pg) = false ->
  insert_into tbl put refs clash r pg = inr (put (tbl pg ++ [r]) pg) /\
  table key rowTo good (tbl pg ++ [r]) (jm_set (key r) (rowTo r) m).
Proof.
  intros Ht Hg Hr Hn Hc. unfold insert_into. rewrite Hr. cbn. rewrite Hc. split; [done|]. by apply table_insert.
Qed.
Lemma upsert_table refs clash merge r pg m :
  table key rowTo good (tbl pg) m -> good r -> refs pg r = inr tt ->
  (forall old, old ∈ tbl pg -> good old -> key old = key r -> jm_get (key r) m = Some (rowTo old) ->
     key (merge old r) = key r /\ good (merge old r) /\ rowTo (merge old r) = rowTo r) ->
  (jm_get (key r) m = None -> existsb (clash r) (tbl pg) = false) ->
  exists rows', upsert tbl put refs (Pg.same key) clash merge r pg = inr (put rows' pg) /\
    table key rowTo good rows' (jm_set (key r) (rowTo r) m).
Proof.
  intros Ht Hg Hr Hm Hc. unfold upsert.
  change (Pg.same key r) with (keyed key (key r)). rewrite (table_present key rowTo good _ m (key r) Ht).
  unfold jm_has. destruct (jm_get (key r) m) as [v|] eqn:E.
  - rewrite Hr. cbn. eexists. split; [done|]. apply (table_set key rowTo good _ _ _ _ (fun old => merge old r) Ht).
    + by rewrite E.
    + intros old Hold Hgo Hk. apply Hm; [done..|]. rewrite <-E, <-Hk. by apply (table_get key rowTo good (tbl pg)).
  - destruct (insert_table refs clash r pg m) as [-> Ht']; try done; [by apply Hc|]. by eexists.
Qed.
Lemma same_absent r pg m :
  table key rowTo good (tbl pg) m -> jm_get (key r) m = None -> existsb (Pg.same key r) (tbl pg) = false.
Proof.
  intros Ht Hn. change (Pg.same key r) with (keyed key (key r)).
  rewrite (table_present key rowTo good _ m (key r) Ht). unfold jm_has. by rewrite Hn.
Qed.
Lemma references_table pg m id :
  table key rowTo good (tbl pg) m -> is_Some (jm_get id m) -> Pg.references (tbl pg) key id = inr tt.
Proof.
  intros Ht [v Hv]. unfold Pg.references. change (fun r => bool_decide (key r = id)) with (keyed key id).
  rewrite (table_present key rowTo good _ m id Ht). unfold jm_has. by rewrite Hv.
Qed.
(** A table that has at least the keys of the other. *)
Lemma table_keys_mono rows rows' m m' :
  table key rowTo good rows m -> table key rowTo good rows' m' ->
  (forall id, is_Some (jm_get id m) -> is_Some (jm_get id m')) -> forall id, id ∈ key <$> rows -> id ∈ key <$> rows'.
Proof.
  intros Ht Ht' Hm id Hid. destruct (decide (id ∈ key <$> rows')) as [|Hn]; [done|]. exfalso.
  apply (table_none key rowTo good rows' m' id Ht') in Hn.
  destruct (Hm id) as [v Hv]; [|congruence]. destruct (jm_get id m) eqn:E; [by eexists|].
  by apply (table_none key rowTo good rows m id Ht) in E.
Qed.
End writing.
Lemma jm_set_mono {V} k (v : V) m id : is_Some (jm_get id m) -> is_Some (jm_get id (jm_set k v m)).
Proof. rewrite jm_get_set. by case_decide. Qed.

Lemma rep_ids_later env (l : list IngestionRow) n :
  Forall (fun r => exists k, k < n /\ r.(ki_id) = env.(pe_randomId) k) l ->
  Forall (fun r => exists k, k < S n /\ r.(ki_id) = env.(pe_randomId) k) l.
Proof. intros H. eapply Forall_impl; [exact H|]. intros r (k & ? & ?). exists k. split; [lia|done]. Qed.
(** The represented store after a write: the tables that were not written are
    as before. *)
Ltac rep_write Hrep := destruct Hrep; constructor; cbn in *; try done; try by apply rep_ids_later.

Section refinement.
Context (legacy : string -> option Z) (env : PgEnv) (Hsound : pg_sound env).
Notation PgW := (PgWorld PgDb).

(** The answer and the database meet the specification of [op] from [db]. *)
Definition implements {A} (op : Op A) (db : Db) (a : A) (w' : PgW) : Prop :=
  exists db', spec legacy op db a db' /\ represents env w' db'.

Lemma rep_later w w' db :
  represents env w db -> w'.(pw_db) = w.(pw_db) -> w.(pw_n) <= w'.(pw_n) -> represents env w' db.
Proof.
  intros [] Hdb Hn. constructor; rewrite ?Hdb; try done.
  eapply Forall_impl; [exact rep_ids|]. intros r (n & ? & ?). exists n. split; [lia|done].
Qed.
Lemma implements_read {A} (op : Op A) w db a w' :
  represents env w db -> w'.(pw_db) = w.(pw_db) -> w.(pw_n) <= w'.(pw_n) -> spec legacy op db a db ->
  implements op db a w'.
Proof. intros Hrep Hdb Hn Hs. exists db. split; [done|]. by eapply rep_later. Qed.

(** A single [SELECT]. *)
Lemma refines_select {A R} (op : Op A) (tbl : PgDb -> list R) (p : PgEnv -> string + (R -> bool)) f (k : list R -> A) w db :
  represents env w db -> p env = inr f ->
  (forall l, l ≡ₚ filter (fun r => f r) (tbl w.(pw_db)) -> spec legacy op db (k l) db) ->
  outcome env (implements op db) w ((query (select tbl p) ≫= fun l => mret (k l)) env w).
Proof using Hsound.
  intros Hrep Hp Hs. apply outcome_map. eapply outcome_select; [done|exact Hp|].
  intros l Hl. eapply implements_read; [exact Hrep|done|cbn; lia|auto].
Qed.
Lemma head_perm {R V} (key : R -> string) (rowTo : R -> V) good rows m id l :
  table key rowTo good rows m -> l ≡ₚ filter (fun r => keyed key id r) rows -> rowTo <$> head l = jm_get id m.
Proof.
  intros Ht Hl. rewrite <-(table_head key rowTo good rows m id Ht).
  assert (length l <= 1) as Hlen.
  { rewrite Hl. destruct (filter _ rows) as [|r [|r' k]] eqn:E; cbn; [lia..|]. exfalso.
    assert (forall x, x ∈ r :: r' :: k -> key x = id /\ x ∈ rows) as Hin.
    { intros x. rewrite <-E, list_elem_of_filter. unfold keyed. by rewrite bool_decide_spec. }
    assert (NoDup (r :: r' :: k)) as [Hnd _]%NoDup_cons.
    { rewrite <-E. eapply sublist_NoDup; [|apply sublist_filter]. by eapply NoDup_fmap_1, t_keys. }
    apply Hnd. rewrite (table_key_inj key rowTo good rows m r r'); [by left|done|apply Hin..|].
    - by left.
    - right; by left.
    - rewrite (proj1 (Hin r ltac:(by left))). symmetry. apply Hin. right; by left. }
  destruct l as [|r [|]]; cbn in Hlen; [..|lia].
  - by apply Permutation_nil_l in Hl as <-.
  - by apply Permutation_singleton_l in Hl as <-.
Qed.
Lemma refines_get {R V} (op : Op (option V)) (tbl : PgDb -> list R) (key : R -> string) (rowTo : R -> V) good m id w db :
  represents env w db -> table key rowTo good (tbl w.(pw_db)) m -> spec legacy op db (jm_get id m) db ->
  outcome env (implements op db) w
    ((query (select tbl (Pg.rows_where (keyed key id))) ≫= fun rows => mret (rowTo <$> head rows)) env w).
Proof using Hsound.
  intros Hrep Ht Hs. eapply refines_select; [done|done|]. intros l Hl. by rewrite (head_perm key rowTo good _ m id l Ht Hl).
Qed.
Lemma refines_has {R V} (op : Op bool) (tbl : PgDb -> list R) (key : R -> string) (rowTo : R -> V) good m id w db :
  represents env w db -> table key rowTo good (tbl w.(pw_db)) m -> spec legacy op db (jm_has id m) db ->
  outcome env (implements op db) w
    ((query (select tbl (Pg.rows_where (keyed key id))) ≫=
        fun rows => mret (negb (bool_decide (length (take 1 rows) = 0)))) env w).
Proof using Hsound.
  intros Hrep Ht Hs. eapply refines_select; [done|done|]. intros l Hl.
  assert (negb (bool_decide (length (take 1 l) = 0)) = jm_has id m) as ->; [|done].
  unfold jm_has. rewrite <-(head_perm key rowTo good _ m id l Ht Hl). by destruct l.
Qed.
(** A method that upserts a row. *)
Lemma refines_upsert {R V} (op : Op unit) (key : R -> string) (rowTo : R -> V) good tbl put refs clash merge
    (values : PgEnv -> string + R) r m w db :
  table key rowTo good (tbl w.(pw_db)) m -> values env = inr r -> good r -> refs w.(pw_db) r = inr tt ->
  (forall old, good old -> jm_get (key r) m = Some (rowTo old) -> key old = key r ->
     key (merge old r) = key r /\ good (merge old r) /\ rowTo (merge old r) = rowTo r) ->
  (jm_get (key r) m = None -> existsb (clash r) (tbl w.(pw_db)) = false) ->
  (forall rows', table key rowTo good rows' (jm_set (key r) (rowTo r) m) ->
     implements op db tt (mkPgWorld (put rows' w.(pw_db)) (S w.(pw_n)))) ->
  outcome env (implements op db) w
    (Pg.execute (fun env db => r <~ values env; upsert tbl put refs (Pg.same key) clash merge r db) env w).
Proof.
  intros Ht Hv Hg Hr Hm Hc Hi.
  destruct (upsert_table key rowTo good tbl put refs clash merge r w.(pw_db) m) as (rows' & Hup & Ht'); auto.
  apply (outcome_execute _ _ _ _ (put rows' w.(pw_db))); [by rewrite Hv|by apply Hi].
Qed.

(** ** Contracts *)

Lemma refines_saveContract c op' w db :
  represents env w db -> sendable env (SaveContract c) -> kept legacy env (SaveContract c) = inr op' ->
  accepted db op' -> outcome env (implements op' db) w (Pg.saveContract c env w).
Proof.
  intros Hrep Hs Hk Ha. cbn in Hs, Hk. inv_casts. cbn in Ha. rename H into Hv.
  assert (iso_range x.(kc_updated_at)) as Hg.
  { unfold contractValues in Hv. inv_casts. by eapply in_years_stamp. }
  eapply (refines_upsert _ kc_id rowToContract); [apply Hrep|exact Hv|done|done| | |].
  - intros old _ Hold _. specialize (Ha _ Hold). cbn in Ha. split_and!; [done|done|].
    unfold rowToContract. cbn. by rewrite Ha.
  - intros Hn. eapply same_absent; [apply Hrep|done].
  - intros rows' Ht. exists (db <| contracts := jm_set x.(kc_id) (rowToContract x) db.(contracts) |>).
    split; [done|]. pose proof (table_keys_mono _ _ _ _ _ _ _ (rep_contracts _ _ _ Hrep) Ht (jm_set_mono _ _ _)) as Hmono.
    rep_write Hrep. eapply Forall_impl; [exact rep_months|]. auto.
Qed.
(** ** Evidence *)

Lemma evidenceValues_good e r :
  sendable env (SaveEvidence e) -> evidenceValues env e = inr r -> good_evidence r.
Proof.
  intros (Hd & Hr & Hh) Hv. unfold evidenceValues in Hv. inv_casts.
  split; cbn; [done|]. split; [exact (in_years_opt _ _ _ Hr ltac:(eassumption))|exact (in_years_opt _ _ _ Hh ltac:(eassumption))].
Qed.
Lemma refines_saveEvidence e op' w db :
  represents env w db -> sendable env (SaveEvidence e) -> kept legacy env (SaveEvidence e) = inr op' ->
  accepted db op' -> outcome env (implements op' db) w (Pg.saveEvidence e env w).
Proof.
  intros Hrep Hs Hk Ha. cbn in Hk. inv_casts. cbn in Ha. destruct Ha as [Hc Ha]. rename H into Hv.
  pose proof (evidenceValues_good _ _ Hs Hv) as Hg.
  eapply (refines_upsert _ ke_id rowToEvidence); [apply Hrep|exact Hv|done| | | |].
  - eapply references_table; [apply Hrep|done].
  - intros old _ Hold _. specialize (Ha _ Hold). cbn in Ha. split_and!; [done|done|].
    unfold rowToEvidence. cbn. by rewrite Ha.
  - intros Hn. eapply same_absent; [apply Hrep|done].
  - intros rows' Ht. exists (db <| evidences := jm_set x.(ke_id) (rowToEvidence x) db.(evidences) |>).
    split; [done|]. rep_write Hrep.
Qed.
Lemma refines_deleteEvidence id w db :
  represents env w db -> outcome env (implements (DeleteEvidence id) db) w (Pg.deleteEvidence id env w).
Proof.
  intros Hrep. eapply outcome_execute; [done|]. eexists. split; [done|].
  pose proof (table_delete ke_id rowToEvidence good_evidence _ _ id (rep_evidences _ _ _ Hrep)) as Ht. rep_write Hrep.
Qed.
Lemma refines_findByCid cid w db :
  represents env w db -> outcome env (implements (FindEvidenceByCid cid) db) w (Pg.findEvidenceByCid cid env w).
Proof using Hsound.
  intros Hrep. eapply refines_select; [done|done|]. intros l Hl. split; [done|].
  pose proof (table_values _ _ _ _ _ (rep_evidences _ _ _ Hrep)) as Hv.
  destruct l as [|r l]; cbn.
  - intros e He Hcid. rewrite Hv in He. apply list_elem_of_fmap in He as (r & -> & Hr).
    assert (r ∈ @nil EvidenceRow) as []%not_elem_of_nil. rewrite Hl. apply list_elem_of_filter.
    split; [|done]. apply bool_decide_pack. by cbn in Hcid.
  - assert (r ∈ r :: l) as Hr by by left. rewrite Hl in Hr. apply list_elem_of_filter in Hr as [Hc Hr].
    split; [|by apply bool_decide_unpack in Hc]. rewrite Hv. apply list_elem_of_fmap. by exists r.
Qed.
Lemma refines_countVersions c d k w db :
  represents env w db ->
  outcome env (implements (CountEvidenceVersions c d k) db) w (Pg.countEvidenceVersions c d k env w).
Proof using Hsound.
  intros Hrep. apply (outcome_map env Z.of_nat). eapply outcome_count; [done|done|].
  eapply implements_read; [done|done|cbn; lia|]. split; [|done]. f_equal.
  rewrite (table_filter ke_id rowToEvidence good_evidence _ _ (fun r =>
        bool_decide (r.(ke_contract_id) = c) && bool_decide (r.(ke_dispute_id) = d)
        && bool_decide (category_str r.(ke_category) = k)) (sameVersionSeries c d k) (rep_evidences _ _ _ Hrep)).
  - by rewrite length_fmap.
  - intros r _ (Hd & _). unfold sameVersionSeries. cbn. do 2 f_equal.
    unfold text_col, nonempty, truthy. destruct (ke_dispute_id r) as [s|] eqn:E; [|done].
    rewrite (bool_decide_eq_false_2 (s = "")) by congruence. done.
Qed.
Lemma pastRetention_row now r :
  iso_range now -> good_evidence r ->
  Pg.pastRetention now r = evidencePastRetention (toIso now) (rowToEvidence r).
Proof.
  intros Hn (_ & Hr & Hh). unfold Pg.pastRetention, evidencePastRetention, evidenceBlockedFromRetentionPurge, toIso.
  cbn [rowToEvidence e_retainUntil e_legalHoldUntil e_retentionClass default from_option id].
  destruct (ke_retain_until r) as [u|]; [|done]. cbn [fmap option_fmap option_map]. unfold toIso.
  rewrite toISOString_truthy, iso_le, <-Z.ltb_antisym by auto. cbn [andb]. f_equal. f_equal.
  destruct (ke_legal_hold_until r) as [h|]; cbn [fmap option_fmap option_map Pg.at_least]; unfold toIso.
  - rewrite toISOString_truthy, iso_le by auto.
    destruct (decide (ke_retention_class r = RC_legal_hold)) as [E|E].
    + rewrite bool_decide_eq_true_2 by done. cbn. by rewrite orb_false_r.
    + by rewrite bool_decide_eq_false_2 by done.
  - destruct (decide (ke_retention_class r = RC_legal_hold)) as [E|E].
    + by rewrite bool_decide_eq_true_2 by done.
    + by rewrite bool_decide_eq_false_2 by done.
Qed.
Lemma refines_pastRetention now op' w db :
  represents env w db -> sendable env (ListEvidencesPastRetention now) ->
  kept legacy env (ListEvidencesPastRetention now) = inr op' ->
  outcome env (implements op' db) w (Pg.listEvidencesPastRetention now env w).
Proof using Hsound.
  intros Hrep Hs Hk. cbn in Hs, Hk. unfold iso_then, iso_arg in Hk. inv_casts. rename x0 into t.
  pose proof (in_years_stamp _ _ _ Hs H0) as Ht.
  eapply refines_select; [done|by rewrite H0|]. intros l Hl. split; [|done].
  rewrite (table_filter ke_id rowToEvidence good_evidence _ _ (Pg.pastRetention t) (evidencePastRetention (toIso t))
    (rep_evidences _ _ _ Hrep)); [by rewrite Hl|]. intros r _ Hg. by apply pastRetention_row.
Qed.

(** ** Disputes *)

Lemma refines_saveDispute d op' w db :
  represents env w db -> sendable env (SaveDispute d) -> kept legacy env (SaveDispute d) = inr op' ->
  accepted db op' -> outcome env (implements op' db) w (Pg.saveDispute d env w).
Proof.
  intros Hrep [Hne Hs] Hk Ha. cbn in Hk. inv_casts. cbn in Ha. destruct Ha as [Hc Ha]. rename H into Hv.
  assert (good_dispute x) as Hg.
  { unfold disputeValues in Hv. inv_casts. split; cbn; [done|by eapply in_years_stamp]. }
  eapply (refines_upsert _ kd_id rowToDispute); [apply Hrep|exact Hv|done| | | |].
  - eapply references_table; [apply Hrep|done].
  - intros old _ Hold _. specialize (Ha _ Hold). cbn in Ha. split_and!; [done|done|].
    unfold rowToDispute. cbn. by rewrite Ha.
  - intros Hn. eapply same_absent; [apply Hrep|done].
  - intros rows' Ht. exists (db <| disputes := jm_set x.(kd_id) (rowToDispute x) db.(disputes) |>).
    split; [done|]. rep_write Hrep.
Qed.
Lemma refines_saveDecision d op' w db :
  represents env w db -> kept legacy env (SaveDecision d) = inr op' ->
  accepted db op' -> outcome env (implements op' db) w (Pg.saveDecision d env w).
Proof.
  intros Hrep Hk Ha. cbn in Hk. inv_casts. cbn in Ha. destruct Ha as [Hc Ha]. rename H into Hv.
  eapply (refines_upsert _ kn_id decisionOf); [apply Hrep|exact Hv|done| | | |].
  - eapply references_table; [apply Hrep|done].
  - intros old _ Hold _. specialize (Ha _ Hold). cbn in Ha. split_and!; [done|done|].
    unfold decisionOf. cbn. by rewrite Ha.
  - intros Hn. eapply same_absent; [apply Hrep|done].
  - intros rows' Ht. exists (db <| decisions := jm_set x.(kn_id) (decisionOf x) db.(decisions) |>).
    split; [done|]. rep_write Hrep.
Qed.
Lemma registryValues_good e r :
  sendable env (UpsertDisputeVerifierRegistryEntry e) -> registryValues env e = inr r -> iso_range r.(kg_created_at).
Proof. intros Hs Hv. unfold registryValues in Hv. inv_casts. by eapply in_years_stamp. Qed.
Lemma refines_upsertRegistry e op' w db :
  represents env w db -> sendable env (UpsertDisputeVerifierRegistryEntry e) ->
  kept legacy env (UpsertDisputeVerifierRegistryEntry e) = inr op' -> accepted db op' ->
  outcome env (implements op' db) w (Pg.upsertDisputeVerifierRegistryEntry e env w).
Proof.
  intros Hrep Hs Hk Ha. cbn in Hk. inv_casts. cbn in Ha. rename H into Hv.
  pose proof (registryValues_good _ _ Hs Hv) as Hg.
  eapply (refines_upsert _ kg_verifier_id rowToRegistryEntry); [apply Hrep|exact Hv|done|done| | |].
  - intros old Hgo Hold Hkey. rewrite Hold in Ha. cbn in Ha. destruct Ha as [Hid Hcr]. split_and!; [done|done|].
    unfold rowToRegistryEntry. cbn. by rewrite Hid, Hcr, Hkey.
  - intros Hn. rewrite Hn in Ha. apply not_true_is_false. intros (r & Hr & Heq)%existsb_exists.
    apply list_elem_of_In in Hr. apply bool_decide_eq_true in Heq.
    by apply (Ha _ _ (table_get _ _ _ _ _ r (rep_registry _ _ _ Hrep) Hr)).
  - intros rows' Ht. eexists. split; [done|]. rep_write Hrep.
Qed.
Lemma refines_listRegistry w db :
  represents env w db ->
  outcome env (implements ListDisputeVerifierRegistry db) w (Pg.listDisputeVerifierRegistry env w).
Proof using Hsound.
  intros Hrep. apply (outcome_map env (map rowToRegistryEntry)). pose proof (rep_registry _ _ _ Hrep) as Ht.
  eapply outcome_select_by; [done|done|apply _|]. intros l Hl.
  eapply implements_read; [done|done|cbn; lia|]. split; [done|].
  eapply (arranged_map rowToRegistryEntry); [|exact Hl|].
  - intros x y [_ Hx]%list_elem_of_filter [_ Hy]%list_elem_of_filter.
    apply by_asc_time; [done..|by eapply (table_good _ _ _ _ _ _ Ht)|by eapply (table_good _ _ _ _ _ _ Ht)].
  - rewrite (table_values _ _ _ _ _ Ht). by rewrite filter_true.
Qed.
Lemma refines_appendVote v op' w db :
  represents env w db -> kept legacy env (AppendDisputeVerifierVote v) = inr op' ->
  accepted db op' -> outcome env (implements op' db) w (Pg.appendDisputeVerifierVote v env w).
Proof.
  intros Hrep Hk Ha. cbn in Hk. inv_casts. cbn in Ha. destruct Ha as [Hd Hf]. rename H into Hv.
  apply (outcome_execute _ _ _ _ (Pg.setVotes (w.(pw_db).(pg_votes) ++ [x]) w.(pw_db))).
  { rewrite Hv. cbn. unfold insert_into, Pg.dispute_ref.
    rewrite (references_table _ _ _ _ _ _ _ (rep_disputes _ _ _ Hrep) Hd). cbn.
    assert (existsb (Pg.same kv_id x) w.(pw_db).(pg_votes) = false) as ->; [|done].
    apply not_true_is_false. intros (r & Hr & Heq)%existsb_exists.
    apply list_elem_of_In in Hr. apply bool_decide_eq_true in Heq. apply (Hf r.(kv_dispute_id) (rowToVote r)); [|done].
    rewrite (rep_votes _ _ _ Hrep). apply list_elem_of_fmap. exists r. split; [done|]. by apply list_elem_of_filter. }
  eexists. split; [done|]. cbn. set (id := kv_dispute_id x).
  assert (forall id', default [] (jm_get id' (jm_set id (default [] (jm_get id db.(disputeVerifierVotes)) ++ [rowToVote x])
      db.(disputeVerifierVotes))) ≡ₚ rowToVote <$> filter (fun r => r.(kv_dispute_id) = id') (w.(pw_db).(pg_votes) ++ [x]))
    as Hvotes.
  { intros id'. rewrite filter_app, fmap_app, filter_cons, filter_nil, jm_get_set. fold id.
    case_decide as E; [subst id'; cbn; by rewrite (rep_votes _ _ _ Hrep)|].
    cbn. by rewrite app_nil_r, (rep_votes _ _ _ Hrep). }
  rep_write Hrep.
Qed.
Lemma refines_listVotes id w db :
  represents env w db ->
  outcome env (implements (ListDisputeVerifierVotes id) db) w (Pg.listDisputeVerifierVotes id env w).
Proof using Hsound.
  intros Hrep. apply (outcome_map env (map rowToVote)). eapply outcome_select_by; [done|done|apply _|].
  intros l [Hl _]. eapply implements_read; [done|done|cbn; lia|]. split; [|done].
  change (map rowToVote l) with (rowToVote <$> l). rewrite Hl, (rep_votes _ _ _ Hrep). f_equiv.
  rewrite (list_filter_iff _ (fun r => r.(kv_dispute_id) = id)); [done|]. intros r. by rewrite bool_decide_spec.
Qed.

(** ** Transactions *)

Lemma blank_empty : Pg.not_blank "" = false.
Proof. done. Qed.
Lemma refines_saveXrplTx t op' w db :
  represents env w db -> sendable env (SaveXrplTx t) -> kept legacy env (SaveXrplTx t) = inr op' ->
  accepted db op' -> outcome env (implements op' db) w (Pg.saveXrplTx t env w).
Proof.
  intros Hrep Hs Hk Ha. cbn in Hs, Hk. inv_casts. cbn in Ha. rename H into Hv.
  assert (good_xrplTx x) as Hg.
  { split; [unfold xrplTxValues in Hv; inv_casts; by eapply in_years_stamp|].
    intros a Hacc. destruct (decide (a = "")) as [|Hne]; [by left|right]. apply Ha. rewrite Hacc.
    unfold text_col, nonempty, truthy. by rewrite bool_decide_eq_false_2. }
  eapply (refines_upsert _ kx_tx_hash rowToXrpl _ _ _ _ _ (fun _ new => new)); [apply Hrep|exact Hv|done|done|done| |].
  - intros Hn. eapply same_absent; [apply Hrep|done].
  - intros rows' Ht. exists (db <| xrplTxs := jm_set x.(kx_tx_hash) (rowToXrpl x) db.(xrplTxs) |>).
    split; [done|]. rep_write Hrep.
Qed.
Lemma refines_listXrplTxs w db :
  represents env w db -> outcome env (implements ListXrplTxs db) w (Pg.listXrplTxs env w).
Proof using Hsound.
  intros Hrep. eapply refines_select; [done|done|]. intros l Hl. split; [|done].
  rewrite (table_values _ _ _ _ _ (rep_xrplTxs _ _ _ Hrep)), filter_true in *. by rewrite Hl.
Qed.
Lemma subscribed_row r :
  good_xrplTx r ->
  (if negb r.(kx_validated) && match r.(kx_account) with Some a => Pg.not_blank a | None => false end
   then r.(kx_account) else None) = eligible_account (rowToXrpl r).
Proof.
  intros [_ Ha]. unfold eligible_account. cbn. destruct (kx_validated r); [done|]. cbn.
  destruct (kx_account r) as [a|]; [|done]. unfold text_col, nonempty, truthy.
  destruct (decide (a = "")) as [->|Hne]; [done|].
  rewrite (bool_decide_eq_false_2 (a = "")) by done. cbn.
  destruct (Ha a eq_refl) as [? | Hb]; [done|]. rewrite Hb; by rewrite (bool_decide_eq_false_2 (a = "")) by done.
Qed.
Lemma refines_subscribe max op' w db :
  represents env w db -> kept legacy env (ListXrplSubscribeAccounts max) = inr op' ->
  outcome env (implements op' db) w (Pg.listXrplSubscribeAccounts max env w).
Proof using Hsound.
  intros Hrep Hk. cbn in Hk. destruct (check (0 <=? max)%Z _) as [e|u] eqn:Hc; [done|]. cbn in Hk. injection Hk as <-.
  pose proof (rep_xrplTxs _ _ _ Hrep) as Ht.
  eapply outcome_query; [rewrite Hc; done|]. eapply implements_read; [done|done|cbn; lia|]. split; [done|].
  set (l := omap kx_account _).
  assert (l ≡ₚ omap eligible_account (jm_values db.(xrplTxs))) as Hl.
  { unfold l. cbn [fst]. rewrite (table_values _ _ _ _ _ Ht).
    rewrite (ps_scan env Hsound).
    generalize (t_good _ _ _ _ _ Ht). generalize (pg_xrplTxs w.(pw_db)) as rows.
    induction rows as [|r rows IH]; intros Hg; [done|]. apply Forall_cons in Hg as [Hg1 Hg].
    rewrite fmap_cons, filter_cons, omap_cons, <-(subscribed_row r Hg1).
    destruct (negb (kx_validated r) && _); cbn [Is_true]; [|by apply IH].
    rewrite decide_True, omap_cons by done. destruct (kx_account r); [|by apply IH]. by rewrite IH. }
  assert (forall s, s ∈ take (Z.to_nat max) (remove_dups l) -> s ∈ l) as Hin.
  { intros s Hs. apply elem_of_remove_dups. revert s Hs. apply sublist_subseteq, sublist_take. }
  split_and!.
  - eapply sublist_NoDup; [apply NoDup_remove_dups|apply sublist_take].
  - intros s Hs. rewrite <-Hl. auto.
  - intros Hlen s Hs. rewrite <-Hl in Hs. rewrite length_take in Hlen. rewrite take_ge by lia. by apply elem_of_remove_dups.
  - intros _. rewrite length_take. lia.
Qed.
End refinement.
