(* ===== verification/PgQueues.v ===== *)
(** The PostgreSQL repository implements the specification: ingested events,
    notifications and their outbox, delayed jobs, export jobs, the audit log
    and the events. *)
From S2P Require Import Prelude JsString JsMap JsDate Json Types Config World Utils MemoryRepo RepoFacts Sql PgTables.
From S2P Require Import PgRepo RepoSpec PgSim PgStore PgEntities.
From Stdlib Require Import Ascii.

#[local] Arguments toISOString : simpl never.

(** * Claiming rows *)

Section claiming.
Context {R V : Type} (key : R -> string) (rowTo : R -> V) (good : R -> Prop) (k : V -> string) (f : V -> V) (set : R -> R).
Context (env : PgEnv) (Hsound : pg_sound env) (rows : list R) (m : JsMap V) (Ht : table key rowTo good rows m).
Context (Hk : forall r, k (rowTo r) = key r).
Context (Hset : forall r, good r -> key (set r) = key r /\ good (set r) /\ rowTo (set r) = f (rowTo r)).

(** Rows are found again by their keys. *)
Lemma filter_keys (sub : list R) :
  NoDup sub -> (forall r, r ∈ sub -> r ∈ rows) ->
  filter (fun r => bool_decide (key r ∈ key <$> sub)) rows ≡ₚ sub.
Proof using Ht.
  intros Hnd Hsub. apply NoDup_Permutation; [|done|].
  - eapply sublist_NoDup; [|apply sublist_filter]. eapply NoDup_fmap_1, t_keys, Ht.
  - intros r. rewrite list_elem_of_filter, bool_decide_spec. split.
    + intros [(r' & E & Hr')%list_elem_of_fmap Hr]. by rewrite (table_key_inj _ _ _ _ _ r r' Ht Hr (Hsub r' Hr') E).
    + intros Hr. split; [|by apply Hsub]. apply list_elem_of_fmap. by exists r.
Qed.
Lemma claim_table {DB} (tbl : DB -> list R) (put : list R -> DB -> DB) (p : R -> bool) (pV : V -> bool)
    cmp cmpV limit n db `{!TotalCmp cmp} :
  tbl db = rows -> (forall r, r ∈ rows -> good r -> p r = pV (rowTo r)) ->
  (forall x y, good x -> good y -> cmp_le cmp x y -> cmp_le cmpV (rowTo x) (rowTo y)) ->
  exists l ans (hit : R -> bool), arranged cmpV (filter (fun v => pV v) (jm_values m)) l /\
    claim tbl put key p cmp limit set env n db = inr (ans, put ((fun r => if hit r then set r else r) <$> rows) db) /\
    rowTo <$> ans ≡ₚ f <$> take limit l /\
    table key rowTo good ((fun r => if hit r then set r else r) <$> rows) (foldl (fun m v => jm_set (k v) (f v) m) m (take limit l)).
Proof using Ht Hk Hset Hsound.
  intros Htbl Hp Hcmp. pose proof (t_good _ _ _ _ _ Ht) as Hg. rewrite Forall_forall in Hg.
  unfold claim. rewrite Htbl. cbv zeta. set (sorted := js_sort cmp (filter (fun r => p r) (pe_scan env R n rows))).
  assert (sorted ≡ₚ filter (fun r => p r) rows) as Hsorted.
  { unfold sorted. by rewrite js_sort_perm, (ps_scan env Hsound). }
  assert (forall r, r ∈ sorted -> r ∈ rows) as Hsub.
  { intros r Hr. rewrite Hsorted in Hr. by apply list_elem_of_filter in Hr as [_ ?]. }
  assert (filter (fun r => bool_decide (key r ∈ key <$> take limit sorted)) rows ≡ₚ take limit sorted) as Hhit.
  { apply filter_keys; [|intros r Hr; by eapply Hsub, sublist_subseteq, Hr; apply sublist_take].
    eapply sublist_NoDup; [|apply sublist_take]. rewrite Hsorted. eapply sublist_NoDup; [|apply sublist_filter].
    eapply NoDup_fmap_1, t_keys, Ht. }
  exists (rowTo <$> sorted). eexists _, (fun r => bool_decide (key r ∈ key <$> take limit sorted)).
  split_and!; [|done| |].
  - eapply (arranged_map rowTo cmp); [|split; [exact Hsorted|apply (js_sort_total cmp)]|].
    + intros x y [_ Hx]%list_elem_of_filter [_ Hy]%list_elem_of_filter. auto.
    + symmetry. by eapply table_filter.
  - rewrite (ps_scan env Hsound), Hhit, <-fmap_take, <-!list_fmap_compose.
    rewrite (list_fmap_ext (rowTo ∘ set) (f ∘ rowTo)); [done|]. intros i r Hr%list_elem_of_lookup_2. cbn. apply Hset, Hg, Hsub.
    revert Hr. apply sublist_subseteq, sublist_take.
  - eapply (table_hit key rowTo good rows m k f set (fun r => bool_decide (key r ∈ key <$> take limit sorted)) _ Ht Hk).
    + intros r _ Hgr. destruct (Hset r Hgr) as (? & ? & _). done.
    + intros r _ Hgr. by apply Hset.
    + by rewrite Hhit, <-fmap_take.
Qed.
End claiming.

Section refinement.
Context (legacy : string -> option Z) (env : PgEnv) (Hsound : pg_sound env).
Notation PgW := (PgWorld PgDb).
Notation implements := (implements legacy env).

(** ** Ingested events *)

Lemma same_event_key r r' :
  ":"%char ∉ chars r.(ki_tx_hash) -> ":"%char ∉ chars r'.(ki_tx_hash) ->
  Pg.same_event r r' = bool_decide (ingested r' = ingested r).
Proof.
  intros Hr Hr'. unfold Pg.same_event. destruct (bool_decide (ingested r' = ingested r)) eqn:E; bool_to_prop.
  - apply ingestionKey_inj in E as (-> & -> & ->); [|done..]. by rewrite !bool_decide_eq_true_2.
  - apply not_true_is_false. intros H. bool_to_prop. apply E. unfold ingested. congruence.
Qed.
Lemma refines_tryRecord l h s op' w db :
  represents env w db -> sendable env (TryRecordXrplIngestionEvent l h s) ->
  kept legacy env (TryRecordXrplIngestionEvent l h s) = inr op' ->
  outcome env (implements op' db) w (Pg.tryRecordXrplIngestionEvent l h s env w).
Proof using Hsound.
  intros Hrep Hs Hk. cbn in Hs, Hk. inv_casts. rename H into Hi, x into i. do 2 apply outcome_ask.
  destruct (ps_now env Hsound w.(pw_n)) as (t & Ht & Hnow).
  assert (timestamptz env (pe_nowIso env w.(pw_n)) = inr t) as Hcr.
  { apply timestamptz_inr. rewrite Hnow. by apply ps_iso. }
  set (row := mkIngestionRow (pe_randomId env w.(pw_n)) i h s t).
  assert (existsb (Pg.same_event row) w.(pw_db).(pg_ingestion) = bool_decide (ingestionKey i h s ∈ db.(xrplIngestionDedup))) as Hex.
  { pose proof (rep_hashes _ _ _ Hrep) as Hh. rewrite Forall_forall in Hh. symmetry.
    destruct (existsb _ _) eqn:E.
    - apply existsb_exists in E as (r & Hr & E). apply list_elem_of_In in Hr.
      rewrite same_event_key in E by (auto || exact Hs). apply bool_decide_eq_true in E.
      apply bool_decide_eq_true. rewrite (rep_ingestion _ _ _ Hrep). apply list_elem_of_fmap. by exists r.
    - apply bool_decide_eq_false. rewrite (rep_ingestion _ _ _ Hrep). intros (r & Ek & Hr)%list_elem_of_fmap.
      apply (not_true_iff_false (existsb _ _)) in E. apply E, existsb_exists. exists r. split; [by apply list_elem_of_In|].
      rewrite same_event_key by (auto || exact Hs). by apply bool_decide_eq_true. }
  destruct (bool_decide (ingestionKey i h s ∈ db.(xrplIngestionDedup))) eqn:Hin.
  - eapply outcome_query; [unfold insert_new; rewrite Hi, Hcr; cbn; fold row; by rewrite Hex|].
    eapply implements_read; [done|done|cbn; lia|]. cbn. by rewrite Hin.
  - eapply (outcome_query _ _ _ _ _ (Pg.setIngestion (w.(pw_db).(pg_ingestion) ++ [row]) w.(pw_db))).
    + unfold insert_new, insert_into. rewrite Hi, Hcr. cbn. fold row. rewrite Hex. cbn.
      assert (existsb (Pg.same ki_id row) w.(pw_db).(pg_ingestion) = false) as ->; [|done].
      apply not_true_is_false. intros (r & Hr & Heq)%existsb_exists. apply list_elem_of_In in Hr.
      apply bool_decide_eq_true in Heq. pose proof (rep_ids _ _ _ Hrep) as Hids. rewrite Forall_forall in Hids.
      destruct (Hids r Hr) as (n & Hn & Hid). rewrite Hid in Heq. apply (ps_ids env Hsound) in Heq. lia.
    + eexists. split; [cbn; rewrite Hin; done|]. rep_write Hrep.
      * rewrite rep_ingestion, fmap_app. done.
      * apply Forall_app. by split; [|constructor].
      * apply Forall_app. split; [by apply rep_ids_later|]. constructor; [|done]. exists (pw_n w). split; [lia|done].
Qed.

(** ** Notifications *)

Lemma refines_saveNotification n op' w db :
  represents env w db -> sendable env (SaveNotification n) -> kept legacy env (SaveNotification n) = inr op' ->
  accepted db op' -> outcome env (implements op' db) w (Pg.saveNotification n env w).
Proof.
  intros Hrep [Hc Hn] Hk Ha. cbn in Hk. inv_casts. cbn in Ha. rename H into Hv.
  assert (good_notification x) as Hg.
  { unfold notificationValues in Hv. inv_casts. split; cbn; [by eapply in_years_stamp|by eapply in_years_opt]. }
  eapply (refines_upsert legacy env _ kt_id rowToNotification); [apply Hrep|exact Hv|done|done| | |].
  - intros old [Hgo _] Hold _. specialize (Ha _ Hold). cbn in Ha. split_and!; [done|by split; [|apply Hg]|].
    unfold rowToNotification. cbn. by rewrite Ha.
  - intros Hnone. eapply same_absent; [apply Hrep|done].
  - intros rows' Ht. exists (db <| notifications := jm_set x.(kt_id) (rowToNotification x) db.(notifications) |>).
    split; [done|]. rep_write Hrep.
Qed.
Lemma dueRow_spec now r :
  iso_range now -> good_notification r -> Pg.dueRow now r = notificationDue (toIso now) (rowToNotification r).
Proof.
  intros Hnow [_ Hr]. unfold Pg.dueRow, notificationDue.
  cbn [rowToNotification n_deadLetter n_status n_nextAttemptAt default from_option id].
  destruct (kt_dead_letter r); [done|]. destruct (kt_status r); try done.
  change (bool_decide (NS_retry_scheduled = NS_queued)) with false.
  change (bool_decide (NS_retry_scheduled = NS_retry_scheduled)) with true. cbn [orb andb negb].
  destruct (kt_next_attempt_at r) as [t|]; [|done]. cbn [fmap option_fmap option_map]. unfold toIso.
  rewrite toISOString_truthy. cbn [default from_option id]. by rewrite iso_le by auto.
Qed.
Lemma refines_listDue now limit op' w db :
  represents env w db -> sendable env (ListDueNotifications now limit) ->
  kept legacy env (ListDueNotifications now limit) = inr op' ->
  outcome env (implements op' db) w (Pg.listDueNotifications now limit env w).
Proof using Hsound.
  intros Hrep Hs Hk. cbn in Hs, Hk. unfold iso_then, iso_arg in Hk. inv_casts. rename x0 into t, H0 into Hc.
  pose proof (in_years_stamp _ _ _ Hs Hc) as Hy. pose proof (rep_notifications _ _ _ Hrep) as Ht.
  apply (outcome_map env (map rowToNotification)).
  eapply outcome_query; [unfold select_by, select; rewrite Hc; done|].
  eapply implements_read; [done|done|cbn; lia|]. split; [done|].
  set (l := js_sort _ _). exists (rowToNotification <$> l). split; [|by rewrite <-fmap_take].
  eapply (arranged_map rowToNotification (Pg.by_time kt_created_at env)
    _ (filter (fun r => Pg.dueRow t r) w.(pw_db).(pg_notifications))).
  - intros x y [_ Hx]%list_elem_of_filter [_ Hy']%list_elem_of_filter.
    apply by_asc_time; [done..| |]; by eapply proj1, (table_good _ _ _ _ _ _ Ht).
  - split; [unfold l; rewrite js_sort_perm; cbn; by rewrite (ps_scan env Hsound)|apply (js_sort_total _)].
  - symmetry. eapply table_filter; [exact Ht|]. intros r _ Hg. by apply dueRow_spec.
Qed.

(** ** The outbox *)

Lemma outboxValues_good o r :
  sendable env (AppendNotificationOutbox o) -> outboxValues env o = inr r -> good_outbox r.
Proof.
  intros [Hc Hn] Hv. unfold outboxValues in Hv. inv_casts.
  split; cbn; [by eapply in_years_stamp|by eapply in_years_opt].
Qed.
Lemma refines_appendOutbox row op' w db :
  represents env w db -> sendable env (AppendNotificationOutbox row) ->
  kept legacy env (AppendNotificationOutbox row) = inr op' -> accepted db op' ->
  outcome env (implements op' db) w (Pg.appendNotificationOutbox row env w).
Proof.
  intros Hrep Hs Hk Ha. cbn in Hk. inv_casts. cbn in Ha. rename H into Hv.
  pose proof (outboxValues_good _ _ Hs Hv) as Hg.
  pose proof (table_present _ _ _ _ _ x.(ko_idempotency_key) (rep_outboxKeys _ _ _ Hrep)) as Hp.
  change (keyed ko_idempotency_key x.(ko_idempotency_key)) with (Pg.same ko_idempotency_key x) in Hp.
  destruct (jm_has x.(ko_idempotency_key) db.(notificationOutboxIdempotency)) eqn:Hin.
  - eapply outcome_query; [rewrite Hv; cbn; unfold insert_new; by rewrite Hp|].
    eapply implements_read; [done|done|cbn; lia|]. cbn. by rewrite Hin.
  - assert (fresh db.(notificationOutboxIdempotency) x.(ko_idempotency_key)) as Hfk.
    { unfold jm_has in Hin. unfold fresh. by destruct (jm_get _ _). }
    destruct (insert_table ko_id rowToNotificationOutbox good_outbox pg_outbox Pg.setOutbox Pg.no_refs (Pg.same ko_id) x
      w.(pw_db) db.(notificationOutboxById) (rep_outbox _ _ _ Hrep) Hg eq_refl (Ha Hfk)) as [Hins Ht].
    { eapply same_absent; [apply Hrep|by apply Ha]. }
    eapply (outcome_query _ _ _ _ _ (Pg.setOutbox (w.(pw_db).(pg_outbox) ++ [x]) w.(pw_db))).
    { rewrite Hv. cbn. unfold insert_new. by rewrite Hp, Hins. }
    pose proof (table_insert ko_idempotency_key ko_id (fun _ => True) _ _ x (rep_outboxKeys _ _ _ Hrep) I Hfk) as Ht'.
    eexists. split; [cbn; rewrite Hin; done|]. rep_write Hrep.
Qed.
(** Columns that no statement changed. *)
Lemma table_keep {R V} (key : R -> string) (rowTo : R -> V) rows m (g : R -> R) :
  (forall r, r ∈ rows -> key (g r) = key r /\ rowTo (g r) = rowTo r) ->
  table key rowTo (fun _ => True) rows m -> table key rowTo (fun _ => True) (g <$> rows) m.
Proof.
  intros Hg [Hr Hk _]. split.
  - rewrite Hr, <-list_fmap_compose. rewrite (list_fmap_ext _ ((fun r => (key r, rowTo r)) ∘ g)); [done|].
    intros i r Hi%list_elem_of_lookup_2. cbn. destruct (Hg r Hi) as [-> ->]. done.
  - rewrite <-list_fmap_compose. rewrite (list_fmap_ext (key ∘ g) key); [done|].
    intros i r Hi%list_elem_of_lookup_2. by apply Hg.
  - by apply Forall_true.
Qed.
Lemma refines_claimOutbox limit now op' w db :
  represents env w db -> sendable env (ClaimNotificationOutboxPending limit now) ->
  kept legacy env (ClaimNotificationOutboxPending limit now) = inr op' ->
  outcome env (implements op' db) w (Pg.claimNotificationOutboxPending limit now env w).
Proof using Hsound.
  intros Hrep Hs Hk. cbn in Hs, Hk. unfold iso_then, iso_arg in Hk. inv_casts. rename x0 into t, H0 into Hc.
  pose proof (in_years_stamp _ _ _ Hs Hc) as Hy.
  destruct (claim_table ko_id rowToNotificationOutbox good_outbox o_id (claimedOutbox (toIso t)) (Pg.claimedRow t) env Hsound
    _ _ (rep_outbox _ _ _ Hrep) (fun _ => eq_refl)) with (tbl := pg_outbox) (put := Pg.setOutbox)
    (p := fun r => bool_decide (r.(ko_status) = OS_pending)) (pV := fun r => bool_decide (r.(o_status) = OS_pending))
    (cmp := asc Z.compare ko_created_at) (cmpV := by_asc o_createdAt) (limit := limit) (n := w.(pw_n)) (db := w.(pw_db))
    as (l & ans & hit & Hl & Hcl & Hans & Ht); [|apply _|done|done| |].
  - intros r [Hg _]. split_and!; [done| |done]. split; [done|]. by intros ? [= <-].
  - intros x y [Hx _] [Hy' _]. by apply by_asc_time.
  - apply (outcome_map env (map rowToNotificationOutbox)). eapply outcome_query; [by rewrite Hc; exact Hcl|].
    eexists. split.
    + eexists. split; [|done]. exists l. split_and!; [|exact Hans|done].
      destruct Hl as [Hp Hsort]. split; [|done]. rewrite Hp.
      rewrite (list_filter_iff _ (fun r => o_status r = OS_pending)); [done|]. intros r. by rewrite bool_decide_spec.
    + pose proof (fun H => table_keep _ _ _ _ (fun r => if hit r then Pg.claimedRow t r else r) H
        (rep_outboxKeys _ _ _ Hrep)) as Hkeys.
      specialize (Hkeys ltac:(intros r _; cbn beta; by destruct (hit r))). rep_write Hrep.
Qed.
Lemma refines_updateOutbox row op' w db :
  represents env w db -> sendable env (UpdateNotificationOutbox row) ->
  kept legacy env (UpdateNotificationOutbox row) = inr op' -> accepted db op' ->
  outcome env (implements op' db) w (Pg.updateNotificationOutbox row env w).
Proof.
  intros Hrep Hs Hk Ha. cbn in Hs, Hk. unfold kept_outbox in Hk. inv_casts. cbn in Ha.
  rename x0 into payload, x1 into attempts, x2 into updated, x3 into started.
  destruct Ha as (old & Hold & Hkey & Hcr). match goal with |- context [UpdateNotificationOutbox ?r] => set (row' := r) end.
  set (set_ := Pg.updatedOutbox (mkOutboxRow "" "" row.(o_eventType) row.(o_recipientId) row.(o_channel) payload row.(o_status)
       attempts row.(o_lastError) 0 updated started row.(o_dispatchedNotificationId))).
  apply (outcome_execute _ _ _ _ (Pg.setOutbox ((fun r => if keyed ko_id row.(o_id) r then set_ r else r) <$>
    w.(pw_db).(pg_outbox)) w.(pw_db))); [by rewrite H0, H1, H2, H3|].
  eexists. split; [cbn; rewrite Hold; intros _; done|].
  pose proof (table_set ko_id rowToNotificationOutbox good_outbox _ _ row.(o_id) row' set_ (rep_outbox _ _ _ Hrep)) as Ht.
  specialize (Ht (ex_intro _ _ Hold)).
  pose proof (fun H => table_keep _ _ _ _ (fun r => if keyed ko_id row.(o_id) r then set_ r else r) H
        (rep_outboxKeys _ _ _ Hrep)) as Hkeys.
  specialize (Hkeys ltac:(intros r _; cbn beta; by destruct (keyed _ _ r))).
  assert (table ko_id rowToNotificationOutbox good_outbox ((fun r => if keyed ko_id row.(o_id) r then set_ r else r) <$>
    w.(pw_db).(pg_outbox)) (jm_set row.(o_id) row' db.(notificationOutboxById))) as Ht'; [|rep_write Hrep].
  apply Ht. intros r Hr [Hg _] Hid.
  pose proof (table_get _ _ _ _ _ r (rep_outbox _ _ _ Hrep) Hr) as Hget. rewrite Hid, Hold in Hget. injection Hget as ->.
  cbn in Hkey, Hcr. split_and!; [done| |].
  - split; [done|]. by eapply in_years_opt.
  - unfold row', set_, rowToNotificationOutbox. cbn. by rewrite Hid, Hkey, Hcr.
Qed.
Lemma update_table {R V} (key : R -> string) (rowTo : R -> V) good (tbl : PgDb -> list R) put (k : V -> string) (f : V -> V)
    (g : R -> R) (hit : R -> bool) (hitV : V -> bool) pg m :
  table key rowTo good (tbl pg) m -> (forall r, k (rowTo r) = key r) ->
  (forall r, good r -> key (g r) = key r /\ good (g r) /\ rowTo (g r) = f (rowTo r)) ->
  (forall r, good r -> hit r = hitV (rowTo r)) ->
  let l := filter (fun v => hitV v) (jm_values m) in
  update_where tbl put hit g pg = (length l, put ((fun r => if hit r then g r else r) <$> tbl pg) pg) /\
  table key rowTo good ((fun r => if hit r then g r else r) <$> tbl pg)
    (foldl (fun m v => jm_set (k v) (f v) m) m l).
Proof.
  intros Ht Hk Hg Hh l. assert (l ≡ₚ rowTo <$> filter (fun r => hit r) (tbl pg)) as Hl by (eapply table_filter; eauto).
  split; [unfold update_where; by rewrite Hl, length_fmap|].
  eapply table_hit; [exact Ht|exact Hk| |  |exact Hl]; intros r _ Hgr; destruct (Hg r Hgr) as (? & ? & ?); auto.
Qed.
Lemma refines_recover before now op' w db :
  represents env w db -> sendable env (RecoverStaleNotificationOutboxProcessing before now) ->
  kept legacy env (RecoverStaleNotificationOutboxProcessing before now) = inr op' ->
  outcome env (implements op' db) w (Pg.recoverStaleNotificationOutboxProcessing before now env w).
Proof.
  intros Hrep [Hb Hs] Hk. cbn in Hk. unfold iso_then, iso_arg in Hk. inv_casts. rename x2 into tb, x1 into t.
  pose proof (in_years_stamp _ _ _ Hb H2) as Hyb. pose proof (in_years_stamp _ _ _ Hs H1) as Hy.
  destruct (update_table ko_id rowToNotificationOutbox good_outbox pg_outbox Pg.setOutbox o_id (recoveredOutbox (toIso t))
    (Pg.recoveredRow t) (Pg.staleRow tb) (outboxStale (toIso tb)) w.(pw_db) _ (rep_outbox _ _ _ Hrep)) as [Hu Ht].
  - done.
  - intros r [Hg _]. by split_and!.
  - intros r [_ Hg]. unfold Pg.staleRow, outboxStale. cbn [rowToNotificationOutbox o_status o_processingStartedAt].
    rewrite <-andb_assoc. f_equal. destruct (ko_processing_started_at r) as [p|]; [|done].
    cbn [fmap option_fmap option_map default from_option id]. unfold toIso. rewrite toISOString_truthy.
    cbn [andb]. by rewrite iso_lt by auto.
  - apply (outcome_map env Z.of_nat). eapply outcome_query; [rewrite H1, H2; cbn; rewrite Hu; done|].
    eexists. split; [done|].
    pose proof (fun H => table_keep _ _ _ _ (fun r => if Pg.staleRow tb r then Pg.recoveredRow t r else r) H
        (rep_outboxKeys _ _ _ Hrep)) as Hkeys.
    specialize (Hkeys ltac:(intros r _; cbn beta; by destruct (Pg.staleRow tb r))). rep_write Hrep.
Qed.

(** ** Delayed jobs *)

Lemma iso_timestamptz t : iso_range t -> timestamptz env (toISOString t) = inr t.
Proof using Hsound. intros. by apply timestamptz_inr, ps_iso. Qed.
Lemma jobValues_good j r : sendable env (CreateDelayedJobIfAbsent j) -> jobValues env j = inr r -> good_job r.
Proof.
  intros [Hc Hn] Hv. unfold jobValues in Hv. inv_casts. split; cbn; [by eapply in_years_stamp|by eapply in_years_opt].
Qed.
Lemma refines_createJob job op' w db :
  represents env w db -> sendable env (CreateDelayedJobIfAbsent job) ->
  kept legacy env (CreateDelayedJobIfAbsent job) = inr op' ->
  outcome env (implements op' db) w (Pg.createDelayedJobIfAbsent job env w).
Proof.
  intros Hrep Hs Hk. cbn in Hk. inv_casts. rename H into Hv. pose proof (jobValues_good _ _ Hs Hv) as Hg.
  pose proof (table_present _ _ _ _ _ x.(kj_id) (rep_jobs _ _ _ Hrep)) as Hp.
  change (keyed kj_id x.(kj_id)) with (Pg.same kj_id x) in Hp.
  destruct (jm_has x.(kj_id) db.(delayedJobs)) eqn:Hin.
  - eapply outcome_query; [rewrite Hv; cbn; unfold insert_new; by rewrite Hp|].
    eapply implements_read; [done|done|cbn; lia|]. cbn. by rewrite Hin.
  - destruct (insert_table kj_id rowToDelayedJob good_job pg_jobs Pg.setJobs Pg.no_refs Pg.clash_free x w.(pw_db) _
      (rep_jobs _ _ _ Hrep) Hg eq_refl) as [Hins Ht].
    { unfold jm_has in Hin. by destruct (jm_get _ _). }
    { unfold Pg.clash_free. generalize (pg_jobs w.(pw_db)). intros l. by induction l as [|r l IH]; [|cbn; apply IH]. }
    eapply (outcome_query _ _ _ _ _ (Pg.setJobs (w.(pw_db).(pg_jobs) ++ [x]) w.(pw_db))).
    { rewrite Hv. cbn. unfold insert_new. by rewrite Hp, Hins. }
    eexists. split; [cbn; rewrite Hin; done|]. rep_write Hrep.
Qed.
Lemma iso_date_parse t : iso_range t -> date_parse legacy (toISOString t) = Some t.
Proof. intros Ht. unfold date_parse. by rewrite parse_iso_toISOString. Qed.
Lemma jobDue_spec kind now r :
  good_job r -> Pg.jobDue kind now r = jobClaimable legacy kind now (rowToDelayedJob r).
Proof.
  intros [Hr Hl]. unfold Pg.jobDue, jobClaimable, parsedLe.
  cbn [rowToDelayedJob j_kind j_runAfter j_lockedUntil]. unfold toIso at 1. rewrite iso_date_parse by done. f_equal.
  destruct (kj_locked_until r) as [t|]; [|done]. cbn [fmap option_fmap option_map default from_option id]. unfold toIso.
  by rewrite toISOString_truthy, iso_date_parse by auto.
Qed.
Lemma refines_claimJobs kind now limit ttl op' w db :
  represents env w db -> sendable env (ClaimDueDelayedJobs kind now limit ttl) ->
  kept legacy env (ClaimDueDelayedJobs kind now limit ttl) = inr op' ->
  outcome env (implements op' db) w (Pg.claimDueDelayedJobs legacy kind now limit ttl env w).
Proof using Hsound.
  intros Hrep (ms & Hms & Hlk & ->) Hk. cbn [kept] in Hk. unfold iso_then, iso_arg in Hk.
  rewrite iso_date_parse, !iso_timestamptz in Hk by done. cbn in Hk. injection Hk as <-.
  unfold Pg.claimDueDelayedJobs. rewrite iso_date_parse by done.
  destruct (claim_table kj_id rowToDelayedJob good_job j_id (claimedJob (toISOString (ms + ttl)) (toIso ms))
    (Pg.leasedRow (ms + ttl) ms) env Hsound _ _ (rep_jobs _ _ _ Hrep) (fun _ => eq_refl)) with
    (tbl := pg_jobs) (put := Pg.setJobs) (p := Pg.jobDue kind ms) (pV := jobClaimable legacy kind ms)
    (cmp := asc Z.compare kj_run_after) (cmpV := by_asc j_runAfter) (limit := limit) (n := w.(pw_n)) (db := w.(pw_db))
    as (l & ans & hit & Hl & Hcl & Hans & Ht); [|apply _|done|by intros; apply jobDue_spec| |].
  - intros r [Hg _]. split_and!; [done| |done]. split; [done|]. by intros ? [= <-].
  - intros x y [Hx _] [Hy' _]. by apply by_asc_time.
  - apply (outcome_map env (map rowToDelayedJob)).
    eapply outcome_query; [rewrite !iso_timestamptz by done; exact Hcl|].
    eexists. split; [|shelve]. cbn [spec]. rewrite iso_date_parse by done.
    eexists. split; [|done]. exists l. by split_and!.
    Unshelve. rep_write Hrep.
Qed.
Lemma refines_deleteJob id w db :
  represents env w db -> outcome env (implements (DeleteDelayedJob id) db) w (Pg.deleteDelayedJob id env w).
Proof.
  intros Hrep. eapply outcome_execute; [done|]. eexists. split; [done|].
  pose proof (table_delete kj_id rowToDelayedJob good_job _ _ id (rep_jobs _ _ _ Hrep)) as Ht. rep_write Hrep.
Qed.
(** A table in which no row has the key. *)
Lemma update_absent {R V} (key : R -> string) (rowTo : R -> V) good rows m id (g : R -> R) :
  table key rowTo good rows m -> jm_get id m = None -> (fun r => if keyed key id r then g r else r) <$> rows = rows.
Proof.
  intros Ht Hn. rewrite (list_fmap_ext _ (fun r => r)); [apply list_fmap_id|].
  intros i r Hr%list_elem_of_lookup_2. unfold keyed. case_bool_decide as E; [|done].
  rewrite <-E, (table_get _ _ _ _ _ r Ht Hr) in Hn. done.
Qed.
Lemma refines_bumpJob id after n e u op' w db :
  represents env w db -> sendable env (BumpDelayedJob id after n e u) ->
  kept legacy env (BumpDelayedJob id after n e u) = inr op' ->
  outcome env (implements op' db) w (Pg.bumpDelayedJob id after n e u env w).
Proof.
  intros Hrep Hs Hk. cbn in Hs, Hk. unfold iso_then, iso_arg in Hk. inv_casts.
  match goal with H : timestamptz env after = inr ?t |- _ => rename t into ta, H into Hta end.
  match goal with H : timestamptz env u = inr ?t |- _ => rename t into tu, H into Htu end.
  match goal with H : int4 n = inr ?t |- _ => rename t into n', H into Hn end.
  pose proof (in_years_stamp _ _ _ Hs Hta) as Hy.
  set (g := fun r : JobRow => r <| kj_run_after := ta |> <| kj_attempts := n' |> <| kj_last_error := e |>
    <| kj_updated_at := tu |> <| kj_locked_until := None |>).
  eapply (outcome_execute _ _ _ _ (Pg.setJobs ((fun r => if keyed kj_id id r then g r else r) <$> w.(pw_db).(pg_jobs)) w.(pw_db)));
    [by rewrite Hta, Hn, Htu|].
  eexists. split; [done|]. pose proof (rep_jobs _ _ _ Hrep) as Hj.
  destruct (jm_get id db.(delayedJobs)) as [j|] eqn:Hid.
  - pose proof (table_set kj_id rowToDelayedJob good_job _ _ id (j <| j_runAfter := toIso ta |> <| j_attempts := n' |>
      <| j_lastError := e |> <| j_updatedAt := toIso tu |> <| j_lockedUntil := None |>) g Hj (ex_intro _ _ Hid)) as Ht.
    rep_write Hrep. apply Ht. intros r Hr _ Hkey. pose proof (table_get _ _ _ _ _ r Hj Hr) as Hget.
    rewrite Hkey, Hid in Hget. injection Hget as ->. by split_and!.
  - pose proof (update_absent _ _ _ _ _ _ g Hj Hid) as Hsame. rep_write Hrep. by rewrite Hsame.
Qed.

(** ** Export jobs *)

Lemma refines_createExport job op' w db :
  represents env w db -> sendable env (CreateExportJob job) -> kept legacy env (CreateExportJob job) = inr op' ->
  accepted db op' -> outcome env (implements op' db) w (Pg.createExportJob job env w).
Proof.
  intros Hrep Hs Hk Ha. cbn in Hs, Hk. inv_casts. cbn in Ha. rename H into Hv.
  assert (iso_range x.(kp_created_at)) as Hg.
  { unfold exportValues in Hv. inv_casts. by eapply in_years_stamp. }
  destruct (insert_table kp_id rowToExportJob _ pg_exports Pg.setExports Pg.no_refs (Pg.same kp_id) x w.(pw_db) _
    (rep_exports _ _ _ Hrep) Hg eq_refl Ha) as [Hins Ht].
  { eapply same_absent; [apply Hrep|done]. }
  eapply outcome_execute; [rewrite Hv; exact Hins|]. eexists. split; [done|]. rep_write Hrep.
Qed.
Lemma refines_claimExports limit now op' w db :
  represents env w db -> kept legacy env (ClaimExportJobsPending limit now) = inr op' ->
  outcome env (implements op' db) w (Pg.claimExportJobsPending limit now env w).
Proof using Hsound.
  intros Hrep Hk. cbn in Hk. unfold iso_then, iso_arg in Hk. inv_casts. rename x0 into t, H0 into Hc.
  destruct (claim_table kp_id rowToExportJob _ x_jobId (claimedExport (toIso t)) (Pg.runningRow t) env Hsound
    _ _ (rep_exports _ _ _ Hrep) (fun _ => eq_refl)) with (tbl := pg_exports) (put := Pg.setExports)
    (p := fun r => bool_decide (r.(kp_status) = ES_pending)) (pV := fun r => bool_decide (r.(x_status) = ES_pending))
    (cmp := asc Z.compare kp_created_at) (cmpV := by_asc x_createdAt) (limit := limit) (n := w.(pw_n)) (db := w.(pw_db))
    as (l & ans & hit & Hl & Hcl & Hans & Ht); [|apply _|done|done| |].
  - intros r Hg. by split_and!.
  - intros x y Hx Hy. by apply by_asc_time.
  - apply (outcome_map env (map rowToExportJob)). eapply outcome_query; [by rewrite Hc; exact Hcl|].
    eexists. split; [|shelve]. eexists. split; [|done]. exists l. split_and!; [|exact Hans|done].
    destruct Hl as [Hp Hsort]. split; [|done]. rewrite Hp.
    rewrite (list_filter_iff _ (fun r => x_status r = ES_pending)); [done|]. intros r. by rewrite bool_decide_spec.
    Unshelve. rep_write Hrep.
Qed.
Lemma refines_updateExport job op' w db :
  represents env w db -> sendable env (UpdateExportJob job) -> kept legacy env (UpdateExportJob job) = inr op' ->
  accepted db op' -> outcome env (implements op' db) w (Pg.updateExportJob job env w).
Proof.
  intros Hrep Hs Hk Ha. cbn in Hs, Hk. unfold kept_export in Hk. inv_casts. cbn in Ha.
  destruct Ha as (old & Hold & Hkind & Hcr). rename x0 into fj, x1 into tu.
  match goal with |- context [UpdateExportJob ?r] => set (job' := r) end.
  set (g := fun r : ExportRow => r <| kp_status := job.(x_status) |> <| kp_filter_json := fj |>
    <| kp_max_export := job.(x_maxExport) |> <| kp_result_ndjson := job.(x_resultNdjson) |>
    <| kp_error := job.(x_error) |> <| kp_updated_at := tu |>).
  eapply (outcome_execute _ _ _ _ (Pg.setExports ((fun r => if keyed kp_id job.(x_jobId) r then g r else r) <$>
    w.(pw_db).(pg_exports)) w.(pw_db))).
  { rewrite H0, H1. cbn. assert (maxExportCheck job.(x_maxExport) = inr tt) as ->; [|by destruct (existsb _ _)].
    unfold maxExportCheck. destruct Hs as [H1' H2']. apply Nat.leb_le in H1', H2'. by rewrite H1', H2'. }
  eexists. split; [done|]. pose proof (rep_exports _ _ _ Hrep) as Hj.
  pose proof (table_set kp_id rowToExportJob _ _ _ job.(x_jobId) job' g Hj (ex_intro _ _ Hold)) as Ht.
  rep_write Hrep. apply Ht. intros r Hr Hgr Hkey. pose proof (table_get _ _ _ _ _ r Hj Hr) as Hget.
  rewrite Hkey, Hold in Hget. injection Hget as ->. cbn in Hkind, Hcr. split_and!; [done|done|].
  unfold job', g, rowToExportJob. cbn. by rewrite Hkey, Hkind, Hcr.
Qed.
End refinement.
