(* ===== verification/PgListings.v ===== *)
(** The PostgreSQL repository implements the specification: the audit log with
    its pages and cursors, the events, the listings and the statistics. *)
From S2P Require Import Prelude JsString JsMap JsDate Json Types Config World Utils MemoryRepo RepoFacts Sql PgTables.
From S2P Require Import PgRepo RepoSpec PgSim PgStore PgEntities.

#[local] Arguments toISOString : simpl never.

(** * Windows of instants *)

Section windows.
Context (env : PgEnv).

Lemma iso_bound_inr o o' :
  in_years env o -> iso_bound env o = inr o' ->
  exists b, (if truthy o then timestamptz_opt env o else inr None) = inr b /\ years_opt b /\ o' = toIso <$> b.
Proof.
  intros Hy H. unfold iso_bound in H. destruct (truthy o) eqn:Ht.
  - inv_casts. exists x. split_and!; [done| |done]. by eapply in_years_opt.
  - injection H as <-. by exists None.
Qed.
(** [column >= from AND column <= to] is the window of the stored stamp. *)
Lemma between_inWindow from to from' to' :
  in_years env from -> in_years env to -> iso_bound env from = inr from' -> iso_bound env to = inr to' ->
  exists f, between env from to = inr f /\ forall t, iso_range t -> f t = inWindow from' to' (toIso t).
Proof.
  intros Hf Ht (lo & Hlo & Rlo & ->)%iso_bound_inr (hi & Hhi & Rhi & ->)%iso_bound_inr; [|done..].
  eexists. split; [unfold between; by rewrite Hlo, Hhi|]. intros t Rt. unfold inWindow. f_equal.
  - destruct lo as [a|]; [|done]. cbn [fmap option_fmap option_map default from_option id]. unfold toIso.
    rewrite toISOString_truthy, iso_lt by auto. apply Z.leb_antisym.
  - destruct hi as [b|]; [|done]. cbn [fmap option_fmap option_map default from_option id]. unfold toIso.
    rewrite toISOString_truthy, iso_lt by auto. apply Z.leb_antisym.
Qed.
End windows.

(** * Identifiers of one layout *)

#[export] Instance same_class_sym : Symmetric same_class.
Proof. intros x y [->|[]]; [by left|by right]. Qed.
Lemma same_layout_sym a b : same_layout a b -> same_layout b a.
Proof. unfold same_layout. intros H. apply Forall2_flip. eapply Forall2_impl; [exact H|]. intros ? ?. apply same_class_sym. Qed.
Lemma same_layout_refl a : same_layout a a.
Proof. unfold same_layout. induction (chars a); constructor; [by left|done]. Qed.

(** * Sorted lists *)

Lemma StronglySorted_sublist {A} (R : relation A) l k : sublist l k -> StronglySorted R k -> StronglySorted R l.
Proof.
  induction 1 as [|x l k Hlk IH|x l k Hlk IH]; intros Hk; [done|..]; apply StronglySorted_inv in Hk as [Hk Hx].
  - constructor; [auto|]. rewrite Forall_forall in *. intros y Hy. apply Hx. exact (sublist_subseteq _ _ Hlk y Hy).
  - auto.
Qed.
(** A condition that stays true along a sorted list selects its rest. *)
Lemma filter_rest {A} (R : relation A) (P : A -> bool) (l : list A) :
  StronglySorted R l -> (forall x y, x ∈ l -> y ∈ l -> R x y -> P x = true -> P y = true) ->
  filter (fun x => P x) l = drop (match list_find (fun x => P x) l with Some (i, _) => i | None => length l end) l.
Proof.
  intros Hs. induction Hs as [|x l Hs IH Hx]; intros HP; [done|]. rewrite filter_cons. cbn [list_find].
  destruct (P x) eqn:E; cbn [Is_true].
  - rewrite !decide_True by done. cbn [drop]. f_equal. rewrite <-(filter_true l) at 2. apply filter_bool_ext.
    intros y Hy. rewrite Forall_forall in Hx. eapply (HP x y); [by left|by right|by apply Hx|done].
  - rewrite !decide_False by auto. rewrite IH by (intros; eapply HP; eauto; by right).
    by destruct (list_find _ l) as [[i y]|].
Qed.

Section refinement.
Context (legacy : string -> option Z) (env : PgEnv) (Hsound : pg_sound env).
Notation PgW := (PgWorld PgDb).
Notation implements := (implements legacy env).

#[local] Instance auditRowOrder_total : TotalCmp (Pg.auditRowOrder env).
Proof using Hsound. apply then_total; [apply _|]. apply asc_total, (ps_total env Hsound). Qed.

Section audits.
Context (w : PgW) (db : Db) (Hrep : represents env w db).
Let rows := w.(pw_db).(pg_audits).

Lemma audit_row a : a ∈ db.(audits) -> exists r, r ∈ rows /\ a = rowToAudit r.
Proof using Hrep. rewrite (rep_audits _ _ _ Hrep). intros (r & -> & Hr)%list_elem_of_fmap. by exists r. Qed.
Lemma audit_range r : r ∈ rows -> iso_range r.(ka_created_at).
Proof using Hrep. intros Hr. by apply (proj1 (Forall_forall _ _) (rep_auditRows _ _ _ Hrep)). Qed.
Lemma auditRowOrder_spec x y :
  x ∈ rows -> y ∈ rows -> Pg.auditRowOrder env x y = auditOrder (rowToAudit x) (rowToAudit y).
Proof using Hrep Hsound.
  intros Hx Hy. unfold Pg.auditRowOrder, auditOrder, then_by, by_asc, asc.
  cbn [rowToAudit a_createdAt a_id]. unfold toIso. rewrite iso_localeCompare by by apply audit_range.
  rewrite (ps_layout env Hsound) by by apply (rep_auditLayout _ _ _ Hrep). done.
Qed.
(** The order leaves no choice. *)
Lemma audits_unique l1 l2 :
  (forall a, a ∈ l1 -> a ∈ db.(audits)) -> StronglySorted (cmp_le auditOrder) l1 ->
  StronglySorted (cmp_le auditOrder) l2 -> l1 ≡ₚ l2 -> l1 = l2.
Proof using Hrep Hsound.
  intros Hin Hs1 Hs2 Hp. apply (StronglySorted_unique_strong (cmp_le auditOrder)); [|done..].
  intros a b Ha Hb Hab Hba. rewrite <-Hp in Hb.
  destruct (audit_row a (Hin a Ha)) as (r & Hr & ->), (audit_row b (Hin b Hb)) as (r' & Hr' & ->).
  f_equal. unfold cmp_le in Hab, Hba. rewrite (tc_anti (cmp := auditOrder) (rowToAudit r)) in Hba.
  assert (auditOrder (rowToAudit r) (rowToAudit r') = Eq) as E by by destruct (auditOrder _ _).
  unfold auditOrder, then_by, by_asc, asc in E. cbn [rowToAudit a_createdAt a_id] in E.
  destruct (localeCompare (toIso _) _); try done.
  rewrite localeCompare_layout in E by by apply (rep_auditLayout _ _ _ Hrep).
  apply lex_compare_eq, (inj codes) in E.
  pose proof (rep_auditIds _ _ _ Hrep) as Hnd. fold rows in Hnd.
  apply list_elem_of_lookup in Hr as [i Hi], Hr' as [j Hj].
  assert (i = j) as ->; [|congruence].
  eapply (NoDup_lookup _ i j r.(ka_id) Hnd); rewrite list_lookup_fmap; [by rewrite Hi|by rewrite Hj, E].
Qed.
Lemma arranged_audits (p : AuditRow -> bool) (q : AuditLog -> bool) l :
  (forall r, r ∈ rows -> p r = q (rowToAudit r)) ->
  arranged (Pg.auditRowOrder env) (filter (fun r => p r) rows) l ->
  map rowToAudit l ≡ₚ filter (fun a => q a) db.(audits) /\ StronglySorted (cmp_le auditOrder) (map rowToAudit l).
Proof using Hrep Hsound.
  intros Hpq [Hl Hs]. split.
  - change (map rowToAudit l) with (rowToAudit <$> l). rewrite Hl, (rep_audits _ _ _ Hrep).
    by rewrite (filter_map_bool rowToAudit p q).
  - eapply StronglySorted_map_rel; [|exact Hs]. intros x y Hx Hy. rewrite Hl in Hx, Hy.
    apply list_elem_of_filter in Hx as [_ Hx], Hy as [_ Hy]. unfold cmp_le. by rewrite auditRowOrder_spec.
Qed.
(** The rows that the statement gives are the listing. *)
Lemma listing_rows (p : AuditRow -> bool) f l :
  (forall r, r ∈ rows -> p r = auditFilter f (rowToAudit r)) ->
  arranged (Pg.auditRowOrder env) (filter (fun r => p r) rows) l -> map rowToAudit l = filteredAudits f db.(audits).
Proof using Hrep Hsound.
  intros Hp Hl. destruct (arranged_audits p (auditFilter f) l Hp Hl) as [Hperm Hs].
  apply audits_unique; [|done|apply (js_sort_total auditOrder)|].
  - intros a Ha. rewrite Hperm in Ha. by apply list_elem_of_filter in Ha as [_ ?].
  - by rewrite Hperm, filteredAudits_perm.
Qed.
Lemma bindings_spec f f' :
  in_years env f.(af_from) -> in_years env f.(af_to) -> kept_auditFilter env f = inr f' ->
  exists p, Pg.auditFilterBindings f env = inr p /\ forall r, r ∈ rows -> p r = auditFilter f' (rowToAudit r).
Proof using Hrep.
  intros Hf Ht Hk. unfold kept_auditFilter in Hk. inv_casts.
  match goal with Ha : iso_bound env f.(af_from) = inr _, Hb : iso_bound env f.(af_to) = inr _ |- _ =>
    destruct (between_inWindow env _ _ _ _ Hf Ht Ha Hb) as (win & Hw & Hwin) end.
  eexists. split; [unfold Pg.auditFilterBindings; by rewrite Hw|]. intros r Hr. unfold auditFilter. cbn.
  by rewrite Hwin by by apply audit_range.
Qed.

(** ** Cursors *)

Context (t : Z) (id : string) (Ht : iso_range t) (Hid : forall a, a ∈ db.(audits) -> same_layout id a.(a_id)).
Let dec := mkCursor (toISOString t) id.

Lemma afterCursor_row r : r ∈ rows -> Pg.afterCursorRow env t id r = afterCursor dec (rowToAudit r).
Proof using Hrep Hsound Ht Hid.
  intros Hr. pose proof (audit_range r Hr) as Hc. unfold Pg.afterCursorRow, afterCursor.
  cbn [dec cur_createdAt cur_id rowToAudit a_createdAt a_id]. unfold toIso.
  rewrite iso_lt by done. f_equal. f_equal.
  - destruct (Z.eqb_spec t (ka_created_at r)) as [->|Hne]; [by rewrite bool_decide_eq_true_2|].
    rewrite bool_decide_eq_false_2; [done|]. intros E. apply Hne.
    pose proof (iso_compare _ _ Hc Ht) as E2. rewrite E in E2. unfold str_compare in E2. rewrite lex_compare_refl in E2.
    symmetry in E2. by apply Z.compare_eq in E2.
  - assert (same_layout id r.(ka_id)) as Hl.
    { apply (Hid (rowToAudit r)). rewrite (rep_audits _ _ _ Hrep). apply list_elem_of_fmap. by exists r. }
    rewrite (ps_layout env Hsound), localeCompare_layout by done. unfold str_lt. by destruct (str_compare _ _).
Qed.
(** The cursor as a row of the order. *)
Definition cursor_row : AuditRow := mkAuditRow id "" "" "" "" None None None t.
Lemma afterCursor_order r : Pg.afterCursorRow env t id r = bool_decide (Pg.auditRowOrder env cursor_row r = Lt).
Proof using Type.
  unfold Pg.afterCursorRow, Pg.auditRowOrder, then_by, asc. cbn [cursor_row ka_created_at ka_id].
  destruct (Z.compare_spec t (ka_created_at r)) as [E|E|E].
  - rewrite E, Z.ltb_irrefl, Z.eqb_refl. by destruct (pe_collate env id (ka_id r)).
  - by rewrite (proj2 (Z.ltb_lt _ _) E).
  - rewrite (proj2 (Z.ltb_ge _ _)), (proj2 (Z.eqb_neq _ _)) by lia. done.
Qed.
Lemma lt_le_trans {A} (cmp : A -> A -> comparison) `{!TotalCmp cmp} c x y :
  cmp c x = Lt -> cmp_le cmp x y -> cmp c y = Lt.
Proof using Type.
  intros Hlt Hle. destruct (cmp c y) eqn:E; [|done|]; exfalso; apply (tc_trans (cmp := cmp) x y c Hle); unfold cmp_le;
    rewrite ?(tc_anti (cmp := cmp) c), ?E, ?Hlt; done.
Qed.
Lemma afterCursor_closed f a b :
  a ∈ filteredAudits f db.(audits) -> b ∈ filteredAudits f db.(audits) -> cmp_le auditOrder a b ->
  afterCursor dec a = true -> afterCursor dec b = true.
Proof using Hrep Hsound Ht Hid.
  intros Ha%elem_of_filteredAudits Hb%elem_of_filteredAudits Hle.
  destruct (audit_row a Ha) as (r & Hr & ->), (audit_row b Hb) as (r' & Hr' & ->).
  rewrite <-!afterCursor_row, !afterCursor_order, !bool_decide_eq_true by done. intros Hlt.
  eapply (lt_le_trans (Pg.auditRowOrder env)); [exact Hlt|]. unfold cmp_le. by rewrite auditRowOrder_spec.
Qed.
Lemma cursor_rows (p : AuditRow -> bool) f l :
  (forall r, r ∈ rows -> p r = auditFilter f (rowToAudit r)) ->
  arranged (Pg.auditRowOrder env) (filter (fun r => p r && Pg.afterCursorRow env t id r) rows) l ->
  map rowToAudit l = drop (startAfter dec (filteredAudits f db.(audits))) (filteredAudits f db.(audits)).
Proof using Hrep Hsound Ht Hid legacy.
  intros Hp Hl.
  destruct (arranged_audits (fun r => p r && Pg.afterCursorRow env t id r)
    (fun a => auditFilter f a && afterCursor dec a) l) as [Hperm Hs]; [|exact Hl|].
  { intros r Hr. by rewrite Hp, afterCursor_row. }
  pose proof (js_sort_total auditOrder (filter (fun a => auditFilter f a) db.(audits))) as HsF.
  change (js_sort auditOrder _) with (filteredAudits f db.(audits)) in HsF.
  unfold startAfter. rewrite <-(filter_rest (cmp_le auditOrder) (afterCursor dec) _ HsF (afterCursor_closed f)).
  apply audits_unique; [|done|eapply StronglySorted_sublist, HsF; apply sublist_filter|].
  - intros a Ha. rewrite Hperm in Ha. by apply list_elem_of_filter in Ha as [_ ?].
  - rewrite Hperm, filteredAudits_perm, list_filter_filter.
    rewrite (list_filter_iff _ (fun x => afterCursor dec x /\ auditFilter f x)); [done|].
    intros a. destruct (auditFilter f a), (afterCursor dec a); naive_solver.
Qed.
End audits.

Lemma refines_listAudits f op' w db :
  represents env w db -> sendable env (ListAudits f) -> kept legacy env (ListAudits f) = inr op' ->
  outcome env (implements op' db) w (Pg.listAudits f env w).
Proof using Hsound.
  intros Hrep [Hf Ht] Hk. cbn in Hk. inv_casts. destruct (bindings_spec w db Hrep f x Hf Ht H) as (p & Hp & Hspec).
  apply (outcome_map env (map rowToAudit)). eapply outcome_select_by; [done|exact Hp|apply _|]. intros l Hl.
  eapply implements_read; [done|done|cbn; lia|]. split; [|done]. by eapply listing_rows.
Qed.
Lemma refines_auditsPage f params op' w db :
  represents env w db -> sendable env (ListAuditsPage f params) -> kept legacy env (ListAuditsPage f params) = inr op' ->
  outcome env (implements op' db) w (Pg.listAuditsPage f params env w).
Proof using Hsound.
  intros Hrep [Hf Ht] Hk. cbn in Hk. inv_casts. destruct (bindings_spec w db Hrep f x Hf Ht H) as (p & Hp & Hspec).
  eapply (outcome_page env Hsound pg_audits rowToAudit w p _ Hp _ auditOrder (filter (fun a => auditFilter x a) db.(audits))); [apply _| | |].
  - intros r r' [_ Hr]%list_elem_of_filter [_ Hr']%list_elem_of_filter.
    unfold cmp_le. by rewrite (auditRowOrder_spec w db Hrep).
  - rewrite (rep_audits _ _ _ Hrep). by rewrite (filter_map_bool rowToAudit p (auditFilter x)).
  - intros a w' (l & [Hl Hs] & ->) Hdb Hn. eapply implements_read; [exact Hrep|done|done|]. split; [|done].
    f_equal. eapply (audits_unique w db Hrep).
    + intros a Ha. rewrite Hl in Ha. by apply list_elem_of_filter in Ha as [_ ?].
    + done.
    + apply (js_sort_total auditOrder).
    + by rewrite Hl, filteredAudits_perm.
Qed.
Lemma keysetOf_page limit start l F : l = take (limit + 1) (drop start F) -> Pg.keysetOf limit l = keysetPage F start limit.
Proof. by intros ->. Qed.
Lemma refines_afterCursor f limit cursor op' w db :
  represents env w db -> sendable env (ListAuditsAfterCursor f limit cursor) ->
  kept legacy env (ListAuditsAfterCursor f limit cursor) = inr op' -> accepted db op' ->
  outcome env (implements op' db) w (Pg.listAuditsAfterCursor f limit cursor env w).
Proof using Hsound.
  intros Hrep (Hf & Ht & Hcur) Hk Ha. cbn [kept] in Hk. inv_casts. cbn [accepted] in Ha.
  rename x0 into f'. match goal with H : kept_auditFilter env f = inr f' |- _ => rename H into Hkf end.
  destruct (bindings_spec w db Hrep f f' Hf Ht Hkf) as (p & Hp & Hspec).
  unfold Pg.listAuditsAfterCursor.
  assert (forall (q : AuditRow -> bool) after start,
    Pg.keysetRows f after env = inr q ->
    (forall l, arranged (Pg.auditRowOrder env) (filter (fun r => q r) w.(pw_db).(pg_audits)) l ->
       map rowToAudit l = drop start (filteredAudits f' db.(audits))) ->
    keyset f' limit cursor db = Some (keysetPage (filteredAudits f' db.(audits)) start limit) ->
    outcome env (implements (ListAuditsAfterCursor f' limit cursor) db) w
      ((query (fun env n db => r <~ select_by pg_audits Pg.auditRowOrder (Pg.keysetRows f after) env n db;
                 inr (take (limit + 1) r.1, db)) ≫= fun rows => mret (Pg.keysetOf limit (map rowToAudit rows))) env w))
    as Hpage.
  { intros q after start Hq Hl Hks. apply (outcome_map env (fun rows => Pg.keysetOf limit (map rowToAudit rows))).
    eapply outcome_query; [unfold select_by, select; rewrite Hq; done|].
    eapply implements_read; [exact Hrep|done|cbn; lia|]. split; [|done]. rewrite Hks. f_equal.
    symmetry. apply keysetOf_page. cbn [fst]. rewrite <-(Hl (js_sort (Pg.auditRowOrder env)
      (filter (fun r => q r) (pe_scan env AuditRow w.(pw_n) w.(pw_db).(pg_audits))))).
    - apply (fmap_take rowToAudit).
    - split; [by rewrite js_sort_perm, (ps_scan env Hsound)|apply (js_sort_total (Pg.auditRowOrder env))]. }
  destruct (nonempty cursor) as [c|] eqn:Hc.
  - destruct (decodeAuditCursor c) as [[cr id]|] eqn:Hd; [|done].
    destruct (Hcur c _ eq_refl Hd) as (t & Htr & Ecr). cbn in Ecr. subst cr.
    apply (Hpage (fun r => p r && Pg.afterCursorRow env t id r) _ (startAfter (mkCursor (toISOString t) id)
      (filteredAudits f' db.(audits)))).
    + unfold Pg.keysetRows. rewrite Hp. cbn [sum_bind cur_createdAt]. rewrite (proj2 (timestamptz_inr _ _ t)); [done|].
      by apply ps_iso.
    + intros l Hl. eapply (cursor_rows w db Hrep t id Htr); [|exact Hspec|exact Hl].
      intros a Hin. exact (Ha c _ a eq_refl Hd Hin).
    + unfold keyset. by rewrite Hc, Hd.
  - apply (Hpage p None 0); [unfold Pg.keysetRows; by rewrite Hp| |unfold keyset; by rewrite Hc].
    intros l Hl. by eapply listing_rows.
Qed.
Lemma refines_appendAudit log op' w db :
  represents env w db -> sendable env (AppendAudit log) -> kept legacy env (AppendAudit log) = inr op' ->
  accepted db op' -> outcome env (implements op' db) w (Pg.appendAudit log env w).
Proof.
  intros Hrep Hs Hk Ha. cbn in Hs, Hk. inv_casts. cbn in Ha. rename H into Hv.
  assert (iso_range x.(ka_created_at)) as Hg.
  { unfold auditValues in Hv. inv_casts. by eapply in_years_stamp. }
  assert (forall r, r ∈ w.(pw_db).(pg_audits) -> r.(ka_id) <> x.(ka_id) /\ same_layout r.(ka_id) x.(ka_id)) as Hold.
  { intros r Hr. apply (Ha (rowToAudit r)). rewrite (rep_audits _ _ _ Hrep). apply list_elem_of_fmap. by exists r. }
  eapply (outcome_execute _ _ _ _ (Pg.setAudits (w.(pw_db).(pg_audits) ++ [x]) w.(pw_db))).
  { rewrite Hv. cbn. unfold insert_into. cbn. assert (existsb (Pg.same ka_id x) w.(pw_db).(pg_audits) = false) as ->; [|done].
    apply not_true_is_false. intros (r & Hr%list_elem_of_In & E)%existsb_exists. apply bool_decide_eq_true in E.
    by apply (Hold r Hr). }
  eexists. split; [done|]. destruct Hrep. constructor; cbn; try done; try by apply rep_ids_later.
  - by rewrite rep_audits, fmap_app.
  - rewrite fmap_app. apply NoDup_app. split_and!; [done| |apply NoDup_singleton].
    intros i (r & -> & Hr)%list_elem_of_fmap Hi%list_elem_of_singleton. by apply (Hold r Hr).
  - apply Forall_app. by split; [|constructor].
  - intros r r' [Hr|Hr%list_elem_of_singleton]%elem_of_app [Hr'|Hr'%list_elem_of_singleton]%elem_of_app; subst; auto.
    + by apply Hold.
    + apply same_layout_sym. by apply Hold.
    + apply same_layout_refl.
Qed.
Lemma refines_appendEvent ev op' w db :
  represents env w db -> kept legacy env (AppendEvent ev) = inr op' -> accepted db op' ->
  outcome env (implements op' db) w (Pg.appendEvent ev env w).
Proof.
  intros Hrep Hk Ha. cbn in Hk. inv_casts. cbn in Ha. rename H into Hv.
  eapply (outcome_execute _ _ _ _ (Pg.setEvents (w.(pw_db).(pg_events) ++ [x]) w.(pw_db))).
  { rewrite Hv. cbn. unfold insert_into. cbn. assert (existsb (Pg.same kl_event_id x) w.(pw_db).(pg_events) = false) as ->; [|done].
    apply not_true_is_false. intros (r & Hr%list_elem_of_In & E)%existsb_exists. apply bool_decide_eq_true in E.
    apply (Ha (rowToEvent r)); [|done]. rewrite (rep_events _ _ _ Hrep). apply list_elem_of_fmap. by exists r. }
  eexists. split; [done|]. rep_write Hrep. by rewrite rep_events, fmap_app.
Qed.
Lemma refines_listEvents f w db :
  represents env w db -> outcome env (implements (ListEvents f) db) w (Pg.listEvents f env w).
Proof using Hsound.
  intros Hrep. apply (outcome_map env (map rowToEvent)). eapply outcome_select_by; [done|done|apply _|]. intros l [Hl _].
  eapply implements_read; [done|done|cbn; lia|]. split; [|done].
  change (map rowToEvent l) with (rowToEvent <$> l). rewrite Hl, (rep_events _ _ _ Hrep).
  rewrite (filter_map_bool rowToEvent (fun r => flt_eq f.(ef_entityType) r.(kl_entity_type)
    && flt_eq f.(ef_entityId) r.(kl_entity_id) && flt_eq f.(ef_eventType) r.(kl_event_type)) (eventFilter f)); done.
Qed.
End refinement.

(** The PostgreSQL repository implements the specification: pages, statistics
    and reports, and the settlements. *)

#[local] Arguments toISOString : simpl never.

Lemma same_counts_trans a b c : same_counts a b -> same_counts b c -> same_counts a c.
Proof. intros H1 H2 k. by rewrite H1. Qed.
Lemma list_filter_bool {A} (P : A -> Prop) `{!forall x, Decision (P x)} (l : list A) :
  filter P l = filter (fun x => bool_decide (P x)) l.
Proof. apply list_filter_iff. intros x. by rewrite bool_decide_spec. Qed.

Section refinement.
Context (legacy : string -> option Z) (env : PgEnv) (Hsound : pg_sound env).
Notation PgW := (PgWorld PgDb).
Notation implements := (implements legacy env).

(** ** Pages *)

Lemma refines_page {R V} (op : Op (Paginated V)) (tbl : PgDb -> list R) (key : R -> string) rowTo good m
    (p : PgEnv -> string + (R -> bool)) (f : R -> bool) (q : V -> bool) cmp (cmpV : V -> V -> comparison) params w db
    `{!TotalCmp (cmp env)} :
  represents env w db -> table key rowTo good (tbl w.(pw_db)) m -> p env = inr f ->
  (forall r, r ∈ tbl w.(pw_db) -> good r -> f r = q (rowTo r)) ->
  (forall x y, good x -> good y -> cmp_le (cmp env) x y -> cmp_le cmpV (rowTo x) (rowTo y)) ->
  (forall a, paged cmpV (filter (fun v => q v) (jm_values m)) params a -> spec legacy op db a db) ->
  outcome env (implements op db) w (Pg.page tbl rowTo p cmp params env w).
Proof using Hsound.
  intros Hrep Ht Hp Hf Hc Hs.
  eapply (outcome_page env Hsound tbl rowTo w f p Hp cmp cmpV (filter (fun v => q v) (jm_values m))); [apply _| | |].
  - intros x y [_ Hx]%list_elem_of_filter [_ Hy]%list_elem_of_filter. apply Hc; by eapply table_good.
  - symmetry. by eapply table_filter.
  - intros a w' Ha Hdb Hn. eapply implements_read; eauto.
Qed.
Lemma refines_contractsPage f params op' w db :
  represents env w db -> sendable env (ListContractsPage f params) ->
  kept legacy env (ListContractsPage f params) = inr op' ->
  outcome env (implements op' db) w (Pg.listContractsPage f params env w).
Proof using Hsound.
  intros Hrep [Hf Ht] Hk. cbn [kept] in Hk. inv_casts.
  destruct (between_inWindow env _ _ _ _ Hf Ht H H0) as (win & Hw & Hwin).
  eapply (refines_page _ pg_contracts kc_id rowToContract _ _ _ _ (contractFilter
    (mkContractFilter f.(cf_status) f.(cf_tenantId) f.(cf_landlordId) x x0)) _ (by_desc c_updatedAt));
    [apply _|exact Hrep|apply Hrep|unfold Pg.contractWhere; by rewrite Hw| | |].
  - intros r _ Hg. unfold contractFilter. cbn. by rewrite Hwin.
  - intros r r' Hr Hr'. by apply by_desc_time.
  - by split.
Qed.
Lemma refines_disputesPage f params op' w db :
  represents env w db -> sendable env (ListDisputesPage f params) ->
  kept legacy env (ListDisputesPage f params) = inr op' ->
  outcome env (implements op' db) w (Pg.listDisputesPage f params env w).
Proof using Hsound.
  intros Hrep [Hf Ht] Hk. cbn [kept] in Hk. inv_casts.
  destruct (between_inWindow env _ _ _ _ Hf Ht H H0) as (win & Hw & Hwin).
  eapply (refines_page _ pg_disputes kd_id rowToDispute _ _ _ _ (disputeFilter
    (mkDisputeFilter f.(df_contractId) f.(df_status) x x0)) _ (by_desc d_updatedAt));
    [apply _|exact Hrep|apply Hrep|unfold Pg.disputeWhere; by rewrite Hw| | |].
  - intros r _ [_ Hg]. unfold disputeFilter. cbn. by rewrite Hwin.
  - intros r r' [_ Hr] [_ Hr']. by apply by_desc_time.
  - by split.
Qed.
Lemma flt_eq_opt_text f o : flt_eq_opt f o = flt_eq_opt f (text_col o).
Proof.
  destruct f as [s|]; [|done]. unfold flt_eq_opt, text_col, nonempty, truthy.
  destruct o as [a|]; [|done]. destruct (decide (a = "")) as [->|Ha].
  - change (negb (bool_decide ("" = ""))) with false. cbn [negb].
    destruct (decide (s = "")) as [->|Hs]; [by rewrite bool_decide_eq_true_2|].
    by rewrite !bool_decide_eq_false_2 by congruence.
  - by rewrite (bool_decide_eq_false_2 (a = "")) by done.
Qed.
Lemma refines_xrplPage f params w db :
  represents env w db -> outcome env (implements (ListXrplTxsPage f params) db) w (Pg.listXrplTxsPage f params env w).
Proof using Hsound.
  intros Hrep. eapply (refines_page _ pg_xrplTxs kx_tx_hash rowToXrpl _ _ _ _ (xrplTxFilter f) _ (by_desc x_lastCheckedAt));
    [apply _|exact Hrep|apply Hrep|done| | |].
  - intros r _ _. unfold Pg.xrplTxWhere, xrplTxFilter. by rewrite flt_eq_opt_text.
  - intros r r' [Hr _] [Hr' _]. by apply by_desc_time.
  - by split.
Qed.
Lemma refines_outboxPage f params w db :
  represents env w db ->
  outcome env (implements (ListNotificationOutboxPage f params) db) w (Pg.listNotificationOutboxPage f params env w).
Proof using Hsound.
  intros Hrep. eapply (refines_page _ pg_outbox ko_id rowToNotificationOutbox _ _ _ _ (outboxFilter f) _ (by_desc o_createdAt));
    [apply _|exact Hrep|apply Hrep|done|done| |].
  - intros r r' [Hr _] [Hr' _]. by apply by_desc_time.
  - by split.
Qed.
#[local] Instance settlementRowOrder_total : TotalCmp (Pg.settlementRowOrder env).
Proof using Hsound. apply then_total; [apply _|]. apply then_total; [apply _|]. apply asc_total, (ps_total env Hsound). Qed.
Lemma settlement_defaults r : withSettlementDefaults (rowToSettlement r) = rowToSettlement r.
Proof. done. Qed.
Lemma settlement_values (l : list SettlementRecord) rows :
  l ≡ₚ rowToSettlement <$> rows -> withSettlementDefaults <$> l ≡ₚ l.
Proof. intros ->. by rewrite <-list_fmap_compose. Qed.
Lemma refines_settlementsPage f params w db :
  represents env w db ->
  outcome env (implements (ListSettlementsPage f params) db) w (Pg.listSettlementsPage f params env w).
Proof using Hsound.
  intros Hrep. pose proof (rep_settlements _ _ _ Hrep) as Ht.
  eapply (refines_page _ pg_settlements ks_id rowToSettlement _ _ _ _ (settlementFilter f) _ monthOrder);
    [apply _|exact Hrep|exact Ht|done|done| |].
  - intros x y _ _. unfold cmp_le, Pg.settlementRowOrder, monthOrder, then_by, desc. cbn.
    destruct (ks_period_year y ?= ks_period_year x)%Z; [|done..]. by destruct (ks_period_month y ?= ks_period_month x)%Z.
  - intros a (l & [Hl Hs] & ->). split; [done|]. exists l. split; [|done]. split; [|done].
    rewrite Hl. by rewrite (settlement_values _ _ (table_values _ _ _ _ _ Ht)).
Qed.

(** ** Statistics *)

Lemma counted_rows {R V} (key : R -> string) (rowTo : R -> V) good rows m (f : R -> bool) (q : V -> bool) kR kV c :
  table key rowTo good rows m -> (forall r, r ∈ rows -> good r -> f r = q (rowTo r)) -> (forall r, kR r = kV (rowTo r)) ->
  same_counts c (countBy kR (filter (fun r => f r) rows)) -> same_counts c (countBy kV (filter (fun v => q v) (jm_values m))).
Proof.
  intros Ht Hf Hk Hc. eapply same_counts_trans; [exact Hc|].
  rewrite (countBy_map rowTo kR kV) by auto. apply countBy_perm. symmetry. by eapply table_filter.
Qed.
Lemma counted_all {R V} (key : R -> string) (rowTo : R -> V) good rows m kR kV c :
  table key rowTo good rows m -> (forall r, kR r = kV (rowTo r)) ->
  same_counts c (countBy kR (filter (fun _ => true) rows)) -> same_counts c (countBy kV (jm_values m)).
Proof.
  intros Ht Hk Hc. rewrite <-(filter_true (jm_values m)).
  by eapply (counted_rows key rowTo good rows m (fun _ => true) (fun _ => true)).
Qed.
(** A count that does not change the database, before the rest of the method. *)
Lemma outcome_group_bind {R B} (tbl : PgDb -> list R) key (k : JsMap Z -> Pg.Pg B) (P : B -> PgW -> Prop) w :
  (forall c w', same_counts c (countBy key (filter (fun _ => true) (tbl w.(pw_db)))) -> w'.(pw_db) = w.(pw_db) ->
     w.(pw_n) <= w'.(pw_n) -> outcome env P w' (k c env w')) ->
  outcome env P w ((Pg.group_count tbl key Pg.every_row ≫= k) env w).
Proof using Hsound.
  intros Hk. apply (outcome_bind env _ _ (fun c => same_counts c (countBy key (filter (fun _ => true) (tbl w.(pw_db)))))); [|auto].
  by eapply outcome_group_count; [exact Hsound|done|].
Qed.
Lemma outcome_stats (P : OperatorStatsSummary -> PgW -> Prop) w db :
  represents env w db ->
  (forall a w', same_stats a (operatorStats db) -> w'.(pw_db) = w.(pw_db) -> w.(pw_n) <= w'.(pw_n) -> P a w') ->
  outcome env P w (Pg.getOperatorStatsSummary env w).
Proof using Hsound.
  intros Hrep HP. unfold Pg.getOperatorStatsSummary.
  apply outcome_group_bind. intros c1 w1 H1 E1 N1.
  apply outcome_group_bind. intros c2 w2 H2 E2 N2. rewrite E1 in H2, E2.
  apply outcome_group_bind. intros c3 w3 H3 E3 N3. rewrite E2 in H3, E3.
  apply outcome_group_bind. intros c4 w4 H4 E4 N4. rewrite E3 in H4, E4.
  apply (outcome_bind env _ _ (fun n => n = length (w.(pw_db).(pg_evidences)))).
  { eapply outcome_count; [exact Hsound|done|]. cbn. by rewrite filter_true, E4. }
  intros n w5 -> E5 N5. rewrite E4 in E5.
  apply (outcome_map env (fun c => mkStats c1 c2 c3 c4 _ c)).
  eapply outcome_group_count; [exact Hsound|done|]. intros c6 H6. rewrite E5 in H6.
  apply HP; cbn; [|done|lia]. unfold operatorStats. split_and!; cbn.
  - by eapply counted_all; [apply Hrep| |exact H1].
  - by eapply counted_all; [apply Hrep| |exact H2].
  - by eapply counted_all; [apply Hrep| |exact H3].
  - by eapply counted_all; [apply Hrep| |exact H4].
  - pose proof (table_values _ _ _ _ _ (rep_evidences _ _ _ Hrep)) as Hv. apply Permutation_length in Hv.
    unfold jm_values in Hv. rewrite !length_fmap in Hv. by unfold jm_size.
  - by eapply counted_all; [apply Hrep| |exact H6].
Qed.
Lemma refines_stats w db :
  represents env w db -> outcome env (implements GetOperatorStatsSummary db) w (Pg.getOperatorStatsSummary env w).
Proof using Hsound.
  intros Hrep. eapply outcome_stats; [exact Hrep|]. intros a w' Ha E N.
  eapply implements_read; [exact Hrep|done|done|]. by split.
Qed.

(** ** Reports *)

Lemma null_or_eq_flt o s : o <> Some "" -> Pg.null_or_eq o s = flt_eq o s.
Proof.
  intros Ho. destruct o as [x|]; [|done]. unfold Pg.null_or_eq, flt_eq.
  by rewrite (bool_decide_eq_false_2 (x = "")) by congruence.
Qed.
Lemma party_scope p c :
  p.(rp_tenantId) <> Some "" -> p.(rp_landlordId) <> Some "" -> Pg.party p c = contractScope p (rowToContract c).
Proof. intros. unfold Pg.party, contractScope. by rewrite !null_or_eq_flt. Qed.
Lemma joined_scope p w db id :
  represents env w db -> p.(rp_tenantId) <> Some "" -> p.(rp_landlordId) <> Some "" ->
  Pg.joined p w.(pw_db) id = contractInScope p db id.
Proof.
  intros Hrep Ht Hl. pose proof (rep_contracts _ _ _ Hrep) as Htab. unfold Pg.joined, contractInScope.
  destruct (jm_get id db.(contracts)) as [c|] eqn:E.
  - destruct (table_row _ _ _ _ _ _ _ Htab E) as (r & Hr & <- & <-). rewrite <-party_scope by done.
    destruct (Pg.party p r) eqn:Ep.
    + apply existsb_exists. exists r. split; [by apply list_elem_of_In|]. by rewrite Ep, bool_decide_eq_true_2.
    + apply not_true_is_false. intros (r' & Hr'%list_elem_of_In & Hk)%existsb_exists. bool_to_prop.
      rewrite (table_key_inj _ _ _ _ _ r' r Htab) in * by done. congruence.
  - apply not_true_is_false. intros (r & Hr%list_elem_of_In & Hk)%existsb_exists. bool_to_prop.
    pose proof (table_get _ _ _ _ _ r Htab Hr). congruence.
Qed.
Lemma scopedXrpl_spec p w db r :
  represents env w db -> p.(rp_tenantId) <> Some "" -> p.(rp_landlordId) <> Some "" ->
  Pg.scopedXrpl p w.(pw_db) r = xrplInScope p db (rowToXrpl r).
Proof.
  intros Hrep Ht Hl. unfold Pg.scopedXrpl, xrplInScope.
  assert (forall o : option string, o <> Some "" -> bool_decide (o = None) = negb (truthy o)) as Hnone.
  { intros [s|] Ho; [|done]. unfold truthy. rewrite (bool_decide_eq_false_2 (s = "")) by congruence. done. }
  rewrite !Hnone by done. rewrite <-negb_orb. destruct (truthy p.(rp_tenantId) || truthy p.(rp_landlordId)); [|done].
  cbn [negb orb]. cbn [rowToXrpl x_disputeId]. pose proof (rep_disputes _ _ _ Hrep) as Hd.
  unfold text_col, nonempty. destruct (kx_dispute_id r) as [did|].
  2: { cbn. apply not_true_is_false. intros (d & _ & Hk)%existsb_exists. bool_to_prop. done. }
  destruct (truthy (Some did)) eqn:Hdid.
  - rewrite Hdid. cbn [andb]. destruct (jm_get did db.(disputes)) as [d|] eqn:E.
    + destruct (table_row _ _ _ _ _ _ _ Hd E) as (dr & Hdr & <- & <-). cbn [rowToDispute d_contractId].
      rewrite <-(joined_scope p w db) by done. destruct (Pg.joined p (pw_db w) (kd_contract_id dr)) eqn:Ej.
      * apply existsb_exists. exists dr. split; [by apply list_elem_of_In|]. by rewrite bool_decide_eq_true_2.
      * apply not_true_is_false. intros (d' & Hd'%list_elem_of_In & Hk)%existsb_exists. bool_to_prop.
        assert (d' = dr) as -> by (eapply (table_key_inj _ _ _ _ _ _ _ Hd); [done..|congruence]). congruence.
    + apply not_true_is_false. intros (d' & Hd'%list_elem_of_In & Hk)%existsb_exists. bool_to_prop.
      pose proof (table_get _ _ _ _ _ d' Hd Hd'). congruence.
  - apply not_true_is_false. intros (d' & Hd'%list_elem_of_In & Hk)%existsb_exists. bool_to_prop.
    destruct (table_good _ _ _ _ _ d' Hd Hd') as [Hne _]. unfold truthy in Hdid. bool_to_prop. congruence.
Qed.
Lemma window_spec p :
  (forall s, p.(rp_from) = Some s -> written s) -> (forall s, p.(rp_to) = Some s -> written s) ->
  exists f, Pg.window p env = inr f /\ forall t, iso_range t -> f t = inWindow p.(rp_from) p.(rp_to) (toIso t).
Proof using Hsound.
  assert (forall o, (forall s, o = Some s -> written s) ->
    exists b, timestamptz_opt env o = inr b /\ years_opt b /\ o = toIso <$> b) as Hbound.
  { intros [s|] Hw; [|by exists None]. destruct (Hw s eq_refl) as (t & Ht & ->). exists (Some t). split_and!; [|by intros ? [= <-]|done].
    unfold timestamptz_opt. by rewrite (proj2 (timestamptz_inr _ _ t) (ps_iso env Hsound t Ht)). }
  intros (lo & Hlo & Rlo & Elo)%Hbound (hi & Hhi & Rhi & Ehi)%Hbound.
  eexists. split; [unfold Pg.window; by rewrite Hlo, Hhi|]. intros t Rt. unfold inWindow. rewrite Elo, Ehi. f_equal.
  - destruct lo as [x|]; [|done]. cbn [fmap option_fmap option_map default from_option id]. unfold toIso.
    rewrite toISOString_truthy, iso_lt by auto. apply Z.leb_antisym.
  - destruct hi as [x|]; [|done]. cbn [fmap option_fmap option_map default from_option id]. unfold toIso.
    rewrite toISOString_truthy, iso_lt by auto. apply Z.leb_antisym.
Qed.
Lemma outcome_joined_bind {R B} (tbl : PgDb -> list R) key (p : PgDb -> PgEnv -> string + (R -> bool)) (f : R -> bool) (k : JsMap Z -> Pg.Pg B) (P : B -> PgW -> Prop) w :
  p w.(pw_db) env = inr f ->
  (forall c w', same_counts c (countBy key (filter (fun r => f r) (tbl w.(pw_db)))) -> w'.(pw_db) = w.(pw_db) ->
     w.(pw_n) <= w'.(pw_n) -> outcome env P w' (k c env w')) ->
  outcome env P w ((Pg.joined_count tbl key p ≫= k) env w).
Proof using Hsound.
  intros Hp Hk. apply (outcome_bind env _ _ (fun c => same_counts c (countBy key (filter (fun r => f r) (tbl w.(pw_db)))))); [|auto].
  eapply outcome_query; [unfold select; rewrite Hp; done|]. cbn. split; [|done].
  apply countBy_perm. by rewrite (ps_scan env Hsound).
Qed.
Lemma scoped_contracts p (within : Z -> bool) c w db :
  represents env w db -> p.(rp_tenantId) <> Some "" -> p.(rp_landlordId) <> Some "" ->
  (forall t, iso_range t -> within t = inWindow p.(rp_from) p.(rp_to) (toIso t)) ->
  same_counts c (countBy (fun r => contractStatus_str r.(kc_status))
    (filter (fun r => within r.(kc_updated_at) && Pg.party p r) w.(pw_db).(pg_contracts))) ->
  same_counts c (sb_contractsByStatus (scopedReport p db)).
Proof.
  intros Hrep Ht Hl Hw Hc. eapply (counted_rows kc_id rowToContract); [apply Hrep| | |exact Hc]; [|done].
  intros r _ Hg. cbn beta. by rewrite party_scope, Hw, andb_comm.
Qed.
Lemma scoped_disputes p (within : Z -> bool) c w db :
  represents env w db -> p.(rp_tenantId) <> Some "" -> p.(rp_landlordId) <> Some "" ->
  (forall t, iso_range t -> within t = inWindow p.(rp_from) p.(rp_to) (toIso t)) ->
  same_counts c (countBy (fun r => disputeStatus_str r.(kd_status))
    (filter (fun r => within r.(kd_updated_at) && Pg.joined p w.(pw_db) r.(kd_contract_id)) w.(pw_db).(pg_disputes))) ->
  same_counts c (sb_disputesByStatus (scopedReport p db)).
Proof.
  intros Hrep Ht Hl Hw Hc. eapply (counted_rows kd_id rowToDispute); [apply Hrep| | |exact Hc]; [|done].
  intros r _ [_ Hg]. cbn beta. by rewrite (joined_scope p w db), Hw, andb_comm.
Qed.
Lemma scoped_settlements p (within : Z -> bool) c w db :
  represents env w db -> p.(rp_tenantId) <> Some "" -> p.(rp_landlordId) <> Some "" ->
  (forall t, iso_range t -> within t = inWindow p.(rp_from) p.(rp_to) (toIso t)) ->
  same_counts c (countBy (fun r => settlementStatus_str r.(ks_status))
    (filter (fun r => within r.(ks_updated_at) && Pg.joined p w.(pw_db) r.(ks_contract_id)) w.(pw_db).(pg_settlements))) ->
  same_counts c (sb_settlementsByStatus (scopedReport p db)).
Proof.
  intros Hrep Ht Hl Hw Hc. eapply (counted_rows ks_id rowToSettlement); [apply Hrep| | |exact Hc]; [|done].
  intros r _ [Hg _]. cbn beta. by rewrite (joined_scope p w db), Hw, andb_comm.
Qed.
Lemma scoped_xrpl p (within : Z -> bool) c w db :
  represents env w db -> p.(rp_tenantId) <> Some "" -> p.(rp_landlordId) <> Some "" ->
  (forall t, iso_range t -> within t = inWindow p.(rp_from) p.(rp_to) (toIso t)) ->
  same_counts c (countBy (fun r => trackingStatus_str r.(kx_tracking_status))
    (filter (fun r => within r.(kx_last_checked_at) && Pg.scopedXrpl p w.(pw_db) r) w.(pw_db).(pg_xrplTxs))) ->
  same_counts c (sb_xrplByTracking (scopedReport p db)).
Proof.
  intros Hrep Ht Hl Hw Hc. eapply (counted_rows kx_tx_hash rowToXrpl); [apply Hrep| | |exact Hc]; [|done].
  intros r _ [Hg _]. cbn beta. by rewrite (scopedXrpl_spec p w db), Hw.
Qed.
Lemma scoped_audits p (within : Z -> bool) w db :
  represents env w db ->
  (forall t, iso_range t -> within t = inWindow p.(rp_from) p.(rp_to) (toIso t)) ->
  length (filter (fun r => within r.(ka_created_at)) w.(pw_db).(pg_audits)) = sb_auditsCount (scopedReport p db).
Proof.
  intros Hrep Hw. cbn. rewrite (rep_audits _ _ _ Hrep).
  rewrite (filter_map_bool rowToAudit (fun r => within r.(ka_created_at))).
  - by rewrite length_fmap.
  - intros r Hr. by rewrite Hw by by apply (audit_range env w db Hrep).
Qed.
Lemma refines_report p op' w db :
  represents env w db -> sendable env (GetReportsSummary p) -> kept legacy env (GetReportsSummary p) = inr op' ->
  outcome env (implements op' db) w (Pg.getReportsSummary p env w).
Proof using Hsound.
  intros Hrep (Ht & Hl & Hfrom & Hto) Hk. cbn [kept] in Hk. inv_casts.
  destruct (window_spec p Hfrom Hto) as (win & Hwin & Hw). unfold Pg.getReportsSummary.
  apply (outcome_bind env _ _ (fun a => same_stats a (operatorStats db))); [by eapply outcome_stats|].
  intros g w0 Hg E0 N0. pose proof (rep_later _ _ _ _ Hrep E0 N0) as Hrep0. clear Hrep E0 N0.
  apply (outcome_joined_bind pg_contracts _ (fun _ env => within <~ Pg.window p env;
    inr (fun r => within r.(kc_updated_at) && Pg.party p r)) _ _ _ _ ltac:(cbn beta; by rewrite Hwin)).
  intros c1 w1 H1 E1 N1. pose proof (rep_later _ _ _ _ Hrep0 E1 N1) as Hrep1.
  eapply outcome_joined_bind; [cbn beta; by rewrite Hwin|]. intros c2 w2 H2 E2 N2. pose proof (rep_later _ _ _ _ Hrep1 E2 N2) as Hrep2.
  eapply outcome_joined_bind; [cbn beta; by rewrite Hwin|]. intros c3 w3 H3 E3 N3. pose proof (rep_later _ _ _ _ Hrep2 E3 N3) as Hrep3.
  eapply outcome_joined_bind; [cbn beta; by rewrite Hwin|]. intros c4 w4 H4 E4 N4. pose proof (rep_later _ _ _ _ Hrep3 E4 N4) as Hrep4.
  apply (outcome_bind env _ _ (fun n => n = sb_auditsCount (scopedReport p db))).
  { eapply outcome_count; [exact Hsound|cbn beta; by rewrite Hwin|]. cbn. split; [|done]. by apply (scoped_audits p win w4 db). }
  intros n w5 -> E5 N5. apply outcome_ask, outcome_ret.
  eapply implements_read; [exact Hrep4|done|done|]. split; [done|]. split; [done|]. split; [done|].
  split_and!; cbn [rs_scoped sb_contractsByStatus sb_disputesByStatus sb_settlementsByStatus sb_xrplByTracking sb_auditsCount];
    [by apply (scoped_contracts p win c1 w0 db)|by apply (scoped_disputes p win c2 w1 db)
    |by apply (scoped_settlements p win c3 w2 db)|by apply (scoped_xrpl p win c4 w3 db)|done].
Qed.
End refinement.
