(* ===== verification/PgMonths.v ===== *)
(** The PostgreSQL repository implements the specification: the settlements,
    saved one by one and touched month by month. *)
From S2P Require Import Prelude JsString JsMap JsDate Json Types Config World Utils MemoryRepo RepoFacts Sql PgTables.
From S2P Require Import PgRepo RepoSpec PgSim PgStore PgEntities.

#[local] Arguments toISOString : simpl never.

(** * The loop over the contracts *)

Section touching.
Context (p : TouchParams).
Definition month_id (cid : string) : string := settlementDeterministicId cid p.(tp_periodYear) p.(tp_periodMonth).
(** What one contract does to the settlement of its month, and to the map. *)
Definition touched_one (cid : string) (o : option SettlementRecord) : option SettlementRecord :=
  match touchSettlement p cid o with Some s => Some s | None => o end.
Definition touch (m : JsMap SettlementRecord) (cid : string) : JsMap SettlementRecord :=
  match touchSettlement p cid (jm_get (month_id cid) m) with Some s => jm_set (month_id cid) s m | None => m end.

Lemma touched_fold cs m n :
  (fold_left (touchStep p) cs (m, n)).1 = foldl touch m (c_id <$> filter (fun c => touchEligible c) cs).
Proof.
  revert m n. induction cs as [|c cs IH]; intros m n; [done|]. cbn [fold_left]. rewrite filter_cons.
  unfold touchStep at 2. destruct (touchEligible c); cbn [Is_true]; [rewrite decide_True by done|by rewrite decide_False by auto].
  rewrite fmap_cons. cbn [foldl]. unfold touch at 2, month_id. by case_match; rewrite IH.
Qed.
Lemma touch_get m cid id :
  jm_get id (touch m cid) = if decide (month_id cid = id) then touched_one cid (jm_get id m) else jm_get id m.
Proof.
  unfold touch, touched_one. case_decide as E.
  - subst. destruct (touchSettlement _ _ _); [by rewrite jm_get_set_eq|done].
  - destruct (touchSettlement _ _ _); [by rewrite jm_get_set_ne|done].
Qed.
Lemma touch_wf m cid : jm_wf m -> jm_wf (touch m cid).
Proof. unfold touch. case_match; auto with bs. Qed.
(** The order of the contracts does not matter. *)
Lemma foldl_touch_get cids m id :
  NoDup (month_id <$> cids) ->
  (forall cid, cid ∈ cids -> month_id cid = id -> jm_get id (foldl touch m cids) = touched_one cid (jm_get id m)) /\
  (id ∉ month_id <$> cids -> jm_get id (foldl touch m cids) = jm_get id m).
Proof.
  revert m. induction cids as [|c cids IH]; intros m; [intros _; split; [set_solver|done]|].
  rewrite fmap_cons. intros [Hc Hnd]%NoDup_cons. cbn [foldl]. destruct (IH (touch m c) Hnd) as [H1 H2]. split.
  - intros cid [->|Hin]%elem_of_cons E.
    + subst. rewrite H2 by done. rewrite touch_get. by rewrite decide_True.
    + rewrite (H1 cid Hin E), touch_get, decide_False; [done|]. intros E'. apply Hc. rewrite E', <-E.
      by apply list_elem_of_fmap_2.
  - intros [Hne Hnin]%not_elem_of_cons. rewrite H2 by done. by rewrite touch_get, decide_False.
Qed.
Lemma foldl_touch_perm cids cids' m id :
  NoDup (month_id <$> cids) -> cids ≡ₚ cids' -> jm_get id (foldl touch m cids) = jm_get id (foldl touch m cids').
Proof.
  intros Hnd Hp. assert (NoDup (month_id <$> cids')) as Hnd' by by rewrite <-Hp.
  destruct (foldl_touch_get cids m id Hnd) as [H1 H2], (foldl_touch_get cids' m id Hnd') as [H1' H2'].
  destruct (decide (id ∈ month_id <$> cids)) as [(c & -> & Hc)%list_elem_of_fmap|Hn].
  - rewrite (H1 c Hc eq_refl), (H1' c); [done|by rewrite <-Hp|done].
  - rewrite H2, H2'; [done| |done]. by rewrite <-Hp.
Qed.
End touching.

(** * The statement *)

Section statement.
Context (y mo ledger t : Z) (Ht : iso_range t).
Let p := mkTouch y mo ledger (toIso t).
Notation settlement_table := (table ks_id rowToSettlement good_settlement).

Lemma touchedRow_good cid : good_settlement (Pg.touchedRow y mo ledger t cid).
Proof using Ht. by split. Qed.
(** A conflict sets the columns as the loop does. *)
Lemma touchMerge_spec old cid :
  good_settlement old -> old.(ks_id) = month_id p cid ->
  let new := Pg.touchMerge old (Pg.touchedRow y mo ledger t cid) in
  new.(ks_id) = old.(ks_id) /\ good_settlement new /\
  touched_one p cid (Some (rowToSettlement old)) = Some (rowToSettlement new).
Proof using Ht.
  intros [Hg Hid] Hm. unfold Pg.touchMerge, touched_one, touchSettlement. cbn [rowToSettlement s_status].
  case_bool_decide as E; [done|]. by split_and!.
Qed.

Context (pg : PgDb) (m0 : JsMap Contract).
Context (Hcontracts : table kc_id rowToContract (fun r => iso_range r.(kc_updated_at)) pg.(pg_contracts) m0).
Context (Hinj : forall id id', is_Some (jm_get id m0) -> is_Some (jm_get id' m0) ->
  map_chars sanitize id = map_chars sanitize id' -> id = id').
Definition of_contracts (rows : list SettlementRow) : Prop := Forall (fun r => r.(ks_contract_id) ∈ kc_id <$> pg.(pg_contracts)) rows.

Lemma contract_known id : id ∈ kc_id <$> pg.(pg_contracts) -> is_Some (jm_get id m0).
Proof using Hcontracts.
  intros (r & -> & Hr)%list_elem_of_fmap. rewrite (table_get _ _ _ _ _ r Hcontracts Hr). by eexists.
Qed.
Lemma month_id_inj id id' :
  id ∈ kc_id <$> pg.(pg_contracts) -> id' ∈ kc_id <$> pg.(pg_contracts) -> month_id p id = month_id p id' -> id = id'.
Proof using Hcontracts Hinj. intros H H' (E & _ & _)%settlementId_inj. apply Hinj; auto using contract_known. Qed.
(** The conflict is on the settlement of the month. *)
Lemma sameMonth_keyed rows cid r :
  of_contracts rows -> cid ∈ kc_id <$> pg.(pg_contracts) -> r ∈ rows -> good_settlement r ->
  Pg.sameMonth (Pg.touchedRow y mo ledger t cid) r = keyed ks_id (month_id p cid) r.
Proof using Hcontracts Hinj.
  intros Hrows Hc Hr [_ Hid]. unfold Pg.sameMonth, keyed. cbn. destruct (bool_decide (ks_id r = month_id p cid)) eqn:E.
  - bool_to_prop. rewrite Hid in E. apply settlementId_inj in E as (E & -> & ->).
    assert (ks_contract_id r = cid) as ->.
    { unfold of_contracts in Hrows. rewrite Forall_forall in Hrows. apply Hinj; auto using contract_known. }
    by rewrite !bool_decide_eq_true_2.
  - apply not_true_is_false. intros H. bool_to_prop. apply E. rewrite Hid. unfold month_id. cbn. congruence.
Qed.

Lemma upsert_touch rows m cid :
  settlement_table rows m -> of_contracts rows -> cid ∈ kc_id <$> pg.(pg_contracts) ->
  exists rows', upsert pg_settlements Pg.setSettlements (fun db r => Pg.contract_ref db r.(ks_contract_id)) Pg.sameMonth
      (Pg.same ks_id) Pg.touchMerge (Pg.touchedRow y mo ledger t cid) (Pg.setSettlements rows pg)
      = inr (Pg.setSettlements rows' pg) /\
    settlement_table rows' (touch p m cid) /\ of_contracts rows'.
Proof using Hcontracts Hinj Ht.
  intros Htab Hof Hc. pose proof (t_good _ _ _ _ _ Htab) as Hgs. rewrite Forall_forall in Hgs.
  set (new := Pg.touchedRow y mo ledger t cid).
  assert (Pg.contract_ref (Pg.setSettlements rows pg) cid = inr tt) as Href.
  { unfold Pg.contract_ref. apply (references_table kc_id rowToContract _ pg_contracts (Pg.setSettlements rows pg) m0 cid Hcontracts). by apply contract_known. }
  assert (forall r, r ∈ rows -> Pg.sameMonth new r = keyed ks_id (month_id p cid) r) as Hsame.
  { intros r Hr. apply (sameMonth_keyed rows); auto. }
  assert (existsb (Pg.sameMonth new) rows = existsb (keyed ks_id (month_id p cid)) rows) as Hex.
  { apply eq_true_iff_eq. rewrite !existsb_exists. split; intros (r & Hr & E); exists r; split; try done;
      apply list_elem_of_In in Hr; [by rewrite <-Hsame|by rewrite Hsame]. }
  rewrite (table_present _ _ _ _ _ (month_id p cid) Htab) in Hex.
  unfold touch. fold (month_id p cid). unfold upsert.
  change (pg_settlements (Pg.setSettlements rows pg)) with rows. rewrite Hex. unfold jm_has.
  destruct (jm_get (month_id p cid) m) as [s|] eqn:Hget.
  - change (ks_contract_id new) with cid. rewrite Href.
    change (Pg.setSettlements ?x (Pg.setSettlements rows pg)) with (Pg.setSettlements x pg). cbn [sum_bind].
    set (rows' := (fun old => if Pg.sameMonth new old then Pg.touchMerge old new else old) <$> rows).
    assert (rows' = (fun old => if keyed ks_id (month_id p cid) old then Pg.touchMerge old new else old) <$> rows) as Hrows'.
    { apply list_fmap_ext. intros i r Hr%list_elem_of_lookup_2. by rewrite Hsame. }
    exists rows'. split_and!; [done| |].
    + destruct (table_row _ _ _ _ _ _ _ Htab Hget) as (r & Hr & Hrid & <-).
      destruct (touchMerge_spec r cid (Hgs r Hr) Hrid) as (_ & _ & Hone). fold new in Hone.
      rewrite Hrows'. unfold touched_one in Hone.
      assert (forall r', r' ∈ rows -> ks_id r' = month_id p cid -> r' = r) as Honly.
      { intros r' Hr' Hk. eapply (table_key_inj _ _ _ _ _ _ _ Htab); [done..|congruence]. }
      destruct (touchSettlement p cid (Some (rowToSettlement r))) as [s'|] eqn:Es.
      * injection Hone as ->. apply (table_set _ _ _ _ _ _ _ (fun old => Pg.touchMerge old new) Htab); [by rewrite Hget|].
        intros r' Hr' Hgr' Hk. pose proof (Honly r' Hr' Hk) as ->.
        destruct (touchMerge_spec r cid Hgr' Hk) as (Hid & Hg & _). split_and!; [etrans; [exact Hid|done]|exact Hg|done].
      * injection Hone as Hone. rewrite (list_fmap_ext _ (fun r => r)); [by rewrite list_fmap_id|].
        intros i r' Hr'%list_elem_of_lookup_2. unfold keyed. case_bool_decide as Ek; [|done].
        rewrite (Honly r' Hr' Ek). unfold touchSettlement in Es. cbn [rowToSettlement s_status] in Es.
        unfold Pg.touchMerge. by case_bool_decide.
    + apply Forall_fmap, Forall_forall. intros r Hr. unfold of_contracts in Hof. rewrite Forall_forall in Hof.
      cbn. destruct (Pg.sameMonth new r); [|auto]. unfold Pg.touchMerge. case_bool_decide; cbn; auto.
  - destruct (insert_table ks_id rowToSettlement good_settlement pg_settlements Pg.setSettlements
      (fun db r => Pg.contract_ref db r.(ks_contract_id)) (Pg.same ks_id) new (Pg.setSettlements rows pg) m) as [Hins Ht'];
      [done|apply touchedRow_good|done|exact Hget|by eapply same_absent|].
    rewrite Hins. change (pg_settlements (Pg.setSettlements rows pg)) with rows.
    exists (rows ++ [new]). split_and!; [done|exact Ht'|]. apply Forall_app. split; [done|]. by constructor.
Qed.
Lemma upsertAll_touch cids : forall rows m,
  settlement_table rows m -> of_contracts rows -> (forall cid, cid ∈ cids -> cid ∈ kc_id <$> pg.(pg_contracts)) ->
  exists rows', Pg.upsertAll (Pg.touchedRow y mo ledger t <$> cids) (Pg.setSettlements rows pg)
      = inr (Pg.setSettlements rows' pg) /\
    settlement_table rows' (foldl (touch p) m cids) /\ of_contracts rows'.
Proof using Hcontracts Hinj Ht.
  induction cids as [|c cids IH]; intros rows m Htab Hof Hin; [by exists rows|].
  destruct (upsert_touch rows m c Htab Hof) as (rows1 & Hup & Htab1 & Hof1); [apply Hin; by left|].
  destruct (IH rows1 _ Htab1 Hof1) as (rows' & Hall & Htab' & Hof'); [intros; apply Hin; by right|].
  exists rows'. split_and!; [|exact Htab'|done]. rewrite fmap_cons. cbn [Pg.upsertAll]. rewrite Hup. exact Hall.
Qed.
End statement.

(** A count that was below the end of the column stays in it. *)
Lemma touched_closes p cid o s :
  touched_one p cid o = Some s ->
  (forall s0, o = Some s0 -> default 0 s0.(s_ledgerCloseCount) < 2147483647)%Z ->
  (default 0 s.(s_ledgerCloseCount) <= 2147483647)%Z.
Proof.
  unfold touched_one, touchSettlement. intros H Ho. destruct o as [s0|]; [|by injection H as <-].
  specialize (Ho s0 eq_refl). case_bool_decide; injection H as <-; cbn; lia.
Qed.

Section refinement.
Context (legacy : string -> option Z) (env : PgEnv) (Hsound : pg_sound env).
Notation PgW := (PgWorld PgDb).
Notation implements := (implements legacy env).

Lemma refines_touch p op' w db :
  represents env w db -> sendable env (TouchSettlementsOnLedgerClose p) ->
  kept legacy env (TouchSettlementsOnLedgerClose p) = inr op' -> accepted db op' ->
  outcome env (implements op' db) w (Pg.touchSettlementsOnLedgerClose p env w).
Proof using Hsound.
  intros Hrep [Hmo Hy] Hk Ha. cbn [kept] in Hk. unfold iso_then, iso_arg in Hk. inv_casts. cbn [accepted] in Ha.
  destruct Ha as [Hinj Hclose].
  match goal with H : int4 p.(tp_periodYear) = inr ?v |- _ => rename H into Hcy, v into y end.
  match goal with H : int4 p.(tp_periodMonth) = inr ?v |- _ => rename H into Hcm, v into mo end.
  match goal with H : int8 p.(tp_ledgerIndex) = inr ?v |- _ => rename H into Hcl, v into ledger end.
  match goal with H : timestamptz env p.(tp_nowIso) = inr ?v |- _ => rename H into Hct, v into t end.
  pose proof (in_years_stamp _ _ _ Hy Hct) as Ht. set (p' := mkTouch y mo ledger (toIso t)).
  assert (mo = p.(tp_periodMonth)) as ->.
  { unfold int4 in Hcm. case_match; [by injection Hcm|done]. }
  pose proof (rep_contracts _ _ _ Hrep) as Hcon.
  set (picked := filter (fun c => bool_decide (c.(kc_status) = CS_active) || bool_decide (c.(kc_status) = CS_escrow_validated))
    (pe_scan env ContractRow w.(pw_n) w.(pw_db).(pg_contracts))).
  assert (forall cid, cid ∈ kc_id <$> picked -> cid ∈ kc_id <$> w.(pw_db).(pg_contracts)) as Hsub.
  { intros cid (c & -> & Hc)%list_elem_of_fmap. apply list_elem_of_filter in Hc as [_ Hc].
    rewrite (ps_scan env Hsound) in Hc. by apply list_elem_of_fmap_2. }
  destruct (upsertAll_touch y p.(tp_periodMonth) ledger t Ht w.(pw_db) db.(contracts) Hcon Hinj (kc_id <$> picked)
    w.(pw_db).(pg_settlements) db.(settlements) (rep_settlements _ _ _ Hrep) (rep_months _ _ _ Hrep) Hsub)
    as (rows' & Hup & Htab & Hof). fold p' in Htab.
  assert (Pg.setSettlements w.(pw_db).(pg_settlements) w.(pw_db) = w.(pw_db)) as Hself by by destruct (pw_db w).
  rewrite Hself in Hup.
  assert (NoDup (month_id p' <$> (kc_id <$> picked))) as Hnd.
  { apply NoDup_fmap_2_strong.
    - intros c c' Hc%Hsub Hc'%Hsub. by apply (month_id_inj y p.(tp_periodMonth) ledger t w.(pw_db) db.(contracts) Hcon Hinj).
    - unfold picked. rewrite (ps_scan env Hsound). eapply sublist_NoDup; [apply Hcon|]. apply fmap_sublist, sublist_filter. }
  assert (filter (fun c => touchEligible c) (jm_values db.(contracts)) ≡ₚ rowToContract <$> picked) as Hel.
  { unfold picked. rewrite (ps_scan env Hsound). by eapply table_filter. }
  assert (Pg.closesFit (Pg.setSettlements rows' w.(pw_db)) = inr tt) as Hfit.
  { unfold Pg.closesFit. cbn. assert (forallb (fun r => ks_ledger_close_count r <=? 2147483647)%Z rows' = true) as ->; [|done].
    apply forallb_forall. intros r Hr%list_elem_of_In. apply Z.leb_le.
    pose proof (table_get _ _ _ _ _ r Htab Hr) as Hget. destruct (foldl_touch_get p' (kc_id <$> picked)
      db.(settlements) r.(ks_id) Hnd) as [H1 H2].
    destruct (decide (r.(ks_id) ∈ month_id p' <$> (kc_id <$> picked))) as [(c & Ec & Hc)%list_elem_of_fmap|Hn].
    - rewrite (H1 c Hc (eq_sym Ec)) in Hget. apply (touched_closes _ _ _ _ Hget). intros s0. apply Hclose.
    - rewrite (H2 Hn) in Hget. apply Hclose in Hget. cbn in Hget. lia. }
  apply (outcome_map env Z.of_nat). eapply outcome_query.
  { rewrite Hcy, Hcm, Hcl, Hct. cbn [sum_bind select Pg.rows_where fst]. fold picked.
    assert (check (bool_decide (picked = []) || (1 <=? p.(tp_periodMonth)) && (p.(tp_periodMonth) <=? 12))%Z
      "violates check constraint settlements_period_month_check" = inr tt) as ->.
    { rewrite (proj2 (Z.leb_le 1 _)), (proj2 (Z.leb_le _ 12)) by lia. by rewrite orb_true_r. }
    cbn [sum_bind]. assert ((fun c => Pg.touchedRow y p.(tp_periodMonth) ledger t c.(kc_id)) <$> picked =
      Pg.touchedRow y p.(tp_periodMonth) ledger t <$> (kc_id <$> picked)) as -> by by rewrite <-list_fmap_compose.
    rewrite Hup.
    cbn [sum_bind]. rewrite Hfit. done. }
  eexists. split; [split; [|exists (foldl (touch p') db.(settlements) (kc_id <$> picked)); split; [|done]]|].
  - pose proof (touched_bounds p' (jm_values db.(contracts)) db.(settlements) 0%Z) as Hb.
    rewrite Hel, length_fmap in Hb. rewrite Hel, length_fmap. unfold touched. lia.
  - intros id. unfold touched. rewrite touched_fold. apply foldl_touch_perm; [done|].
    rewrite Hel, <-list_fmap_compose. done.
  - rep_write Hrep.
Qed.
Lemma refines_saveSettlement s op' w db :
  represents env w db -> sendable env (SaveSettlement s) -> kept legacy env (SaveSettlement s) = inr op' ->
  accepted db op' -> outcome env (implements op' db) w (Pg.saveSettlement s env w).
Proof.
  intros Hrep [Hnn Hs] Hk Ha. cbn [kept] in Hk. unfold kept_settlement in Hk. inv_casts. cbn in Ha.
  destruct Ha as (old & Hold & Hc & Hy & Hm & Hcr).
  match goal with H : timestamptz env s.(s_updatedAt) = inr ?v |- _ => rename H into Hcu, v into t end.
  pose proof (in_years_stamp _ _ _ Hs Hcu) as Ht.
  match goal with |- context [SaveSettlement ?r] => set (s' := r) end.
  match goal with H : null_or int8 s.(s_lastLedgerIndex) = inr ?v |- _ => rename H into Hl, v into ledger end.
  match goal with H : null_or int8 s.(s_amountMinor) = inr ?v |- _ => rename H into Ham, v into amount end.
  match goal with H : null_or int4 s.(s_ledgerCloseCount) = inr ?v |- _ => rename H into Hcl, v into closes end.
  match goal with H : timestamptz_opt env s.(s_confirmedAt) = inr ?v |- _ => rename H into Hcf, v into confirmed end.
  set (g := Pg.settlementSet s.(s_status) ledger (default 0 closes)%Z t amount (default "" s.(s_currencyCode)) s.(s_batchId)
       (default PM_calendar_utc s.(s_periodMode)) confirmed).
  eapply (outcome_execute _ _ _ _ (Pg.setSettlements ((fun r => if keyed ks_id s.(s_id) r then g r else r) <$>
    w.(pw_db).(pg_settlements)) w.(pw_db))).
  { rewrite Hl, Hcl, Hcu, Ham, Hcf. cbn [sum_bind]. rewrite Hnn, orb_true_r. done. }
  eexists. split; [done|]. pose proof (rep_settlements _ _ _ Hrep) as Hst.
  pose proof (table_set ks_id rowToSettlement good_settlement _ _ s.(s_id) s' g Hst (ex_intro _ _ Hold)) as Htab.
  assert (Forall (fun r => r.(ks_contract_id) ∈ kc_id <$> w.(pw_db).(pg_contracts))
    ((fun r => if keyed ks_id s.(s_id) r then g r else r) <$> w.(pw_db).(pg_settlements))) as Hmonths.
  { apply Forall_fmap. eapply Forall_impl; [exact (rep_months _ _ _ Hrep)|]. intros r Hr. unfold compose.
    destruct (keyed ks_id s.(s_id) r); exact Hr. }
  rep_write Hrep. apply Htab. intros r Hr [_ Hid] Hkey. pose proof (table_get _ _ _ _ _ r Hst Hr) as Hget.
  rewrite Hkey, Hold in Hget. injection Hget as ->. cbn in Hc, Hy, Hm, Hcr. split_and!; [done|by split|].
  unfold s', g, rowToSettlement. cbn. by rewrite Hkey, Hc, Hy, Hm, Hcr.
Qed.
End refinement.
