(* ===== verification/PgRefine.v ===== *)
(** The PostgreSQL repository implements the specification: the theorems, and
    the databases at which they are instantiated. *)
From S2P Require Import Prelude JsString JsMap JsDate Json Types Config World Utils MemoryRepo RepoFacts Sql PgTables.
From S2P Require Import PgRepo RepoSpec PgSim PgStore PgEntities PgQueues PgListings PgMonths.

#[local] Arguments toISOString : simpl never.

Section refinement.
Context (legacy : string -> option Z) (env : PgEnv) (Hsound : pg_sound env).

Lemma refines_ping w db :
  represents env w db -> outcome env (implements legacy env PingStorage db) w (Pg.pingStorage env w).
Proof.
  intros Hrep. unfold Pg.pingStorage, query. destruct (pe_delivery env (pw_n w)); (split; [cbn; lia|]).
  all: eapply implements_read; [exact Hrep|done|cbn; lia|done].
Qed.
(** The lookups by key. *)
Definition lookup_op {A} (op : Op A) : Prop :=
  match op with
  | GetContract _ | HasContract _ | GetEvidence _ | HasEvidence _ | GetDispute _ | GetXrplTx _ | GetNotification _
  | GetNotificationOutbox _ | GetSettlement _ | GetExportJob _ => True
  | _ => False
  end.
Lemma refines_lookups {A} (op : Op A) w db :
  represents env w db -> lookup_op op -> outcome env (implements legacy env op db) w (pg_exec legacy op env w).
Proof using Hsound.
  intros Hrep Hop. destruct op; try by destruct Hop. all: cbn [pg_exec].
  all: try (first [eapply refines_get|eapply refines_has]; [exact Hsound|exact Hrep|apply Hrep|by split]).
  eapply (refines_get _ _ Hsound _ pg_settlements ks_id rowToSettlement); [exact Hrep|apply Hrep|]. split; [|done].
  destruct (jm_get id db.(settlements)) as [s|] eqn:E; [|done].
  destruct (table_row _ _ _ _ _ _ _ (rep_settlements _ _ _ Hrep) E) as (r & _ & _ & <-). done.
Qed.
End refinement.

Create HintDb pg discriminated.
#[export] Hint Resolve refines_ping refines_saveContract refines_saveEvidence refines_deleteEvidence refines_findByCid
  refines_countVersions refines_pastRetention refines_saveDispute refines_saveDecision refines_upsertRegistry
  refines_listRegistry refines_appendVote refines_listVotes refines_saveXrplTx refines_listXrplTxs refines_subscribe
  refines_tryRecord refines_saveNotification refines_listDue refines_appendOutbox refines_claimOutbox refines_updateOutbox
  refines_recover refines_createJob refines_claimJobs refines_deleteJob refines_bumpJob refines_createExport
  refines_claimExports refines_updateExport refines_listAudits refines_auditsPage refines_afterCursor refines_appendAudit
  refines_appendEvent refines_listEvents refines_contractsPage refines_disputesPage refines_xrplPage refines_outboxPage
  refines_settlementsPage refines_stats refines_report refines_touch refines_saveSettlement : pg.

(** * Arguments that a column cannot take *)

(** The method throws, and the database is as it was. *)
Definition rejected {A} (w : PgWorld PgDb) (r : (string + A) * PgWorld PgDb) : Prop :=
  (exists e, r.1 = inl e) /\ r.2.(pw_db) = w.(pw_db).
Lemma rejected_query {A} (body : Pg.Body A) env w :
  (exists e, body env w.(pw_n) w.(pw_db) = inl e) -> rejected w (query body env w).
Proof. intros [e He]. unfold query. rewrite He. destruct (pe_delivery env _); split; cbn; eauto. Qed.
Lemma rejected_bind {A B} (m : Pg.Pg A) (k : A -> Pg.Pg B) env w : rejected w (m env w) -> rejected w ((m ≫= k) env w).
Proof. unfold mbind, Pg_bind, rejected. destruct (m env w) as [[e|a] w']; cbn; naive_solver. Qed.
(** A method that only reads, before one that is rejected. *)
Lemma rejected_after {A B} (m : Pg.Pg A) (k : A -> Pg.Pg B) env w :
  (m env w).2.(pw_db) = w.(pw_db) -> (forall a w', rejected w' (k a env w')) -> rejected w ((m ≫= k) env w).
Proof.
  unfold mbind, Pg_bind, rejected. destruct (m env w) as [[e|a] w']; cbn; intros Hm Hk; [by eauto|].
  destruct (Hk a w') as [? ->]. done.
Qed.
Lemma reads_bind {A B} (m : Pg.Pg A) (k : A -> Pg.Pg B) env w :
  (m env w).2.(pw_db) = w.(pw_db) -> (forall a w', (k a env w').2.(pw_db) = w'.(pw_db)) ->
  ((m ≫= k) env w).2.(pw_db) = w.(pw_db).
Proof. unfold mbind, Pg_bind. destruct (m env w) as [[e|a] w']; cbn; intros Hm Hk; [done|]. by rewrite Hk. Qed.
Lemma reads_query {A} (body : Pg.Body A) env w :
  (forall a db, body env w.(pw_n) w.(pw_db) = inr (a, db) -> db = w.(pw_db)) -> (query body env w).2.(pw_db) = w.(pw_db).
Proof.
  intros H. unfold query. destruct (pe_delivery env _), (body env _ _) as [e|[a db]] eqn:E; cbn; try done; by eapply H.
Qed.
Lemma stats_read env w : (Pg.getOperatorStatsSummary env w).2.(pw_db) = w.(pw_db).
Proof.
  unfold Pg.getOperatorStatsSummary, Pg.group_count.
  repeat (apply reads_bind; [apply reads_query; intros ? ? [= <- <-]; done|intros ? ?]). done.
Qed.
(** C12: PostgresRepository implements the specification that the in-memory
    repository implements.  From a database that stands for a store, on
    arguments that the columns take and the constraints accept, an answered
    method gives an answer and a store that the specification allows for the
    arguments as they are kept; when it throws, a statement was refused or its
    answer lost, and the database stands for the store before, or for one that
    the specification allows after. *)
Theorem postgres_meets_spec legacy env w db {A} (op op' : Op A) :
  pg_sound env -> represents env w db -> sendable env op -> kept legacy env op = inr op' -> accepted db op' ->
  outcome env (fun a w' => exists db', spec legacy op' db a db' /\ represents env w' db') w (pg_exec legacy op env w).
Proof.
  intros Hsound Hrep Hs Hk Ha. change (outcome env (implements legacy env op' db) w (pg_exec legacy op env w)).
  destruct op; try (cbn [kept] in Hk; injection Hk as <-; by apply refines_lookups); cbn [pg_exec].
  all: try (eauto with pg; fail).
  all: try (cbn [kept] in Hk; injection Hk as <-; eauto with pg; fail).
Qed.

(** Casts that failed in [kept] fail in the statement. *)
Ltac fails :=
  repeat match goal with
  | H : sum_bind ?r _ = inl _ |- _ => destruct r eqn:?; cbn [sum_bind] in H; simplify_eq
  end; inv_casts;
  repeat match goal with
  | H : ?r = inl _ |- context [sum_bind ?r _] => rewrite H; cbn [sum_bind]
  | H : ?r = inr _ |- context [sum_bind ?r _] => rewrite H; cbn [sum_bind]
  end; eauto.

Lemma between_fails {A} env from to (k : option string -> option string -> A) e :
  (from' <~ iso_bound env from; to' <~ iso_bound env to; inr (k from' to')) = inl e ->
  exists e', between env from to = inl e'.
Proof.
  unfold iso_bound, between. destruct (truthy from), (truthy to); intros Hk;
    repeat match goal with
    | |- context [timestamptz_opt env ?o] => destruct (timestamptz_opt env o) eqn:?; cbn [sum_bind] in *; eauto
    end; done.
Qed.
Lemma bindings_fail f env e : kept_auditFilter env f = inl e -> exists e', Pg.auditFilterBindings f env = inl e'.
Proof. intros [e' He]%between_fails. exists e'. unfold Pg.auditFilterBindings. by rewrite He. Qed.
Lemma rejected_page {R V} tbl (rowTo : R -> V) p cmp params env w :
  (exists e, p env = inl e) -> rejected w (Pg.page tbl rowTo p cmp params env w).
Proof. intros [e He]. apply rejected_bind, rejected_query. unfold count, select. rewrite He. by eexists. Qed.
Lemma rejects_afterCursor legacy f limit cursor env w e :
  kept legacy env (ListAuditsAfterCursor f limit cursor) = inl e -> rejected w (Pg.listAuditsAfterCursor f limit cursor env w).
Proof.
  intros Hk. cbn [kept] in Hk. unfold Pg.listAuditsAfterCursor.
  destruct (nonempty cursor) as [c|]; [destruct (decodeAuditCursor c) as [dec|]|]; [|by split; [eexists|]|].
  - apply rejected_bind, rejected_query. unfold select_by, select, Pg.keysetRows.
    destruct (kept_auditFilter env f) as [e'|f'] eqn:Hf; [destruct (bindings_fail _ _ _ Hf) as [e2 ->]; by eexists|].
    destruct (timestamptz env dec.(cur_createdAt)) as [e'|t] eqn:Ht; [|by cbn in Hk].
    destruct (Pg.auditFilterBindings f env); cbn; by eexists.
  - apply rejected_bind, rejected_query. unfold select_by, select, Pg.keysetRows.
    destruct (kept_auditFilter env f) as [e'|f'] eqn:Hf; [|by cbn in Hk].
    destruct (bindings_fail _ _ _ Hf) as [e2 ->]. by eexists.
Qed.
Lemma rejects_report legacy p env w e :
  kept legacy env (GetReportsSummary p) = inl e -> rejected w (Pg.getReportsSummary p env w).
Proof.
  intros Hk. cbn [kept] in Hk. apply rejected_after; [apply stats_read|]. intros g w'.
  apply rejected_bind, rejected_query. unfold select, Pg.window. fails.
Qed.
Lemma rejects_claimJobs legacy kind now limit ttl env w e :
  kept legacy env (ClaimDueDelayedJobs kind now limit ttl) = inl e ->
  rejected w (Pg.claimDueDelayedJobs legacy kind now limit ttl env w).
Proof.
  intros Hk. cbn [kept] in Hk. unfold Pg.claimDueDelayedJobs, iso_then, iso_arg in *.
  destruct (date_parse legacy now) as [ms|]; [|by split; [eexists|]].
  apply rejected_bind, rejected_query. destruct (timestamptz env now) eqn:?; cbn [sum_bind]; [by eexists|].
  destruct (timestamptz env (toISOString (ms + ttl))) eqn:?; cbn [sum_bind] in *; [by eexists|done].
Qed.

(** C39: a method of PostgresRepository on an argument that some column cannot
    take (a stamp that is not a timestamp, a number out of range, a cursor that
    does not decode, a negative limit) throws, and changes nothing, whatever
    happens to its statements. *)
Theorem postgres_rejects legacy env w {A} (op : Op A) e :
  kept legacy env op = inl e -> rejected w (pg_exec legacy op env w).
Proof.
  intros Hk. destruct op; try discriminate Hk; cbn [pg_exec];
    try solve [eapply rejects_afterCursor, Hk|eapply rejects_report, Hk|eapply rejects_claimJobs, Hk]; cbn [kept] in Hk.
  all: unfold iso_then, iso_arg, kept_outbox, kept_settlement, kept_export in Hk.
  all: try (apply rejected_query; fails; fail).
  all: try (apply rejected_bind, rejected_query; unfold select_by, select, count; fails; fail).
  - destruct (kept_auditFilter env f) eqn:Hf; [|done]. destruct (bindings_fail _ _ _ Hf) as [e2 He].
    apply rejected_bind, rejected_query. unfold select_by, select. rewrite He. by eexists.
  - destruct (kept_auditFilter env f) eqn:Hf; [|done]. apply rejected_page. by eapply bindings_fail.
  - apply rejected_page. destruct (between_fails env _ _ (fun from to => ListContractsPage (mkContractFilter f.(cf_status)
      f.(cf_tenantId) f.(cf_landlordId) from to) params) _ Hk) as [e' He]. unfold Pg.contractWhere. rewrite He. by eexists.
  - apply rejected_page. destruct (between_fails env _ _ (fun from to => ListDisputesPage (mkDisputeFilter f.(df_contractId)
      f.(df_status) from to) params) _ Hk) as [e' He]. unfold Pg.disputeWhere. rewrite He. by eexists.
Qed.

(** * What comes back unchanged *)

(** Stamps as [toISOString] writes them, integers that fit their columns, no
    empty text in an optional column, a retention class, and no NUL character in
    a text, which PostgreSQL refuses. *)
Definition opt_written (o : option string) : Prop := forall s, o = Some s -> written s.
Definition text_ok (o : option string) : Prop := o <> Some "".
Definition fits4 (z : Z) : Prop := (-2147483648 <= z <= 2147483647)%Z.
Definition fits8 (z : Z) : Prop := (-9223372036854775808 <= z <= 9223372036854775807)%Z.
Definition no_nul (l : list string) (o : list (option string)) : Prop :=
  Forall (fun s => Ascii.zero ∉ chars s) (l ++ omap id o).
Definition unaltered {A} (op : Op A) : Prop :=
  match op with
  | SaveContract c =>
      no_nul [c.(c_id); c.(c_tenantId); c.(c_landlordId)]
        [c.(c_escrowCreateTxHash); c.(c_depositAmount); c.(c_stakeAmount)] /\
      text_ok c.(c_escrowCreateTxHash) /\ text_ok c.(c_depositAmount) /\ text_ok c.(c_stakeAmount) /\
      opt_written c.(c_startsAt) /\ opt_written c.(c_endsAt) /\ written c.(c_createdAt) /\ written c.(c_updatedAt)
  | SaveEvidence e =>
      no_nul [e.(e_id); e.(e_contractId); e.(e_uploaderId); e.(e_cid); e.(e_sha256); e.(e_mimeType);
              e.(e_localContentHashSeed)]
        [e.(e_disputeId); e.(e_encryptionScheme); e.(e_jurisdiction)] /\
      text_ok e.(e_disputeId) /\ text_ok e.(e_encryptionScheme) /\ is_Some e.(e_retentionClass) /\
      fits4 e.(e_sizeBytes) /\ fits4 e.(e_version) /\
      opt_written e.(e_retainUntil) /\ opt_written e.(e_legalHoldUntil) /\ written e.(e_createdAt)
  | SaveDispute d =>
      no_nul (d.(d_id) :: d.(d_contractId) :: d.(d_reasonCode) :: d.(d_evidenceBundle)) [] /\
      written d.(d_createdAt) /\ written d.(d_updatedAt) /\ opt_written d.(d_reviewDeadlineAt) /\
      opt_written d.(d_escalatedAt)
  | AppendDisputeVerifierVote v =>
      no_nul [v.(v_id); v.(v_disputeId); v.(v_verifierId)] [] /\ written v.(v_createdAt)
  | UpsertDisputeVerifierRegistryEntry e =>
      no_nul [e.(r_id); e.(r_verifierId)] [e.(r_displayLabel)] /\
      text_ok e.(r_displayLabel) /\ written e.(r_createdAt)
  | SaveXrplTx t =>
      no_nul [t.(x_id); t.(x_txHash); t.(x_txType)]
        [t.(x_account); t.(x_disputeId); t.(x_resultCode); t.(x_escrowOwner); t.(x_escrowDestination);
         t.(x_escrowSubmitterAccount)] /\
      text_ok t.(x_account) /\ text_ok t.(x_disputeId) /\ text_ok t.(x_resultCode) /\ text_ok t.(x_escrowOwner) /\
      text_ok t.(x_escrowDestination) /\ text_ok t.(x_escrowSubmitterAccount) /\ fits4 t.(x_retries) /\
      (forall z, t.(x_ledgerIndex) = Some z -> fits4 z) /\ (forall z, t.(x_escrowOfferSequence) = Some z -> fits8 z) /\
      written t.(x_lastCheckedAt)
  | _ => False
  end.

Section exact.
Context (env : PgEnv) (Hsound : pg_sound env).

Lemma written_cast s : written s -> exists t, timestamptz env s = inr t /\ toIso t = s.
Proof using Hsound. intros (t & Ht & ->). exists t. by rewrite (proj2 (timestamptz_inr env _ t) (ps_iso env Hsound t Ht)). Qed.
Lemma opt_written_cast o : opt_written o -> exists t, timestamptz_opt env o = inr t /\ toIso <$> t = o.
Proof using Hsound.
  intros H. destruct o as [s|]; [|by exists None]. destruct (written_cast s (H s eq_refl)) as (t & Ht & <-).
  exists (Some t). cbn. by rewrite Ht.
Qed.
Lemma text_col_ok o : text_ok o -> text_col o = o.
Proof.
  intros H. destruct o as [s|]; [|done]. unfold text_col, nonempty, truthy.
  by rewrite (bool_decide_eq_false_2 (s = "")) by (intros ->; by apply H).
Qed.
Lemma int4_ok z : fits4 z -> int4 z = inr z.
Proof. intros [H1 H2]. unfold int4. by rewrite (proj2 (Z.leb_le _ _) H1), (proj2 (Z.leb_le _ _) H2). Qed.
Lemma int8_ok z : fits8 z -> int8 z = inr z.
Proof. intros [H1 H2]. unfold int8. by rewrite (proj2 (Z.leb_le _ _) H1), (proj2 (Z.leb_le _ _) H2). Qed.
Lemma omap_jstr (l : list string) : omap jstr (JStr <$> l) = l.
Proof. induction l as [|x l IH]; [done|]. rewrite fmap_cons, omap_cons. cbn. by rewrite IH. Qed.
Lemma null_or_ok {A} (f : A -> string + A) o : (forall a, o = Some a -> f a = inr a) -> null_or f o = inr o.
Proof. destruct o as [a|]; [|done]. intros H. cbn. by rewrite H. Qed.
End exact.

(** Each stamp of the argument, cast and read back. *)
Ltac casts Hsound :=
  repeat match goal with
  | H : written _ |- _ => apply (written_cast _ Hsound) in H as (? & ? & ?)
  | H : opt_written _ |- _ => apply (opt_written_cast _ Hsound) in H as (? & ? & ?)
  | H : text_ok _ |- _ => apply text_col_ok in H
  | H : fits4 _ |- _ => apply int4_ok in H
  end;
  repeat match goal with H : _ = inr _ |- _ => rewrite H; cbn [sum_bind] end.

(** C40: What the service writes with its own stamps comes back from PostgreSQL
    as it was: a contract, an evidence row, a dispute with its bundle, a vote, a
    registered verifier or a tracked transaction is read back without a change
    when its stamps are those of toISOString, its integers fit their columns, no
    optional text is empty, an evidence row has a retention class, and no text
    has a NUL character.  (Decisions are only ever inserted.) *)
Theorem written_comes_back legacy env {A} (op : Op A) : pg_sound env -> unaltered op -> kept legacy env op = inr op.
Proof.
  intros Hsound Hu. destruct op; try by destruct Hu. all: cbn in Hu; destruct_and? Hu; cbn [kept].
  - destruct c. cbn in *. unfold contractValues. cbn. casts Hsound. unfold rowToContract. cbn. congruence.
  - match goal with H : is_Some _ |- _ => destruct H as [cls Hcls] end. destruct e. cbn in *. subst.
    unfold evidenceValues. cbn. casts Hsound. unfold rowToEvidence. cbn. congruence.
  - unfold disputeValues, jsonb. rewrite (ps_strings env Hsound). destruct d. cbn in *. casts Hsound. unfold rowToDispute, bundleOf. cbn. rewrite omap_jstr. congruence.
  - destruct v. cbn in *. unfold voteValues. cbn. casts Hsound. unfold rowToVote. cbn. congruence.
  - destruct e. cbn in *. unfold registryValues. cbn. casts Hsound. unfold rowToRegistryEntry. cbn. congruence.
  - destruct t. cbn in *. unfold xrplTxValues. cbn.
    rewrite (null_or_ok int4), (null_or_ok int8) by (intros; first [apply int4_ok|apply int8_ok]; auto). cbn [sum_bind].
    casts Hsound. unfold rowToXrpl. cbn. congruence.
Qed.

(** A database for the theorems about the repositories: rows are met in
    changing orders, stamps are read as [Date.parse] reads them. *)

Definition demoPg : PgEnv :=
  mkPgEnv (fun A n l => if Nat.even n then l else reverse l)
    (fun n => if decide (n = 1) then Lost else Answered) parse_iso json_parse localeCompare
    (fun _ => toISOString 1767225600000) (fun n => "xie_" +:+ pretty n).

Lemma demoPg_sound : pg_sound demoPg.
Proof.
  split.
  - intros A n l. cbn. destruct (Nat.even n); [done|]. apply reverse_Permutation.
  - apply parse_iso_toISOString.
  - intros n. exists 1767225600000%Z. split; [split; vm_compute; congruence|done].
  - intros n n' H. cbn in H. by apply (inj (String.append "xie_")), (inj pretty) in H.
  - apply _.
  - done.
  - intros l. apply json_parse_stringify. cbn. induction l; cbn; auto.
Qed.

Definition demoWorld (n : nat) : PgWorld PgDb := mkPgWorld emptyPg n.
Definition demoContract : Contract :=
  mkContract "ctr_1" "tenant-1" "landlord-1" CS_draft (Some "") (Some "500") None (Some "2026-01-01") None
    "2026-01-01T00:00:00.000Z" "2026-01-01T00:00:00.000Z".
(** An empty hash is kept as none, a day as its first instant. *)
Definition keptContract : Contract :=
  mkContract "ctr_1" "tenant-1" "landlord-1" CS_draft None (Some "500") None (Some "2026-01-01T00:00:00.000Z") None
    "2026-01-01T00:00:00.000Z" "2026-01-01T00:00:00.000Z".
Definition noLegacy : string -> option Z := fun _ => None.

Lemma demo_years : in_years demoPg (Some "2026-01-01T00:00:00.000Z").
Proof. intros s t [= <-] Ht. vm_compute in Ht. injection Ht as <-. split; vm_compute; congruence. Qed.

(** An answered write, and one whose answer is lost. *)
Lemma postgres_meets_spec_witness :
  (outcome demoPg (fun a w' => exists db', spec noLegacy (SaveContract keptContract) emptyDb a db' /\ represents demoPg w' db')
     (demoWorld 0) (pg_exec noLegacy (SaveContract demoContract) demoPg (demoWorld 0)) /\
   (pg_exec noLegacy (SaveContract demoContract) demoPg (demoWorld 0)).1 = inr tt) /\
  outcome demoPg (fun a w' => exists db', spec noLegacy (SaveContract keptContract) emptyDb a db' /\ represents demoPg w' db')
    (demoWorld 1) (pg_exec noLegacy (SaveContract demoContract) demoPg (demoWorld 1)) /\
  pg_exec noLegacy (SaveContract demoContract) demoPg (demoWorld 1) =
    (inl "connection terminated", mkPgWorld (emptyPg <| pg_contracts := [mkContractRow "ctr_1" "tenant-1" "landlord-1"
       CS_draft (Some "") (Some "500") None (Some 1767225600000%Z) None 1767225600000 1767225600000] |>) 2).
Proof.
  split; [split|split].
  - apply (postgres_meets_spec noLegacy demoPg (demoWorld 0) emptyDb (SaveContract demoContract) (SaveContract keptContract));
      [apply demoPg_sound|apply represents_empty|apply demo_years|vm_compute; reflexivity|done].
  - vm_compute; reflexivity.
  - apply (postgres_meets_spec noLegacy demoPg (demoWorld 1) emptyDb (SaveContract demoContract) (SaveContract keptContract));
      [apply demoPg_sound|apply represents_empty|apply demo_years|vm_compute; reflexivity|done].
  - vm_compute; reflexivity.
Defined.

(** A stamp that is no timestamp, and a number beyond the column. *)
Lemma postgres_rejects_witness :
  rejected (demoWorld 0) (pg_exec noLegacy (SaveContract (demoContract <| c_createdAt := "yesterday" |>)) demoPg (demoWorld 0)) /\
  rejected (demoWorld 1) (pg_exec noLegacy (BumpDelayedJob "job_1" "2026-01-01T00:00:00.000Z" 2147483648 None
    "2026-01-01T00:00:00.000Z") demoPg (demoWorld 1)).
Proof.
  split; eapply (postgres_rejects noLegacy demoPg); vm_compute; reflexivity.
Defined.

Definition demoDispute : DisputeCase :=
  mkDispute "dsp_1" "ctr_1" RB_tenant "deposit" DS_under_review ["ev_1"; "ev_2"] "2026-01-01T00:00:00.000Z"
    "2026-01-02T00:00:00.000Z" (Some "2026-01-09T00:00:00.000Z") None.
Lemma written_comes_back_witness : kept noLegacy demoPg (SaveDispute demoDispute) = inr (SaveDispute demoDispute).
Proof.
  assert (written "2026-01-01T00:00:00.000Z" /\ written "2026-01-02T00:00:00.000Z" /\ written "2026-01-09T00:00:00.000Z")
    as (H1 & H2 & H3).
  { split; [|split]; [exists 1767225600000%Z|exists 1767312000000%Z|exists 1767916800000%Z];
      (split; [split; vm_compute; congruence|vm_compute; reflexivity]). }
  apply (written_comes_back noLegacy demoPg (SaveDispute demoDispute)); [apply demoPg_sound|].
  cbn. split; [|split; [exact H1|split; [exact H2|split]]; [intros s [= <-]; exact H3|intros s [=]]].
  repeat constructor; apply (bool_decide_unpack _); vm_compute; exact I.
Defined.

(** * Where the repositories differ *)

(** A month that is archived: the row is left as it is, the statement still
    counts it, and the in-memory repository does not. *)
Definition archivedMonth : PgDb :=
  emptyPg <| pg_contracts := [mkContractRow "ctr_1" "tenant-1" "landlord-1" CS_active None None None None None 0 0] |>
          <| pg_settlements := [mkSettlementRow "stl_ctr_1_2026_1" "ctr_1" 2026 1 SS_archived (Some 7%Z) 3 0 0 None "XRP"
               None PM_calendar_utc None] |>.
Definition archivedStore : Db :=
  emptyDb <| contracts := jm_set "ctr_1" (rowToContract (mkContractRow "ctr_1" "tenant-1" "landlord-1" CS_active None None
                            None None None 0 0)) [] |>
          <| settlements := jm_set "stl_ctr_1_2026_1" (rowToSettlement (mkSettlementRow "stl_ctr_1_2026_1" "ctr_1" 2026 1
                              SS_archived (Some 7%Z) 3 0 0 None "XRP" None PM_calendar_utc None)) [] |>.
Definition closeOfJanuary : TouchParams := mkTouch 2026 1 8 "2026-01-31T00:00:00.000Z".
Example archived_month_counted :
  Pg.touchSettlementsOnLedgerClose closeOfJanuary demoPg (mkPgWorld archivedMonth 0) =
    (inr 1%Z, mkPgWorld archivedMonth 1) /\ (touched closeOfJanuary archivedStore).2 = 0%Z.
Proof. split; vm_compute; reflexivity. Qed.

(** A settlement whose row does not exist is not stored. *)
Example missing_settlement_not_stored :
  (Pg.saveSettlement (rowToSettlement (mkSettlementRow "stl_ctr_1_2026_1" "ctr_1" 2026 1 SS_confirmed None 1 0 0
     (Some 500%Z) "XRP" None PM_calendar_utc None)) demoPg (mkPgWorld emptyPg 0)) = (inr tt, mkPgWorld emptyPg 1).
Proof. vm_compute; reflexivity. Qed.
