(* ===== verification/JsFloat.v ===== *)
(** JavaScript numbers with a fraction: binary64 values of the Standard
    Library's [SpecFloat], [parseFloat], [Number.prototype.toFixed] and
    [Number.prototype.toString], computed on exact integers. *)
From S2P Require Import Prelude JsString Json.
From Stdlib Require Import Ascii.
From Stdlib Require Export SpecFloat.
Local Open Scope Z_scope.

Notation float := spec_float.

(** * Arithmetic, rounded to nearest even *)

Definition fadd : float -> float -> float := SFadd 53 1024.
Definition fsub : float -> float -> float := SFsub 53 1024.
(** [a >= b], [a < b]; both are false on [NaN]. *)
Definition fge (a b : float) : bool :=
  match SFcompare a b with Some (Gt | Eq) => true | _ => false end.
Definition flt (a b : float) : bool :=
  match SFcompare a b with Some Lt => true | _ => false end.
Definition fzero : float := S754_zero false.
(** [Number.isFinite(x)] *)
Definition isFinite (x : float) : bool :=
  match x with S754_zero _ | S754_finite _ _ _ => true | _ => false end.

(** [(-1)^s * n * 10^e], correctly rounded. *)
Definition ofDecimal (s : bool) (n e : Z) : float :=
  if e >=? 0 then
    match n * 10 ^ e with
    | Zpos m => binary_round 53 1024 s m 0
    | _ => S754_zero s
    end
  else
    match n, 10 ^ (- e) with
    | Zpos m, Zpos d => SFdiv 53 1024 (S754_finite s m 0) (S754_finite false d 0)
    | _, _ => S754_zero s
    end.

(** * [parseFloat] *)

(** The optional exponent part: [e], a sign, digits. *)
Definition read_exponent (l : list ascii) : Z :=
  match l with
  | c :: l' =>
      if bool_decide (c = "e"%char) || bool_decide (c = "E"%char) then
        match l' with
        | "-"%char :: l2 => - digits_val (span_digits l2).1
        | "+"%char :: l2 => digits_val (span_digits l2).1
        | l2 => digits_val (span_digits l2).1
        end
      else 0
  | [] => 0
  end.
(** The longest prefix that is a decimal literal; [NaN] when there is none. *)
Definition read_decimal (s : bool) (l : list ascii) : float :=
  let '(int, l1) := span_digits l in
  let '(frac, l2) := match l1 with "."%char :: l' => span_digits l' | _ => ([], l1) end in
  match int ++ frac with
  | [] => if bool_decide (take 8 l = chars "Infinity") then S754_infinity s else S754_nan
  | ds => ofDecimal s (digits_val ds) (read_exponent l2 - Z.of_nat (length frac))
  end.
Definition parseFloat (s : string) : float :=
  match drop_spaces (chars s) with
  | "-"%char :: l => read_decimal true l
  | "+"%char :: l => read_decimal false l
  | l => read_decimal false l
  end.

(** * [toString] *)

(** A positive [m * 2^e] as a fraction. *)
Definition fraction (m : positive) (e : Z) : Z * Z :=
  if e >=? 0 then (Zpos m * 2 ^ e, 1) else (Zpos m, 2 ^ (- e)).
(** The integer nearest to [num / den], the larger one of two. *)
Definition nearest (num den : Z) : Z := (2 * num + den) / (2 * den).
(** The [n] with [10^(n-1) <= num / den < 10^n]. *)
Fixpoint small_exponent (fuel : nat) (num den n : Z) : Z :=
  match fuel with
  | O => n
  | S f => if den <=? num * 10 then n else small_exponent f (num * 10) den (n - 1)
  end.
Definition decimal_exponent (num den : Z) : Z :=
  if den <=? num then Z.of_nat (String.length (num_str (num / den)))
  else small_exponent 400 num den 0.
(** [num / den / 10^e], as a fraction. *)
Definition scaled (num den e : Z) : Z * Z :=
  if e >=? 0 then (num, den * 10 ^ e) else (num * 10 ^ (- e), den).
(** The digits of the shortest decimal that reads back as [x], of at least [k]
    digits; 17 digits are always enough. *)
Fixpoint shortest (fuel : nat) (x : float) (num den n k : Z) : Z * Z :=
  let '(a, b) := scaled num den (n - k) in
  let near := nearest a b in
  let other := if near * b <=? a then near + 1 else near - 1 in
  match fuel with
  | O => (near, k)
  | S f =>
      if SFeqb (ofDecimal false near (n - k)) x then (near, k)
      else if SFeqb (ofDecimal false other (n - k)) x then (other, k)
      else shortest f x num den n (k + 1)
  end.
Definition zeros (n : Z) : string := of_chars (replicate (Z.to_nat n) "0"%char).
Definition positive_string (m : positive) (e : Z) : string :=
  let '(num, den) := fraction m e in
  let n0 := decimal_exponent num den in
  let '(d0, k0) := shortest 17 (S754_finite false m e) num den n0 1 in
  (* rounding up may reach the next power of ten *)
  let '(digits, n) := if d0 =? 10 ^ k0 then (1, n0 + 1) else (d0, n0) in
  let s := num_str digits in
  let k := Z.of_nat (String.length s) in
  if (k <=? n) && (n <=? 21) then s +:+ zeros (n - k)
  else if (0 <? n) && (n <=? 21) then
    str_take (Z.to_nat n) s +:+ "." +:+ of_chars (drop (Z.to_nat n) (chars s))
  else if (-6 <? n) && (n <=? 0) then "0." +:+ zeros (- n) +:+ s
  else
    let ex := (if 0 <=? n - 1 then "e+" else "e-") +:+ num_str (Z.abs (n - 1)) in
    if k =? 1 then s +:+ ex
    else str_take 1 s +:+ "." +:+ of_chars (drop 1 (chars s)) +:+ ex.
Definition numToString (x : float) : string :=
  match x with
  | S754_nan => "NaN"
  | S754_zero _ => "0"
  | S754_infinity s => if s then "-Infinity" else "Infinity"
  | S754_finite s m e => (if s then "-" else "") +:+ positive_string m e
  end.

(** * [toFixed] *)

Definition fixed_digits (f n : Z) : string :=
  let s := num_str n in
  let s := zeros (f + 1 - Z.of_nat (String.length s)) +:+ s in
  let k := (String.length s - Z.to_nat f)%nat in
  if f =? 0 then s else str_take k s +:+ "." +:+ of_chars (drop k (chars s)).
Definition toFixed (f : Z) (x : float) : string :=
  match x with
  | S754_finite s m e =>
      let '(num, den) := fraction m e in
      if 10 ^ 21 * den <=? num then numToString x
      else (if s then "-" else "") +:+ fixed_digits f (nearest (num * 10 ^ f) den)
  | S754_zero _ => fixed_digits f 0
  | _ => numToString x
  end.

(** [s.replace(/\.?0+$/, "")]: the zeros at the end, with a point before them. *)
Fixpoint drop_zeros (rev : list ascii) : list ascii :=
  match rev with "0"%char :: l => drop_zeros l | l => l end.
Definition stripZeros (s : string) : string :=
  let rev := reverse (chars s) in
  match rev with
  | "0"%char :: _ =>
      match drop_zeros rev with
      | "."%char :: l => of_chars (reverse l)
      | l => of_chars (reverse l)
      end
  | _ => s
  end.

Example parse_float_ex : parseFloat " 12.5e1x" = parseFloat "125".
Proof. reflexivity. Qed.
Example sum_ex : numToString (fadd (parseFloat "0.1") (parseFloat "0.2")) = "0.30000000000000004".
Proof. vm_compute. reflexivity. Qed.
Example str_ex : (fun s => numToString (parseFloat s)) <$>
  ["100"; "1e21"; "123e-20"; "0.000001"; "9007199254740993"; "5e-324"; "1.7976931348623157e308"; "-2.50"; "q"] =
  ["100"; "1e+21"; "1.23e-18"; "0.000001"; "9007199254740992"; "5e-324"; "1.7976931348623157e+308"; "-2.5"; "NaN"].
Proof. vm_compute. reflexivity. Qed.
Example fixed_ex : (fun s => toFixed 2 (parseFloat s)) <$> ["1.005"; "0.5"; "1e22"; "-1.255"; "0"] =
  ["1.00"; "0.50"; "1e+22"; "-1.25"; "0.00"].
Proof. vm_compute. reflexivity. Qed.
Example strip_ex : stripZeros <$> ["600.500"; "100.000"; "0.000"; "7.25"; "1e+30"] = ["600.5"; "100"; "0"; "7.25"; "1e+3"].
Proof. reflexivity. Qed.
