(* ===== verification/Be1World.v ===== *)
(** The service [be1-xrpl]: its rows, its environment, and the computations it
    is made of.  A computation [prog] is a tree of effects, one for each [await]
    on a database, the ledger, the queue, the mail server or the network, so
    that the same definition runs alone ([run]) and interleaved with others
    ([Be1System.v]).  TypeORM's repositories are the interface [Table]. *)
From S2P Require Import Prelude JsString JsMap.
From Stdlib Require Import Ascii.

(** * Data *)

Inductive ContractStatus := Pending | Locked | Settled | Cancelled | Disputed.
#[export] Instance ContractStatus_eq : EqDecision ContractStatus.
Proof. solve_decision. Defined.
Definition status_str (s : ContractStatus) : string :=
  match s with
  | Pending => "pending" | Locked => "locked" | Settled => "settled"
  | Cancelled => "cancelled" | Disputed => "disputed"
  end.

(** A row of [contracts]; a [Date] is its time in milliseconds. *)
Record Contract := mkContract {
  ct_id : string; ct_tenantAddress : string; ct_landlordAddress : string;
  ct_contractAccountAddress : option string; ct_contractAccountSeedCipher : option string;
  ct_assetMode : string; ct_iouIssuer : option string; ct_iouCurrency : option string;
  ct_depositAmount : string; ct_stakeAmount : string;
  ct_depositEscrowSequence : option Z; ct_depositEscrowTxHash : option string;
  ct_stakeEscrowSequence : option Z; ct_stakeEscrowTxHash : option string;
  ct_signerListTxHash : option string; ct_status : ContractStatus;
  ct_startsAt : Z; ct_endsAt : Z; ct_finishAfter : Z; ct_cancelAfter : Z;
  ct_tenantPiiCipher : string; ct_landlordPiiCipher : string; ct_tenantEmail : option string;
  ct_createdAt : Z; ct_updatedAt : Z }.
#[export] Instance eta_Contract : Eta Contract := fun c =>
  mkContract c.(ct_id) c.(ct_tenantAddress) c.(ct_landlordAddress) c.(ct_contractAccountAddress)
    c.(ct_contractAccountSeedCipher) c.(ct_assetMode) c.(ct_iouIssuer) c.(ct_iouCurrency)
    c.(ct_depositAmount) c.(ct_stakeAmount) c.(ct_depositEscrowSequence) c.(ct_depositEscrowTxHash)
    c.(ct_stakeEscrowSequence) c.(ct_stakeEscrowTxHash) c.(ct_signerListTxHash) c.(ct_status)
    c.(ct_startsAt) c.(ct_endsAt) c.(ct_finishAfter) c.(ct_cancelAfter) c.(ct_tenantPiiCipher)
    c.(ct_landlordPiiCipher) c.(ct_tenantEmail) c.(ct_createdAt) c.(ct_updatedAt).

Inductive ReconciliationStatus := Matched | Mismatch | Failed.
#[export] Instance ReconciliationStatus_eq : EqDecision ReconciliationStatus.
Proof. solve_decision. Defined.

(** A row of [reconciliations]. *)
Record Reconciliation := mkReconciliation {
  rc_id : string; rc_contractId : string; rc_yearMonth : string;
  rc_kepcoUsageKwh : Z; rc_kepcoChargeKrw : Z; rc_kepcoUsageHash : string;
  rc_status : ReconciliationStatus; rc_paymentTxHash : option string; rc_errorMessage : option string;
  rc_reportSentAt : option Z; rc_createdAt : Z }.
#[export] Instance eta_Reconciliation : Eta Reconciliation := fun r =>
  mkReconciliation r.(rc_id) r.(rc_contractId) r.(rc_yearMonth) r.(rc_kepcoUsageKwh) r.(rc_kepcoChargeKrw)
    r.(rc_kepcoUsageHash) r.(rc_status) r.(rc_paymentTxHash) r.(rc_errorMessage) r.(rc_reportSentAt)
    r.(rc_createdAt).

(** A [Wallet] of xrpl.js. *)
Record Wallet := mkWallet { wl_classicAddress : string; wl_publicKey : string; wl_seed : option string }.
(** [kind] is always ["reconcile-payment"]. *)
Record ReconcilePaymentRetryJob := mkJob { jb_contractId : string; jb_yearMonth : string }.
Record EmailMessage := mkEmail { em_to : string; em_subject : string; em_text : string }.
Record OpmBillData := mkBill {
  ob_custNo : string; ob_billYm : string; ob_kwh : Z; ob_billAmt : Z; ob_dueDate : string;
  ob_measureFromDt : string; ob_measureToDt : string }.
Record OpmBillResponse := mkBillResponse {
  or_result : string; or_resultMsg : option string; or_data : OpmBillData }.

(** * Environment *)

(** What a thrown value is: an [Error], or the exception of NestJS that the
    HTTP layer turns into a status. *)
Inductive Exn := Err (message : string) | BadRequest (message : string) | NotFound (message : string)
  | Forbidden (message : string).
Definition message (e : Exn) : string :=
  match e with Err m | BadRequest m | NotFound m | Forbidden m => m end.

Record Be1Env := mkBe1Env {
  be_config : string -> option string;               (* ConfigService.get *)
  be_clock : nat -> Z;                                (* new Date() *)
  be_randomBytes : nat -> nat -> list ascii;          (* the n-th draw of k bytes *)
  be_generate : nat -> Wallet;                        (* Wallet.generate() *)
  be_connected : nat -> bool;                         (* client?.isConnected() *)
  be_fromSeed : string -> string + Wallet;            (* Wallet.fromSeed *)
  be_sha256 : list ascii -> list ascii;
  be_seal : list ascii -> list ascii -> list ascii -> list ascii * list ascii;   (* key, iv, plaintext *)
  be_open : list ascii -> list ascii -> list ascii -> list ascii -> option (list ascii); (* key, iv, tag, ciphertext *)
  be_stringToHex : string -> string;                  (* convertStringToHex *)
  be_hexToString : string -> string;                  (* convertHexToString *)
  be_rippleTime : string -> Z;                        (* isoTimeToRippleTime *)
  be_dropsToXrp : JsVal -> string;                    (* dropsToXrp(..).toString() *)
  be_legacyDate : string -> option Z;                 (* Date.parse on other formats *)
  be_submit : nat -> JsVal -> Wallet -> string + JsVal;         (* submitAndWait: result *)
  be_request : nat -> JsVal -> string + JsVal;                  (* request: result *)
  be_fund : nat -> Wallet -> string + Wallet;                   (* fundWallet *)
  be_get : nat -> string -> list (string * string) -> string + OpmBillResponse;
  be_queue : nat -> ReconcilePaymentRetryJob -> string + unit;
  be_mail : nat -> EmailMessage -> string + unit }.

(** The state of the process itself: the two maps of [WalletService], and how
    many times clock, randomness and connection have been asked. *)
Record Local := mkLocal { lo_wallets : JsMap Wallet; lo_connected : JsMap bool; lo_asks : nat }.
#[export] Instance eta_Local : Eta Local := fun l => mkLocal l.(lo_wallets) l.(lo_connected) l.(lo_asks).

(** * Repositories *)

(** [select] is [find({ where })], which promises no order; [insert] generates
    the key and the creation time; [update] sets columns of the row with a key
    (its last argument is the time of the statement). *)
Class Table (Row T : Type) := {
  t_rows : T -> list Row;
  t_select : (Row -> bool) -> T -> (string + list Row) * T;
  t_insert : (string -> Z -> Row) -> T -> (string + Row) * T;
  t_update : string -> (Z -> Row -> Row) -> T -> (string + unit) * T }.

(** Setting columns of the row with key [id]. *)
Definition patched {Row} (key : Row -> string) (id : string) (patch : Row -> Row) (rows : list Row) : list Row :=
  (fun r => if bool_decide (key r = id) then patch r else r) <$> rows.

(** What TypeORM and the database promise.  A statement whose answer is lost
    may have been committed or not. *)
Class TableLaws (Row T : Type) {table : Table Row T} (key : Row -> string) := {
  select_keeps p t : t_rows (t_select p t).2 ≡ₚ t_rows t;
  select_finds p t l : (t_select p t).1 = inr l -> l ≡ₚ filter (fun r => p r) (t_rows t);
  insert_spec mk t : exists id now, id ∉ key <$> t_rows t /\
    match t_insert mk t with
    | (inr r, t') => r = mk id now /\ t_rows t' ≡ₚ r :: t_rows t
    | (inl _, t') => t_rows t' ≡ₚ t_rows t \/ t_rows t' ≡ₚ mk id now :: t_rows t
    end;
  update_spec id patch t : exists now,
    match t_update id patch t with
    | (inr _, t') => t_rows t' ≡ₚ patched key id (patch now) (t_rows t)
    | (inl _, t') => t_rows t' ≡ₚ t_rows t \/ t_rows t' ≡ₚ patched key id (patch now) (t_rows t)
    end }.

(** * Effects *)

Inductive eff : Type -> Type :=
  (* synchronous code on the state of the process *)
  | Sync {X} (f : Be1Env -> Local -> X * Local) : eff X
  | ContractFind (where_ : Contract -> bool) : eff (string + list Contract)
  | ContractFindOneBy (where_ : Contract -> bool) : eff (string + option Contract)
  | ContractSave (make : string -> Z -> Contract) : eff (string + Contract)
  | ContractUpdate (id : string) (patch : Z -> Contract -> Contract) : eff (string + unit)
  | RecordFind (where_ : Reconciliation -> bool) : eff (string + list Reconciliation)
  | RecordFindOne (where_ : Reconciliation -> bool) : eff (string + option Reconciliation)
  | RecordCount (where_ : Reconciliation -> bool) : eff (string + Z)
  | RecordSave (make : string -> Z -> Reconciliation) : eff (string + Reconciliation)
  | RecordUpdate (id : string) (patch : Z -> Reconciliation -> Reconciliation) : eff (string + unit)
  | QueueAdd (job : ReconcilePaymentRetryJob) : eff (string + unit)
  | SendEmail (m : EmailMessage) : eff (string + unit)
  | HttpGet (url : string) (params : list (string * string)) : eff (string + OpmBillResponse)
  | SubmitAndWait (tx : JsVal) (wallet : Wallet) : eff (string + JsVal)
  | Request (command : JsVal) : eff (string + JsVal)
  | FundWallet (wallet : Wallet) : eff (string + Wallet).

Inductive prog (A : Type) : Type :=
  | Ret (a : A)
  | Throw (e : Exn)
  | Do {X} (e : eff X) (k : X -> prog A).
Arguments Ret {A} a.
Arguments Throw {A} e.
Arguments Do {A X} e k.

#[export] Instance prog_ret : MRet prog := fun A a => Ret a.
#[export] Instance prog_bind : MBind prog := fun A B f => fix bind m :=
  match m with
  | Ret a => f a
  | Throw e => Throw e
  | Do e k => Do e (fun x => bind (k x))
  end.
(** [try { .. }] as a value. *)
Fixpoint attempt {A} (m : prog A) : prog (Exn + A) :=
  match m with
  | Ret a => Ret (inr a)
  | Throw e => Ret (inl e)
  | Do e k => Do e (fun x => attempt (k x))
  end.
Definition catch {A} (m : prog A) (h : Exn -> prog A) : prog A :=
  r ← attempt m; match r with inl e => h e | inr a => mret a end.
(** [try { m } finally { f }] *)
Definition finally {A} (m : prog A) (f : prog unit) : prog A :=
  r ← attempt m; f;; match r with inl e => Throw e | inr a => mret a end.
Definition forget {A} (m : prog A) : prog unit := m;; mret tt.

Definition await {X} (e : eff (string + X)) : prog X :=
  Do e (fun r => match r with inl m => Throw (Err m) | inr x => Ret x end).
Definition sync {X} (f : Be1Env -> Local -> X * Local) : prog X := Do (Sync f) Ret.
Definition ask {X} (f : Be1Env -> X) : prog X := sync (fun env l => (f env, l)).
(** An oracle of the process: clock, randomness, connection. *)
Definition draw {X} (f : Be1Env -> nat -> X) : prog X :=
  sync (fun env l => (f env l.(lo_asks), l <| lo_asks := S l.(lo_asks) |>)).
Definition config (key : string) : prog (option string) := ask (fun env => env.(be_config) key).
Definition lift {A} (r : Exn + A) : prog A := match r with inl e => Throw e | inr a => Ret a end.
Definition err {A} (msg : string) : prog A := Throw (Err msg).

(** * Running *)

Record Submission := mkSubmission { sb_tx : JsVal; sb_wallet : Wallet; sb_reply : string + JsVal }.

(** The two tables, the process, the number of network operations so far, every
    transaction handed to the ledger with its answer, the jobs and the mails. *)
Record Be1World (CT RT : Type) := mkBe1World {
  bw_contracts : CT; bw_records : RT; bw_local : Local; bw_io : nat;
  bw_ledger : list Submission; bw_jobs : list ReconcilePaymentRetryJob; bw_mails : list EmailMessage }.
Arguments mkBe1World {CT RT}.
Arguments bw_contracts {CT RT}.
Arguments bw_records {CT RT}.
Arguments bw_local {CT RT}.
Arguments bw_io {CT RT}.
Arguments bw_ledger {CT RT}.
Arguments bw_jobs {CT RT}.
Arguments bw_mails {CT RT}.
#[export] Instance eta_Be1World CT RT : Eta (Be1World CT RT) := fun w =>
  mkBe1World w.(bw_contracts) w.(bw_records) w.(bw_local) w.(bw_io) w.(bw_ledger) w.(bw_jobs) w.(bw_mails).

Definition byCreatedDesc (a b : Reconciliation) : comparison := (b.(rc_createdAt) ?= a.(rc_createdAt))%Z.

Section Run.
Context {CT RT : Type} `{!Table Contract CT, !Table Reconciliation RT}.
Notation World := (Be1World CT RT).

Definition on_contracts {X} (r : X * CT) (w : World) : X * World := (r.1, w <| bw_contracts := r.2 |>).
Definition on_records {X} (r : X * RT) (w : World) : X * World := (r.1, w <| bw_records := r.2 |>).
Definition tick (w : World) : World := w <| bw_io := S w.(bw_io) |>.
Definition map_ok {A B} (f : A -> B) (r : string + A) : string + B :=
  match r with inl m => inl m | inr a => inr (f a) end.

Definition perform (env : Be1Env) {X} (e : eff X) (w : World) : X * World :=
  match e in eff X return X * World with
  | Sync f => let '(x, l) := f env w.(bw_local) in (x, w <| bw_local := l |>)
  | ContractFind p => on_contracts (t_select p w.(bw_contracts)) w
  | ContractFindOneBy p =>
      let r := t_select p w.(bw_contracts) in on_contracts (map_ok head r.1, r.2) w
  | ContractSave mk => on_contracts (t_insert mk w.(bw_contracts)) w
  | ContractUpdate id patch => on_contracts (t_update id patch w.(bw_contracts)) w
  | RecordFind p => let r := t_select p w.(bw_records) in on_records (map_ok (js_sort byCreatedDesc) r.1, r.2) w
  | RecordFindOne p => let r := t_select p w.(bw_records) in on_records (map_ok head r.1, r.2) w
  | RecordCount p =>
      let r := t_select p w.(bw_records) in on_records (map_ok (fun l => Z.of_nat (length l)) r.1, r.2) w
  | RecordSave mk => on_records (t_insert mk w.(bw_records)) w
  | RecordUpdate id patch => on_records (t_update id patch w.(bw_records)) w
  | QueueAdd job =>
      match env.(be_queue) w.(bw_io) job with
      | inl m => (inl m, tick w)
      | inr _ => (inr tt, tick w <| bw_jobs := w.(bw_jobs) ++ [job] |>)
      end
  | SendEmail m =>
      match env.(be_mail) w.(bw_io) m with
      | inl err => (inl err, tick w)
      | inr _ => (inr tt, tick w <| bw_mails := w.(bw_mails) ++ [m] |>)
      end
  | HttpGet url params => (env.(be_get) w.(bw_io) url params, tick w)
  | SubmitAndWait tx wallet =>
      let r := env.(be_submit) w.(bw_io) tx wallet in
      (r, tick w <| bw_ledger := w.(bw_ledger) ++ [mkSubmission tx wallet r] |>)
  | Request c => (env.(be_request) w.(bw_io) c, tick w)
  | FundWallet wallet => (env.(be_fund) w.(bw_io) wallet, tick w)
  end.

(** One computation alone. *)
Fixpoint run (env : Be1Env) {A} (m : prog A) (w : World) : (Exn + A) * World :=
  match m with
  | Ret a => (inr a, w)
  | Throw e => (inl e, w)
  | Do e k => let '(x, w') := perform env e w in run env (k x) w'
  end.

Lemma run_bind env {A B} (m : prog A) (k : A -> prog B) w :
  run env (m ≫= k) w =
  match run env m w with (inr a, w') => run env (k a) w' | (inl e, w') => (inl e, w') end.
Proof.
  revert w. induction m as [a|e|X e k' IH]; intros w; [done..|]. cbn. destruct (perform env e w). apply IH.
Qed.
Lemma run_attempt env {A} (m : prog A) w : run env (attempt m) w = (inr (run env m w).1, (run env m w).2).
Proof.
  revert w. induction m as [a|e|X e k' IH]; intros w; [done..|]. cbn. destruct (perform env e w). apply IH.
Qed.
End Run.

(** * A repository in memory *)

(** Rows in insertion order; the [n]-th statement is answered, refused, or
    carried out with its answer lost. *)
Inductive Outcome := Answered | Refused | Lost.
Record MemTable (Row : Type) := mkMemTable {
  mt_rows : list Row; mt_next : nat; mt_outcome : nat -> Outcome; mt_now : nat -> Z }.
Arguments mkMemTable {Row}.
Arguments mt_rows {Row}.
Arguments mt_next {Row}.
Arguments mt_outcome {Row}.
Arguments mt_now {Row}.
Definition memTable {Row} : MemTable Row := mkMemTable [] 0 (fun _ => Answered) (fun n => Z.of_nat n).

Section Mem.
Context {Row : Type} (key : Row -> string).

Definition longest (ids : list string) : nat := foldr (fun s n => String.length s `max` n) 0 ids.
Definition fresh_id (rows : list Row) : string := of_chars (replicate (S (longest (key <$> rows))) "r"%char).
Definition mt_step (t : MemTable Row) (rows : list Row) : MemTable Row :=
  mkMemTable rows (S t.(mt_next)) t.(mt_outcome) t.(mt_now).
(** A statement that leaves [rows] and answers [x]. *)
Definition statement {X} (t : MemTable Row) (rows : list Row) (x : X) : (string + X) * MemTable Row :=
  match t.(mt_outcome) t.(mt_next) with
  | Answered => (inr x, mt_step t rows)
  | Refused => (inl "connection refused", mt_step t t.(mt_rows))
  | Lost => (inl "connection terminated", mt_step t rows)
  end.
Definition mem_table : Table Row (MemTable Row) := {|
  t_rows := mt_rows;
  t_select p t := statement t t.(mt_rows) (filter (fun r => p r) t.(mt_rows));
  t_insert mk t :=
    let r := mk (fresh_id t.(mt_rows)) (t.(mt_now) t.(mt_next)) in statement t (t.(mt_rows) ++ [r]) r;
  t_update id patch t := statement t (patched key id (patch (t.(mt_now) t.(mt_next))) t.(mt_rows)) tt |}.

Lemma longest_le s ids : s ∈ ids -> String.length s <= longest ids.
Proof. induction 1 as [s ids|s s' ids _ IH]; simpl; lia. Qed.
Lemma of_chars_length l : String.length (of_chars l) = length l.
Proof. induction l; simpl; auto. Qed.
Lemma fresh_id_fresh rows : fresh_id rows ∉ key <$> rows.
Proof.
  intros H%longest_le. revert H. unfold fresh_id. rewrite of_chars_length, length_replicate. lia.
Qed.
Lemma mem_table_laws : @TableLaws Row (MemTable Row) mem_table key.
Proof.
  split; cbn; unfold statement.
  - intros p t. by destruct (mt_outcome t _).
  - intros p t l. destruct (mt_outcome t _); intros; simplify_eq/=; done.
  - intros mk t. exists (fresh_id t.(mt_rows)), (t.(mt_now) t.(mt_next)). split; [apply fresh_id_fresh|].
    destruct (mt_outcome t _); simpl; [split; [done|]|by left|right]; by rewrite Permutation_app_comm.
  - intros id patch t. exists (t.(mt_now) t.(mt_next)). destruct (mt_outcome t _); simpl; auto.
Qed.
End Mem.
#[export] Instance contract_table : Table Contract (MemTable Contract) := mem_table ct_id.
#[export] Instance contract_laws : TableLaws Contract (MemTable Contract) ct_id := mem_table_laws ct_id.
#[export] Instance record_table : Table Reconciliation (MemTable Reconciliation) := mem_table rc_id.
#[export] Instance record_laws : TableLaws Reconciliation (MemTable Reconciliation) rc_id := mem_table_laws rc_id.
