(* ===== verification/Be1Xrpl.v ===== *)
(** [be1-xrpl/src/xrpl]: the services that build a transaction, hand it to the
    ledger and check the answer ([EscrowService], [SignerListService],
    [SettlementPaymentService], [TrustSetService], [SoulboundNftService],
    [XrplClientService]), and the helpers of [iou-lines.util.ts]. *)
From S2P Require Import Prelude JsString JsMap JsDate Json CoreTx CoreDispute JsFloat Be1World.
From Stdlib Require Import Ascii.

(** * JavaScript values in answers *)

(** [`${v}`] *)
Fixpoint display (v : JsVal) : string :=
  match v with
  | JUndef => "undefined"
  | JNull => "null"
  | JBool b => if b then "true" else "false"
  | JNum n => num_str n
  | JDec s | JStr s => s
  | JArr l => String.concat "," (map (fun x => match x with JUndef | JNull => "" | _ => display x end) l)
  | JObj _ => "[object Object]"
  end.
(** [typeof v === "object" && v !== null] *)
Definition isObject (v : JsVal) : bool := match v with JArr _ | JObj _ => true | _ => false end.
(** [v === s] *)
Definition isStr (s : string) (v : JsVal) : bool :=
  match v with JStr t => bool_decide (t = s) | _ => false end.
(** [Number(v)] when it is finite; the numbers of the ledger are integers, and
    on their spellings [Number] and [BigInt] agree. *)
Definition finiteNumber (v : JsVal) : option Z :=
  match v with
  | JNull => Some 0%Z
  | JBool b => Some (if b then 1 else 0)%Z
  | JNum n => Some n
  | JStr s => parseBigInt s
  | _ => None
  end.
(** [BigInt(v)] *)
Definition bigint (v : JsVal) : option Z :=
  match v with
  | JBool b => Some (if b then 1 else 0)%Z
  | JNum n => Some n
  | JStr s => parseBigInt s
  | _ => None
  end.
(** [v.k] *)
Definition prop (k : string) (v : JsVal) : Exn + JsVal :=
  match v with
  | JUndef | JNull =>
      inl (Err ("Cannot read properties of " +:+ display v +:+ " (reading '" +:+ k +:+ "')"))
  | _ => inr (jget k v)
  end.
(** [v ?? d] *)
Definition coalesce (v d : JsVal) : JsVal := match v with JUndef | JNull => d | _ => v end.
Definition text (d : string) (v : JsVal) : string := default d (jstr v).
(** [/^\d+$/.test(s)] *)
Definition allDigits (s : string) : bool := negb (bool_decide (s = "")) && all_chars is_digit s.

(** * [XrplClientService] *)

Definition getClient : prog unit :=
  ok ← draw be_connected;
  if ok : bool then mret tt else err "XRPL client is not connected".
Definition request (command : JsVal) : prog JsVal := getClient;; await (Request command).
Definition submitAndWait (tx : JsVal) (wallet : Wallet) : prog JsVal := getClient;; await (SubmitAndWait tx wallet).

Definition accountInfo (address : string) : JsVal :=
  JObj [("command", JStr "account_info"); ("account", JStr address); ("ledger_index", JStr "validated")].
Definition generateAndFundWallet : prog Wallet :=
  getClient;;
  wallet ← draw be_generate;
  await (FundWallet wallet).
Definition minDrops : Z := 10000000.
Definition ensureTestnetXrpForFees (wallet : Wallet) : prog unit :=
  getClient;;
  enough ← catch
    (r ← await (Request (accountInfo wallet.(wl_classicAddress)));
     balance ← lift (prop "Balance" (jget "account_data" r));
     match bigint balance with
     | Some drops => mret (minDrops <=? drops)%Z
     | None => err "Cannot convert to a BigInt"
     end)
    (fun _ => mret false);
  if enough : bool then mret tt else await (FundWallet wallet);; mret tt.
Definition getXrpBalance (address : string) : prog string :=
  r ← request (accountInfo address);
  balanceDrops ← lift (prop "Balance" (jget "account_data" r));
  dropsToXrp ← ask be_dropsToXrp;
  mret (dropsToXrp balanceDrops).

(** * [iou-lines.util.ts] *)

Definition is_code (c : ascii) : bool := is_digit c || is_upper c.
Definition is_upper_hex (c : ascii) : bool := is_digit c || is_upper c && (code c <=? 70)%N.
Definition normalizeIouCurrencyCode (raw : string) : Exn + string :=
  let c := toUpperCase (trim raw) in
  if (str_length c =? 3)%nat && all_chars is_code c then inr c
  else if (str_length c =? 40)%nat && all_chars is_upper_hex c then inr c
  else inl (Err ("Invalid IOU currency code (use 3-letter code or 40-char hex): " +:+ raw)).
Definition iouAmount (issuer currency value : string) : JsVal :=
  JObj [("issuer", JStr issuer); ("currency", JStr currency); ("value", JStr value)].
Definition buildIouAmount (issuer currency value : string) : Exn + JsVal :=
  match normalizeIouCurrencyCode currency with
  | inl e => inl e
  | inr c => inr (iouAmount (trim issuer) c (trim value))
  end.

Record TrustLine := mkTrustLine { tl_limit : string; tl_balance : string; tl_currency : string }.
Fixpoint findLine (want : string) (lines : list JsVal) : option TrustLine :=
  match lines with
  | [] => None
  | line :: rest =>
      let currency := text "" (jget "currency" line) in
      if bool_decide (toUpperCase currency = want) then
        Some (mkTrustLine (text "0" (jget "limit" line)) (text "0" (jget "balance" line)) currency)
      else findLine want rest
  end.
(** The client has been obtained by the caller. *)
Definition findTrustLine (account issuer currency : string) : prog (option TrustLine) :=
  want ← lift (normalizeIouCurrencyCode currency);
  res ← await (Request (JObj [("command", JStr "account_lines"); ("account", JStr account);
          ("peer", JStr issuer); ("ledger_index", JStr "validated")]));
  mret (findLine want (match jget "lines" res with JArr l => l | _ => [] end)).

Definition sumIouValueStrings (a b : string) : Exn + string :=
  let x := fadd (parseFloat a) (parseFloat b) in
  if negb (isFinite x) || flt x fzero then inl (Err "Invalid IOU amount sum")
  else
    let s := stripZeros (toFixed 15 x) in
    inr (if bool_decide (s = "") then "0" else s).
Definition iouValueGte (limit need : string) : bool := fge (parseFloat limit) (parseFloat need).

Record IouBalance := mkIouBalance { ib_currency : string; ib_issuer : string; ib_value : string }.
Definition getIouBalance (account issuer currency : string) : prog (option IouBalance) :=
  getClient;;
  line ← findTrustLine account issuer currency;
  mret (option_map (fun l => mkIouBalance l.(tl_currency) issuer l.(tl_balance)) line).

(** * Reading the result of a transaction *)

(** The checks on [meta] that every service makes before it trusts an answer. *)
Definition assertMeta (missing : string) (failed : string -> string) (result : JsVal) : Exn + unit :=
  let meta := jget "meta" result in
  if negb (isObject meta) then inl (Err missing)
  else if negb (isStr "tesSUCCESS" (jget "TransactionResult" meta)) then
    inl (Err (failed (display (jget "TransactionResult" meta))))
  else inr tt.

(** [EscrowMutationResult], [SignerListSetResult] and the result of a mint. *)
Record TxOutcome := mkOutcome { tx_hash : option string; tx_ledgerIndex : Z; tx_validated : JsVal }.
Definition assertLedger (label : string) (result : JsVal) : Exn + Z :=
  match finiteNumber (jget "ledger_index" result) with
  | Some n => inr n
  | None => inl (Err (label +:+ " response missing ledger_index"))
  end.
Definition outcome (label : string) (result : JsVal) : Exn + TxOutcome :=
  match assertLedger label result with
  | inl e => inl e
  | inr ledger => inr (mkOutcome (jstr (jget "hash" result)) ledger (coalesce (jget "validated" result) (JBool false)))
  end.
Definition then_ {A B} (r : Exn + A) (k : A -> Exn + B) : Exn + B :=
  match r with inl e => inl e | inr a => k a end.

(** * [EscrowService] *)

Record CreateEscrowParams := mkEscrowParams {
  ep_account : Wallet; ep_destination : string; ep_amount : JsVal;
  ep_finishAfter : option Z; ep_cancelAfter : option Z;
  ep_condition : option string; ep_destinationTag : option Z }.
Record EscrowCreatedResult := mkEscrowCreated {
  ec_txHash : option string; ec_escrowSequence : Z; ec_ledgerIndex : Z; ec_validated : JsVal }.

Definition validateEscrowParams (p : CreateEscrowParams) : Exn + unit :=
  match p.(ep_finishAfter), p.(ep_cancelAfter) with
  | None, None =>
      if truthy p.(ep_condition) then inr tt
      else inl (Err "EscrowCreate requires at least one of: finishAfter, cancelAfter, condition")
  | Some f, Some c => if (c <=? f)%Z then inl (Err "cancelAfter must be later than finishAfter") else inr tt
  | _, _ => inr tt
  end.
Definition escrowCreateTx (rippleTime : string -> Z) (p : CreateEscrowParams) : JsVal :=
  let time d := JNum (rippleTime (toISOString d)) in
  JObj ([("TransactionType", JStr "EscrowCreate"); ("Account", JStr p.(ep_account).(wl_classicAddress));
         ("Destination", JStr p.(ep_destination)); ("Amount", p.(ep_amount))]
        ++ when "FinishAfter" p.(ep_finishAfter) time
        ++ when "CancelAfter" p.(ep_cancelAfter) time
        ++ when "Condition" (nonempty p.(ep_condition)) JStr
        ++ when "DestinationTag" p.(ep_destinationTag) JNum).
Definition assertCreateSuccess (result : JsVal) : Exn + EscrowCreatedResult :=
  then_ (assertMeta "EscrowCreate not validated: meta missing or string" (fun r => "EscrowCreate failed: " +:+ r) result)
    (fun _ =>
  let seq := coalesce (jget "Sequence" (jget "tx_json" result)) (jget "Sequence" result) in
  match finiteNumber seq with
  | None => inl (Err "EscrowCreate response missing Sequence")
  | Some seq =>
      then_ (assertLedger "EscrowCreate" result) (fun ledger =>
        inr (mkEscrowCreated (jstr (jget "hash" result)) seq ledger (coalesce (jget "validated" result) (JBool false))))
  end).
Definition createEscrow (p : CreateEscrowParams) : prog EscrowCreatedResult :=
  lift (validateEscrowParams p);;
  rippleTime ← ask be_rippleTime;
  response ← submitAndWait (escrowCreateTx rippleTime p) p.(ep_account);
  lift (assertCreateSuccess response).

Definition assertMutationSuccess (label : string) (result : JsVal) : Exn + TxOutcome :=
  then_ (assertMeta (label +:+ " not validated: meta missing or string") (fun r => label +:+ " failed: " +:+ r) result)
    (fun _ => outcome label result).
Record EscrowMutation := mkMutation {
  mu_submitter : Wallet; mu_owner : string; mu_offerSequence : Z;
  mu_condition : option string; mu_fulfillment : option string }.
Definition escrowMutationTx (label : string) (m : EscrowMutation) : JsVal :=
  JObj ([("TransactionType", JStr label); ("Account", JStr m.(mu_submitter).(wl_classicAddress));
         ("Owner", JStr m.(mu_owner)); ("OfferSequence", JNum m.(mu_offerSequence))]
        ++ when "Condition" (nonempty m.(mu_condition)) JStr
        ++ when "Fulfillment" (nonempty m.(mu_fulfillment)) JStr).
Definition finishEscrow (m : EscrowMutation) : prog TxOutcome :=
  if (m.(mu_offerSequence) <=? 0)%Z then err "finishEscrow: offerSequence must be a positive integer"
  else
    response ← submitAndWait (escrowMutationTx "EscrowFinish" m) m.(mu_submitter);
    lift (assertMutationSuccess "EscrowFinish" response).
(** Called without condition and fulfillment. *)
Definition cancelEscrow (submitter : Wallet) (owner : string) (offerSequence : Z) : prog TxOutcome :=
  if (offerSequence <=? 0)%Z then err "cancelEscrow: offerSequence must be a positive integer"
  else
    response ← submitAndWait (escrowMutationTx "EscrowCancel" (mkMutation submitter owner offerSequence None None)) submitter;
    lift (assertMutationSuccess "EscrowCancel" response).

(** * [SignerListService] *)

Record SignerSpec := mkSigner { ss_account : string; ss_weight : Z; ss_walletLocator : option string }.
Record SetSignerListParams := mkSignerList { sl_account : Wallet; sl_signers : list SignerSpec; sl_quorum : Z }.
Definition MAX_SIGNERS : nat := 32.
Definition MIN_WEIGHT : Z := 1.
Definition MAX_WEIGHT : Z := 65535.

(** The loop over the signers: the accounts seen and the weight so far. *)
Fixpoint checkSigners (owner : string) (seen : list string) (total : Z) (signers : list SignerSpec) : Exn + Z :=
  match signers with
  | [] => inr total
  | s :: rest =>
      if (s.(ss_weight) <? MIN_WEIGHT)%Z || (MAX_WEIGHT <? s.(ss_weight))%Z then
        inl (Err ("signer weight out of range: " +:+ num_str s.(ss_weight) +:+ " (must be "
                  +:+ num_str MIN_WEIGHT +:+ "-" +:+ num_str MAX_WEIGHT +:+ ")"))
      else if bool_decide (s.(ss_account) = owner) then inl (Err "owner account cannot be in its own SignerList")
      else if bool_decide (s.(ss_account) ∈ seen) then inl (Err ("duplicate signer account: " +:+ s.(ss_account)))
      else checkSigners owner (s.(ss_account) :: seen) (total + s.(ss_weight)) rest
  end.
Definition validateSignerList (p : SetSignerListParams) : Exn + unit :=
  let n := length p.(sl_signers) in
  if (n =? 0)%nat then inl (Err "SignerListSet requires at least one signer")
  else if (MAX_SIGNERS <? n)%nat then
    inl (Err ("SignerListSet supports up to " +:+ num_str (Z.of_nat MAX_SIGNERS) +:+ " signers (got "
              +:+ num_str (Z.of_nat n) +:+ ")"))
  else if (p.(sl_quorum) <=? 0)%Z then inl (Err "quorum must be greater than 0")
  else then_ (checkSigners p.(sl_account).(wl_classicAddress) [] 0 p.(sl_signers)) (fun totalWeight =>
    if (totalWeight <? p.(sl_quorum))%Z then
      inl (Err ("quorum (" +:+ num_str p.(sl_quorum) +:+ ") exceeds sum of signer weights ("
                +:+ num_str totalWeight +:+ ")"))
    else inr tt).
Definition signerListTx (p : SetSignerListParams) : JsVal :=
  JObj [("TransactionType", JStr "SignerListSet"); ("Account", JStr p.(sl_account).(wl_classicAddress));
        ("SignerQuorum", JNum p.(sl_quorum));
        ("SignerEntries", JArr ((fun s => JObj [("SignerEntry", JObj (
            [("Account", JStr s.(ss_account)); ("SignerWeight", JNum s.(ss_weight))]
            ++ when "WalletLocator" (nonempty s.(ss_walletLocator)) JStr))]) <$> p.(sl_signers)))].
Definition assertSignerListSuccess (result : JsVal) : Exn + TxOutcome :=
  then_ (assertMeta "SignerListSet not validated: meta missing or string" (fun r => "SignerListSet failed: " +:+ r) result)
    (fun _ => outcome "SignerListSet" result).
Definition setSignerList (p : SetSignerListParams) : prog TxOutcome :=
  lift (validateSignerList p);;
  response ← submitAndWait (signerListTx p) p.(sl_account);
  lift (assertSignerListSuccess response).

(** * [SettlementPaymentService] *)

Record SubmitXrpPaymentParams := mkXrpPayment {
  sp_sourceAddress : string; sp_destinationAddress : string; sp_sourceSeed : string;
  sp_amountDrops : string; sp_memos : list JsVal }.
Definition xrpPaymentTx (p : SubmitXrpPaymentParams) : JsVal :=
  JObj ([("TransactionType", JStr "Payment"); ("Account", JStr p.(sp_sourceAddress));
         ("Destination", JStr p.(sp_destinationAddress)); ("Amount", JStr p.(sp_amountDrops))]
        ++ match p.(sp_memos) with [] => [] | l => [("Memos", JArr l)] end).
Definition assertPaymentSuccess (result : JsVal) : Exn + option string :=
  then_ (assertMeta "Payment response meta missing or string" (fun r => "Payment failed: " +:+ r) result)
    (fun _ => inr (jstr (jget "hash" result))).
Definition fromSeed (seed : string) : prog Wallet :=
  f ← ask be_fromSeed;
  match f seed with inl m => err m | inr wallet => mret wallet end.
Definition submitXrpPayment (p : SubmitXrpPaymentParams) : prog (option string) :=
  wallet ← fromSeed p.(sp_sourceSeed);
  if negb (bool_decide (wallet.(wl_classicAddress) = p.(sp_sourceAddress))) then
    err ("sourceSeed 주소(" +:+ wallet.(wl_classicAddress) +:+ ")가 sourceAddress(" +:+ p.(sp_sourceAddress)
         +:+ ")와 일치하지 않습니다.")
  else if negb (allDigits p.(sp_amountDrops)) then err "amountDrops must be a non-negative integer drops string"
  else
    response ← submitAndWait (xrpPaymentTx p) wallet;
    lift (assertPaymentSuccess response).

(** * [TrustSetService] *)

Definition trustSetTx (owner : Wallet) (limitAmount : JsVal) : JsVal :=
  JObj [("TransactionType", JStr "TrustSet"); ("Account", JStr owner.(wl_classicAddress));
        ("LimitAmount", limitAmount)].
Definition submitTrustSet (owner : Wallet) (limitAmount : JsVal) : prog (option string) :=
  response ← submitAndWait (trustSetTx owner limitAmount) owner;
  lift (then_ (assertMeta "TrustSet response meta missing or string" (fun r => "TrustSet failed: " +:+ r) response)
    (fun _ => inr (jstr (jget "hash" response)))).
Definition assertTxSuccess (result : JsVal) : Exn + unit :=
  assertMeta "XRPL tx meta missing" (fun r => "XRPL tx failed: " +:+ r) result.

(** * [SoulboundNftService] *)

Definition mintTx (minter : Wallet) (taxon : Z) (uriHex : string) : JsVal :=
  JObj [("TransactionType", JStr "NFTokenMint"); ("Account", JStr minter.(wl_classicAddress));
        ("NFTokenTaxon", JNum taxon); ("URI", JStr uriHex)].
Definition mintSoulboundNft (minter : Wallet) (taxon : Z) (uriUtf8 : string) : prog TxOutcome :=
  let uri := trim uriUtf8 in
  if bool_decide (uri = "") then err "mintSoulboundNft: uriUtf8 must be non-empty"
  else if (taxon <? 0)%Z || (2147483647 <? taxon)%Z then err "mintSoulboundNft: taxon out of supported range"
  else
    hex ← ask be_stringToHex;
    response ← submitAndWait (mintTx minter taxon (hex uri)) minter;
    lift (then_ (assertMeta "NFTokenMint response meta missing or string" (fun r => "NFTokenMint failed: " +:+ r) response)
      (fun _ => outcome "NFTokenMint" response)).
