(* ===== verification/Be1Contracts.v ===== *)
(** [be1-xrpl/src/contracts] and the services it stands on: the encryption of
    stored secrets, the preparation of IOU contracts, the locking of a deposit
    in two escrows and a signer list, and the three routes. *)
From S2P Require Import Prelude JsString JsMap JsDate Base64 JsFloat Be1World Be1Xrpl.
From Stdlib Require Import Ascii.

(** * [AesGcmEncryptionService] *)

Definition IV_BYTES : nat := 12.
Definition TAG_BYTES : nat := 16.
Definition KEY_BYTES : nat := 32.
(** [buffer.toString("base64")]: the other alphabet, with padding. *)
Definition base64_encode (bytes : list ascii) : string :=
  let url := chars (base64url_encode (of_chars bytes)) in
  of_chars ((fun c => if bool_decide (c = "-"%char) then "+"%char
                      else if bool_decide (c = "_"%char) then "/"%char else c) <$> url)
  +:+ of_chars (replicate ((4 - length url mod 4) mod 4) "="%char).
(** [Buffer.from(s, "base64")] *)
Definition base64_decode (s : string) : list ascii := chars (base64url_decode s).

(** The constructor keeps the key or the error that the first use throws. *)
Definition encryptionKey (masterKey : option string) : Exn + list ascii :=
  match nonempty masterKey with
  | None => inl (Err "ENCRYPTION_MASTER_KEY is not configured")
  | Some k =>
      let decoded := base64_decode k in
      if (length decoded =? KEY_BYTES)%nat then inr decoded
      else inl (Err ("ENCRYPTION_MASTER_KEY must be " +:+ num_str (Z.of_nat KEY_BYTES) +:+ " bytes base64 (got "
                     +:+ num_str (Z.of_nat (length decoded)) +:+ " bytes)"))
  end.
Definition requireKey : prog (list ascii) :=
  masterKey ← config "ENCRYPTION_MASTER_KEY"; lift (encryptionKey masterKey).
Definition encrypt (plaintext : string) : prog string :=
  key ← requireKey;
  iv ← draw (fun env n => env.(be_randomBytes) n IV_BYTES);
  seal ← ask be_seal;
  let '(ciphertext, tag) := seal key iv (chars plaintext) in
  mret (base64_encode (iv ++ tag ++ ciphertext)).
Definition decryptWith (env : Be1Env) (packaged : string) : Exn + string :=
  then_ (encryptionKey (env.(be_config) "ENCRYPTION_MASTER_KEY")) (fun key =>
  let buf := base64_decode packaged in
  if (length buf <? IV_BYTES + TAG_BYTES)%nat then inl (Err "ciphertext too short")
  else
    match env.(be_open) key (take IV_BYTES buf) (take TAG_BYTES (drop IV_BYTES buf))
            (drop (IV_BYTES + TAG_BYTES) buf) with
    | Some plaintext => inr (of_chars plaintext)
    | None => inl (Err "Unsupported state or unable to authenticate data")
    end).
Definition decrypt (packaged : string) : prog string :=
  r ← ask (fun env => decryptWith env packaged); lift r.

(** * [ContractsService] *)

Inductive ContractAssetMode := XRP | IOU.
Definition mode_str (m : ContractAssetMode) : string := match m with XRP => "XRP" | IOU => "IOU" end.
Record CreateContractInput := mkCreate {
  ci_tenantAddress : string; ci_landlordAddress : string; ci_depositAmount : string; ci_stakeAmount : string;
  ci_startsAt : Z; ci_endsAt : Z; ci_finishAfter : Z; ci_cancelAfter : Z;
  ci_tenantPii : string; ci_landlordPii : string; ci_tenantEmail : option string;
  ci_assetMode : option ContractAssetMode; ci_iouIssuer : option string; ci_iouCurrency : option string }.
Record LockTenantDepositInput := mkLock {
  lk_input : CreateContractInput; lk_contractWallet : Wallet; lk_operatorAddress : string }.
(** The row without its ciphers, and the decrypted secrets. *)
Record ContractDto := mkDto {
  cd_id : string; cd_tenantAddress : string; cd_landlordAddress : string;
  cd_contractAccountAddress : option string; cd_contractAccountSeed : option string;
  cd_assetMode : string; cd_iouIssuer : option string; cd_iouCurrency : option string;
  cd_depositAmount : string; cd_stakeAmount : string;
  cd_depositEscrowSequence : option Z; cd_depositEscrowTxHash : option string;
  cd_stakeEscrowSequence : option Z; cd_stakeEscrowTxHash : option string;
  cd_signerListTxHash : option string; cd_status : ContractStatus;
  cd_startsAt : Z; cd_endsAt : Z; cd_finishAfter : Z; cd_cancelAfter : Z;
  cd_tenantPii : string; cd_landlordPii : string; cd_tenantEmail : option string;
  cd_createdAt : Z; cd_updatedAt : Z }.

Definition toDto (c : Contract) : prog ContractDto :=
  tenantPii ← decrypt c.(ct_tenantPiiCipher);
  landlordPii ← decrypt c.(ct_landlordPiiCipher);
  seed ← match nonempty c.(ct_contractAccountSeedCipher) with
         | Some cipher => s ← decrypt cipher; mret (Some s)
         | None => mret None
         end;
  mret (mkDto c.(ct_id) c.(ct_tenantAddress) c.(ct_landlordAddress) c.(ct_contractAccountAddress) seed
    c.(ct_assetMode) c.(ct_iouIssuer) c.(ct_iouCurrency) c.(ct_depositAmount) c.(ct_stakeAmount)
    c.(ct_depositEscrowSequence) c.(ct_depositEscrowTxHash) c.(ct_stakeEscrowSequence)
    c.(ct_stakeEscrowTxHash) c.(ct_signerListTxHash) c.(ct_status) c.(ct_startsAt) c.(ct_endsAt)
    c.(ct_finishAfter) c.(ct_cancelAfter) tenantPii landlordPii c.(ct_tenantEmail)
    c.(ct_createdAt) c.(ct_updatedAt)).

Definition assetModeOf (i : CreateContractInput) : ContractAssetMode := default XRP i.(ci_assetMode).
(** The entity that [create] saves; the columns of the lock are null. *)
Definition newRow (i : CreateContractInput) (tenantPiiCipher landlordPiiCipher : string)
    (iouCurrency : option string) (id : string) (now : Z) : Contract :=
  mkContract id i.(ci_tenantAddress) i.(ci_landlordAddress) None None
    (mode_str (assetModeOf i)) (match assetModeOf i with IOU => i.(ci_iouIssuer) | XRP => None end) iouCurrency
    i.(ci_depositAmount) i.(ci_stakeAmount) None None None None None Pending
    i.(ci_startsAt) i.(ci_endsAt) i.(ci_finishAfter) i.(ci_cancelAfter)
    tenantPiiCipher landlordPiiCipher i.(ci_tenantEmail) now now.
Definition create (i : CreateContractInput) : prog ContractDto :=
  tenantPiiCipher ← encrypt i.(ci_tenantPii);
  landlordPiiCipher ← encrypt i.(ci_landlordPii);
  iouCurrency ← match assetModeOf i, nonempty i.(ci_iouCurrency) with
                | IOU, Some c => n ← lift (normalizeIouCurrencyCode c); mret (Some n)
                | _, _ => mret None
                end;
  saved ← await (ContractSave (newRow i tenantPiiCipher landlordPiiCipher iouCurrency));
  toDto saved.

Definition hasId (id : string) (c : Contract) : bool := bool_decide (c.(ct_id) = id).
Definition findById (id : string) : prog (option ContractDto) :=
  found ← await (ContractFindOneBy (hasId id));
  match found with
  | Some c => dto ← toDto c; mret (Some dto)
  | None => mret None
  end.
Fixpoint toDtos (rows : list Contract) : prog (list ContractDto) :=
  match rows with
  | [] => mret []
  | c :: rest => dto ← toDto c; dtos ← toDtos rest; mret (dto :: dtos)
  end.
Definition isLocked (c : Contract) : bool := bool_decide (c.(ct_status) = Locked).
Definition findAllLocked : prog (list ContractDto) :=
  rows ← await (ContractFind isLocked); toDtos rows.

Definition escrowAmounts (i : CreateContractInput) : Exn + (JsVal * JsVal) :=
  match assetModeOf i with
  | XRP => inr (JStr i.(ci_depositAmount), JStr i.(ci_stakeAmount))
  | IOU =>
      match nonempty i.(ci_iouIssuer), nonempty i.(ci_iouCurrency) with
      | Some issuer, Some currency =>
          then_ (normalizeIouCurrencyCode currency) (fun cur =>
          then_ (buildIouAmount issuer cur i.(ci_depositAmount)) (fun deposit =>
          then_ (buildIouAmount issuer cur i.(ci_stakeAmount)) (fun stake => inr (deposit, stake))))
      | _, _ => inl (Err "IOU escrow requires iouIssuer and iouCurrency")
      end
  end.
Definition depositEscrow (i : LockTenantDepositInput) (amount : JsVal) : CreateEscrowParams :=
  mkEscrowParams i.(lk_contractWallet) i.(lk_input).(ci_tenantAddress) amount
    (Some i.(lk_input).(ci_finishAfter)) (Some i.(lk_input).(ci_cancelAfter)) None None.
Definition stakeEscrow (i : LockTenantDepositInput) (amount : JsVal) : CreateEscrowParams :=
  mkEscrowParams i.(lk_contractWallet) i.(lk_input).(ci_landlordAddress) amount
    (Some i.(lk_input).(ci_finishAfter)) (Some i.(lk_input).(ci_cancelAfter)) None None.
Definition lockSigners (i : LockTenantDepositInput) : SetSignerListParams :=
  mkSignerList i.(lk_contractWallet)
    [mkSigner i.(lk_input).(ci_tenantAddress) 1 None; mkSigner i.(lk_input).(ci_landlordAddress) 1 None;
     mkSigner i.(lk_operatorAddress) 1 None] 2.
(** The columns that the lock sets; [updatedAt] is set by the repository. *)
Definition lockPatch (account seedCipher : string) (deposit stake : EscrowCreatedResult) (signerList : TxOutcome)
    (now : Z) (c : Contract) : Contract :=
  c <| ct_contractAccountAddress := Some account |> <| ct_contractAccountSeedCipher := Some seedCipher |>
    <| ct_depositEscrowSequence := Some deposit.(ec_escrowSequence) |>
    <| ct_depositEscrowTxHash := deposit.(ec_txHash) |>
    <| ct_stakeEscrowSequence := Some stake.(ec_escrowSequence) |>
    <| ct_stakeEscrowTxHash := stake.(ec_txHash) |>
    <| ct_signerListTxHash := signerList.(tx_hash) |> <| ct_status := Locked |> <| ct_updatedAt := now |>.
Definition lockTenantDeposit (i : LockTenantDepositInput) : prog ContractDto :=
  amounts ← lift (escrowAmounts i.(lk_input));
  contract ← create i.(lk_input);
  deposit ← createEscrow (depositEscrow i amounts.1);
  stake ← createEscrow (stakeEscrow i amounts.2);
  signerList ← setSignerList (lockSigners i);
  match nonempty i.(lk_contractWallet).(wl_seed) with
  | None => err "contractWallet must have a seed for persistence"
  | Some seed =>
      seedCipher ← encrypt seed;
      await (ContractUpdate contract.(cd_id)
        (lockPatch i.(lk_contractWallet).(wl_classicAddress) seedCipher deposit stake signerList));;
      updated ← findById contract.(cd_id);
      match updated with
      | None => err ("Contract " +:+ contract.(cd_id) +:+ " disappeared after lock update")
      | Some dto => mret dto
      end
  end.

(** * [IouContractSetupService] *)

Record IouSetupParams := mkIouSetup {
  is_issuer : string; is_currency : string; is_depositValue : string; is_stakeValue : string }.
Definition checkLine (line : option TrustLine) (need : string) : bool :=
  match line with Some l => iouValueGte l.(tl_limit) need | None => false end.
Definition assertCounterpartyTrustLines (tenantAddress landlordAddress : string) (p : IouSetupParams) : prog unit :=
  getClient;;
  cur ← lift (normalizeIouCurrencyCode p.(is_currency));
  tenantLine ← findTrustLine tenantAddress p.(is_issuer) cur;
  if negb (checkLine tenantLine p.(is_depositValue)) then
    Throw (BadRequest ("임차인(" +:+ tenantAddress +:+ ") 계정에 issuer " +:+ p.(is_issuer) +:+ " 통화 " +:+ cur
      +:+ " trust line이 없거나 limit이 depositAmount(" +:+ p.(is_depositValue)
      +:+ ")보다 작습니다. 지갑에서 TrustSet을 먼저 설정하세요."))
  else
    landlordLine ← findTrustLine landlordAddress p.(is_issuer) cur;
    if negb (checkLine landlordLine p.(is_stakeValue)) then
      Throw (BadRequest ("임대인(" +:+ landlordAddress +:+ ") 계정에 issuer " +:+ p.(is_issuer) +:+ " 통화 " +:+ cur
        +:+ " trust line이 없거나 limit이 stakeAmount(" +:+ p.(is_stakeValue) +:+ ")보다 작습니다."))
    else mret tt.

Definition TRUST_LIMIT : string := "1000000000".
Definition iouPaymentTx (from to : string) (amount : JsVal) : JsVal :=
  JObj [("TransactionType", JStr "Payment"); ("Account", JStr from); ("Destination", JStr to); ("Amount", amount)].
(** The issuer's own wallet when its seed is configured, else the operator's. *)
Definition fundingWalletFor (operatorWallet : Wallet) (p : IouSetupParams) (cur total : string) : prog Wallet :=
  issuerSeed ← config "XRPL_IOU_ISSUER_SEED";
  match nonempty (trim <$> issuerSeed) with
  | Some seed =>
      fundingWallet ← fromSeed seed;
      if negb (bool_decide (fundingWallet.(wl_classicAddress) = p.(is_issuer))) then
        Throw (BadRequest "XRPL_IOU_ISSUER_SEED 주소가 XRPL_IOU_ISSUER 와 일치하지 않습니다.")
      else ensureTestnetXrpForFees fundingWallet;; mret fundingWallet
  | None =>
      opLine ← findTrustLine operatorWallet.(wl_classicAddress) p.(is_issuer) cur;
      let held := match opLine with Some l => l.(tl_balance) | None => "0" end in
      if match opLine with Some l => flt (parseFloat l.(tl_balance)) (parseFloat total) | None => true end then
        Throw (BadRequest ("XRPL_OPERATOR_SEED 지갑의 " +:+ cur +:+ "(issuer " +:+ p.(is_issuer)
          +:+ ") 잔액이 부족합니다. 필요: " +:+ total +:+ ", 보유: " +:+ held
          +:+ ". (발행 직접 시 XRPL_IOU_ISSUER_SEED 설정)"))
      else mret operatorWallet
  end.
Definition ensureTrustLineAndFundFromOperator (contractWallet operatorWallet : Wallet) (p : IouSetupParams) : prog unit :=
  getClient;;
  cur ← lift (normalizeIouCurrencyCode p.(is_currency));
  total ← lift (sumIouValueStrings p.(is_depositValue) p.(is_stakeValue));
  fundingWallet ← fundingWalletFor operatorWallet p cur total;
  limitAmount ← lift (buildIouAmount p.(is_issuer) cur TRUST_LIMIT);
  submitTrustSet contractWallet limitAmount;;
  amount ← lift (buildIouAmount p.(is_issuer) cur total);
  payRes ← await (SubmitAndWait
    (iouPaymentTx fundingWallet.(wl_classicAddress) contractWallet.(wl_classicAddress) amount) fundingWallet);
  lift (assertTxSuccess payRes).

(** * Routes *)

(** The HTTP view: [tenantPii], [landlordPii] and the seed are left out. *)
Record ContractResponseDto := mkResponse {
  rs_id : string; rs_tenantAddress : string; rs_landlordAddress : string; rs_contractAccountAddress : option string;
  rs_assetMode : string; rs_iouIssuer : option string; rs_iouCurrency : option string;
  rs_depositAmount : string; rs_stakeAmount : string;
  rs_depositEscrowSequence : option Z; rs_depositEscrowTxHash : option string;
  rs_stakeEscrowSequence : option Z; rs_stakeEscrowTxHash : option string;
  rs_signerListTxHash : option string; rs_status : ContractStatus;
  rs_startsAt : Z; rs_endsAt : Z; rs_finishAfter : Z; rs_cancelAfter : Z;
  rs_tenantEmail : option string; rs_createdAt : Z; rs_updatedAt : Z }.
Definition toContractResponse (d : ContractDto) : ContractResponseDto :=
  mkResponse d.(cd_id) d.(cd_tenantAddress) d.(cd_landlordAddress) d.(cd_contractAccountAddress)
    d.(cd_assetMode) d.(cd_iouIssuer) d.(cd_iouCurrency) d.(cd_depositAmount) d.(cd_stakeAmount)
    d.(cd_depositEscrowSequence) d.(cd_depositEscrowTxHash) d.(cd_stakeEscrowSequence)
    d.(cd_stakeEscrowTxHash) d.(cd_signerListTxHash) d.(cd_status) d.(cd_startsAt) d.(cd_endsAt)
    d.(cd_finishAfter) d.(cd_cancelAfter) d.(cd_tenantEmail) d.(cd_createdAt) d.(cd_updatedAt).

(** [/^\d+(\.\d{1,16})?$/] *)
Definition decimalShape (s : string) : bool :=
  match split_on "."%char s with
  | [int] => allDigits int
  | [int; frac] => allDigits int && allDigits frac && (str_length frac <=? 16)%nat
  | _ => false
  end.
(** The class constraint of [CreateContractDto]. *)
Definition depositStakeShape (i : CreateContractInput) : bool :=
  match assetModeOf i with
  | XRP => allDigits i.(ci_depositAmount) && allDigits i.(ci_stakeAmount)
  | IOU => decimalShape i.(ci_depositAmount) && decimalShape i.(ci_stakeAmount)
  end.

(** [s?.trim() ?? ""], and [||=] from the configuration. *)
Definition trimmed (s : option string) : string := default "" (trim <$> s).
Definition orConfig (s key : string) : prog string :=
  if bool_decide (s = "") then v ← config key; mret (trimmed v) else mret s.
Definition postContract (dto : CreateContractInput) : prog ContractResponseDto :=
  operatorSeed ← config "XRPL_OPERATOR_SEED";
  match nonempty operatorSeed with
  | None => Throw (BadRequest "XRPL_OPERATOR_SEED 미설정 — 계약 생성 불가")
  | Some seed =>
      operatorWallet ← fromSeed seed;
      iou ← match assetModeOf dto with
            | XRP => mret None
            | IOU =>
                iouIssuer ← orConfig (trimmed dto.(ci_iouIssuer)) "XRPL_IOU_ISSUER";
                iouCurrency ← orConfig (trimmed dto.(ci_iouCurrency)) "XRPL_IOU_CURRENCY";
                if bool_decide (iouIssuer = "") || bool_decide (iouCurrency = "") then
                  Throw (BadRequest "IOU 모드: 요청에 iouIssuer/iouCurrency를 넣거나, 환경변수 XRPL_IOU_ISSUER / XRPL_IOU_CURRENCY를 설정하세요.")
                else
                  cur ← lift (normalizeIouCurrencyCode iouCurrency);
                  let p := mkIouSetup iouIssuer cur dto.(ci_depositAmount) dto.(ci_stakeAmount) in
                  assertCounterpartyTrustLines dto.(ci_tenantAddress) dto.(ci_landlordAddress) p;;
                  mret (Some p)
            end;
      contractWallet ← generateAndFundWallet;
      match iou with
      | Some p => ensureTrustLineAndFundFromOperator contractWallet operatorWallet p
      | None => mret tt
      end;;
      locked ← lockTenantDeposit (mkLock
        (mkCreate dto.(ci_tenantAddress) dto.(ci_landlordAddress) dto.(ci_depositAmount) dto.(ci_stakeAmount)
           dto.(ci_startsAt) dto.(ci_endsAt) dto.(ci_finishAfter) dto.(ci_cancelAfter) dto.(ci_tenantPii)
           dto.(ci_landlordPii) dto.(ci_tenantEmail) (Some (assetModeOf dto))
           (option_map is_issuer iou) (option_map is_currency iou))
        contractWallet operatorWallet.(wl_classicAddress));
      mret (toContractResponse locked)
  end.

Definition notFound {A} (id : string) : prog A := Throw (NotFound ("Contract " +:+ id +:+ " not found")).
Definition getContract (id : string) : prog ContractResponseDto :=
  found ← findById id;
  match found with None => notFound id | Some dto => mret (toContractResponse dto) end.

Record ContractBalanceResponseDto := mkBalance {
  cb_contractId : string; cb_address : string; cb_balanceXrp : string;
  cb_balanceIou : option (option IouBalance) }.
Definition getBalance (id : string) : prog ContractBalanceResponseDto :=
  found ← findById id;
  match found with
  | None => notFound id
  | Some c =>
      match nonempty c.(cd_contractAccountAddress) with
      | None => Throw (BadRequest ("Contract " +:+ id +:+ " has no contractAccountAddress (locked 전?)"))
      | Some address =>
          balanceXrp ← getXrpBalance address;
          match bool_decide (c.(cd_assetMode) = "IOU"), nonempty c.(cd_iouIssuer), nonempty c.(cd_iouCurrency) with
          | true, Some issuer, Some currency =>
              balanceIou ← getIouBalance address issuer currency;
              mret (mkBalance c.(cd_id) address balanceXrp (Some balanceIou))
          | _, _, _ => mret (mkBalance c.(cd_id) address balanceXrp None)
          end
      end
  end.
