(* ===== verification/Be1Reconciler.v ===== *)
(** [be1-xrpl/src/reconciler]: the monthly settlement.  For every locked contract
    the usage of the month is read from KEPCO, its amount is paid from the
    contract account to the landlord with a memo holding the hash of the
    answer, and a row of [reconciliations] keeps the outcome. *)
From S2P Require Import Prelude JsString JsMap JsDate Json CoreTx CoreDispute Be1World Be1Xrpl Be1Contracts.
From Stdlib Require Import Ascii.
Local Open Scope Z_scope.

(** * Months *)

Definition KST_OFFSET : Z := 9 * 3600 * 1000.
(** [String(n).padStart(2, "0")] for [0 <= n] *)
Definition padStart2 (n : Z) : string := if n <? 10 then "0" +:+ num_str n else num_str n.
(** The year and the month in Seoul (UTC+9 since 1989). *)
Definition kstMonth (now : Z) : Z * Z :=
  let '(y, m, _) := civil_of_days ((now + KST_OFFSET) / 86400000) in (y, m).
Definition previousMonthInKst (now : Z) : string :=
  let '(year, month) := kstMonth now in
  let prevMonth := month - 1 in
  let '(prevYear, prevMonth) := if prevMonth =? 0 then (year - 1, 12) else (year, prevMonth) in
  num_str prevYear +:+ "-" +:+ padStart2 prevMonth.

(** * KEPCO *)

Record MonthlyUsage := mkUsage {
  us_contractId : string; us_yearMonth : string; us_usageKwh : Z; us_chargeKrw : Z;
  us_meterReadingDate : option Z }.
(** [JSON.stringify(usage)]; an invalid [Date] is [null]. *)
Definition usage_json (u : MonthlyUsage) : JsVal :=
  JObj [("contractId", JStr u.(us_contractId)); ("yearMonth", JStr u.(us_yearMonth));
        ("usageKwh", JNum u.(us_usageKwh)); ("chargeKrw", JNum u.(us_chargeKrw));
        ("meterReadingDate", jnull (toISOString <$> u.(us_meterReadingDate)))].

Definition UNIT_PRICE_KRW_PER_KWH : Z := 120.
Definition MIN_KWH : Z := 100.
Definition RANGE_KWH : Z := 400.
(** [buf.readUInt32BE(0)] *)
Definition readUInt32BE (buf : list ascii) : Z :=
  foldl (fun acc c => acc * 256 + Z.of_N (code c)) 0 (take 4 buf).
Definition mockUsage (sha256 : list ascii -> list ascii) (parse : string -> option Z)
    (contractId yearMonth : string) : MonthlyUsage :=
  let buf := sha256 (chars (contractId +:+ "|" +:+ yearMonth)) in
  let usageKwh := readUInt32BE buf mod RANGE_KWH + MIN_KWH in
  mkUsage contractId yearMonth usageKwh (usageKwh * UNIT_PRICE_KRW_PER_KWH)
    (parse (yearMonth +:+ "-28T00:00:00Z")).

Definition str_slice (from to : nat) (s : string) : string := of_chars (take (to - from) (drop from (chars s))).
(** [Date.UTC(year, month, day)], months counted from zero. *)
Definition dateUTC (year month day : Z) : option Z :=
  let y := if (0 <=? year) && (year <=? 99) then 1900 + year else year in
  let t := (days_of_civil (y + month / 12) (month mod 12 + 1) 1 + day - 1) * 86400000 in
  if Z.abs t <=? 8640000000000000 then Some t else None.
Definition parseYyyymmdd (s : string) : option Z :=
  match parseBigInt (str_slice 0 4 s), parseBigInt (str_slice 4 6 s), parseBigInt (str_slice 6 8 s) with
  | Some year, Some month, Some day => dateUTC year (month - 1) day
  | _, _, _ => None
  end.
Definition mapOpmBillToMonthlyUsage (contractId : string) (bill : OpmBillData) : MonthlyUsage :=
  mkUsage contractId (str_slice 0 4 bill.(ob_billYm) +:+ "-" +:+ str_slice 4 6 bill.(ob_billYm))
    bill.(ob_kwh) bill.(ob_billAmt) (parseYyyymmdd bill.(ob_measureToDt)).

(** [s.replace("-", "")]: the first one only. *)
Fixpoint dropFirst (x : ascii) (l : list ascii) : list ascii :=
  match l with [] => [] | c :: l' => if bool_decide (c = x) then l' else c :: dropFirst x l' end.
Definition apiUsage (contractId yearMonth : string) : prog MonthlyUsage :=
  baseUrl ← config "KEPCO_API_BASE_URL";
  serviceKey ← config "KEPCO_API_KEY";
  match nonempty baseUrl, nonempty serviceKey with
  | Some baseUrl, Some serviceKey =>
      body ← await (HttpGet (baseUrl +:+ "/bill")
        [("serviceKey", serviceKey); ("custNo", contractId); ("billYm", of_chars (dropFirst "-"%char (chars yearMonth)))]);
      if negb (bool_decide (body.(or_result) = "SUCCESS")) then
        err (trim ("OPM bill API 실패: " +:+ body.(or_result) +:+ " " +:+ default "" body.(or_resultMsg)))
      else mret (mapOpmBillToMonthlyUsage contractId body.(or_data))
  | _, _ => err ("KEPCO_API_BASE_URL/KEPCO_API_KEY 미설정 — KepcoApiClient 호출 불가. " +:+
                 "KEPCO_USE_MOCK=true로 mock 전환 가능.")
  end.
Definition isConfig (key value : string) : prog bool :=
  v ← config key; mret (bool_decide (v = Some value)).
(** The client that the module's factory chooses. *)
Definition getMonthlyUsage (contractId yearMonth : string) : prog MonthlyUsage :=
  test ← isConfig "NODE_ENV" "test";
  mock ← isConfig "KEPCO_USE_MOCK" "true";
  if (test || mock : bool) then
    sha ← ask be_sha256;
    legacy ← ask be_legacyDate;
    mret (mockUsage sha (date_parse legacy) contractId yearMonth)
  else apiUsage contractId yearMonth.

(** * [payment-memo.builder.ts] *)

Record ReconcileMemoPayload := mkPayload {
  rp_contractId : string; rp_yearMonth : string; rp_kepcoUsageHash : string;
  rp_landlordClaimHash : string; rp_calculatedAmountDrops : string }.
Definition MEMO_TYPE : string := "reconcile/v1".
Definition MEMO_FORMAT : string := "application/json".
Definition MAX_MEMO_BYTES : Z := 1024.
(** [createHash("sha256").update(input).digest("hex")] *)
Definition sha256Hex (sha256 : list ascii -> list ascii) (input : string) : string :=
  toLowerCase (bytesToHex (sha256 (chars input))).
Definition payload_json (p : ReconcileMemoPayload) : JsVal :=
  JObj [("contractId", JStr p.(rp_contractId)); ("yearMonth", JStr p.(rp_yearMonth));
        ("kepcoUsageHash", JStr p.(rp_kepcoUsageHash)); ("landlordClaimHash", JStr p.(rp_landlordClaimHash));
        ("calculatedAmountDrops", JStr p.(rp_calculatedAmountDrops))].
Definition buildReconcileMemo (toHex : string -> string) (p : ReconcileMemoPayload) : Exn + JsVal :=
  let json := json_stringify (payload_json p) in
  let bytes := Z.of_nat (String.length json) in
  if MAX_MEMO_BYTES <? bytes then
    inl (Err ("Memo data too large: " +:+ num_str bytes +:+ " bytes > " +:+ num_str MAX_MEMO_BYTES +:+ " (XRPL Memo 한계)"))
  else inr (JObj [("Memo", JObj [("MemoType", JStr (toHex MEMO_TYPE)); ("MemoFormat", JStr (toHex MEMO_FORMAT));
                                 ("MemoData", JStr (toHex json))])]).
(** The argument is the inner object. *)
Definition decodeReconcileMemo (fromHex : string -> string) (memo : JsVal) : Exn + JsVal :=
  let type := fromHex (text "" (jget "MemoType" memo)) in
  if negb (bool_decide (type = MEMO_TYPE)) then
    inl (Err ("Unexpected MemoType: " +:+ type +:+ " (expected " +:+ MEMO_TYPE +:+ ")"))
  else
    match json_parse (fromHex (text "" (jget "MemoData" memo))) with
    | Some v => inr v
    | None => inl (Err "Unexpected token in JSON")
    end.

(** * E-mail *)

(** [n.toLocaleString("ko-KR")]: a comma before every third digit from the end. *)
Fixpoint group3 (rev : list ascii) : list ascii :=
  match rev with
  | a :: b :: c :: rest => a :: b :: c :: match rest with [] => [] | _ => ","%char :: group3 rest end
  | _ => rev
  end.
Definition toLocaleString (n : Z) : string :=
  (if n <? 0 then "-" else "") +:+ of_chars (reverse (group3 (reverse (chars (num_str (Z.abs n)))))).
(** [s.replace(/\/$/, "")] *)
Definition dropSlash (s : string) : string :=
  match reverse (chars s) with "/"%char :: l => of_chars (reverse l) | _ => s end.
Definition newline : string := of_chars [ascii_of_nat 10].
Definition buildMonthlyReportEmail (to contractId yearMonth : string) (usageKwh chargeKrw : Z)
    (paymentTxHash explorerBaseUrl : string) : EmailMessage :=
  let explorerUrl := dropSlash explorerBaseUrl +:+ "/transactions/" +:+ paymentTxHash in
  mkEmail to ("[BlueSafe] " +:+ yearMonth +:+ " 월 정산 리포트")
    (String.concat newline
      ["BlueSafe 월간 정산 리포트 — " +:+ yearMonth; "";
       "계약 ID: " +:+ contractId;
       "전력 사용량(KEPCO): " +:+ num_str usageKwh +:+ " kWh";
       "청구 금액(KEPCO): ₩" +:+ toLocaleString chargeKrw;
       "XRPL Payment 트랜잭션: " +:+ paymentTxHash; "";
       "블록체인에서 직접 확인: " +:+ explorerUrl; "";
       "이 이메일은 매월 정산 cron이 자동 발송합니다.";
       "XRPL Memo에는 KEPCO 응답의 SHA-256 해시가 기록되어 사후 위변조가 불가능합니다."]).

Definition smtpReady : prog bool :=
  host ← config "SMTP_HOST"; port ← config "SMTP_PORT"; from ← config "EMAIL_FROM";
  mret (truthy host && truthy from && match parseBigInt (default "0" port) with
                                      | Some n => negb (n =? 0)
                                      | None => false
                                      end).
(** The console adapter writes a log line; the other one needs its settings. *)
Definition sendEmail (m : EmailMessage) : prog unit :=
  test ← isConfig "NODE_ENV" "test";
  console ← isConfig "EMAIL_USE_CONSOLE" "true";
  if (test || console : bool) then mret tt
  else
    ready ← smtpReady;
    if ready : bool then await (SendEmail m)
    else err ("SMTP_HOST/SMTP_PORT/EMAIL_FROM 미설정 — SmtpEmailService 호출 불가. " +:+
              "EMAIL_USE_CONSOLE=true 로 console 어댑터 전환 가능.").

(** * [ReconcilerService] *)

Definition isMatched (contractId yearMonth : string) (r : Reconciliation) : bool :=
  bool_decide (r.(rc_contractId) = contractId) && bool_decide (r.(rc_yearMonth) = yearMonth)
  && bool_decide (r.(rc_status) = Matched).

(** The errors of a failed report are logged. *)
Definition sendMonthlyReportSafely (recordId : string) (contract : ContractDto) (yearMonth : string)
    (usage : MonthlyUsage) (paymentTxHash : string) : prog unit :=
  match nonempty contract.(cd_tenantEmail) with
  | None => mret tt
  | Some to =>
      catch
        (base ← config "XRPL_EXPLORER_URL";
         sendEmail (buildMonthlyReportEmail to contract.(cd_id) yearMonth usage.(us_usageKwh) usage.(us_chargeKrw)
           paymentTxHash (default "https://testnet.xrpl.org" base));;
         now ← draw be_clock;
         await (RecordUpdate recordId (fun _ r => r <| rc_reportSentAt := Some now |>)))
        (fun _ => mret tt)
  end.

(** The row that an attempt saves. *)
Definition attemptRow (contractId yearMonth : string) (usage : MonthlyUsage) (usageHash : string)
    (paid : Exn + option string) (id : string) (now : Z) : Reconciliation :=
  mkReconciliation id contractId yearMonth usage.(us_usageKwh) usage.(us_chargeKrw) usageHash
    (match paid with inl _ => Failed | inr _ => Matched end)
    (match paid with inl _ => None | inr h => h end)
    (match paid with inl e => Some (message e) | inr _ => None end) None now.

(** The payment of the month, with its memo. *)
Definition payMonth (contract : ContractDto) (account seed contractId yearMonth : string) (usage : MonthlyUsage)
    (usageHash : string) : prog (option string) :=
  toHex ← ask be_stringToHex;
  let drops := num_str usage.(us_chargeKrw) in
  memo ← lift (buildReconcileMemo toHex (mkPayload contractId yearMonth usageHash usageHash drops));
  submitXrpPayment (mkXrpPayment account contract.(cd_landlordAddress) seed drops [memo]).

Definition reconcileContract (contractId yearMonth : string) : prog Reconciliation :=
  alreadyMatched ← await (RecordFindOne (isMatched contractId yearMonth));
  match alreadyMatched with
  | Some r => mret r
  | None =>
      found ← findById contractId;
      match found with
      | None => err ("Contract " +:+ contractId +:+ " not found")
      | Some contract =>
          if negb (bool_decide (contract.(cd_status) = Locked)) then
            err ("Contract " +:+ contractId +:+ " is not Locked (status=" +:+ status_str contract.(cd_status) +:+ ")")
          else
            match nonempty contract.(cd_contractAccountSeed), nonempty contract.(cd_contractAccountAddress) with
            | Some seed, Some account =>
                usage ← getMonthlyUsage contractId yearMonth;
                sha ← ask be_sha256;
                let usageHash := sha256Hex sha (json_stringify (usage_json usage)) in
                paid ← attempt (payMonth contract account seed contractId yearMonth usage usageHash);
                record ← await (RecordSave (attemptRow contractId yearMonth usage usageHash paid));
                match paid with
                | inl thrownError => Throw thrownError
                | inr txHash =>
                    match nonempty txHash with
                    | Some h => sendMonthlyReportSafely record.(rc_id) contract yearMonth usage h
                    | None => mret tt
                    end;;
                    mret record
                end
            | _, _ => err ("Contract " +:+ contractId +:+ " missing contractAccount info (seed/address)")
            end
      end
  end.

(** One contract of the monthly run: an error becomes a job of the queue. *)
Definition reconcileOrEnqueue (yearMonth : string) (contract : ContractDto) : prog unit :=
  catch (forget (reconcileContract contract.(cd_id) yearMonth))
    (fun _ => await (QueueAdd (mkJob contract.(cd_id) yearMonth))).
Fixpoint reconcileAll (yearMonth : string) (contracts : list ContractDto) : prog unit :=
  match contracts with
  | [] => mret tt
  | c :: rest => reconcileOrEnqueue yearMonth c;; reconcileAll yearMonth rest
  end.
Definition runMonthlyReconcile (yearMonth : string) : prog unit :=
  contracts ← findAllLocked; reconcileAll yearMonth contracts.
Definition currentPreviousMonth : prog string := now ← draw be_clock; mret (previousMonthInKst now).
Definition monthlyCron : prog unit := yearMonth ← currentPreviousMonth; runMonthlyReconcile yearMonth.

Definition findReconciliationsByContractId (contractId : string) : prog (list Reconciliation) :=
  await (RecordFind (fun r => bool_decide (r.(rc_contractId) = contractId))).
Definition runManualReconcile (yearMonth contractId : option string) : prog (string * Z) :=
  ym ← match yearMonth with Some ym => mret ym | None => currentPreviousMonth end;
  match nonempty contractId with
  | Some id => reconcileContract id ym;; mret (ym, 1)
  | None =>
      let inMonth r := bool_decide (r.(rc_yearMonth) = ym) in
      before ← await (RecordCount inMonth);
      runMonthlyReconcile ym;;
      after ← await (RecordCount inMonth);
      mret (ym, after - before)
  end.

(** * Worker and routes *)

(** [XrplTxRetryProcessor.process] *)
Definition process (job : ReconcilePaymentRetryJob) : prog unit :=
  forget (reconcileContract job.(jb_contractId) job.(jb_yearMonth)).

Record ReconciliationResponseDto := mkReconciliationResponse {
  rr_id : string; rr_contractId : string; rr_yearMonth : string; rr_kepcoUsageKwh : Z; rr_kepcoChargeKrw : Z;
  rr_kepcoUsageHash : string; rr_status : ReconciliationStatus; rr_paymentTxHash : option string;
  rr_errorMessage : option string; rr_createdAt : Z }.
Definition toReconciliationResponse (r : Reconciliation) : ReconciliationResponseDto :=
  mkReconciliationResponse r.(rc_id) r.(rc_contractId) r.(rc_yearMonth) r.(rc_kepcoUsageKwh)
    r.(rc_kepcoChargeKrw) r.(rc_kepcoUsageHash) r.(rc_status) r.(rc_paymentTxHash) r.(rc_errorMessage)
    r.(rc_createdAt).
Definition listByContract (contractId : string) : prog (list ReconciliationResponseDto) :=
  contract ← findById contractId;
  match contract with
  | None => notFound contractId
  | Some _ => rows ← findReconciliationsByContractId contractId; mret (map toReconciliationResponse rows)
  end.

(** [/^\d{4}-\d{2}$/] of [RunReconciliationDto]. *)
Definition yearMonthShape (s : string) : bool :=
  match chars s with
  | [y1; y2; y3; y4; dash; m1; m2] =>
      forallb is_digit [y1; y2; y3; y4; m1; m2] && bool_decide (dash = "-"%char)
  | _ => false
  end.
Definition notProductionGuard : prog unit :=
  production ← isConfig "NODE_ENV" "production";
  if production : bool then Throw (NotFound "Not Found") else mret tt.
Definition runManual (yearMonth contractId : option string) : prog (string * Z) :=
  notProductionGuard;; runManualReconcile yearMonth contractId.

Example locale_ex : toLocaleString <$> [0; 999; 1000; 59880; 1234567; -1234] = ["0"; "999"; "1,000"; "59,880"; "1,234,567"; "-1,234"].
Proof. reflexivity. Qed.
Example month_ex : previousMonthInKst <$> [1777561199999; 1777561200000; 1767193200000] = ["2026-03"; "2026-04"; "2025-12"].
Proof. vm_compute. reflexivity. Qed.
