(* ===== verification/Be1Wallet.v ===== *)
(** [be1-xrpl/src/wallet]: the two internal wallets of the demo, their XRP round
    trip, and their funding with an issued currency. *)
From S2P Require Import Prelude JsString JsMap CoreTx JsFloat Be1World Be1Xrpl Be1Contracts Be1Reconciler.

Inductive WalletRole := Tenant | Landlord.
Definition role_str (r : WalletRole) : string := match r with Tenant => "tenant" | Landlord => "landlord" end.

(** * [WalletService] *)

Record WalletNetwork := mkNetwork { wn_id : string; wn_label : string; wn_rpcEndpoint : string }.
Definition walletNetwork (url : option string) : WalletNetwork :=
  let endpoint := default "" url in
  if includes endpoint "xrplcluster" || includes endpoint "mainnet" then mkNetwork "mainnet" "XRPL Mainnet" endpoint
  else if includes endpoint "devnet" then mkNetwork "devnet" "XRPL Devnet" endpoint
  else mkNetwork "testnet" "XRPL Testnet"
         (if bool_decide (endpoint = "") then "wss://s.altnet.rippletest.net:51233" else endpoint).
(** The wallet of a role is generated once. *)
Definition getOrCreate (env : Be1Env) (role : WalletRole) (l : Local) : Wallet * Local :=
  match jm_get (role_str role) l.(lo_wallets) with
  | Some wallet => (wallet, l)
  | None =>
      let wallet := env.(be_generate) l.(lo_asks) in
      (wallet, l <| lo_wallets := jm_set (role_str role) wallet l.(lo_wallets) |> <| lo_asks := S l.(lo_asks) |>)
  end.
Record Connection := mkConnection {
  cn_message : string; cn_connected : bool; cn_role : option WalletRole;
  cn_address : option string; cn_publicKey : option string; cn_network : option WalletNetwork }.
Definition setConnected (role : WalletRole) (b : bool) (l : Local) : Local :=
  l <| lo_connected := jm_set (role_str role) b l.(lo_connected) |>.
Definition connect (role : WalletRole) (approve : bool) : prog Connection := sync (fun env l =>
  let '(wallet, l) := getOrCreate env role l in
  if negb approve then (mkConnection "Connection declined." false None None None None, setConnected role false l)
  else
    let wasConnected := bool_decide (jm_get (role_str role) l.(lo_connected) = Some true) in
    (mkConnection (if wasConnected then "Wallet already connected." else "Connection approved.") true (Some role)
       (Some wallet.(wl_classicAddress)) (Some wallet.(wl_publicKey))
       (Some (walletNetwork (env.(be_config) "XRPL_NETWORK_URL"))),
     setConnected role true l)).
Definition disconnect (role : WalletRole) : prog Connection := sync (fun _ l =>
  (mkConnection "Wallet disconnected." false (Some role) None None None, setConnected role false l)).
Definition getWalletForRole (role : WalletRole) : prog Wallet := sync (fun env l => getOrCreate env role l).

Definition explorerBase : prog string :=
  url ← config "XRPL_EXPLORER_URL"; mret (dropSlash (default "https://testnet.xrpl.org" url)).

(** * [WalletPeerXrpService] *)

Definition assertTestnet : prog unit :=
  url ← config "XRPL_NETWORK_URL";
  if includes (toLowerCase (default "wss://s.altnet.rippletest.net:51233" url)) "altnet.rippletest" then mret tt
  else Throw (Forbidden "peer-xrp-roundtrip is only allowed when XRPL_NETWORK_URL points at XRPL Testnet (altnet.rippletest).").
Definition peerPaymentTx (from to : Wallet) (amountDrops : string) : JsVal :=
  JObj [("TransactionType", JStr "Payment"); ("Account", JStr from.(wl_classicAddress));
        ("Destination", JStr to.(wl_classicAddress)); ("Amount", JStr amountDrops)].
Definition submitPay (amountDrops : string) (from to : Wallet) : prog (option string) :=
  res ← await (SubmitAndWait (peerPaymentTx from to amountDrops) from);
  lift (assertTxSuccess res);;
  mret (jstr (jget "hash" res)).
Record Roundtrip := mkRoundtrip {
  rt_tenantAddress : string; rt_landlordAddress : string; rt_amountDrops : string;
  rt_tenantToLandlordTxHash : option string; rt_landlordToTenantTxHash : option string;
  rt_explorerBase : string; rt_links : list string }.
Definition roundtrip (amountDrops : string) : prog Roundtrip :=
  assertTestnet;;
  if negb (allDigits amountDrops) then
    Throw (BadRequest "amountDrops must be a non-negative integer drops string")
  else
    tenant ← getWalletForRole Tenant;
    landlord ← getWalletForRole Landlord;
    getClient;;
    there ← submitPay amountDrops tenant landlord;
    back ← submitPay amountDrops landlord tenant;
    base ← explorerBase;
    let shown h := default "undefined" h in
    mret (mkRoundtrip tenant.(wl_classicAddress) landlord.(wl_classicAddress) amountDrops there back base
      [base +:+ "/transactions/" +:+ shown there; base +:+ "/transactions/" +:+ shown back;
       base +:+ "/accounts/" +:+ tenant.(wl_classicAddress); base +:+ "/accounts/" +:+ landlord.(wl_classicAddress)]).

(** * [WalletIouFundService] *)

Record FundIouWalletDto := mkFundDto {
  fd_role : option WalletRole; fd_issuer : option string; fd_currency : option string; fd_amount : option string }.

(** [((BigInt(src) * 110n) / 100n).toString()] *)
Definition sendMax (src : Z) : Z := Z.quot (src * 110) 100.
Definition dexPaymentTx (buyer : Wallet) (dest : JsVal) (src : Z) : JsVal :=
  JObj [("TransactionType", JStr "Payment"); ("Account", JStr buyer.(wl_classicAddress));
        ("Destination", JStr buyer.(wl_classicAddress)); ("Amount", dest); ("SendMax", JStr (num_str (sendMax src)))].
Definition closePathFind : prog unit :=
  catch (forget (await (Request (JObj [("command", JStr "path_find"); ("subcommand", JStr "close")]))))
    (fun _ => mret tt).
Definition firstSource (pf : JsVal) : JsVal :=
  match jget "alternatives" pf with JArr (alt :: _) => jget "source_amount" alt | _ => JUndef end.
Definition buyIouWithXrpViaPathFind (buyer : Wallet) (issuer currency iouValue : string) : prog unit :=
  dest ← lift (buildIouAmount issuer currency iouValue);
  pf ← await (Request (JObj [("command", JStr "path_find"); ("subcommand", JStr "create");
         ("source_account", JStr buyer.(wl_classicAddress)); ("destination_account", JStr buyer.(wl_classicAddress));
         ("destination_amount", dest)]));
  finally
    (if negb (jtruthy (firstSource pf)) then
       Throw (BadRequest "DEX 경로를 찾지 못했습니다. IOU issuer/통화를 확인하거나 수동으로 운영자 지갑에 입금하세요.")
     else
       match bigint (firstSource pf) with
       | None => err ("Cannot convert " +:+ display (firstSource pf) +:+ " to a BigInt")
       | Some src =>
           payRes ← await (SubmitAndWait (dexPaymentTx buyer dest src) buyer);
           lift (assertTxSuccess payRes)
       end)
    closePathFind.

Definition isRippleAltnetTestnet : prog bool :=
  url ← config "XRPL_NETWORK_URL"; mret (includes (toLowerCase (default "" url)) "altnet.rippletest.net").
Definition heldBalance (line : option TrustLine) : string := match line with Some l => l.(tl_balance) | None => "0" end.
Definition shortfall (need balance : float) : string :=
  let s := stripZeros (toFixed 10 (fsub need balance)) in if bool_decide (s = "") then "0" else s.
(** At most [rounds] purchases, until the balance is enough. *)
Fixpoint buyLoop (rounds : nat) (operator : Wallet) (issuer currency : string) (need balance : float) : prog float :=
  match rounds with
  | O => mret balance
  | S n =>
      if flt balance need then
        buyIouWithXrpViaPathFind operator issuer currency (shortfall need balance);;
        again ← findTrustLine operator.(wl_classicAddress) issuer currency;
        buyLoop n operator issuer currency need (parseFloat (heldBalance again))
      else mret balance
  end.
Definition MAX_ROUNDS : nat := 8.
Definition ensureOperatorIouForPayment (operator : Wallet) (issuer currency needValue : string) : prog unit :=
  limitAmount ← lift (buildIouAmount issuer currency TRUST_LIMIT);
  first ← findTrustLine operator.(wl_classicAddress) issuer currency;
  line ← match first with
         | Some l => mret (Some l)
         | None => submitTrustSet operator limitAmount;; findTrustLine operator.(wl_classicAddress) issuer currency
         end;
  let need := parseFloat needValue in
  if negb (isFinite need) || fge fzero need then Throw (BadRequest "amount 가 올바르지 않습니다.")
  else
    let balance := parseFloat (heldBalance line) in
    if fge balance need then mret tt
    else
      testnet ← isRippleAltnetTestnet;
      if negb testnet then
        Throw (BadRequest ("운영자 지갑(" +:+ operator.(wl_classicAddress) +:+ ")의 IOU 잔액이 부족합니다. 필요 "
          +:+ needValue +:+ ", 보유 " +:+ heldBalance line
          +:+ ". 메인넷은 자동 매입하지 않습니다. XRPL_IOU_ISSUER_SEED 또는 수동 입금을 사용하세요."))
      else
        bought ← buyLoop MAX_ROUNDS operator issuer currency need balance;
        if flt bought need then
          Throw (BadRequest ("테스트넷 DEX로 IOU를 채우지 못했습니다. 필요 " +:+ needValue +:+ ", 보유 "
            +:+ numToString bought +:+ ". tryrlusd.com 등으로 운영자 지갑(" +:+ operator.(wl_classicAddress)
            +:+ ")에 입금하거나 XRPL_IOU_ISSUER_SEED를 설정하세요."))
        else mret tt.

Record FundedIou := mkFunded {
  fi_role : WalletRole; fi_address : string; fi_issuer : string; fi_currency : string; fi_amount : string;
  fi_trustSetTxHash : option string; fi_paymentTxHash : option string; fi_explorerPaymentUrl : string;
  fi_network : string }.
(** [dto?.trim() || config?.trim() || d] *)
Definition orConfigTrim (s : option string) (key d : string) : prog string :=
  match nonempty (trim <$> s) with
  | Some v => mret v
  | None => v ← config key; mret (default d (nonempty (trim <$> v)))
  end.
Definition chooseFunding (operatorSeed issuerSeed : option string) (issuer currency amountRaw : string) : prog Wallet :=
  match issuerSeed, operatorSeed with
  | Some seed, _ =>
      wallet ← fromSeed seed;
      if negb (bool_decide (wallet.(wl_classicAddress) = issuer)) then
        Throw (BadRequest ("XRPL_IOU_ISSUER_SEED 주소(" +:+ wallet.(wl_classicAddress) +:+ ")가 XRPL_IOU_ISSUER("
          +:+ issuer +:+ ")와 일치하지 않습니다."))
      else ensureTestnetXrpForFees wallet;; mret wallet
  | None, Some seed =>
      wallet ← fromSeed seed;
      ensureTestnetXrpForFees wallet;;
      ensureOperatorIouForPayment wallet issuer currency amountRaw;;
      mret wallet
  | None, None => Throw (BadRequest "XRPL_IOU_ISSUER_SEED(발행 직접) 또는 XRPL_OPERATOR_SEED(보유분 전송) 중 하나는 필요합니다.")
  end.
Definition fundInternalWallet (dto : FundIouWalletDto) : prog FundedIou :=
  let role := default Tenant dto.(fd_role) in
  opSeed ← config "XRPL_OPERATOR_SEED";
  isSeed ← config "XRPL_IOU_ISSUER_SEED";
  let operatorSeed := nonempty (trim <$> opSeed) in
  let issuerSeed := nonempty (trim <$> isSeed) in
  if negb (truthy operatorSeed) && negb (truthy issuerSeed) then
    Throw (BadRequest "XRPL_IOU_ISSUER_SEED(발행 직접) 또는 XRPL_OPERATOR_SEED(보유분 전송) 중 하나는 필요합니다.")
  else
    issuer ← orConfigTrim dto.(fd_issuer) "XRPL_IOU_ISSUER" "";
    currencyRaw ← orConfigTrim dto.(fd_currency) "XRPL_IOU_CURRENCY" "";
    if bool_decide (issuer = "") || bool_decide (currencyRaw = "") then
      Throw (BadRequest "issuer/currency 를 요청에 넣거나 XRPL_IOU_ISSUER / XRPL_IOU_CURRENCY 를 설정하세요.")
    else
      currency ← lift (normalizeIouCurrencyCode currencyRaw);
      amountRaw ← orConfigTrim dto.(fd_amount) "XRPL_WALLET_IOU_FUND_AMOUNT" "1";
      if negb (decimalShape amountRaw) then Throw (BadRequest "amount 형식이 올바르지 않습니다.")
      else
        recipient ← getWalletForRole role;
        getClient;;
        ensureTestnetXrpForFees recipient;;
        fundingWallet ← chooseFunding operatorSeed issuerSeed issuer currency amountRaw;
        limitAmount ← lift (buildIouAmount issuer currency TRUST_LIMIT);
        trustHash ← submitTrustSet recipient limitAmount;
        payAmount ← lift (buildIouAmount issuer currency amountRaw);
        payRes ← await (SubmitAndWait
          (iouPaymentTx fundingWallet.(wl_classicAddress) recipient.(wl_classicAddress) payAmount) fundingWallet);
        lift (assertTxSuccess payRes);;
        base ← explorerBase;
        url ← config "XRPL_NETWORK_URL";
        let hash := jstr (jget "hash" payRes) in
        mret (mkFunded role recipient.(wl_classicAddress) issuer currency amountRaw trustHash hash
          (base +:+ "/transactions/" +:+ default "undefined" hash) (walletNetwork url).(wn_label)).

(** * Routes *)

Definition postConnect (role : option WalletRole) (approve : option bool) : prog Connection :=
  connect (default Tenant role) (default true approve).
Definition postDisconnect (role : option WalletRole) : prog Connection := disconnect (default Tenant role).
Definition postRoundtrip (amountDrops : option string) : prog Roundtrip :=
  roundtrip (default "1000000" (nonempty (trim <$> amountDrops))).
