(* ===== verification/Be1Logic.v ===== *)
(** Reasoning about the computations of [be1-xrpl].  [ok] says what a computation
    guarantees when other computations run between its effects: it may assume
    that the world has evolved along [le] and satisfies [inv], and each of its
    effects must keep both.  [every] speaks of all effects of the tree. *)
From S2P Require Import Prelude Be1World.

(** * Properties of every effect *)

Section Every.
Context (P : forall X, eff X -> Prop) (R : forall X, eff X -> X -> Prop).

(** [P] holds of each effect that is reached by answers that [R] allows. *)
Fixpoint every {A} (p : prog A) : Prop :=
  match p with
  | Ret _ | Throw _ => True
  | Do e k => P _ e /\ forall x, R _ e x -> every (k x)
  end.

Lemma every_bind {A B} (m : prog A) (k : A -> prog B) : every m -> (forall a, every (k a)) -> every (m ≫= k).
Proof. induction m as [a|e|X e k' IH]; cbn; [auto..|]. intros [He H] Hk. split; auto. Qed.
Lemma every_attempt {A} (m : prog A) : every m -> every (attempt m).
Proof. induction m as [a|e|X e k IH]; cbn; [auto..|]. intros [He H]. split; auto. Qed.
Lemma every_catch {A} (m : prog A) h : every m -> (forall e, every (h e)) -> every (catch m h).
Proof. intros Hm Hh. apply every_bind; [by apply every_attempt|]. intros [e|a]; cbn; auto. Qed.
Lemma every_finally {A} (m : prog A) f : every m -> every f -> every (finally m f).
Proof.
  intros Hm Hf. apply every_bind; [by apply every_attempt|]. intros r. apply every_bind; [done|].
  intros _. by destruct r.
Qed.
Lemma every_forget {A} (m : prog A) : every m -> every (forget m).
Proof. intros Hm. by apply every_bind. Qed.
Lemma every_lift {A} (r : Exn + A) : every (lift r).
Proof. by destruct r. Qed.
Lemma every_await {X} (e : eff (string + X)) : P _ e -> every (await e).
Proof. intros He. split; [done|]. intros [m|x] _; done. Qed.
Lemma every_sync {X} (f : Be1Env -> Local -> X * Local) : P _ (Sync f) -> every (sync f).
Proof. intros He. split; [done|]. intros x _. done. Qed.
End Every.

(** * Interference *)

Section Ok.
Context {CT RT : Type} `{!Table Contract CT, !Table Reconciliation RT}.
Notation World := (Be1World CT RT).
Context (env : Be1Env) (le : World -> World -> Prop) (inv : World -> Prop) `{!PreOrder le}.

Fixpoint ok {A} (p : prog A) (w : World) (Q : A -> World -> Prop) : Prop :=
  match p with
  | Ret a => Q a w
  | Throw _ => True
  | Do e k => forall w', le w w' -> inv w' ->
      let w2 := (perform env e w').2 in le w' w2 /\ inv w2 /\ ok (k (perform env e w').1) w2 Q
  end.

(** Facts that other computations do not invalidate. *)
Definition stable (K : World -> Prop) : Prop := forall w w', le w w' -> K w -> K w'.

Lemma ok_later {A} (p : prog A) w w' Q : (forall a, stable (Q a)) -> le w w' -> ok p w Q -> ok p w' Q.
Proof.
  intros HQ Hle. destruct p as [a|e|X e k]; cbn; [by apply HQ|done|].
  intros H w1 H1. apply H. by etrans.
Qed.
Lemma ok_bind {A B} (m : prog A) (k : A -> prog B) w (Q' : A -> World -> Prop) Q :
  ok m w Q' -> (forall a w', le w w' -> Q' a w' -> ok (k a) w' Q) -> ok (m ≫= k) w Q.
Proof.
  revert w. induction m as [a|e|X e k' IH]; intros w Hm Hk; cbn in *; [by apply Hk|done|].
  intros w1 H1 Hinv. destruct (Hm w1 H1 Hinv) as (Hle & Hinv2 & Hok). split_and!; [done..|].
  apply IH; [done|]. intros a w' Hw'. apply Hk. etrans; [exact H1|]. by etrans.
Qed.
Lemma ok_wand {A} (m : prog A) w (Q Q' : A -> World -> Prop) :
  ok m w Q -> (forall a w', le w w' -> Q a w' -> Q' a w') -> ok m w Q'.
Proof.
  revert w. induction m as [a|e|X e k IH]; intros w Hm HQ; cbn in *; [by apply HQ|done|].
  intros w1 H1 Hinv. destruct (Hm w1 H1 Hinv) as (Hle & Hinv2 & Hok). split_and!; [done..|].
  apply IH; [done|]. intros a w' Hw'. apply HQ. etrans; [exact H1|]. by etrans.
Qed.
Lemma ok_attempt {A} (m : prog A) w (Q : Exn + A -> World -> Prop) :
  ok m w (fun a => Q (inr a)) -> (forall e w', le w w' -> Q (inl e) w') -> ok (attempt m) w Q.
Proof.
  revert w. induction m as [a|e|X e k IH]; intros w Hm HQ; cbn in *; [done|by apply HQ|].
  intros w1 H1 Hinv. destruct (Hm w1 H1 Hinv) as (Hle & Hinv2 & Hok). split_and!; [done..|].
  apply IH; [done|]. intros e' w' Hw'. apply HQ. etrans; [exact H1|]. by etrans.
Qed.
Lemma ok_catch {A} (m : prog A) h w (Q : A -> World -> Prop) :
  ok m w Q -> (forall e w', le w w' -> ok (h e) w' Q) -> ok (catch m h) w Q.
Proof.
  intros Hm Hh. apply ok_bind with (Q' := fun r w' => match r with inl _ => le w w' | inr a => Q a w' end).
  - by apply ok_attempt.
  - intros [e|a] w' Hle HQ; [by apply Hh|done].
Qed.
Lemma ok_ret {A} (a : A) w (Q : A -> World -> Prop) : Q a w -> ok (mret a) w Q.
Proof. done. Qed.
Lemma ok_lift {A} (r : Exn + A) w (Q : A -> World -> Prop) : (forall a, r = inr a -> Q a w) -> ok (lift r) w Q.
Proof. destruct r as [e|a]; cbn; auto. Qed.
Lemma ok_await {X} (e : eff (string + X)) w (Q : X -> World -> Prop) :
  (forall w', le w w' -> inv w' ->
     let w2 := (perform env e w').2 in
     le w' w2 /\ inv w2 /\ forall x, (perform env e w').1 = inr x -> Q x w2) ->
  ok (await e) w Q.
Proof.
  intros H w' Hle Hinv. destruct (H w' Hle Hinv) as (H1 & H2 & H3). split_and!; [done..|].
  destruct (perform env e w').1 as [m|x] eqn:E; cbn; auto.
Qed.

(** A computation whose every effect keeps the invariant in every world. *)
Definition harmless : forall X, eff X -> Prop := fun X e =>
  forall w, inv w -> le w (perform env e w).2 /\ inv (perform env e w).2.
Lemma ok_every {A} (p : prog A) w : every harmless (fun _ _ _ => True) p -> ok p w (fun _ _ => True).
Proof.
  revert w. induction p as [a|e|X e k IH]; intros w; cbn; [done..|].
  intros [He Hk] w1 Hle Hinv. destruct (He w1 Hinv). split_and!; auto.
Qed.

(** Alone, the computation ends in a world where its guarantee holds. *)
Lemma ok_run {A} (p : prog A) w Q : ok p w Q -> inv w ->
  le w (run env p w).2 /\ inv (run env p w).2 /\
  match (run env p w).1 with inr a => Q a (run env p w).2 | inl _ => True end.
Proof.
  revert w. induction p as [a|e|X e k IH]; intros w; cbn;
    [intros; split_and!; done..|].
  intros H Hinv. destruct (H w (PreOrder_Reflexive w) Hinv) as (H1 & H2 & H3).
  destruct (perform env e w) as [x w2]; cbn in *.
  destruct (IH x w2 H3 H2) as (H4 & H5 & H6). split_and!; [by etrans|done|done].
Qed.
End Ok.

(** * Pools of computations *)

Section Pool.
Context {CT RT : Type} `{!Table Contract CT, !Table Reconciliation RT}.
Notation World := (Be1World CT RT).
Context (env : Be1Env) (entry : prog unit -> Prop).

(** Nothing left to do. *)
Definition finished (t : prog unit) : Prop := match t with Do _ _ => False | _ => True end.
(** What is running: the world and the computations in flight.  A step starts a
    new one, or performs the next effect of one of them. *)
Definition Config : Type := World * list (prog unit).
Inductive pool_step : Config -> Config -> Prop :=
  | pool_start w ts p : entry p -> pool_step (w, ts) (w, ts ++ [p])
  | pool_effect w ts1 ts2 X (e : eff X) k :
      pool_step (w, ts1 ++ Do e k :: ts2)
        ((perform env e w).2, ts1 ++ k (perform env e w).1 :: ts2).

(** The scheduler that performs the next effect of the [i]-th computation. *)
Definition turn (i : nat) (c : Config) : Config :=
  match c.2 !! i with
  | Some (Do e k) => let '(x, w') := perform env e c.1 in (w', <[i := k x]> c.2)
  | _ => c
  end.
Lemma turn_steps i c : rtc pool_step c (turn i c).
Proof.
  destruct c as [w ts]. unfold turn. cbn. destruct (ts !! i) as [[a|e|X e k]|] eqn:E; try done.
  destruct (perform env e w) as [x w'] eqn:Ep. apply rtc_once.
  rewrite <-(take_drop_middle ts i _ E) at 1.
  assert (i < length ts) by (eapply lookup_lt_Some; eauto).
  rewrite (insert_take_drop ts i (k x)) by done.
  replace x with (perform env e w).1 by by rewrite Ep. replace w' with (perform env e w).2 by by rewrite Ep.
  constructor.
Qed.
Definition schedule (order : list nat) (c : Config) : Config := foldl (fun c i => turn i c) c order.
Lemma schedule_steps order c : rtc pool_step c (schedule order c).
Proof.
  revert c. induction order as [|i order IH]; intros c; cbn; [done|]. etrans; [apply turn_steps|apply IH].
Qed.

Context (le : World -> World -> Prop) (inv : World -> Prop) `{!PreOrder le}.
Definition config_ok (c : Config) : Prop :=
  inv c.1 /\ Forall (fun t => ok env le inv t c.1 (fun _ _ => True)) c.2.
Hypothesis entry_ok : forall p w, entry p -> ok env le inv p w (fun _ _ => True).

Lemma pool_step_ok c c' : pool_step c c' -> config_ok c -> le c.1 c'.1 /\ config_ok c'.
Proof.
  intros [w ts p Hp|w ts1 ts2 X e k] [Hinv Hts]; cbn in *.
  - split; [done|]. split; [done|]. apply Forall_app. split; [done|]. constructor; [by apply entry_ok|done].
  - apply Forall_app in Hts as [H1 [He H2]%Forall_cons].
    destruct (He w (PreOrder_Reflexive w) Hinv) as (Hle & Hinv' & Hk). split; [done|]. split; [done|].
    assert (forall ts : list (prog unit), Forall (fun t => ok env le inv t w (fun _ _ => True)) ts ->
      Forall (fun t => ok env le inv t (perform env e w).2 (fun _ _ => True)) ts) as Hlater.
    { intros ts Hts. eapply Forall_impl; [exact Hts|]. intros t Ht.
      refine (ok_later env le inv t _ _ _ _ Hle Ht). by intros ????. }
    apply Forall_app. split; [auto|]. constructor; auto.
Qed.
Lemma pool_ok c c' : rtc pool_step c c' -> config_ok c -> le c.1 c'.1 /\ config_ok c'.
Proof.
  induction 1 as [c|c1 c2 c3 Hs _ IH]; intros Hok; [by split|].
  destruct (pool_step_ok _ _ Hs Hok) as [H1 H2]. destruct (IH H2). split; [by etrans|done].
Qed.
End Pool.
