(* ===== verification/Be1Inv.v ===== *)
(** What [be1-xrpl] keeps while its computations interleave: every lease and
    every settled month is backed by answers of the ledger ([inv]), rows keep
    their terms and nothing is taken back ([evolves]); what each effect does to
    both. *)
From S2P Require Import Prelude JsString JsMap Json Be1World Be1Xrpl Be1Contracts Be1Reconciler Be1Logic.

(** * Evidence on the ledger *)

(** The transaction was handed over, signed by [wallet], and the check of the
    service on the answer gave [x]. *)
Definition succeeded {A} (L : list Submission) (tx : JsVal) (wallet : Wallet) (check : JsVal -> Exn + A) (x : A) : Prop :=
  exists result, mkSubmission tx wallet (inr result) ∈ L /\ check result = inr x.

(** What the parties agreed on: the row without the columns that the lock and
    the repository set. *)
Definition terms (c : Contract) : Contract :=
  c <| ct_contractAccountAddress := None |> <| ct_contractAccountSeedCipher := None |>
    <| ct_depositEscrowSequence := None |> <| ct_depositEscrowTxHash := None |>
    <| ct_stakeEscrowSequence := None |> <| ct_stakeEscrowTxHash := None |>
    <| ct_signerListTxHash := None |> <| ct_status := Pending |> <| ct_updatedAt := 0%Z |>.
(** The amount that an escrow of the contract holds. *)
Definition rowAmount (c : Contract) (value : string) : JsVal :=
  if bool_decide (c.(ct_assetMode) = "IOU") then
    iouAmount (trim (default "" c.(ct_iouIssuer))) (default "" c.(ct_iouCurrency)) (trim value)
  else JStr value.
Definition leaseEscrow (c : Contract) (wallet : Wallet) (destination value : string) : CreateEscrowParams :=
  mkEscrowParams wallet destination (rowAmount c value) (Some c.(ct_finishAfter)) (Some c.(ct_cancelAfter)) None None.
Definition leaseSigners (c : Contract) (wallet : Wallet) (operator : string) : SetSignerListParams :=
  mkSignerList wallet [mkSigner c.(ct_tenantAddress) 1 None; mkSigner c.(ct_landlordAddress) 1 None;
                       mkSigner operator 1 None] 2.

(** The two escrows and the signer list of a contract, on the account [wallet]. *)
Record lock_evidence (env : Be1Env) (L : list Submission) (c : Contract) (wallet : Wallet)
    (dep stake : EscrowCreatedResult) (sl : TxOutcome) : Prop := mkEvidence {
  lev_deposit : succeeded L
    (escrowCreateTx env.(be_rippleTime) (leaseEscrow c wallet c.(ct_tenantAddress) c.(ct_depositAmount)))
    wallet assertCreateSuccess dep;
  lev_stake : succeeded L
    (escrowCreateTx env.(be_rippleTime) (leaseEscrow c wallet c.(ct_landlordAddress) c.(ct_stakeAmount)))
    wallet assertCreateSuccess stake;
  lev_order : (c.(ct_finishAfter) < c.(ct_cancelAfter))%Z;
  lev_signers : exists operator, validateSignerList (leaseSigners c wallet operator) = inr tt /\
    succeeded L (signerListTx (leaseSigners c wallet operator)) wallet assertSignerListSuccess sl }.

(** A row of [contracts] says what the ledger answered. *)
Record locked_row (env : Be1Env) (L : list Submission) (c : Contract) (wallet : Wallet) (dep stake : EscrowCreatedResult)
    (sl : TxOutcome) (seed cipher : string) : Prop := mkLockedRow {
  lr_evidence : lock_evidence env L c wallet dep stake sl;
  lr_account : c.(ct_contractAccountAddress) = Some wallet.(wl_classicAddress);
  lr_deposit : c.(ct_depositEscrowSequence) = Some dep.(ec_escrowSequence) /\ c.(ct_depositEscrowTxHash) = dep.(ec_txHash);
  lr_stake : c.(ct_stakeEscrowSequence) = Some stake.(ec_escrowSequence) /\ c.(ct_stakeEscrowTxHash) = stake.(ec_txHash);
  lr_signers : c.(ct_signerListTxHash) = sl.(tx_hash);
  lr_seed : c.(ct_contractAccountSeedCipher) = Some cipher /\ wallet.(wl_seed) = Some seed /\ decryptWith env cipher = inr seed }.
Definition lease_ok (env : Be1Env) (L : list Submission) (c : Contract) : Prop :=
  match c.(ct_status) with
  | Pending => terms c = c <| ct_updatedAt := 0%Z |>
  | Locked => exists wallet dep stake sl seed cipher, locked_row env L c wallet dep stake sl seed cipher
  | _ => False
  end.

(** The payment of a settled month: from the account that holds the lock of the
    contract to its landlord, of the amount of the row, with the hash of the
    row in its memo. *)
Record paid_month (env : Be1Env) (cs : list Contract) (L : list Submission) (r : Reconciliation) (c : Contract)
    (payer : Wallet) (usage : MonthlyUsage) (memo : JsVal) : Prop := mkPaidMonth {
  pm_contract : c ∈ cs /\ c.(ct_id) = r.(rc_contractId);
  pm_account : exists wallet dep stake sl,
    lock_evidence env L c wallet dep stake sl /\ payer.(wl_classicAddress) = wallet.(wl_classicAddress);
  pm_usage : r.(rc_kepcoUsageKwh) = usage.(us_usageKwh) /\ r.(rc_kepcoChargeKrw) = usage.(us_chargeKrw) /\
    r.(rc_kepcoUsageHash) = sha256Hex env.(be_sha256) (json_stringify (usage_json usage));
  pm_memo : buildReconcileMemo env.(be_stringToHex)
    (mkPayload r.(rc_contractId) r.(rc_yearMonth) r.(rc_kepcoUsageHash) r.(rc_kepcoUsageHash)
       (num_str r.(rc_kepcoChargeKrw))) = inr memo;
  pm_paid : succeeded L
    (xrpPaymentTx (mkXrpPayment payer.(wl_classicAddress) c.(ct_landlordAddress) "" (num_str r.(rc_kepcoChargeKrw)) [memo]))
    payer assertPaymentSuccess r.(rc_paymentTxHash) }.
Definition record_ok (env : Be1Env) (cs : list Contract) (L : list Submission) (r : Reconciliation) : Prop :=
  match r.(rc_status) with
  | Matched => r.(rc_errorMessage) = None /\ exists c payer usage memo, paid_month env cs L r c payer usage memo
  | Failed => is_Some r.(rc_errorMessage) /\ r.(rc_paymentTxHash) = None
  | Mismatch => False
  end.

(** * Evidence grows *)

Lemma succeeded_mono {A} L L' tx wallet check (x : A) :
  L `prefix_of` L' -> succeeded L tx wallet check x -> succeeded L' tx wallet check x.
Proof. intros [k ->] (res & Hin & Hc). exists res. split; [|done]. apply elem_of_app. by left. Qed.
Lemma evidence_mono env L L' c wallet dep stake sl :
  L `prefix_of` L' -> lock_evidence env L c wallet dep stake sl -> lock_evidence env L' c wallet dep stake sl.
Proof.
  intros HL [Hd Hs Ho (op & Hv & Hl)]. split; [by eapply succeeded_mono..|done|].
  exists op. split; [done|]. by eapply succeeded_mono.
Qed.

Lemma terms_fields c c' : terms c = terms c' ->
  c.(ct_id) = c'.(ct_id) /\ c.(ct_tenantAddress) = c'.(ct_tenantAddress) /\
  c.(ct_landlordAddress) = c'.(ct_landlordAddress) /\ c.(ct_depositAmount) = c'.(ct_depositAmount) /\
  c.(ct_stakeAmount) = c'.(ct_stakeAmount) /\ c.(ct_assetMode) = c'.(ct_assetMode) /\
  c.(ct_iouIssuer) = c'.(ct_iouIssuer) /\ c.(ct_iouCurrency) = c'.(ct_iouCurrency) /\
  c.(ct_finishAfter) = c'.(ct_finishAfter) /\ c.(ct_cancelAfter) = c'.(ct_cancelAfter).
Proof. destruct c, c'. cbn. intros H. injection H. intros. by subst. Qed.
Lemma terms_id c c' : terms c = terms c' -> c.(ct_id) = c'.(ct_id).
Proof. intros H. by apply terms_fields in H as [? _]. Qed.
Lemma evidence_terms env L c c' wallet dep stake sl :
  terms c = terms c' -> lock_evidence env L c wallet dep stake sl -> lock_evidence env L c' wallet dep stake sl.
Proof.
  intros (_ & Et & El & Ed & Es & Em & Ei & Ec & Ef & Eca)%terms_fields [Hd Hs Ho (op & Hv & Hl)].
  unfold leaseEscrow, leaseSigners, rowAmount in *. rewrite Et, El, Ed, Es, Em, Ei, Ec, Ef, Eca in *.
  split; [done..|]. by exists op.
Qed.
Lemma lease_ok_mono env L L' c : L `prefix_of` L' -> lease_ok env L c -> lease_ok env L' c.
Proof.
  intros HL. unfold lease_ok. destruct (ct_status c); try done.
  intros (wallet & dep & stake & sl & seed & cipher & []). exists wallet, dep, stake, sl, seed, cipher.
  split; try done. by eapply evidence_mono.
Qed.

(** Rows of [cs'] under which the contracts of [cs] keep their terms. *)
Definition terms_kept (cs cs' : list Contract) : Prop :=
  forall c, c ∈ cs -> exists c', c' ∈ cs' /\ terms c' = terms c /\ (c.(ct_status) = Locked -> c'.(ct_status) = Locked).
Lemma record_ok_mono env cs cs' L L' r :
  terms_kept cs cs' -> L `prefix_of` L' -> record_ok env cs L r -> record_ok env cs' L' r.
Proof.
  intros Hcs HL. unfold record_ok. destruct (rc_status r); try done.
  intros (He & c & payer & usage & memo & [(Hin & Hid) (wallet & dep & stake & sl & Hev & Ha) Hu Hm Hp]).
  split; [done|]. destruct (Hcs c Hin) as (c' & Hin' & Ht & _). exists c', payer, usage, memo.
  destruct (terms_fields _ _ Ht) as (Hid' & _ & Hland & _). split; try done.
  - split; [done|]. by rewrite Hid'.
  - exists wallet, dep, stake, sl. split; [|done]. eapply (evidence_terms _ _ c); [by symmetry|]. by eapply evidence_mono.
  - rewrite Hland. by eapply succeeded_mono.
Qed.

(** A row of [reconciliations] without the time of its report. *)
Definition unsent (r : Reconciliation) : Reconciliation := r <| rc_reportSentAt := None |>.
Lemma unsent_fields r r' : unsent r = unsent r' ->
  r.(rc_id) = r'.(rc_id) /\ r.(rc_contractId) = r'.(rc_contractId) /\ r.(rc_yearMonth) = r'.(rc_yearMonth) /\
  r.(rc_status) = r'.(rc_status).
Proof. destruct r, r'. cbn. intros H. injection H. intros. by subst. Qed.
Lemma record_ok_unsent env cs L r r' : unsent r = unsent r' -> record_ok env cs L r -> record_ok env cs L r'.
Proof.
  destruct r, r'. cbn. intros H. injection H. intros. subst. revert select (record_ok _ _ _ _).
  unfold record_ok. cbn. destruct rc_status0; try done.
  intros (He & c & payer & usage & memo & []). split; [done|]. exists c, payer, usage, memo. by split.
Qed.

(** * Rows of a table *)

Section Rows.
Context {Row : Type} (key : Row -> string).
Lemma key_inj rows r r' : NoDup (key <$> rows) -> r ∈ rows -> r' ∈ rows -> key r = key r' -> r = r'.
Proof.
  induction rows as [|x rows IH]; [by intros _ ?%not_elem_of_nil|].
  cbn. intros [Hx Hnd]%NoDup_cons [->|Hr]%elem_of_cons [->|Hr']%elem_of_cons E; auto.
  - destruct Hx. rewrite E. by apply list_elem_of_fmap_2.
  - destruct Hx. rewrite <-E. by apply list_elem_of_fmap_2.
Qed.
Lemma patched_keys id patch rows : (forall r, key (patch r) = key r) -> key <$> patched key id patch rows = key <$> rows.
Proof.
  intros Hk. unfold patched. rewrite <-list_fmap_compose. apply list_fmap_ext. intros i r _. cbn.
  case_bool_decide; [apply Hk|done].
Qed.
Lemma elem_of_patched id patch rows r' : r' ∈ patched key id patch rows ->
  exists r, r ∈ rows /\ ((key r = id /\ r' = patch r) \/ r' = r).
Proof. intros (r & -> & Hr)%list_elem_of_fmap. exists r. case_bool_decide; auto. Qed.
Lemma patched_elem id patch rows r : r ∈ rows ->
  (if bool_decide (key r = id) then patch r else r) ∈ patched key id patch rows.
Proof. intros Hr. apply list_elem_of_fmap. by exists r. Qed.
End Rows.

(** Every effect of [be1-xrpl] keeps the invariant of [Be1Inv.v]: those on the
    network and reads always, those that write a row under a condition on what
    they write. *)

Section Effects.
Context {CT RT : Type} `{!Table Contract CT, !Table Reconciliation RT,
  !TableLaws Contract CT ct_id, !TableLaws Reconciliation RT rc_id}.
Notation World := (Be1World CT RT).
Context (env : Be1Env).

Definition leases (w : World) : list Contract := t_rows w.(bw_contracts).
Definition months (w : World) : list Reconciliation := t_rows w.(bw_records).

Record inv (w : World) : Prop := mkInv {
  inv_contract_ids : NoDup (ct_id <$> leases w);
  inv_record_ids : NoDup (rc_id <$> months w);
  inv_leases : Forall (lease_ok env w.(bw_ledger)) (leases w);
  inv_months : Forall (record_ok env (leases w) w.(bw_ledger)) (months w) }.
Record evolves (w w' : World) : Prop := mkEvolves {
  ev_ledger : w.(bw_ledger) `prefix_of` w'.(bw_ledger);
  ev_jobs : w.(bw_jobs) `prefix_of` w'.(bw_jobs);
  ev_leases : terms_kept (leases w) (leases w');
  ev_months : forall r, r ∈ months w -> exists r', r' ∈ months w' /\ unsent r' = unsent r }.
#[export] Instance evolves_preorder : PreOrder evolves.
Proof.
  split.
  - intros w. split; [done..|intros c Hc; by exists c|intros r Hr; by exists r].
  - intros w1 w2 w3 [L1 J1 C1 R1] [L2 J2 C2 R2]. split; [by etrans..| |].
    + intros c (c' & Hc' & Ht & Hl)%C1. destruct (C2 c' Hc') as (c2 & Hc2 & Ht2 & Hl2).
      exists c2. split_and!; [done|congruence|auto].
    + intros r (r' & Hr' & E)%R1. destruct (R2 r' Hr') as (r2 & Hr2 & E2). exists r2. split; congruence.
Qed.

(** * Worlds that differ little *)

Lemma keep_rows w w' :
  leases w' ≡ₚ leases w -> months w' ≡ₚ months w ->
  w.(bw_ledger) `prefix_of` w'.(bw_ledger) -> w.(bw_jobs) `prefix_of` w'.(bw_jobs) ->
  inv w -> evolves w w' /\ inv w'.
Proof.
  intros Hc Hr HL HJ [Hci Hri Hl Hm].
  assert (terms_kept (leases w) (leases w')) as Hkept.
  { intros c Hin. exists c. by rewrite Hc. }
  split; [split; [done..|]|split].
  - intros r Hin. exists r. by rewrite Hr.
  - by rewrite Hc.
  - by rewrite Hr.
  - rewrite Hc. eapply Forall_impl; [exact Hl|]. intros c. by apply lease_ok_mono.
  - rewrite Hr. eapply Forall_impl; [exact Hm|]. intros r. by apply record_ok_mono.
Qed.

Lemma insert_lease w w' c :
  leases w' ≡ₚ c :: leases w -> w'.(bw_records) = w.(bw_records) ->
  w'.(bw_ledger) = w.(bw_ledger) -> w'.(bw_jobs) = w.(bw_jobs) ->
  c.(ct_id) ∉ ct_id <$> leases w -> lease_ok env w.(bw_ledger) c -> inv w -> evolves w w' /\ inv w'.
Proof.
  intros Hc Hr HL HJ Hnew Hok [Hci Hri Hl Hm]. unfold months in *.
  assert (terms_kept (leases w) (leases w')) as Hkept.
  { intros x Hin. exists x. rewrite Hc, elem_of_cons. auto. }
  split; [split|split]; rewrite ?HL, ?HJ; try done; unfold months; rewrite ?Hr; try done.
  - intros r Hin. by exists r.
  - rewrite Hc. by constructor.
  - rewrite Hc. by constructor.
  - eapply Forall_impl; [exact Hm|]. intros r. by apply record_ok_mono.
Qed.

Lemma patch_lease w w' id patch :
  leases w' ≡ₚ patched ct_id id patch (leases w) -> w'.(bw_records) = w.(bw_records) ->
  w'.(bw_ledger) = w.(bw_ledger) -> w'.(bw_jobs) = w.(bw_jobs) ->
  (forall c, terms (patch c) = terms c) ->
  (forall c, c ∈ leases w -> c.(ct_id) = id -> lease_ok env w.(bw_ledger) (patch c) /\ (patch c).(ct_status) = Locked) ->
  inv w -> evolves w w' /\ inv w'.
Proof.
  intros Hc Hr HL HJ Ht Hok [Hci Hri Hl Hm]. unfold months in *.
  assert (terms_kept (leases w) (leases w')) as Hkept.
  { intros x Hin. exists (if bool_decide (x.(ct_id) = id) then patch x else x).
    rewrite Hc. split; [by apply patched_elem|]. case_bool_decide as E; [|done]. split; [done|].
    intros _. by apply Hok. }
  assert (forall c, (patch c).(ct_id) = c.(ct_id)) as Hid by (intros c; by apply terms_id).
  split; [split|split]; rewrite ?HL, ?HJ; try done; unfold months; rewrite ?Hr; try done.
  - intros r Hin. by exists r.
  - by rewrite Hc, patched_keys.
  - rewrite Hc, Forall_forall. intros c (c0 & Hin & [[Hk ->]| ->])%elem_of_patched; [by apply Hok|].
    rewrite Forall_forall in Hl. by apply Hl.
  - eapply Forall_impl; [exact Hm|]. intros r. by apply record_ok_mono.
Qed.

Lemma insert_month w w' r :
  months w' ≡ₚ r :: months w -> w'.(bw_contracts) = w.(bw_contracts) ->
  w'.(bw_ledger) = w.(bw_ledger) -> w'.(bw_jobs) = w.(bw_jobs) ->
  r.(rc_id) ∉ rc_id <$> months w -> record_ok env (leases w) w.(bw_ledger) r -> inv w -> evolves w w' /\ inv w'.
Proof.
  intros Hr Hc HL HJ Hnew Hok [Hci Hri Hl Hm]. unfold leases in *.
  split; [split|split]; rewrite ?HL, ?HJ; try done; unfold leases; rewrite ?Hc; try done.
  - intros c Hin. by exists c.
  - intros x Hin. exists x. rewrite Hr, elem_of_cons. auto.
  - rewrite Hr. by constructor.
  - rewrite Hr. by constructor.
Qed.

Lemma patch_month w w' id patch :
  months w' ≡ₚ patched rc_id id patch (months w) -> w'.(bw_contracts) = w.(bw_contracts) ->
  w'.(bw_ledger) = w.(bw_ledger) -> w'.(bw_jobs) = w.(bw_jobs) ->
  (forall r, unsent (patch r) = unsent r) -> inv w -> evolves w w' /\ inv w'.
Proof.
  intros Hr Hc HL HJ Hu [Hci Hri Hl Hm]. unfold leases in *.
  assert (forall r, (patch r).(rc_id) = r.(rc_id)) as Hid.
  { intros r. by destruct (unsent_fields _ _ (Hu r)). }
  split; [split|split]; rewrite ?HL, ?HJ; try done; unfold leases; rewrite ?Hc; try done.
  - intros c Hin. by exists c.
  - intros r Hin. exists (if bool_decide (r.(rc_id) = id) then patch r else r).
    rewrite Hr. split; [by apply patched_elem|]. case_bool_decide; [apply Hu|done].
  - by rewrite Hr, patched_keys.
  - rewrite Forall_forall in Hm. rewrite Hr, Forall_forall.
    intros r (r0 & Hin & [[Hk ->]| ->])%elem_of_patched; [|by apply Hm].
    eapply record_ok_unsent; [symmetry; apply Hu|by apply Hm].
Qed.

(** * Effects *)

Notation harmless := (harmless env evolves inv).

Lemma harmless_select_contract p (w : World) : inv w ->
  evolves w (w <| bw_contracts := (t_select p w.(bw_contracts)).2 |>) /\ inv (w <| bw_contracts := (t_select p w.(bw_contracts)).2 |>).
Proof. apply keep_rows; [apply (select_keeps (key := ct_id))|done..]. Qed.
Lemma harmless_select_record p (w : World) : inv w ->
  evolves w (w <| bw_records := (t_select p w.(bw_records)).2 |>) /\ inv (w <| bw_records := (t_select p w.(bw_records)).2 |>).
Proof. apply keep_rows; [done|apply (select_keeps (key := rc_id))|done..]. Qed.

Lemma harmless_update id patch : (forall now r, unsent (patch now r) = unsent r) -> harmless _ (RecordUpdate id patch).
Proof.
  intros Hu w Hinv. cbn. destruct (update_spec (key := rc_id) id patch w.(bw_records)) as [now H].
  destruct (t_update id patch _) as [[m|x] t]; cbn.
  - destruct H as [H|H]; [by apply keep_rows|]. by eapply patch_month.
  - by eapply patch_month.
Qed.

(** The effects that write no row of their own. *)
Definition plain {X} (e : eff X) : bool :=
  match e with ContractSave _ | ContractUpdate _ _ | RecordSave _ | RecordUpdate _ _ => false | _ => true end.
Lemma harmless_plain X (e : eff X) : plain e = true -> harmless _ e.
Proof.
  intros Hp w Hinv. destruct e; try done; cbn.
  all: try by apply harmless_select_contract.
  all: try by apply harmless_select_record.
  - destruct (f env w.(bw_local)). by apply keep_rows.
  - destruct (be_queue env _ _); apply keep_rows; try done. by apply prefix_app_r.
  - destruct (be_mail env _ _); by apply keep_rows.
  - by apply keep_rows.
  - apply keep_rows; try done. by apply prefix_app_r.
  - by apply keep_rows.
  - by apply keep_rows.
Qed.

(** * Rules for the effects with a result *)

Notation ok := (ok env evolves inv).

Lemma ok_sync {X} (f : Be1Env -> Local -> X * Local) w Q :
  (forall l w', evolves w w' -> Q (f env l).1 w') -> ok (sync f) w Q.
Proof.
  intros HQ w' Hle Hinv. cbn. destruct (harmless_plain _ (Sync f) eq_refl w' Hinv) as [H1 H2].
  split_and!; [done..|]. cbn in *. specialize (HQ w'.(bw_local)). destruct (f env _) as [x l]. cbn in *.
  apply HQ. by etrans.
Qed.
Lemma ok_ask {X} (f : Be1Env -> X) w (Q : X -> World -> Prop) :
  (forall w', evolves w w' -> Q (f env) w') -> ok (ask f) w Q.
Proof. intros HQ. apply ok_sync. auto. Qed.
Lemma ok_plain {X} (e : eff (string + X)) w (Q : X -> World -> Prop) : plain e = true ->
  (forall w', evolves w w' -> inv w' -> forall x, (perform env e w').1 = inr x -> Q x (perform env e w').2) ->
  ok (await e) w Q.
Proof.
  intros Hp HQ. apply ok_await. intros w' Hle Hinv. destruct (harmless_plain _ e Hp w' Hinv).
  split_and!; [done..|]. by apply HQ.
Qed.

Lemma ok_submit tx wallet w (Q : JsVal -> World -> Prop) :
  (forall result w', evolves w w' -> mkSubmission tx wallet (inr result) ∈ w'.(bw_ledger) -> Q result w') ->
  ok (await (SubmitAndWait tx wallet)) w Q.
Proof.
  intros HQ. apply ok_plain; [done|]. intros w' Hle Hinv x Hx. cbn in Hx. apply HQ.
  - etrans; [exact Hle|]. by apply (harmless_plain _ (SubmitAndWait tx wallet)).
  - cbn. rewrite Hx. apply elem_of_app. right. by apply list_elem_of_singleton.
Qed.
Lemma ok_findOneBy p w (Q : option Contract -> World -> Prop) :
  (forall w', evolves w w' -> Q None w') ->
  (forall c w', evolves w w' -> inv w' -> c ∈ leases w' -> p c = true -> Q (Some c) w') ->
  ok (await (ContractFindOneBy p)) w Q.
Proof.
  intros HN HS. apply ok_plain; [done|]. intros w' Hle Hinv x. cbn.
  destruct (harmless_select_contract p w' Hinv) as [H1 H2].
  pose proof (select_finds (key := ct_id) p w'.(bw_contracts)) as Hf.
  destruct (t_select p w'.(bw_contracts)) as [[m|l] t] eqn:E; cbn in *; intros Hx; [done|]. injection Hx as <-.
  specialize (Hf l eq_refl). destruct l as [|c l]; cbn; [apply HN; by etrans|].
  assert (c ∈ filter (fun r => p r) (t_rows w'.(bw_contracts))) as Hc by (rewrite <-Hf; left).
  apply list_elem_of_filter in Hc as [Hp Hc]. apply HS; [by etrans|done| |by destruct (p c)].
  unfold leases in *. cbn. pose proof (select_keeps (key := ct_id) p w'.(bw_contracts)) as Hk.
  rewrite E in Hk. cbn in Hk. by rewrite Hk.
Qed.
End Effects.
