(* ===== verification/Be1Services.v ===== *)
(** What each service and flow of [be1-xrpl] guarantees under interference: an escrow, a
    signer list or a payment that is reported is on the ledger, a secret that
    is stored can be read back, a locked row and a settled month are backed. *)
From S2P Require Import Prelude JsString JsMap Json Base64 Be1World Be1Xrpl Be1Contracts Be1Reconciler Be1Wallet.
From S2P Require Import Be1Logic Be1Inv.
From Stdlib Require Import Ascii.

(** * Secrets *)

(** AES-GCM and the random source of Node. *)
Record gcm_sound (env : Be1Env) : Prop := mkGcmSound {
  gs_bytes n k : length (env.(be_randomBytes) n k) = k;
  gs_open key iv pt : let '(ct, tag) := env.(be_seal) key iv pt in
    length tag = TAG_BYTES /\ env.(be_open) key iv tag ct = Some pt }.

Lemma base64_val_standard (c : ascii) :
  b64_val (if bool_decide (c = "-"%char) then "+"%char else if bool_decide (c = "_"%char) then "/"%char else c) = b64_val c.
Proof. repeat case_bool_decide; subst; done. Qed.
Lemma padding_skipped n : omap b64_val (replicate n "="%char) = [].
Proof. induction n; simpl; auto. Qed.
Lemma base64_decode_encode bytes : base64_decode (base64_encode bytes) = bytes.
Proof.
  rewrite <-(chars_of_chars bytes) at 2. rewrite <-(base64url_decode_encode (of_chars bytes)).
  unfold base64_decode, base64_encode. f_equal. unfold base64url_decode. do 3 f_equal.
  rewrite chars_app, !chars_of_chars, omap_app, padding_skipped, app_nil_r.
  induction (chars _) as [|c l IH]; [done|].
  cbn [fmap list_fmap omap list_omap]. by rewrite base64_val_standard, IH.
Qed.

Section Encryption.
Context (env : Be1Env) (Hgcm : gcm_sound env).

Definition sealed (key : list ascii) (n : nat) (plaintext : string) : string :=
  let iv := env.(be_randomBytes) n IV_BYTES in
  let '(ciphertext, tag) := env.(be_seal) key iv (chars plaintext) in base64_encode (iv ++ tag ++ ciphertext).
Lemma decrypt_sealed key n plaintext :
  encryptionKey (env.(be_config) "ENCRYPTION_MASTER_KEY") = inr key ->
  decryptWith env (sealed key n plaintext) = inr plaintext.
Proof.
  intros Hkey. unfold decryptWith, sealed. rewrite Hkey. cbn [then_].
  pose proof (gs_bytes _ Hgcm n IV_BYTES) as Hiv.
  pose proof (gs_open _ Hgcm key (env.(be_randomBytes) n IV_BYTES) (chars plaintext)) as Ho.
  destruct (be_seal env key _ _) as [ct tag]. destruct Ho as [Htag Ho].
  rewrite base64_decode_encode. generalize dependent (be_randomBytes env n IV_BYTES). intros iv Hiv Ho.
  rewrite take_app_length' by done. rewrite (drop_app_length' iv) by done. rewrite take_app_length' by done.
  rewrite !length_app, Hiv, Htag. destruct (Nat.ltb_spec (IV_BYTES + (TAG_BYTES + length ct)) (IV_BYTES + TAG_BYTES)); [lia|].
  rewrite <-drop_drop, (drop_app_length' iv), drop_app_length' by done. by rewrite Ho, of_chars_chars.
Qed.
End Encryption.

(** * Guarantees *)

Section Services.
Context {CT RT : Type} `{!Table Contract CT, !Table Reconciliation RT,
  !TableLaws Contract CT ct_id, !TableLaws Reconciliation RT rc_id}.
Notation World := (Be1World CT RT).
Context (env : Be1Env) (Hgcm : gcm_sound env).
Notation evolves := (evolves (CT := CT) (RT := RT)).
Notation ok := (ok env evolves (inv env)).
Notation ok_bind := (Be1Logic.ok_bind env evolves (inv env)).
Notation ok_wand := (Be1Logic.ok_wand env evolves (inv env)).

Lemma ok_draw {X} (f : Be1Env -> nat -> X) w (Q : X -> World -> Prop) :
  (forall n w', evolves w w' -> Q (f env n) w') -> ok (draw f) w Q.
Proof. intros HQ. apply ok_sync. intros l w' Hw'. apply (HQ _ _ Hw'). Qed.
Lemma ok_asked {A B} (f : Be1Env -> A) (k : A -> prog B) w Q :
  (forall w', evolves w w' -> ok (k (f env)) w' Q) -> ok (ask f ≫= k) w Q.
Proof.
  intros H. apply ok_bind with (Q' := fun a _ => a = f env); [by apply ok_ask|]. intros a w' Hw' ->. by apply H.
Qed.
Lemma ok_lifted {A B} (r : Exn + A) (k : A -> prog B) w Q :
  (forall a, r = inr a -> ok (k a) w Q) -> ok (lift r ≫= k) w Q.
Proof. destruct r as [e|a]; cbn; [done|]. auto. Qed.
Lemma ok_client {B} (k : unit -> prog B) w Q : (forall w', evolves w w' -> ok (k tt) w' Q) -> ok (getClient ≫= k) w Q.
Proof.
  intros H. unfold getClient. apply ok_bind with (Q' := fun _ _ => True).
  - apply ok_bind with (Q' := fun _ _ => True); [by apply ok_draw|]. by intros [] w' _ _.
  - intros [] w' Hw' _. by apply H.
Qed.

Lemma ok_submitAndWait tx wallet w (Q : JsVal -> World -> Prop) :
  (forall result w', evolves w w' -> mkSubmission tx wallet (inr result) ∈ w'.(bw_ledger) -> Q result w') ->
  ok (submitAndWait tx wallet) w Q.
Proof.
  intros HQ. apply ok_client. intros w1 Hw1. apply ok_submit. intros res w2 Hw2. apply HQ. by etrans.
Qed.
(** Submitting and checking. *)
Lemma ok_submitted {A} tx wallet (check : JsVal -> Exn + A) w :
  ok (r ← submitAndWait tx wallet; lift (check r)) w (fun x w' => succeeded w'.(bw_ledger) tx wallet check x).
Proof.
  apply ok_bind with (Q' := fun r w' => mkSubmission tx wallet (inr r) ∈ w'.(bw_ledger)).
  - apply ok_submitAndWait. auto.
  - intros r w' _ Hin. apply ok_lift. intros x Hx. by exists r.
Qed.

Lemma ok_createEscrow p w :
  ok (createEscrow p) w (fun x w' => validateEscrowParams p = inr tt /\
    succeeded w'.(bw_ledger) (escrowCreateTx env.(be_rippleTime) p) p.(ep_account) assertCreateSuccess x).
Proof.
  apply ok_lifted. intros [] Hv. apply ok_asked. intros w1 Hw1.
  eapply ok_wand; [apply ok_submitted|]. auto.
Qed.
Lemma ok_setSignerList p w :
  ok (setSignerList p) w (fun x w' => validateSignerList p = inr tt /\
    succeeded w'.(bw_ledger) (signerListTx p) p.(sl_account) assertSignerListSuccess x).
Proof.
  apply ok_lifted. intros [] Hv. eapply ok_wand; [apply ok_submitted|]. auto.
Qed.
Lemma ok_fromSeed seed w : ok (fromSeed seed) w (fun wallet _ => env.(be_fromSeed) seed = inr wallet).
Proof. apply ok_asked. intros w' _. by destruct (be_fromSeed env seed). Qed.
Lemma ok_submitXrpPayment p w :
  ok (submitXrpPayment p) w (fun h w' => exists payer, payer.(wl_classicAddress) = p.(sp_sourceAddress) /\
    succeeded w'.(bw_ledger) (xrpPaymentTx p) payer assertPaymentSuccess h).
Proof.
  eapply ok_bind; [apply ok_fromSeed|]. intros payer w1 _ _. cbn beta.
  case_bool_decide as E; cbn [negb]; [|done]. destruct (negb (allDigits _)); [done|].
  eapply ok_wand; [apply ok_submitted|]. intros h w2 _ H. by exists payer.
Qed.

Lemma ok_encrypt plaintext w : ok (encrypt plaintext) w (fun cipher _ => decryptWith env cipher = inr plaintext).
Proof.
  unfold encrypt, requireKey, config.
  apply ok_bind with (Q' := fun key _ => encryptionKey (env.(be_config) "ENCRYPTION_MASTER_KEY") = inr key).
  - apply ok_asked. intros w1 _. by apply ok_lift.
  - intros key w1 _ Hkey.
    apply ok_bind with (Q' := fun iv _ => exists n, iv = env.(be_randomBytes) n IV_BYTES).
    { apply ok_draw. eauto. }
    intros iv w2 _ [n ->]. apply ok_asked. intros w3 _.
    pose proof (decrypt_sealed env Hgcm key n plaintext Hkey) as H. unfold sealed in H.
    by destruct (be_seal env key _ _).
Qed.
Lemma ok_decrypt cipher w : ok (decrypt cipher) w (fun s _ => decryptWith env cipher = inr s).
Proof. apply ok_asked. intros w' _. by apply ok_lift. Qed.

(** * Contracts *)

Lemma ok_toDto c w : ok (toDto c) w (fun d _ =>
  d.(cd_id) = c.(ct_id) /\ d.(cd_landlordAddress) = c.(ct_landlordAddress) /\ d.(cd_status) = c.(ct_status) /\
  d.(cd_contractAccountAddress) = c.(ct_contractAccountAddress)).
Proof.
  eapply ok_bind; [apply ok_decrypt|]. intros t w1 _ _. eapply ok_bind; [apply ok_decrypt|]. intros l w2 _ _.
  apply ok_bind with (Q' := fun _ _ => True); [|done]. destruct (nonempty _); [|done].
  eapply ok_bind; [apply ok_decrypt|]. done.
Qed.

(** The row that an answer speaks of. *)
Definition known (w : World) (d : ContractDto) : Prop :=
  exists c, c ∈ leases w /\ c.(ct_id) = d.(cd_id) /\ c.(ct_landlordAddress) = d.(cd_landlordAddress) /\
    (d.(cd_status) = Locked -> c.(ct_status) = Locked /\ exists wallet dep stake sl,
      lock_evidence env w.(bw_ledger) c wallet dep stake sl /\
      d.(cd_contractAccountAddress) = Some wallet.(wl_classicAddress)).
Lemma known_later w w' d : evolves w w' -> known w d -> known w' d.
Proof.
  intros [HL _ HC _] (c & Hc & Hi & Hland & Hlock). destruct (HC c Hc) as (c' & Hc' & Ht & Hl').
  destruct (terms_fields _ _ Ht) as (Hi' & _ & Hland' & _). exists c'. split_and!; [done|congruence..|].
  intros HS. destruct (Hlock HS) as (HSc & wallet & dep & stake & sl & Hev & Ha). split; [auto|].
  exists wallet, dep, stake, sl. split; [|done]. eapply (evidence_terms _ _ c); [by symmetry|]. by eapply evidence_mono.
Qed.
Lemma known_row w c d : inv env w -> c ∈ leases w ->
  d.(cd_id) = c.(ct_id) /\ d.(cd_landlordAddress) = c.(ct_landlordAddress) /\ d.(cd_status) = c.(ct_status) /\
  d.(cd_contractAccountAddress) = c.(ct_contractAccountAddress) -> known w d.
Proof.
  intros Hinv Hc (Hi & Hl & Hs & Ha). exists c. split_and!; [done|congruence..|].
  intros HL. rewrite Hs in HL. split; [done|].
  pose proof (inv_leases _ _ Hinv) as Hok. rewrite Forall_forall in Hok. specialize (Hok c Hc).
  unfold lease_ok in Hok. rewrite HL in Hok.
  destruct Hok as (wallet & dep & stake & sl & seed & cipher & [Hev Hacc _ _ _ _]).
  exists wallet, dep, stake, sl. split; [done|congruence].
Qed.

Lemma ok_findById id w : ok (findById id) w (fun r w' =>
  match r with Some d => d.(cd_id) = id /\ known w' d | None => True end).
Proof.
  apply ok_bind with (Q' := fun r w' =>
    match r with Some c => c.(ct_id) = id /\ exists w0, evolves w0 w' /\ inv env w0 /\ c ∈ leases w0 | None => True end).
  - apply ok_findOneBy; [done|]. intros c w' _ Hinv Hc Hp. unfold hasId in Hp. bool_to_prop.
    split; [done|]. by exists w'.
  - intros [c|] w1 _; [|done]. intros (Hid & w0 & Hle & Hinv & Hc).
    eapply ok_bind; [apply ok_toDto|]. intros d w2 Hw2 Hd. cbn. split; [destruct Hd; congruence|].
    eapply known_later; [|by eapply known_row]. by etrans.
Qed.
End Services.

(** The two flows of [be1-xrpl] that write rows: locking a deposit, and settling
    a month, with the guarantees of [Be1Inv.v]. *)

(** * Currency codes *)

Lemma is_code_upper c : is_code c = true -> upper_char c = c /\ uri_unreserved c = true.
Proof. destruct c as [[] [] [] [] [] [] [] []]; vm_compute; auto; discriminate. Qed.
Lemma is_upper_hex_code c : is_upper_hex c = true -> is_code c = true.
Proof. destruct c as [[] [] [] [] [] [] [] []]; vm_compute; auto. Qed.
Lemma codes_fixed s : all_chars is_code s = true -> toUpperCase (trim s) = s.
Proof.
  unfold all_chars. rewrite forallb_forall. intros H.
  rewrite trim_unreserved.
  - unfold toUpperCase. rewrite <-(of_chars_chars s) at 2. f_equal. rewrite <-(list_fmap_id (chars s)) at 2.
    apply list_fmap_ext. intros i c Hc. apply list_elem_of_lookup_2, list_elem_of_In, H, is_code_upper in Hc. apply Hc.
  - unfold all_chars. apply forallb_forall. intros c Hc. by apply is_code_upper, H.
Qed.
Lemma normalize_code raw c : normalizeIouCurrencyCode raw = inr c -> all_chars is_code c = true.
Proof.
  unfold normalizeIouCurrencyCode. destruct (_ && all_chars is_code _) eqn:E1.
  - intros [= <-]. by apply andb_true_iff in E1 as [_ ?].
  - destruct (_ && all_chars is_upper_hex _) eqn:E2; [|done]. intros [= <-].
    apply andb_true_iff in E2 as [_ H]. unfold all_chars in *. rewrite forallb_forall in *.
    intros x Hx. by apply is_upper_hex_code, H.
Qed.
(** A normalized code is its own normal form. *)
Lemma normalize_idem raw c : normalizeIouCurrencyCode raw = inr c -> normalizeIouCurrencyCode c = inr c.
Proof.
  intros H. pose proof (codes_fixed c (normalize_code raw c H)) as Hfix. revert H.
  unfold normalizeIouCurrencyCode. rewrite Hfix.
  destruct (_ && all_chars is_code (toUpperCase (trim raw))) eqn:E1; [intros [= <-]; by rewrite E1|].
  destruct (_ && all_chars is_upper_hex (toUpperCase (trim raw))) eqn:E2; [|done]. intros [= <-]. by rewrite E1, E2.
Qed.

(** * What a lock asks for *)

(** The currency column of a new row. *)
Definition currency_of (i : CreateContractInput) (cur : option string) : Prop :=
  forall raw, assetModeOf i = IOU -> nonempty i.(ci_iouCurrency) = Some raw ->
    exists n, normalizeIouCurrencyCode raw = inr n /\ cur = Some n.
Lemma be1_nonempty_Some o s : nonempty o = Some s -> o = Some s.
Proof. unfold nonempty. destruct (truthy o); congruence. Qed.
Lemma escrowAmounts_row i tp lp cur id now amounts :
  escrowAmounts i = inr amounts -> currency_of i cur ->
  rowAmount (newRow i tp lp cur id now) i.(ci_depositAmount) = amounts.1 /\
  rowAmount (newRow i tp lp cur id now) i.(ci_stakeAmount) = amounts.2.
Proof.
  unfold escrowAmounts, rowAmount, newRow, currency_of. cbn. destruct (assetModeOf i); cbn.
  - by intros [= <-] _.
  - destruct (nonempty i.(ci_iouIssuer)) as [issuer|] eqn:Ei; [|done].
    destruct (nonempty i.(ci_iouCurrency)) as [raw|]; [|done]. intros H Hc.
    destruct (Hc raw eq_refl eq_refl) as (n & Hn & ->). apply be1_nonempty_Some in Ei as ->.
    rewrite Hn in H. cbn in H. unfold buildIouAmount in H. rewrite (normalize_idem _ _ Hn) in H.
    cbn in H. by injection H as <-.
Qed.

(** The requests of the lock, read off the row. *)
Lemma lease_requests lk tp lp cur id now amounts c :
  escrowAmounts lk.(lk_input) = inr amounts -> currency_of lk.(lk_input) cur ->
  terms c = terms (newRow lk.(lk_input) tp lp cur id now) ->
  let wallet := lk.(lk_contractWallet) in
  depositEscrow lk amounts.1 = leaseEscrow c wallet c.(ct_tenantAddress) c.(ct_depositAmount) /\
  stakeEscrow lk amounts.2 = leaseEscrow c wallet c.(ct_landlordAddress) c.(ct_stakeAmount) /\
  lockSigners lk = leaseSigners c wallet lk.(lk_operatorAddress).
Proof.
  intros Ha Hc Ht. destruct (escrowAmounts_row _ tp lp cur id now _ Ha Hc) as [Hd Hs].
  apply terms_fields in Ht as (_ & Et & El & Ed & Es & Em & Ei & Ec & Ef & Eca). cbn in *.
  unfold depositEscrow, stakeEscrow, leaseEscrow, lockSigners, leaseSigners, rowAmount in *. cbn in *.
  rewrite Et, El, Ed, Es, Em, Ei, Ec, Ef, Eca. by rewrite <-Hd, <-Hs.
Qed.

Section Flows.
Context {CT RT : Type} `{!Table Contract CT, !Table Reconciliation RT,
  !TableLaws Contract CT ct_id, !TableLaws Reconciliation RT rc_id}.
Notation World := (Be1World CT RT).
Context (env : Be1Env) (Hgcm : gcm_sound env).
Notation evolves := (evolves (CT := CT) (RT := RT)).
Notation ok := (ok env evolves (inv env)).
Notation ok_bind := (Be1Logic.ok_bind env evolves (inv env)).
Notation ok_wand := (Be1Logic.ok_wand env evolves (inv env)).
Notation ok_attempt := (Be1Logic.ok_attempt env evolves (inv env)).

(** * Writing rows *)

Lemma ok_saveContract mk w (Q : Contract -> World -> Prop) :
  (forall id now L, lease_ok env L (mk id now) /\ (mk id now).(ct_id) = id) ->
  (forall id now w', evolves w w' -> mk id now ∈ leases w' -> Q (mk id now) w') ->
  ok (await (ContractSave mk)) w Q.
Proof.
  intros Hmk HQ. apply ok_await. intros w' Hle Hinv. cbn.
  destruct (insert_spec (key := ct_id) mk w'.(bw_contracts)) as (id & now & Hnew & H).
  destruct (Hmk id now w'.(bw_ledger)) as [Hok Hid]. rewrite <-Hid in Hnew.
  destruct (t_insert mk _) as [[m|r] t]; cbn.
  - assert (evolves w' (w' <| bw_contracts := t |>) /\ inv env (w' <| bw_contracts := t |>)) as [H1 H2];
      [|by split_and!]. destruct H as [H|H]; [by apply keep_rows|by eapply insert_lease].
  - destruct H as [-> H]. edestruct (insert_lease env w' (w' <| bw_contracts := t |>)) as [H1 H2]; try done.
    split_and!; [done..|]. intros x [= <-]. apply HQ; [by etrans|]. unfold leases. cbn. rewrite H. left.
Qed.
Lemma ok_updateContract id patch w (Q : unit -> World -> Prop) :
  (forall now c, terms (patch now c) = terms c) ->
  (forall w' now c, evolves w w' -> inv env w' -> c ∈ leases w' -> c.(ct_id) = id ->
     lease_ok env w'.(bw_ledger) (patch now c) /\ (patch now c).(ct_status) = Locked) ->
  (forall w', evolves w w' -> Q tt w') ->
  ok (await (ContractUpdate id patch)) w Q.
Proof.
  intros Ht Hok HQ. apply ok_await. intros w' Hle Hinv. cbn.
  destruct (update_spec (key := ct_id) id patch w'.(bw_contracts)) as [now H].
  assert (evolves w' (w' <| bw_contracts := (t_update id patch w'.(bw_contracts)).2 |>) /\
          inv env (w' <| bw_contracts := (t_update id patch w'.(bw_contracts)).2 |>)) as [H1 H2].
  { destruct (t_update id patch _) as [[m|x] t]; cbn.
    - destruct H as [H|H]; [by apply keep_rows|]. eapply patch_lease; eauto.
    - eapply patch_lease; eauto. }
  destruct (t_update id patch _) as [[m|[]] t]; cbn in *; split_and!; try done.
  intros [] _. apply HQ. by etrans.
Qed.
Lemma ok_saveRecord mk w (Q : Reconciliation -> World -> Prop) :
  (forall w' id now, evolves w w' -> inv env w' ->
     record_ok env (leases w') w'.(bw_ledger) (mk id now) /\ (mk id now).(rc_id) = id) ->
  (forall id now w', evolves w w' -> mk id now ∈ months w' -> Q (mk id now) w') ->
  ok (await (RecordSave mk)) w Q.
Proof.
  intros Hmk HQ. apply ok_await. intros w' Hle Hinv. cbn.
  destruct (insert_spec (key := rc_id) mk w'.(bw_records)) as (id & now & Hnew & H).
  destruct (Hmk w' id now Hle Hinv) as [Hok Hid]. rewrite <-Hid in Hnew.
  destruct (t_insert mk _) as [[m|r] t]; cbn.
  - assert (evolves w' (w' <| bw_records := t |>) /\ inv env (w' <| bw_records := t |>)) as [H1 H2];
      [|by split_and!]. destruct H as [H|H]; [by apply keep_rows|by eapply insert_month].
  - destruct H as [-> H]. edestruct (insert_month env w' (w' <| bw_records := t |>)) as [H1 H2]; try done.
    split_and!; [done..|]. intros x [= <-]. apply HQ; [by etrans|]. unfold months. cbn. rewrite H. left.
Qed.

(** * Locking a deposit *)

(** The row of a contract that has just been created. *)
Definition created (w : World) (i : CreateContractInput) (id : string) : Prop :=
  exists c tp lp cur id0 now, c ∈ leases w /\ c.(ct_id) = id /\
    terms c = terms (newRow i tp lp cur id0 now) /\ currency_of i cur.
Lemma created_later w w' i id : evolves w w' -> created w i id -> created w' i id.
Proof.
  intros Hle (c & tp & lp & cur & id0 & now & Hc & Hi & Ht & Hcur).
  destruct (ev_leases _ _ Hle c Hc) as (c' & Hc' & Ht' & _).
  exists c', tp, lp, cur, id0, now. split_and!; [done| |congruence|done].
  rewrite <-Hi. by apply terms_id.
Qed.

Lemma ok_create i w : ok (create i) w (fun d w' => created w' i d.(cd_id)).
Proof.
  eapply ok_bind; [by apply ok_encrypt|]. intros tp w1 _ _.
  eapply ok_bind; [by apply ok_encrypt|]. intros lp w2 _ _.
  apply ok_bind with (Q' := fun cur _ => currency_of i cur).
  { unfold currency_of. destruct (assetModeOf i); [by intros raw|].
    destruct (nonempty i.(ci_iouCurrency)) as [raw|]; [|by intros raw].
    apply ok_lifted. intros n Hn. intros raw' _ [= <-]. eauto. }
  intros cur w3 _ Hcur.
  apply ok_bind with (Q' := fun c w' => created w' i c.(ct_id)).
  { apply ok_saveContract; [done|]. intros id now w' _ Hin. exists (newRow i tp lp cur id now), tp, lp, cur, id, now.
    by split_and!. }
  intros c w4 Hw4 Hc. eapply ok_wand; [apply ok_toDto|]. intros d w5 Hw5 [-> _]. by eapply created_later.
Qed.

Lemma lock_patch_ok lk amounts id dep stake sl seed cipher (w : World) now c :
  escrowAmounts lk.(lk_input) = inr amounts -> created w lk.(lk_input) id -> inv env w ->
  c ∈ leases w -> c.(ct_id) = id ->
  validateEscrowParams (depositEscrow lk amounts.1) = inr tt ->
  succeeded w.(bw_ledger) (escrowCreateTx env.(be_rippleTime) (depositEscrow lk amounts.1))
    lk.(lk_contractWallet) assertCreateSuccess dep ->
  succeeded w.(bw_ledger) (escrowCreateTx env.(be_rippleTime) (stakeEscrow lk amounts.2))
    lk.(lk_contractWallet) assertCreateSuccess stake ->
  validateSignerList (lockSigners lk) = inr tt ->
  succeeded w.(bw_ledger) (signerListTx (lockSigners lk)) lk.(lk_contractWallet) assertSignerListSuccess sl ->
  nonempty lk.(lk_contractWallet).(wl_seed) = Some seed -> decryptWith env cipher = inr seed ->
  lease_ok env w.(bw_ledger) (lockPatch lk.(lk_contractWallet).(wl_classicAddress) cipher dep stake sl now c).
Proof.
  intros Ha (c0 & tp & lp & cur & id0 & now0 & Hc0 & Hi0 & Ht & Hcur) Hinv Hc Hi Hv Hd Hs Hvs Hsl Hseed Hdec.
  assert (c0 = c) as ->.
  { eapply (key_inj ct_id); [apply (inv_contract_ids _ _ Hinv)|done..|congruence]. }
  destruct (lease_requests lk tp lp cur id0 now0 amounts c Ha Hcur Ht) as (Ed & Es & El).
  rewrite Ed in Hv, Hd. rewrite Es in Hs. rewrite El in Hvs, Hsl.
  unfold lease_ok. cbn. exists lk.(lk_contractWallet), dep, stake, sl, seed, cipher. split; cbn; try done.
  - apply (evidence_terms env _ c); [done|]. split; [done..| |by exists lk.(lk_operatorAddress)].
    revert Hv. unfold validateEscrowParams. cbn. destruct (Z.leb_spec c.(ct_cancelAfter) c.(ct_finishAfter)); [done|lia].
  - split_and!; [done|by apply be1_nonempty_Some|done].
Qed.

Lemma ok_lockTenantDeposit lk w : ok (lockTenantDeposit lk) w (fun _ _ => True).
Proof.
  apply ok_lifted. intros amounts Ha.
  eapply ok_bind; [by apply ok_create|]. intros d w1 _ Hd.
  eapply ok_bind; [apply ok_createEscrow|]. intros dep w2 H2 [Hv Hdep].
  eapply ok_bind; [apply ok_createEscrow|]. intros stake w3 H3 [_ Hst].
  eapply ok_bind; [apply ok_setSignerList|]. intros sl w4 H4 [Hvs Hsl].
  destruct (nonempty (wl_seed _)) as [seed|] eqn:Hseed; [|done].
  eapply ok_bind; [by apply ok_encrypt|]. intros cipher w5 H5 Hcipher.
  apply ok_bind with (Q' := fun _ _ => True).
  - apply ok_updateContract; [done| |done]. intros w6 now c H6 Hinv Hc Hi. split; [|done].
    assert (evolves w4 w6) as H46 by by etrans. assert (evolves w3 w6) as H36 by by etrans.
    assert (evolves w2 w6) as H26 by by etrans.
    eapply lock_patch_ok; try done.
    + eapply created_later; [|exact Hd]. by etrans.
    + eapply succeeded_mono; [apply (ev_ledger _ _ H26)|done].
    + eapply succeeded_mono; [apply (ev_ledger _ _ H36)|done].
    + eapply succeeded_mono; [apply (ev_ledger _ _ H46)|done].
  - intros [] w6 _ _. eapply ok_bind; [apply ok_findById|]. by intros [r|] w7 _ _.
Qed.
End Flows.
