(* ===== verification/Be1Settle.v ===== *)
(** The monthly settlement of [be1-xrpl]: what an attempt leaves, and that a run
    over all locked contracts forgets none of them. *)
From S2P Require Import Prelude JsString JsMap Json Be1World Be1Xrpl Be1Contracts Be1Reconciler Be1Logic Be1Inv.
From S2P Require Import Be1Services.

Section Settle.
Context {CT RT : Type} `{!Table Contract CT, !Table Reconciliation RT,
  !TableLaws Contract CT ct_id, !TableLaws Reconciliation RT rc_id}.
Notation World := (Be1World CT RT).
Context (env : Be1Env) (Hgcm : gcm_sound env).
Notation evolves := (evolves (CT := CT) (RT := RT)).
Notation ok := (ok env evolves (inv env)).
Notation ok_bind := (Be1Logic.ok_bind env evolves (inv env)).
Notation ok_wand := (Be1Logic.ok_wand env evolves (inv env)).
Notation ok_attempt := (Be1Logic.ok_attempt env evolves (inv env)).
Notation ok_catch := (Be1Logic.ok_catch env evolves (inv env)).
Notation every := (every (harmless env evolves (inv env)) (fun _ _ _ => True)).

(** The month has been paid for. *)
Definition settled (w : World) (contractId yearMonth : string) : Prop :=
  exists r, r ∈ months w /\ isMatched contractId yearMonth r = true.
Lemma isMatched_unsent r r' contractId yearMonth :
  unsent r' = unsent r -> isMatched contractId yearMonth r' = isMatched contractId yearMonth r.
Proof. intros (_ & Ec & Ey & Es)%unsent_fields. unfold isMatched. by rewrite Ec, Ey, Es. Qed.
Lemma settled_later w w' contractId yearMonth :
  evolves w w' -> settled w contractId yearMonth -> settled w' contractId yearMonth.
Proof.
  intros Hle (r & Hr & Hm). destruct (ev_months _ _ Hle r Hr) as (r' & Hr' & E).
  exists r'. split; [done|]. by rewrite (isMatched_unsent r).
Qed.

Lemma ok_findMatched contractId yearMonth w (Q : option Reconciliation -> World -> Prop) :
  (forall w', evolves w w' -> Q None w') ->
  (forall r w', evolves w w' -> settled w' contractId yearMonth -> Q (Some r) w') ->
  ok (await (RecordFindOne (isMatched contractId yearMonth))) w Q.
Proof.
  intros HN HS. apply ok_plain; [done|]. intros w' Hle Hinv x. cbn.
  destruct (harmless_select_record env (isMatched contractId yearMonth) w' Hinv) as [H1 H2].
  pose proof (select_finds (key := rc_id) (isMatched contractId yearMonth) w'.(bw_records)) as Hf.
  destruct (t_select _ _) as [[m|l] t] eqn:E; cbn in *; intros Hx; [done|]. injection Hx as <-.
  specialize (Hf l eq_refl). destruct l as [|r l]; cbn; [apply HN; by etrans|].
  assert (r ∈ filter (fun r => isMatched contractId yearMonth r) (t_rows w'.(bw_records))) as Hr by (rewrite <-Hf; left).
  apply list_elem_of_filter in Hr as [Hp Hr]. apply HS; [by etrans|].
  eapply (settled_later w'); [exact H1|]. exists r. split; [done|]. by destruct (isMatched _ _ r).
Qed.

(** * One payment *)

Lemma ok_payMonth d account seed yearMonth usage w :
  known env w d -> d.(cd_status) = Locked -> d.(cd_contractAccountAddress) = Some account ->
  let usageHash := sha256Hex env.(be_sha256) (json_stringify (usage_json usage)) in
  ok (payMonth d account seed d.(cd_id) yearMonth usage usageHash) w (fun h w' => forall id now,
    record_ok env (leases w') w'.(bw_ledger) (attemptRow d.(cd_id) yearMonth usage usageHash (inr h) id now)).
Proof.
  intros Hk HL Ha usageHash. apply ok_asked. intros w1 H1. apply ok_lifted. intros memo Hmemo.
  eapply ok_wand; [apply ok_submitXrpPayment|]. cbn. intros h w2 H2 (payer & Hp & Hpaid) id now.
  destruct (known_later env w w2 d ltac:(by etrans) Hk) as (c & Hc & Hid & Hland & Hlock).
  destruct (Hlock HL) as (_ & wallet & dep & stake & sl & Hev & Hacc).
  split; [done|]. exists c, payer, usage, memo. assert (payer.(wl_classicAddress) = wallet.(wl_classicAddress)) by congruence.
  split; cbn; try done.
  - exists wallet, dep, stake, sl. by split.
  - rewrite Hp, Hland. done.
Qed.

Lemma every_sendMonthlyReport recordId d yearMonth usage hash :
  every (sendMonthlyReportSafely recordId d yearMonth usage hash).
Proof.
  unfold sendMonthlyReportSafely. destruct (nonempty _); [|done]. apply every_catch; [|done].
  apply every_bind; [by apply every_sync, harmless_plain|]. intros base.
  apply every_bind; [|intros _; apply every_bind; [by apply every_sync, harmless_plain|]; intros now;
    by apply every_await, harmless_update].
  unfold sendEmail, isConfig, smtpReady, config.
  repeat (apply every_bind; [repeat (apply every_bind; [by apply every_sync, harmless_plain|]; intros ?); done|]; intros ?).
  case_match; [done|].
  repeat (apply every_bind; [repeat (apply every_bind; [by apply every_sync, harmless_plain|]; intros ?); done|]; intros ?).
  case_match; [by apply every_await, harmless_plain|done].
Qed.

Lemma every_getMonthlyUsage contractId yearMonth : every (getMonthlyUsage contractId yearMonth).
Proof.
  unfold getMonthlyUsage, isConfig, config.
  do 2 (apply every_bind; [apply every_bind; [by apply every_sync, harmless_plain|done]|]; intros ?).
  case_match.
  - do 2 (apply every_bind; [by apply every_sync, harmless_plain|]; intros ?). done.
  - unfold apiUsage, config. do 2 (apply every_bind; [by apply every_sync, harmless_plain|]; intros ?).
    repeat case_match; try done.
    apply every_bind; [by apply every_await, harmless_plain|]. intros body. by case_match.
Qed.

(** What [reconcileContract] returns is a settled month of a contract. *)
Lemma ok_reconcileContract contractId yearMonth w :
  ok (reconcileContract contractId yearMonth) w (fun _ w' => settled w' contractId yearMonth).
Proof.
  apply ok_bind with (Q' := fun r w' => match r with Some _ => settled w' contractId yearMonth | None => True end).
  { by apply ok_findMatched. }
  intros [r|] w1 _ Hr; [done|].
  eapply ok_bind; [apply ok_findById|]. intros [d|] w2 _; [|done]. intros [<- Hk]. cbn beta iota.
  case_bool_decide as HL; [cbn [negb]|done].
  destruct (nonempty d.(cd_contractAccountSeed)) as [seed|]; [|done].
  destruct (nonempty d.(cd_contractAccountAddress)) as [account|] eqn:Ha; [|done]. apply be1_nonempty_Some in Ha.
  eapply ok_bind; [apply ok_every, every_getMonthlyUsage|]. intros usage w3 H3 _.
  apply ok_asked. intros w4 H4. set (usageHash := sha256Hex _ _).
  apply ok_bind with (Q' := fun paid w' => forall id now,
    record_ok env (leases w') w'.(bw_ledger) (attemptRow d.(cd_id) yearMonth usage usageHash paid id now)).
  { apply ok_attempt; [|intros e w5 _ id now; by split; [eexists|]].
    apply ok_payMonth; [|done..]. eapply known_later; [|done]. by etrans. }
  intros paid w5 H5 Hpaid.
  apply ok_bind with (Q' := fun _ w' => match paid with inr _ => settled w' d.(cd_id) yearMonth | inl _ => True end).
  { apply ok_saveRecord.
    - intros w' id now Hle _. split; [|done]. eapply record_ok_mono; [|apply (ev_ledger _ _ Hle)|apply Hpaid].
      apply (ev_leases _ _ Hle).
    - intros id now w' _ Hin. destruct paid as [e|h]; [done|]. eexists. split; [exact Hin|]. unfold isMatched. cbn.
      by rewrite !bool_decide_true. }
  intros record w6 H6 Hset. destruct paid as [e|h]; [done|].
  apply ok_bind with (Q' := fun _ _ => True).
  - destruct (nonempty h); [|done]. apply ok_every, every_sendMonthlyReport.
  - intros _ w7 H7 _. by eapply settled_later.
Qed.

(** * All locked contracts *)

Definition queued (w : World) (contractId yearMonth : string) : Prop := mkJob contractId yearMonth ∈ w.(bw_jobs).
(** Nobody is forgotten: the month is paid for, or a retry is in the queue. *)
Definition cared_for (w : World) (contractId yearMonth : string) : Prop :=
  settled w contractId yearMonth \/ queued w contractId yearMonth.
Lemma cared_for_later w w' contractId yearMonth :
  evolves w w' -> cared_for w contractId yearMonth -> cared_for w' contractId yearMonth.
Proof.
  intros Hle [H|H]; [left; by eapply settled_later|right].
  destruct (ev_jobs _ _ Hle) as [k E]. unfold queued. rewrite E, elem_of_app. by left.
Qed.

Lemma ok_queueAdd job w : ok (await (QueueAdd job)) w (fun _ w' => job ∈ w'.(bw_jobs)).
Proof.
  apply ok_plain; [done|]. intros w' _ _ x. cbn. destruct (be_queue env _ _); [done|]. intros _. cbn.
  apply elem_of_app. right. by apply list_elem_of_singleton.
Qed.
Lemma ok_reconcileOrEnqueue yearMonth d w :
  ok (reconcileOrEnqueue yearMonth d) w (fun _ w' => cared_for w' d.(cd_id) yearMonth).
Proof.
  apply ok_catch.
  - eapply ok_bind; [apply ok_reconcileContract|]. intros r w1 _ H. by left.
  - intros e w1 _. eapply ok_wand; [apply ok_queueAdd|]. intros x w2 _ H. by right.
Qed.
Lemma ok_reconcileAll yearMonth l w :
  ok (reconcileAll yearMonth l) w (fun _ w' => forall d, d ∈ l -> cared_for w' d.(cd_id) yearMonth).
Proof.
  revert w. induction l as [|d l IH]; intros w; [by intros d ?%not_elem_of_nil|].
  cbn [reconcileAll].
  eapply ok_bind; [apply ok_reconcileOrEnqueue|]. intros [] w1 _ H1.
  eapply ok_wand; [apply IH|]. intros [] w2 H2 Hl x [E|Hx]%elem_of_cons; [|by apply Hl].
  rewrite E. by eapply cared_for_later.
Qed.

Lemma ok_toDtos rows w : ok (toDtos rows) w (fun l _ => cd_id <$> l = ct_id <$> rows).
Proof.
  revert w. induction rows as [|c rows IH]; intros w; [done|].
  cbn [toDtos]. eapply ok_bind; [apply ok_toDto|]. intros d w1 _ [Hid _].
  eapply ok_bind; [apply IH|]. intros l w2 _ Hl. cbn. by rewrite Hid, Hl.
Qed.
Definition lists_locked (w : World) (l : list ContractDto) : Prop :=
  forall c, c ∈ leases w -> c.(ct_status) = Locked -> exists d, d ∈ l /\ d.(cd_id) = c.(ct_id).
Lemma ok_findAllLocked w : ok findAllLocked w (fun l _ => lists_locked w l).
Proof.
  apply ok_bind with (Q' := fun rows _ => forall c, c ∈ leases w -> c.(ct_status) = Locked -> c.(ct_id) ∈ ct_id <$> rows).
  - apply ok_plain; [done|]. intros w' Hle Hinv rows. cbn.
    pose proof (select_finds (key := ct_id) isLocked w'.(bw_contracts)) as Hf.
    destruct (t_select _ _) as [[m|l] t]; cbn in *; intros Hx; [done|]. injection Hx as <-.
    intros c Hc HL. destruct (ev_leases _ _ Hle c Hc) as (c' & Hc' & Ht & HL'). rewrite <-(terms_id _ _ Ht).
    apply list_elem_of_fmap_2. rewrite (Hf l eq_refl). apply list_elem_of_filter. split; [|done].
    unfold isLocked. by rewrite (HL' HL).
  - intros rows w1 _ H. eapply ok_wand; [apply ok_toDtos|]. intros l w2 _ E c Hc HL.
    specialize (H c Hc HL). rewrite <-E in H. apply list_elem_of_fmap in H as (d & Hd & Hin). by exists d.
Qed.
Lemma ok_runMonthlyReconcile yearMonth w :
  ok (runMonthlyReconcile yearMonth) w (fun _ w' =>
    forall c, c ∈ leases w -> c.(ct_status) = Locked -> cared_for w' c.(ct_id) yearMonth).
Proof.
  eapply ok_bind; [apply ok_findAllLocked|]. intros l w1 _ Hl.
  eapply ok_wand; [apply ok_reconcileAll|]. intros [] w2 _ H c Hc HL.
  destruct (Hl c Hc HL) as (d & Hd & <-). by apply H.
Qed.

(** With a queue that accepts its jobs the run comes to its end. *)
Lemma run_catch {A} (m : prog A) h (w : World) :
  run env (catch m h) w = match run env m w with (inl e, w') => run env (h e) w' | (inr a, w') => (inr a, w') end.
Proof. unfold catch. rewrite run_bind, run_attempt. by destruct (run env m w) as [[e|a] w']. Qed.
Definition queue_up : Prop := forall n job, env.(be_queue) n job = inr tt.
Lemma reconcileOrEnqueue_ends yearMonth d (w : World) : queue_up ->
  (run env (reconcileOrEnqueue yearMonth d) w).1 = inr tt.
Proof.
  intros Hq. unfold reconcileOrEnqueue. generalize (forget (reconcileContract d.(cd_id) yearMonth)) as m.
  intros m. rewrite run_catch. destruct (run env m w) as [[e|[]] w']; [|done]. cbn. by rewrite Hq.
Qed.
Lemma reconcileAll_ends yearMonth l (w : World) : queue_up -> (run env (reconcileAll yearMonth l) w).1 = inr tt.
Proof.
  intros Hq. revert w. induction l as [|d l IH]; intros w; [done|]. cbn [reconcileAll]. rewrite run_bind.
  pose proof (reconcileOrEnqueue_ends yearMonth d w Hq) as H.
  destruct (run env (reconcileOrEnqueue yearMonth d) w) as [[e|[]] w']; [done|apply IH].
Qed.
End Settle.
