(* ===== verification/Be1System.v ===== *)
(** The whole service [be1-xrpl]: routes, the monthly cron and the retry worker
    run interleaved at their awaits, from empty tables. *)
From S2P Require Import Prelude JsString JsMap Json CoreTx JsFloat Be1World Be1Xrpl Be1Contracts Be1Reconciler.
From S2P Require Import Be1Wallet Be1Logic Be1Inv Be1Services Be1Settle.

(** What may be started: a request of a controller, the cron, a job. *)
Inductive entry : prog unit -> Prop :=
  | e_postContract dto : entry (forget (postContract dto))
  | e_getContract id : entry (forget (getContract id))
  | e_getBalance id : entry (forget (getBalance id))
  | e_listByContract id : entry (forget (listByContract id))
  | e_runManual yearMonth contractId : entry (forget (runManual yearMonth contractId))
  | e_monthlyCron : entry monthlyCron
  | e_process job : entry (process job)
  | e_connect role approve : entry (forget (postConnect role approve))
  | e_disconnect role : entry (forget (postDisconnect role))
  | e_fundIou dto : entry (forget (fundInternalWallet dto))
  | e_roundtrip amountDrops : entry (forget (postRoundtrip amountDrops)).

(** * Walking through a computation *)

(** One step of a proof of [every]; [leaf] discharges an effect. *)
Ltac every_step leaf :=
  lazymatch goal with
  | |- every _ _ (_ ≫= _) => apply every_bind; [|intros ?]
  | |- every _ _ (lift _) => apply every_lift
  | |- every _ _ (await _) => apply every_await; leaf
  | |- every _ _ (sync _) => apply every_sync; leaf
  | |- every _ _ (ask _) => apply every_sync; leaf
  | |- every _ _ (draw _) => apply every_sync; leaf
  | |- every _ _ (config _) => apply every_sync; leaf
  | |- every _ _ (catch _ _) => apply every_catch; [|intros ?]
  | |- every _ _ (finally _ _) => apply every_finally
  | |- every _ _ (forget _) => apply every_forget
  | |- every _ _ (attempt _) => apply every_attempt
  | |- every _ _ (mret _) => exact I
  | |- every _ _ (Ret _) => exact I
  | |- every _ _ (Throw _) => exact I
  | |- every _ _ (err _) => exact I
  | |- every _ _ (notFound _) => exact I
  | |- every _ _ (match ?x with _ => _ end) => destruct x
  | |- every _ _ (let _ := _ in _) => cbv zeta
  end.
Ltac every_walk leaf := repeat (every_step leaf).

Section Shapes.
Context (P : forall X, eff X -> Prop) (R : forall X, eff X -> X -> Prop).
Notation every := (every P R).
Hypothesis P_sync : forall X (f : Be1Env -> Local -> X * Local), P _ (Sync f).
Hypothesis P_find : forall p, P _ (ContractFind p).
Hypothesis P_findOneBy : forall p, P _ (ContractFindOneBy p).
Hypothesis P_request : forall c, P _ (Request c).
Hypothesis P_fund : forall wallet, P _ (FundWallet wallet).
Ltac easy_leaf := auto.
Ltac walk := every_walk easy_leaf.

Lemma every_getClient : every getClient.
Proof. unfold getClient. walk. Qed.
Lemma every_submitAndWait tx wallet : P _ (SubmitAndWait tx wallet) -> every (submitAndWait tx wallet).
Proof. intros H. apply every_bind; [apply every_getClient|intros _]. by apply every_await. Qed.
Lemma every_fromSeed seed : every (fromSeed seed).
Proof. unfold fromSeed. walk. Qed.
Lemma every_encrypt s : every (encrypt s).
Proof. unfold encrypt, requireKey. walk. Qed.
Lemma every_decrypt s : every (decrypt s).
Proof. unfold decrypt. walk. Qed.
Lemma every_toDto c : every (toDto c).
Proof. unfold toDto. walk; apply every_decrypt. Qed.
Lemma every_findById id : every (findById id).
Proof. unfold findById. walk. apply every_toDto. Qed.
Lemma every_toDtos l : every (toDtos l).
Proof. induction l; cbn [toDtos]; walk; [apply every_toDto|done]. Qed.
Lemma every_findAllLocked : every findAllLocked.
Proof. unfold findAllLocked. walk. apply every_toDtos. Qed.
Lemma every_ensureFees wallet : every (ensureTestnetXrpForFees wallet).
Proof. unfold ensureTestnetXrpForFees. walk; apply every_getClient. Qed.
Lemma every_generate : every generateAndFundWallet.
Proof. unfold generateAndFundWallet. walk. apply every_getClient. Qed.
Lemma every_xrpBalance a : every (getXrpBalance a).
Proof. unfold getXrpBalance, request. walk. apply every_getClient. Qed.
Lemma every_findTrustLine a i c : every (findTrustLine a i c).
Proof. unfold findTrustLine. walk. Qed.
Lemma every_iouBalance a i c : every (getIouBalance a i c).
Proof. unfold getIouBalance. walk; [apply every_getClient|apply every_findTrustLine]. Qed.
Lemma every_submitTrustSet wallet amount : (forall tx, jget "Memos" tx = JUndef -> P _ (SubmitAndWait tx wallet)) ->
  every (submitTrustSet wallet amount).
Proof. intros H. unfold submitTrustSet. walk. apply every_submitAndWait, H. reflexivity. Qed.
Lemma every_getContract id : every (getContract id).
Proof. unfold getContract. walk. apply every_findById. Qed.
Lemma every_getBalance id : every (getBalance id).
Proof. unfold getBalance. walk; first [apply every_findById|apply every_xrpBalance|apply every_iouBalance]. Qed.
Lemma every_trustLines t l p : every (assertCounterpartyTrustLines t l p).
Proof. unfold assertCounterpartyTrustLines. walk; first [apply every_getClient|apply every_findTrustLine]. Qed.
Lemma every_orConfig s key : every (orConfig s key).
Proof. unfold orConfig. walk. Qed.
Lemma every_orConfigTrim s key d : every (orConfigTrim s key d).
Proof. unfold orConfigTrim. walk. Qed.
Lemma every_isConfig key v : every (isConfig key v).
Proof. unfold isConfig. walk. Qed.
Lemma every_walletForRole role : every (getWalletForRole role).
Proof. unfold getWalletForRole. walk. Qed.
Lemma every_explorerBase : every explorerBase.
Proof. unfold explorerBase. walk. Qed.
Lemma every_connect role approve : every (connect role approve).
Proof. unfold connect. walk. Qed.
Lemma every_disconnect role : every (disconnect role).
Proof. unfold disconnect. walk. Qed.

(** Transactions without memos are let through. *)
Hypothesis P_plainTx : forall tx wallet, jget "Memos" tx = JUndef -> P _ (SubmitAndWait tx wallet).

Lemma every_fundFromOperator c o p : every (ensureTrustLineAndFundFromOperator c o p).
Proof.
  unfold ensureTrustLineAndFundFromOperator, fundingWalletFor. walk.
  all: first [apply every_getClient|apply every_fromSeed|apply every_ensureFees|apply every_findTrustLine
             |apply every_submitTrustSet; auto|idtac].
Qed.
Lemma every_createEscrow p : every (createEscrow p).
Proof.
  unfold createEscrow. walk. apply every_submitAndWait, P_plainTx. unfold escrowCreateTx, when.
  destruct (ep_finishAfter p), (ep_cancelAfter p), (nonempty (ep_condition p)), (ep_destinationTag p); reflexivity.
Qed.
Lemma every_setSignerList p : every (setSignerList p).
Proof. unfold setSignerList. walk. by apply every_submitAndWait, P_plainTx. Qed.
Lemma every_buyIou b i c v : every (buyIouWithXrpViaPathFind b i c v).
Proof. unfold buyIouWithXrpViaPathFind, closePathFind. walk. Qed.
Lemma every_buyLoop n o i c need balance : every (buyLoop n o i c need balance).
Proof.
  revert balance. induction n as [|n IH]; intros balance; cbn [buyLoop]; walk; [apply every_buyIou|apply every_findTrustLine|apply IH].
Qed.
Lemma every_operatorIou o i c v : every (ensureOperatorIouForPayment o i c v).
Proof.
  unfold ensureOperatorIouForPayment, isRippleAltnetTestnet. walk.
  all: first [apply every_findTrustLine|apply every_buyLoop|apply every_submitTrustSet; auto].
Qed.
Lemma every_fundInternalWallet dto : every (fundInternalWallet dto).
Proof.
  unfold fundInternalWallet, chooseFunding. walk.
  all: first [apply every_orConfigTrim|apply every_walletForRole|apply every_getClient|apply every_ensureFees
             |apply every_fromSeed|apply every_operatorIou|apply every_submitTrustSet; auto|apply every_explorerBase].
Qed.
Lemma every_postRoundtrip a : every (postRoundtrip a).
Proof.
  unfold postRoundtrip, roundtrip, assertTestnet, submitPay. walk.
  all: first [apply every_walletForRole|apply every_getClient|apply every_explorerBase].
Qed.
End Shapes.

(** * The service keeps its promises *)

Section System.
Context {CT RT : Type} `{!Table Contract CT, !Table Reconciliation RT,
  !TableLaws Contract CT ct_id, !TableLaws Reconciliation RT rc_id}.
Notation World := (Be1World CT RT).
Context (env : Be1Env).

(** A world whose tables are empty. *)
Definition boot (contracts : CT) (records : RT) : World :=
  mkBe1World contracts records (mkLocal [] [] 0) 0 [] [] [].
Definition be1_reachable (c : Config) : Prop :=
  exists contracts records, t_rows contracts = [] /\ t_rows records = [] /\
    rtc (pool_step env entry) (boot contracts records, []) c.

Notation evolves := (evolves (CT := CT) (RT := RT)).
Notation ok := (ok env evolves (inv env)).
Notation ok_bind := (Be1Logic.ok_bind env evolves (inv env)).
Notation ok_wand := (Be1Logic.ok_wand env evolves (inv env)).
Notation every := (every (harmless env evolves (inv env)) (fun _ _ _ => True)).
Ltac shape := intros; by apply harmless_plain.

Lemma boot_inv contracts records : t_rows contracts = [] -> t_rows records = [] -> inv env (boot contracts records).
Proof. intros Hc Hr. split; unfold leases, months; cbn; rewrite ?Hc, ?Hr; constructor. Qed.

Context (Hgcm : gcm_sound env).
Lemma ok_any {A} (m : prog A) w Q : ok m w Q -> ok (forget m) w (fun _ _ => True).
Proof. intros H. eapply ok_bind; [exact H|]. done. Qed.
Lemma ok_shape {A} (m : prog A) w : every m -> ok m w (fun _ _ => True).
Proof. apply ok_every. Qed.
Lemma ok_postContract dto w : ok (postContract dto) w (fun _ _ => True).
Proof.
  unfold postContract. apply ok_bind with (Q' := fun _ _ => True); [apply ok_shape, every_sync; shape|].
  intros seed w1 _ _. destruct (nonempty seed); [|done].
  eapply ok_bind; [apply ok_shape, every_fromSeed; shape|]. intros operator w2 _ _.
  apply ok_bind with (Q' := fun _ _ => True).
  { apply ok_shape. every_walk ltac:(shape); first [apply every_orConfig; shape|apply every_trustLines; shape]. }
  intros iou w3 _ _. eapply ok_bind; [apply ok_shape, every_generate; shape|]. intros wallet w4 _ _.
  apply ok_bind with (Q' := fun _ _ => True).
  { apply ok_shape. destruct iou; [|done]. apply every_fundFromOperator; shape. }
  intros _ w5 _ _. eapply ok_bind; [by apply ok_lockTenantDeposit|]. done.
Qed.
Lemma ok_runMonthly ym w : ok (runMonthlyReconcile ym) w (fun _ _ => True).
Proof. eapply ok_wand; [apply ok_runMonthlyReconcile|]; done. Qed.
Lemma ok_previousMonth w : ok currentPreviousMonth w (fun _ _ => True).
Proof. apply ok_shape. unfold currentPreviousMonth. every_walk ltac:(shape). Qed.
Lemma ok_runManual ym cid w : ok (runManual ym cid) w (fun _ _ => True).
Proof.
  unfold runManual, runManualReconcile. apply ok_bind with (Q' := fun _ _ => True).
  { apply ok_shape. unfold notProductionGuard. every_walk ltac:(shape). apply every_isConfig; shape. }
  intros _ w1 _ _. apply ok_bind with (Q' := fun _ _ => True); [destruct ym; [done|apply ok_previousMonth]|].
  intros month w2 _ _. destruct (nonempty cid).
  - eapply ok_bind; [apply ok_reconcileContract|]. done.
  - apply ok_bind with (Q' := fun _ _ => True); [apply ok_shape, every_await; shape|]. intros before w3 _ _.
    eapply ok_bind; [apply ok_runMonthly|]. intros _ w4 _ _.
    apply ok_bind with (Q' := fun _ _ => True); [apply ok_shape, every_await; shape|]. done.
Qed.
Lemma entry_ok p w : entry p -> ok p w (fun _ _ => True).
Proof.
  intros [].
  - eapply ok_any, ok_postContract.
  - eapply ok_any, ok_shape, every_getContract; shape.
  - eapply ok_any, ok_shape, every_getBalance; shape.
  - eapply ok_any, ok_shape. unfold listByContract, findReconciliationsByContractId.
    every_walk ltac:(shape). apply every_findById; shape.
  - eapply ok_any, ok_runManual.
  - eapply ok_bind; [apply ok_previousMonth|]. intros ym w1 _ _. apply ok_runMonthly.
  - eapply ok_any, ok_reconcileContract.
  - eapply ok_any, ok_shape, every_connect; shape.
  - eapply ok_any, ok_shape, every_disconnect; shape.
  - eapply ok_any, ok_shape, every_fundInternalWallet; shape.
  - eapply ok_any, ok_shape, every_postRoundtrip; shape.
Qed.

Lemma reachable_config_ok c : be1_reachable c -> config_ok env evolves (inv env) c.
Proof.
  intros (contracts & records & Hc & Hr & H). eapply (pool_ok env entry evolves (inv env)); [apply entry_ok|exact H|].
  split; [by apply boot_inv|constructor].
Qed.
Lemma reachable_inv w ts : be1_reachable (w, ts) -> inv env w.
Proof. intros H. apply (proj1 (reachable_config_ok _ H)). Qed.
Lemma steps_evolve c c' : be1_reachable c -> rtc (pool_step env entry) c c' -> evolves c.1 c'.1.
Proof.
  intros Hc H. eapply (pool_ok env entry evolves (inv env)); [apply entry_ok|exact H|by apply reachable_config_ok].
Qed.

(** A request served alone is one way to reach a world. *)
Definition outcome_task {A} (r : Exn + A) : prog unit := match r with inl e => Throw e | inr _ => Ret tt end.
Lemma run_steps {A} (m : prog A) w ts :
  rtc (pool_step env entry) (w, ts ++ [forget m]) ((run env m w).2, ts ++ [outcome_task (run env m w).1]).
Proof.
  revert w. induction m as [a|e|X e k IH]; intros w; [done..|].
  eapply rtc_l.
  - change (forget (Do e k)) with (Do e (fun x => forget (k x))). apply (pool_effect env entry w ts []).
  - cbn [run]. specialize (IH (perform env e w).1 (perform env e w).2). by destruct (perform env e w) as [x w'].
Qed.
Lemma outcome_finished {A} (r : Exn + A) : finished (outcome_task r).
Proof. by destruct r. Qed.
(** At rest: reached, and nothing in flight. *)
Definition at_rest (w : World) : Prop := exists ts, be1_reachable (w, ts) /\ Forall finished ts.
Lemma at_rest_boot contracts records : t_rows contracts = [] -> t_rows records = [] -> at_rest (boot contracts records).
Proof. intros Hc Hr. exists []. split; [|done]. by exists contracts, records. Qed.
Lemma at_rest_run {A} (m : prog A) w : entry (forget m) -> at_rest w -> at_rest (run env m w).2.
Proof.
  intros He (ts & (ct & rt & Hc & Hr & H) & Hfin). exists (ts ++ [outcome_task (run env m w).1]). split.
  - exists ct, rt. split_and!; [done..|]. etrans; [exact H|]. eapply rtc_l; [by apply pool_start|apply run_steps].
  - apply Forall_app. split; [done|]. constructor; [apply outcome_finished|done].
Qed.
Lemma rest_steps {A} (m : prog A) w ts : entry (forget m) ->
  exists ts', rtc (pool_step env entry) (w, ts) ((run env m w).2, ts').
Proof. intros He. eexists. eapply rtc_l; [by apply pool_start|apply run_steps]. Qed.
End System.
