(* ===== verification/Be1Once.v ===== *)
(** A month that is settled is not paid again by anything that starts later,
    however the computations of [be1-xrpl] interleave. *)
From S2P Require Import Prelude JsString JsMap Json CoreTx JsFloat Be1World Be1Xrpl Be1Contracts Be1Reconciler.
From S2P Require Import Be1Wallet Be1Logic Be1Inv Be1Services Be1Settle Be1System.

(** xrpl.js's conversions between text and hexadecimal. *)
Definition hex_sound (env : Be1Env) : Prop := forall s, env.(be_hexToString) (env.(be_stringToHex) s) = s.

(** * Memos *)

Lemma jget_head k v l : jget k (JObj ((k, v) :: l)) = v.
Proof. cbn. by rewrite decide_True. Qed.
Lemma jget_tail k k' v l : k <> k' -> jget k (JObj ((k', v) :: l)) = jget k (JObj l).
Proof. intros Hne. cbn. rewrite decide_False by (cbn; congruence). by destruct (list_find _ l) as [[i [? x]]|]. Qed.
Lemma payload_json_ok p : json_ok (payload_json p).
Proof.
  apply json_ok_members. split; [|repeat constructor].
  apply (bool_decide_unpack _). vm_compute. exact I.
Qed.
Lemma decode_build env p memo : hex_sound env -> buildReconcileMemo env.(be_stringToHex) p = inr memo ->
  decodeReconcileMemo env.(be_hexToString) (jget "Memo" memo) = inr (payload_json p).
Proof.
  intros Hhex. unfold buildReconcileMemo. destruct (_ <? _)%Z; [done|]. intros [= <-].
  unfold decodeReconcileMemo. generalize (payload_json_ok p). generalize (payload_json p). intros payload Hok.
  rewrite jget_head, jget_head, jget_tail, jget_tail, jget_head by done. cbn [text jstr default from_option id].
  rewrite !Hhex, bool_decide_true by done. cbn [negb]. by rewrite json_parse_stringify.
Qed.

(** The transaction pays the month of the contract: one of its memos says so. *)
Definition memoOf (env : Be1Env) (contractId yearMonth : string) (memo : JsVal) : bool :=
  match decodeReconcileMemo env.(be_hexToString) (jget "Memo" memo) with
  | inr v => isStr contractId (jget "contractId" v) && isStr yearMonth (jget "yearMonth" v)
  | inl _ => false
  end.
Definition paysMonth (env : Be1Env) (contractId yearMonth : string) (tx : JsVal) : bool :=
  match jget "Memos" tx with JArr memos => existsb (memoOf env contractId yearMonth) memos | _ => false end.
(** The payments for the month that were handed to the ledger. *)
Definition payments (env : Be1Env) (contractId yearMonth : string) (L : list Submission) : list Submission :=
  filter (fun s => paysMonth env contractId yearMonth s.(sb_tx)) L.

Lemma paysMonth_built env p memo contractId yearMonth from to seed drops : hex_sound env ->
  buildReconcileMemo env.(be_stringToHex) p = inr memo ->
  paysMonth env contractId yearMonth (xrpPaymentTx (mkXrpPayment from to seed drops [memo])) =
  bool_decide (p.(rp_contractId) = contractId) && bool_decide (p.(rp_yearMonth) = yearMonth).
Proof.
  intros Hhex Hm. unfold paysMonth.
  assert (jget "Memos" (xrpPaymentTx (mkXrpPayment from to seed drops [memo])) = JArr [memo]) as -> by reflexivity.
  cbn [existsb]. unfold memoOf. rewrite (decode_build env p) by done. unfold payload_json.
  rewrite jget_head, jget_tail, jget_head, orb_false_r by done. done.
Qed.

(** * Computations that cannot pay for the month *)

Section Quiet.
Context (env : Be1Env) (Hhex : hex_sound env) (contractId yearMonth : string).

Definition no_payment : forall X, eff X -> Prop := fun X e =>
  match e with SubmitAndWait tx _ => paysMonth env contractId yearMonth tx = false | _ => True end.
(** Synchronous code is what it is; a lookup that accepts every row of the
    settled month finds something. *)
Definition possible : forall X, eff X -> X -> Prop := fun X e =>
  match e in eff X return X -> Prop with
  | Sync f => fun x => exists l, x = (f env l).1
  | RecordFindOne p => fun x =>
      x = inr None -> exists r, isMatched contractId yearMonth r = true /\ p r = false
  | _ => fun _ => True
  end.
Notation quiet := (every no_payment possible).
Ltac shape := intros; first [exact I|unfold no_payment, paysMonth; by repeat match goal with H : jget _ _ = _ |- _ => rewrite H end].

Lemma every_bind_lift {A B} (r : Exn + A) (k : A -> prog B) :
  (forall a, r = inr a -> quiet (k a)) -> quiet (lift r ≫= k).
Proof. destruct r; cbn; auto. Qed.
Lemma every_bind_await {A B} (e : eff (string + A)) (k : A -> prog B) :
  no_payment _ e -> (forall a, possible _ e (inr a) -> quiet (k a)) -> quiet (await e ≫= k).
Proof. intros He Hk. split; [done|]. intros [m|a] Ha; [done|]. by apply Hk. Qed.
Lemma quiet_monthlyReport recordId d ym usage hash : quiet (sendMonthlyReportSafely recordId d ym usage hash).
Proof.
  unfold sendMonthlyReportSafely, sendEmail, smtpReady. every_walk ltac:(shape).
  all: apply every_isConfig; shape.
Qed.
Lemma quiet_monthlyUsage id ym : quiet (getMonthlyUsage id ym).
Proof.
  unfold getMonthlyUsage, apiUsage. every_walk ltac:(shape). all: apply every_isConfig; shape.
Qed.
Lemma quiet_payMonth d account seed id ym usage hash :
  (id, ym) <> (contractId, yearMonth) -> quiet (payMonth d account seed id ym usage hash).
Proof.
  intros Hne. unfold payMonth, ask. split; [exact I|]. intros toHex [l ->]. cbn [fst mbind prog_bind].
  apply every_bind_lift. intros memo Hmemo.
  unfold submitXrpPayment. every_walk ltac:(shape). all: try (apply every_fromSeed; shape).
  apply every_submitAndWait; [shape|]. cbn [no_payment]. unfold no_payment.
  rewrite (paysMonth_built env _ memo _ _ _ _ _ _ Hhex Hmemo). cbn.
  apply andb_false_iff. rewrite !bool_decide_eq_false. destruct (decide (id = contractId)); [right|left]; congruence.
Qed.
Lemma quiet_reconcileContract id ym : quiet (reconcileContract id ym).
Proof.
  unfold reconcileContract. apply every_bind_await; [exact I|]. intros [r|] Hpos; [done|].
  assert ((id, ym) <> (contractId, yearMonth)) as Hne.
  { intros [= -> ->]. destruct (Hpos eq_refl) as (r & H1 & H2). congruence. }
  clear Hpos. every_walk ltac:(shape).
  all: first [simple apply every_findById; shape|simple apply quiet_monthlyUsage|by simple apply quiet_payMonth|simple apply quiet_monthlyReport].
Qed.
Lemma quiet_runMonthly ym : quiet (runMonthlyReconcile ym).
Proof.
  apply every_bind; [apply every_findAllLocked; shape|]. intros l.
  induction l as [|d l IH]; cbn [reconcileAll]; [done|]. apply every_bind; [|done].
  unfold reconcileOrEnqueue. every_walk ltac:(shape). apply quiet_reconcileContract.
Qed.
Lemma quiet_lock lk : quiet (lockTenantDeposit lk).
Proof.
  unfold lockTenantDeposit, create. every_walk ltac:(shape).
  all: first [simple apply every_encrypt; shape|simple apply every_toDto; shape|simple apply every_createEscrow; shape
             |simple apply every_setSignerList; shape|simple apply every_findById; shape].
Qed.
Lemma quiet_entry p : entry p -> quiet p.
Proof.
  intros []; try apply every_forget.
  - unfold postContract. every_walk ltac:(shape).
    all: first [simple apply every_fromSeed; shape|simple apply every_orConfig; shape|simple apply every_trustLines; shape
               |simple apply every_generate; shape|simple apply every_fundFromOperator; shape|simple apply quiet_lock].
  - apply every_getContract; shape.
  - apply every_getBalance; shape.
  - unfold listByContract, findReconciliationsByContractId. every_walk ltac:(shape). apply every_findById; shape.
  - unfold runManual, runManualReconcile, notProductionGuard, currentPreviousMonth. every_walk ltac:(shape).
    all: first [simple apply every_isConfig; shape|simple apply quiet_reconcileContract|simple apply quiet_runMonthly].
  - unfold monthlyCron, currentPreviousMonth. every_walk ltac:(shape). apply quiet_runMonthly.
  - apply quiet_reconcileContract.
  - apply every_connect; shape.
  - apply every_disconnect; shape.
  - apply every_fundInternalWallet; shape.
  - apply every_postRoundtrip; shape.
Qed.
End Quiet.

(** * Runs of the service *)

Section Once.
Context {CT RT : Type} `{!Table Contract CT, !Table Reconciliation RT,
  !TableLaws Contract CT ct_id, !TableLaws Reconciliation RT rc_id}.
Notation World := (Be1World CT RT).
Context (env : Be1Env) (Hgcm : gcm_sound env) (Hhex : hex_sound env) (contractId yearMonth : string).
Notation quiet := (every (no_payment env contractId yearMonth) (possible env contractId yearMonth)).
Notation due L := (payments env contractId yearMonth L).

Lemma perform_possible X (e : eff X) (w : World) :
  settled w contractId yearMonth -> possible env contractId yearMonth X e (perform env e w).1.
Proof.
  intros (r & Hr & Hm). destruct e; try done; cbn.
  - exists w.(bw_local). by destruct (f env w.(bw_local)).
  - pose proof (select_finds (key := rc_id) where_ w.(bw_records)) as Hf.
    destruct (t_select where_ _) as [[m|l] t]; cbn in *; [done|]. intros [= Hl]. exists r. split; [done|].
    specialize (Hf l eq_refl). destruct l; [|done]. apply Permutation_nil_l in Hf.
    destruct (where_ r) eqn:E; [|done].
    assert (r ∈ filter (fun r => where_ r) (t_rows w.(bw_records))) as Hin by (apply list_elem_of_filter; by rewrite E).
    rewrite <-Hf in Hin. by apply not_elem_of_nil in Hin.
Qed.
Lemma perform_no_payment X (e : eff X) (w : World) : no_payment env contractId yearMonth X e ->
  due (perform env e w).2.(bw_ledger) = due w.(bw_ledger).
Proof.
  intros H. destruct e; try done; cbn.
  - by destruct (f env w.(bw_local)).
  - by destruct (be_queue env _ _).
  - by destruct (be_mail env _ _).
  - unfold payments. rewrite filter_app. unfold no_payment in H.
    rewrite (filter_cons_False _ (mkSubmission _ _ _)) by (unfold sb_tx; rewrite H; intros []).
    by rewrite filter_nil, app_nil_r.
Qed.

Lemma quiet_steps c c' :
  rtc (pool_step env entry) c c' -> be1_reachable env c -> settled c.1 contractId yearMonth ->
  Forall (fun t => quiet t) c.2 -> due c'.1.(bw_ledger) = due c.1.(bw_ledger).
Proof.
  intros H. induction H as [c|c1 c2 c3 Hs Hr IH]; intros Hc Hset Hq; [done|].
  assert (be1_reachable env c2) as Hc2.
  { destruct Hc as (ct & rt & ? & ? & Hrun). exists ct, rt. split_and!; [done..|]. by eapply rtc_r. }
  assert (settled c2.1 contractId yearMonth) as Hset2.
  { eapply settled_later; [|exact Hset]. eapply steps_evolve; [done..|]. by apply rtc_once. }
  destruct Hs as [w ts p Hp|w ts1 ts2 X e k]; cbn in *.
  - apply IH; [done..|]. apply Forall_app. split; [done|]. constructor; [by apply quiet_entry|done].
  - apply Forall_app in Hq as [H1 [[He Hk] H2]%Forall_cons].
    rewrite IH; [by apply perform_no_payment|done..|].
    apply Forall_app. split; [done|]. constructor; [|done]. by apply Hk, perform_possible.
Qed.
End Once.
