(* ===== verification/Be1Bounds.v ===== *)
(** How many transactions a request of [be1-xrpl] can hand to the ledger: a count
    along every path of its tree of effects, and the retry loops that end. *)
From S2P Require Import Prelude JsString JsMap JsFloat Be1World Be1Xrpl Be1Contracts Be1Reconciler Be1Wallet Be1Logic.
From S2P Require Import Be1System.

(** At most [n] submissions, whatever is answered. *)
Fixpoint at_most (n : nat) {A} (p : prog A) : Prop :=
  match p with
  | Ret _ | Throw _ => True
  | Do e k =>
      match e in eff X return (X -> prog A) -> Prop with
      | SubmitAndWait _ _ => fun k => match n with O => False | S m => forall x, at_most m (k x) end
      | _ => fun k => forall x, at_most n (k x)
      end k
  end.

Lemma at_most_le {A} n m (p : prog A) : n <= m -> at_most n p -> at_most m p.
Proof.
  revert n m. induction p as [a|e|X e k IH]; intros n m Hle; cbn; [done..|].
  destruct e; try (intros H x; by eapply IH). destruct n as [|n]; [done|]. destruct m as [|m]; [lia|].
  intros H x. eapply IH; [|apply H]. lia.
Qed.
Lemma at_most_bind {A B} n m (p : prog A) (k : A -> prog B) :
  at_most n p -> (forall a, at_most m (k a)) -> at_most (n + m) (p ≫= k).
Proof.
  revert n. induction p as [a|e|X e k' IH]; intros n Hp Hk; cbn in *; [eapply at_most_le; [|apply Hk]; lia|done|].
  destruct e; try (intros x; by apply IH). destruct n as [|n]; [done|]. intros x. by apply IH.
Qed.
Lemma at_most_attempt {A} n (p : prog A) : at_most n p -> at_most n (attempt p).
Proof.
  revert n. induction p as [a|e|X e k IH]; intros n Hp; cbn in *; [done..|].
  destruct e; try (intros x; by apply IH). destruct n as [|n]; [done|]. intros x. by apply IH.
Qed.
Lemma at_most_finally {A} n (p : prog A) f : at_most n p -> at_most 0 f -> at_most n (finally p f).
Proof.
  intros Hp Hf. replace n with (n + 0) by lia. apply at_most_bind; [by apply at_most_attempt|]. intros r.
  apply (at_most_bind 0 0); [done|]. intros _. by destruct r.
Qed.
(** No submission at all. *)
Definition silent : forall X, eff X -> Prop := fun X e => match e with SubmitAndWait _ _ => False | _ => True end.
Notation quietly := (every silent (fun _ _ _ => True)).
Lemma at_most_quietly {A} n (p : prog A) : quietly p -> at_most n p.
Proof.
  revert n. induction p as [a|e|X e k IH]; intros n; cbn; [done..|]. intros [He Hk].
  destruct e; try done; intros x; by apply IH, Hk.
Qed.
Lemma at_most_after {A B} n (p : prog A) (k : A -> prog B) :
  quietly p -> (forall a, at_most n (k a)) -> at_most n (p ≫= k).
Proof. intros Hp Hk. apply (at_most_bind 0 n); [by apply at_most_quietly|done]. Qed.

(** The count bounds the growth of the ledger log. *)
Lemma silent_ledger {CT RT} `{!Table Contract CT, !Table Reconciliation RT} env X (e : eff X) (w : Be1World CT RT) :
  silent X e -> (perform env e w).2.(bw_ledger) = w.(bw_ledger).
Proof.
  intros H. destruct e; try done; cbn.
  - by destruct (f env (bw_local w)).
  - by destruct (be_queue env _ _).
  - by destruct (be_mail env _ _).
Qed.
Lemma at_most_effect {A} n X (e : eff X) (k : X -> prog A) : at_most n (Do e k) ->
  (silent X e /\ forall x, at_most n (k x)) \/
  (exists m, n = S m /\ (forall x, at_most m (k x)) /\
     forall CT RT `{!Table Contract CT, !Table Reconciliation RT} env (w : Be1World CT RT),
       length (perform env e w).2.(bw_ledger) = S (length w.(bw_ledger))).
Proof.
  destruct e; cbn; intros H; try (left; by split).
  right. destruct n as [|m]; [done|]. exists m. split_and!; [done..|]. intros. cbn. rewrite length_app. cbn. lia.
Qed.
Lemma at_most_run {CT RT} `{!Table Contract CT, !Table Reconciliation RT} env {A} n (p : prog A) (w : Be1World CT RT) :
  at_most n p -> length (run env p w).2.(bw_ledger) <= n + length w.(bw_ledger).
Proof.
  revert n w. induction p as [a|e|X e k IH]; intros n w H; cbn; [lia..|].
  apply at_most_effect in H as [[Hs Hk]|(m & -> & Hk & Hl)].
  - pose proof (silent_ledger env X e w Hs) as E. destruct (perform env e w) as [x w']. cbn in *.
    rewrite <-E. by apply IH.
  - specialize (Hl CT RT _ _ env w). destruct (perform env e w) as [x w']. cbn in *.
    pose proof (IH x m w' (Hk x)). lia.
Qed.

(** * Routes *)

Ltac mute := intros; first [exact I | done].
Lemma submits_submitAndWait tx wallet : at_most 1 (submitAndWait tx wallet).
Proof. apply at_most_after; [apply every_getClient; mute|]. intros _. by intros [m|x]. Qed.
Lemma submits_once {A} tx wallet (k : JsVal -> prog A) : (forall r, quietly (k r)) -> at_most 1 (submitAndWait tx wallet ≫= k).
Proof.
  intros Hk. apply (at_most_bind 1 0); [apply submits_submitAndWait|]. intros r. by apply at_most_quietly.
Qed.
Lemma submits_trustSet o a : at_most 1 (submitTrustSet o a).
Proof. apply submits_once. intros r. apply every_lift. Qed.
Lemma submits_escrow p : at_most 1 (createEscrow p).
Proof.
  apply at_most_after; [apply every_lift|]. intros _. apply at_most_after; [by apply every_sync|]. intros rt.
  apply submits_once. intros r. apply every_lift.
Qed.
Lemma submits_signerList p : at_most 1 (setSignerList p).
Proof. apply at_most_after; [apply every_lift|]. intros _. apply submits_once. intros r. apply every_lift. Qed.
Lemma submits_await tx wallet : at_most 1 (await (SubmitAndWait tx wallet)).
Proof. by intros [m|x]. Qed.
Lemma submits_payment p : at_most 1 (submitXrpPayment p).
Proof.
  apply at_most_after; [apply every_fromSeed; mute|]. intros wallet.
  destruct (negb _); [done|]. destruct (negb _); [done|]. apply submits_once. intros r. apply every_lift.
Qed.
Lemma submits_reconcile id ym : at_most 1 (reconcileContract id ym).
Proof.
  apply at_most_after; [by apply every_await|]. intros [r|]; [done|].
  apply at_most_after; [apply every_findById; mute|]. intros [d|]; [|done].
  destruct (negb _); [done|]. destruct (nonempty _) as [seed|]; [|done]. destruct (nonempty _) as [account|]; [|done].
  apply at_most_after.
  { unfold getMonthlyUsage, apiUsage. every_walk ltac:(mute). all: apply every_isConfig; mute. }
  intros usage. apply at_most_after; [by apply every_sync|]. intros sha. cbv zeta. apply (at_most_bind 1 0).
  - apply at_most_attempt. apply at_most_after; [by apply every_sync|]. intros hex.
    apply at_most_after; [apply every_lift|]. intros memo. apply submits_payment.
  - intros paid. apply at_most_quietly. unfold sendMonthlyReportSafely, sendEmail, smtpReady. every_walk ltac:(mute).
    all: apply every_isConfig; mute.
Qed.
Lemma submits_lock lk : at_most 3 (lockTenantDeposit lk).
Proof.
  apply at_most_after; [apply every_lift|]. intros amounts.
  apply at_most_after.
  { unfold create. every_walk ltac:(mute). all: first [simple apply every_encrypt; mute|simple apply every_toDto; mute]. }
  intros d. apply (at_most_bind 1 2); [apply submits_escrow|]. intros dep.
  apply (at_most_bind 1 1); [apply submits_escrow|]. intros stake.
  apply (at_most_bind 1 0); [apply submits_signerList|]. intros sl. apply at_most_quietly.
  every_walk ltac:(mute). all: first [simple apply every_encrypt; mute|simple apply every_findById; mute].
Qed.
Lemma submits_fundFromOperator c o p : at_most 2 (ensureTrustLineAndFundFromOperator c o p).
Proof.
  apply at_most_after; [apply every_getClient; mute|]. intros _. do 2 (apply at_most_after; [apply every_lift|]; intros ?).
  apply at_most_after.
  { unfold fundingWalletFor. every_walk ltac:(mute).
    all: first [simple apply every_fromSeed; mute|simple apply every_ensureFees; mute|simple apply every_findTrustLine; mute]. }
  intros funding. apply at_most_after; [apply every_lift|]. intros limit.
  apply (at_most_bind 1 1); [apply submits_trustSet|]. intros _.
  apply at_most_after; [apply every_lift|]. intros amount.
  apply (at_most_bind 1 0); [apply submits_await|]. intros r. apply at_most_quietly, every_lift.
Qed.
Lemma submits_postContract dto : at_most 5 (postContract dto).
Proof.
  apply at_most_after; [by apply every_sync|]. intros seed. destruct (nonempty seed); [|done].
  apply at_most_after; [apply every_fromSeed; mute|]. intros operator. apply at_most_after.
  { every_walk ltac:(mute); first [simple apply every_orConfig; mute|simple apply every_trustLines; mute]. }
  intros iou. apply at_most_after; [apply every_generate; mute|]. intros wallet.
  apply (at_most_bind 2 3); [destruct iou; [apply submits_fundFromOperator|done]|]. intros _.
  apply (at_most_bind 3 0); [apply submits_lock|]. done.
Qed.
Lemma submits_roundtrip a : at_most 2 (postRoundtrip a).
Proof.
  unfold postRoundtrip, roundtrip. apply at_most_after; [unfold assertTestnet; every_walk ltac:(mute)|]. intros _.
  destruct (negb _); [done|]. do 2 (apply at_most_after; [apply every_walletForRole; mute|]; intros ?).
  apply at_most_after; [apply every_getClient; mute|]. intros _.
  assert (forall f t, at_most 1 (submitPay (default "1000000" (nonempty (trim <$> a))) f t)) as Hpay.
  { intros f t. apply (at_most_bind 1 0); [apply submits_await|]. intros r. apply at_most_quietly. every_walk ltac:(mute). }
  apply (at_most_bind 1 1); [apply Hpay|]. intros there. apply (at_most_bind 1 0); [apply Hpay|]. intros back.
  apply at_most_quietly. every_walk ltac:(mute). apply every_explorerBase; mute.
Qed.

(** * Buying on the exchange *)

Lemma submits_buy b i c v : at_most 1 (buyIouWithXrpViaPathFind b i c v).
Proof.
  apply at_most_after; [apply every_lift|]. intros dest. apply at_most_after; [by apply every_await|]. intros pf.
  apply at_most_finally; [|unfold closePathFind; apply at_most_quietly; every_walk ltac:(mute)].
  destruct (negb _); [done|]. destruct (bigint _); [|done].
  apply (at_most_bind 1 0); [apply submits_await|]. intros r. apply at_most_quietly, every_lift.
Qed.
(** The loop ends after [n] rounds, each buying at most once. *)
Lemma submits_buyLoop n o i c need balance : at_most n (buyLoop n o i c need balance).
Proof.
  revert balance. induction n as [|n IH]; intros balance; cbn [buyLoop]; [done|]. destruct (flt _ _); [|done].
  apply (at_most_bind 1 n); [apply submits_buy|]. intros _. apply at_most_after; [apply every_findTrustLine; mute|].
  intros again. apply IH.
Qed.
Lemma submits_operatorIou o i c v : at_most (1 + MAX_ROUNDS) (ensureOperatorIouForPayment o i c v).
Proof.
  apply at_most_after; [apply every_lift|]. intros limit.
  apply at_most_after; [apply every_findTrustLine; mute|]. intros first.
  apply (at_most_bind 1 MAX_ROUNDS).
  { destruct first; [done|]. apply (at_most_bind 1 0); [apply submits_trustSet|]. intros _.
    apply at_most_quietly, every_findTrustLine; mute. }
  intros line. cbv zeta. destruct (negb _ || _); [done|]. destruct (fge _ _); [done|].
  apply at_most_after; [unfold isRippleAltnetTestnet; every_walk ltac:(mute)|]. intros testnet. destruct (negb testnet); [done|].
  apply (at_most_bind MAX_ROUNDS 0); [apply submits_buyLoop|]. intros bought. by destruct (flt _ _).
Qed.
Lemma submits_fundInternal dto : at_most (3 + MAX_ROUNDS) (fundInternalWallet dto).
Proof.
  unfold fundInternalWallet. cbv zeta. do 2 (apply at_most_after; [by apply every_sync|]; intros ?).
  destruct (negb _ && _); [done|]. do 2 (apply at_most_after; [apply every_orConfigTrim; mute|]; intros ?).
  destruct (_ || _); [done|]. apply at_most_after; [apply every_lift|]. intros currency.
  apply at_most_after; [apply every_orConfigTrim; mute|]. intros amount. destruct (negb _); [done|].
  apply at_most_after; [apply every_walletForRole; mute|]. intros recipient.
  apply at_most_after; [apply every_getClient; mute|]. intros _.
  apply at_most_after; [apply every_ensureFees; mute|]. intros _.
  apply (at_most_bind (1 + MAX_ROUNDS) 2).
  { unfold chooseFunding. repeat case_match; try done.
    - apply at_most_quietly. every_walk ltac:(mute).
      all: first [simple apply every_fromSeed; mute|simple apply every_ensureFees; mute].
    - apply at_most_after; [apply every_fromSeed; mute|]. intros wallet.
      apply at_most_after; [apply every_ensureFees; mute|]. intros _.
      apply (at_most_bind (1 + MAX_ROUNDS) 0); [apply submits_operatorIou|done]. }
  intros funding. apply at_most_after; [apply every_lift|]. intros limit.
  apply (at_most_bind 1 1); [apply submits_trustSet|]. intros trust.
  apply at_most_after; [apply every_lift|]. intros pay.
  apply (at_most_bind 1 0); [apply submits_await|]. intros r. apply at_most_quietly. cbv zeta. every_walk ltac:(mute).
  apply every_explorerBase; mute.
Qed.
