(* ===== verification/Be1Props.v ===== *)
(** The properties of [be1-xrpl]: leases and settled months are backed by the
    ledger, a settled month is not paid again, a monthly run forgets nobody,
    signer lists, memos and secrets; and the runs in which a month is paid
    twice. *)
From S2P Require Import Prelude JsString JsMap Json CoreTx JsFloat Be1World Be1Xrpl Be1Contracts Be1Reconciler.
From S2P Require Import Be1Wallet Be1Logic Be1Inv Be1Services Be1Settle Be1System Be1Once Be1Bounds.
From Stdlib Require Import Ascii.

(** * An environment *)

Lemma hexPairs_hexByte c l : hexPairs (hexByte c ++ l) = c :: hexPairs l.
Proof. destruct c as [[] [] [] [] [] [] [] []]; reflexivity. Qed.
Lemma hexToUtf8_utf8ToHex s : hexToUtf8 (utf8ToHex s) = s.
Proof.
  unfold hexToUtf8, fromHex, utf8ToHex, bytesToHex. rewrite chars_of_chars.
  transitivity (of_chars (chars s)); [|apply of_chars_chars]. f_equal.
  induction (chars s) as [|c l IH]; [done|]. cbn [flat_map]. by rewrite hexPairs_hexByte, IH.
Qed.

(** The ledger that accepts everything. *)
Definition accepted (n : nat) : JsVal :=
  JObj [("meta", JObj [("TransactionResult", JStr "tesSUCCESS")]); ("hash", JStr ("TX" +:+ num_str (Z.of_nat n)));
        ("ledger_index", JNum 77); ("validated", JBool true); ("tx_json", JObj [("Sequence", JNum (Z.of_nat n))])].
Definition demoConfig (key : string) : option string :=
  if bool_decide (key = "ENCRYPTION_MASTER_KEY") then Some "AAAAAAAAAAAAAAAAAAAAAAAAAAAAAAAAAAAAAAAAAAA="
  else if bool_decide (key = "NODE_ENV") then Some "test"
  else if bool_decide (key = "XRPL_OPERATOR_SEED") then Some "sOperator"
  else None.
Definition be1EnvWith (submit : nat -> JsVal -> Wallet -> string + JsVal) : Be1Env := {|
  be_config := demoConfig; be_clock := fun n => (1777561200000 + Z.of_nat n)%Z;
  be_randomBytes := fun _ k => replicate k "i"%char; be_generate := fun _ => mkWallet "rsLease" "pub" (Some "sLease");
  be_connected := fun _ => true; be_fromSeed := fun seed => inr (mkWallet ("r" +:+ seed) "pub" (Some seed));
  be_sha256 := fun l => take 32 (l ++ replicate 32 "x"%char);
  be_seal := fun _ _ pt => (pt, replicate 16 "t"%char); be_open := fun _ _ _ ct => Some ct;
  be_stringToHex := utf8ToHex; be_hexToString := hexToUtf8; be_rippleTime := fun s => Z.of_nat (String.length s);
  be_dropsToXrp := display; be_legacyDate := fun _ => None; be_submit := submit;
  be_request := fun _ _ => inl "timeout"; be_fund := fun _ w => inr w; be_get := fun _ _ _ => inl "timeout";
  be_queue := fun _ _ => inr tt; be_mail := fun _ _ => inr tt |}.
Definition be1Env : Be1Env := be1EnvWith (fun n _ _ => inr (accepted n)).
Lemma be1Env_gcm submit : gcm_sound (be1EnvWith submit).
Proof. split; [intros; apply length_replicate|done]. Qed.
Lemma be1Env_hex submit : hex_sound (be1EnvWith submit).
Proof. exact hexToUtf8_utf8ToHex. Qed.

Definition demoLease : CreateContractInput :=
  mkCreate "rTenant" "rLandlord" "50000000" "10000000" 0 1000 2000 3000 "tenant" "landlord" None None None None.
Notation MemWorld := (Be1World (MemTable Contract) (MemTable Reconciliation)).
Definition demoBoot : MemWorld := boot memTable memTable.
Definition demoLocked : MemWorld := (run be1Env (postContract demoLease) demoBoot).2.
Definition demoId : string := default "" (head (ct_id <$> leases demoLocked)).
Definition demoSettled : MemWorld := (run be1Env (reconcileContract demoId "2026-04") demoLocked).2.
Definition demoContract : Contract := default (newRow demoLease "" "" None "" 0) (head (leases demoLocked)).
Definition demoMonth : Reconciliation :=
  default (attemptRow "" "" (mkUsage "" "" 0 0 None) "" (inr None) "" 0) (head (months demoSettled)).
Definition contractOf (w : MemWorld) (c : Contract) : bool := bool_decide (head (ct_id <$> leases w) = Some c.(ct_id)).

Lemma head_elem {A} (d : A) l : negb (bool_decide (length l = 0)) = true -> default d (head l) ∈ l.
Proof. destruct l; [done|]. intros _. left. Qed.
Lemma demoLocked_at_rest : at_rest be1Env demoLocked.
Proof. apply at_rest_run; [constructor|]. by apply at_rest_boot. Qed.
Lemma demoSettled_at_rest : at_rest be1Env demoSettled.
Proof. apply at_rest_run; [apply (e_process (mkJob demoId "2026-04"))|apply demoLocked_at_rest]. Qed.

(** * What the rows say is on the ledger *)

Section Backed.
Context {CT RT : Type} `{!Table Contract CT, !Table Reconciliation RT,
  !TableLaws Contract CT ct_id, !TableLaws Reconciliation RT rc_id}.

(** C14: In every reachable state, under any interleaving, a contract is either
    pending with no trace of a lock, or locked; then its account signed, and the
    ledger accepted, the deposit escrow to the tenant and the stake escrow to the
    landlord with the amounts and the dates of the row, and a valid signer list
    of both parties and the operator with quorum two; the row carries exactly
    those sequences and hashes, and its sealed seed opens to the account's. *)
Theorem locked_contracts_are_backed (env : Be1Env) (w : Be1World CT RT) ts c :
  gcm_sound env -> be1_reachable env (w, ts) -> c ∈ leases w ->
  (c.(ct_status) = Pending /\ terms c = c <| ct_updatedAt := 0%Z |>) \/
  (c.(ct_status) = Locked /\ exists wallet dep stake sl seed cipher,
     locked_row env w.(bw_ledger) c wallet dep stake sl seed cipher).
Proof.
  intros Hgcm Hr Hc. pose proof (inv_leases _ _ (reachable_inv env Hgcm w ts Hr)) as H.
  rewrite Forall_forall in H. specialize (H c Hc). unfold lease_ok in H.
  destruct (ct_status c); [by left|by right|done..].
Qed.

(** C15: In every reachable state, under any interleaving, each settled month has
    its payment on the ledger: submitted by the account that holds the lock of
    the contract, to its landlord, with the amount of the row and a memo carrying
    contract, month and the hash of the KEPCO answer, validated with the hash of
    the row. *)
Theorem settled_months_are_paid (env : Be1Env) (w : Be1World CT RT) ts r :
  gcm_sound env -> be1_reachable env (w, ts) -> r ∈ months w -> r.(rc_status) = Matched ->
  exists c payer usage memo, paid_month env (leases w) w.(bw_ledger) r c payer usage memo.
Proof.
  intros Hgcm Hr Hin HS. pose proof (inv_months _ _ (reachable_inv env Hgcm w ts Hr)) as H.
  rewrite Forall_forall in H. specialize (H r Hin). unfold record_ok in H. rewrite HS in H. apply H.
Qed.

(** C16: Once a month is settled and nothing is in flight, no request, cron run
    or retry that starts later hands another payment for that month to the
    ledger, however they interleave. *)
Theorem settled_month_not_paid_again (env : Be1Env) (w w' : Be1World CT RT) ts ts' contractId yearMonth :
  gcm_sound env -> hex_sound env -> be1_reachable env (w, ts) -> Forall finished ts ->
  settled w contractId yearMonth -> rtc (pool_step env entry) (w, ts) (w', ts') ->
  payments env contractId yearMonth w'.(bw_ledger) = payments env contractId yearMonth w.(bw_ledger).
Proof.
  intros Hgcm Hhex Hr Hfin Hset Hrun.
  apply (quiet_steps env Hgcm Hhex contractId yearMonth (w, ts) (w', ts') Hrun Hr Hset).
  eapply Forall_impl; [exact Hfin|]. by intros [].
Qed.

(** C17: If the queue accepts jobs, a monthly run that could list the locked
    contracts comes to its end, and then every contract that was locked has
    either a settled month or a retry job in the queue, whatever KEPCO, the
    ledger and the database answered. *)
Theorem monthly_run_forgets_nobody (env : Be1Env) (w : Be1World CT RT) ts yearMonth l w0 :
  gcm_sound env -> queue_up env -> be1_reachable env (w, ts) -> run env findAllLocked w = (inr l, w0) ->
  exists w', run env (runMonthlyReconcile yearMonth) w = (inr tt, w') /\
    forall c, c ∈ leases w -> c.(ct_status) = Locked -> cared_for w' c.(ct_id) yearMonth.
Proof.
  intros Hgcm Hq Hr Hl. pose proof (reachable_inv env Hgcm w ts Hr) as Hinv.
  pose proof (ok_run env evolves (inv env) _ w _ (ok_runMonthlyReconcile env yearMonth w) Hinv) as (_ & _ & H).
  assert ((run env (runMonthlyReconcile yearMonth) w).1 = inr tt) as E.
  { unfold runMonthlyReconcile. rewrite run_bind, Hl. by apply reconcileAll_ends. }
  destruct (run env (runMonthlyReconcile yearMonth) w) as [x w']. cbn in *. subst x. by exists w'.
Qed.
End Backed.

Lemma locked_contracts_are_backed_witness : exists wallet dep stake sl seed cipher,
  locked_row be1Env demoLocked.(bw_ledger) demoContract wallet dep stake sl seed cipher.
Proof.
  destruct demoLocked_at_rest as (ts & Hr & _).
  destruct (locked_contracts_are_backed be1Env demoLocked ts demoContract (be1Env_gcm _) Hr) as [[Hs _]|[_ H]].
  - unfold demoContract. apply head_elem. vm_compute. reflexivity.
  - exfalso. assert (ct_status demoContract = Locked) as E by (vm_compute; reflexivity). congruence.
  - exact H.
Defined.
Lemma settled_months_are_paid_witness : exists c payer usage memo,
  paid_month be1Env (leases demoSettled) demoSettled.(bw_ledger) demoMonth c payer usage memo.
Proof.
  destruct demoSettled_at_rest as (ts & Hr & _).
  apply (settled_months_are_paid be1Env demoSettled ts demoMonth (be1Env_gcm _) Hr).
  - unfold demoMonth. apply head_elem. vm_compute. reflexivity.
  - vm_compute. reflexivity.
Defined.
Lemma demo_settled : settled demoSettled demoId "2026-04".
Proof.
  exists demoMonth. split; [unfold demoMonth; apply head_elem; vm_compute; reflexivity|vm_compute; reflexivity].
Qed.
(** The retry that comes after all. *)
Definition demoRetried : MemWorld := (run be1Env (reconcileContract demoId "2026-04") demoSettled).2.
Lemma settled_month_not_paid_again_witness :
  payments be1Env demoId "2026-04" demoRetried.(bw_ledger) = payments be1Env demoId "2026-04" demoSettled.(bw_ledger) /\
  length (payments be1Env demoId "2026-04" demoSettled.(bw_ledger)) = 1.
Proof.
  destruct demoSettled_at_rest as (ts & Hr & Hfin).
  destruct (rest_steps be1Env (reconcileContract demoId "2026-04") demoSettled ts (e_process (mkJob demoId "2026-04")))
    as [ts' Hrun].
  split; [|vm_compute; reflexivity].
  exact (settled_month_not_paid_again be1Env demoSettled demoRetried ts ts' demoId "2026-04" (be1Env_gcm _)
    (be1Env_hex _) Hr Hfin demo_settled Hrun).
Defined.
Definition answered {A} (r : Exn + A) : bool := match r with inr _ => true | inl _ => false end.
Definition listed {A B} (r : (Exn + list A) * B) : list A := match r.1 with inr l => l | inl _ => [] end.
Lemma listed_eq {A B} (r : (Exn + list A) * B) : answered r.1 = true -> r = (inr (listed r), r.2).
Proof. by destruct r as [[e|l] w]. Qed.
Lemma monthly_run_forgets_nobody_witness : exists w',
  run be1Env (runMonthlyReconcile "2026-05") demoLocked = (inr tt, w') /\
  forall c, c ∈ leases demoLocked -> c.(ct_status) = Locked -> cared_for w' c.(ct_id) "2026-05".
Proof.
  destruct demoLocked_at_rest as (ts & Hr & _).
  eapply (monthly_run_forgets_nobody be1Env demoLocked ts "2026-05" _ _ (be1Env_gcm _)); [done|exact Hr|].
  apply listed_eq. vm_compute. reflexivity.
Defined.
