(* ===== verification/Be1Values.v ===== *)
(** Three checks of [be1-xrpl] against what they are for: the signer lists that
    reach the ledger, the memo that carries the evidence of a payment, and the
    number of transactions one request can cause. *)
From S2P Require Import Prelude JsString JsMap Json CoreTx JsFloat Be1World Be1Xrpl Be1Contracts Be1Reconciler.
From S2P Require Import Be1Wallet Be1Logic Be1Inv Be1Services Be1Settle Be1System Be1Once Be1Bounds Be1Props.

(** * Signer lists *)

Definition weights (l : list SignerSpec) : Z := foldr Z.add 0%Z (ss_weight <$> l).
Definition signer_ok (owner : string) (s : SignerSpec) : Prop :=
  (1 <= s.(ss_weight) <= 65535)%Z /\ s.(ss_account) <> owner.
(** The loop: every signer in range, none seen before, the weights added up. *)
Lemma checkSigners_spec owner l : forall seen total t,
  checkSigners owner seen total l = inr t <->
  Forall (signer_ok owner) l /\ NoDup (ss_account <$> l) /\ Forall (fun s => s.(ss_account) ∉ seen) l /\
  t = (total + weights l)%Z.
Proof.
  induction l as [|s l IH]; intros seen total t; cbn [checkSigners].
  - unfold weights. cbn. rewrite Z.add_0_r. split; [intros [= ->]; repeat constructor|by intros (_ & _ & _ & ->)].
  - unfold weights. cbn [fmap list_fmap foldr]. fold (weights l).
    rewrite !Forall_cons, NoDup_cons. unfold signer_ok at 1, MIN_WEIGHT, MAX_WEIGHT.
    destruct (Z.ltb_spec (ss_weight s) 1); cbn [orb]; [split; [done|intros [[[] _] _]; lia]|].
    destruct (Z.ltb_spec 65535 (ss_weight s)); [split; [done|intros [[[] _] _]; lia]|].
    case_bool_decide as Ho; [split; [done|by intros [[[_ []] _] _]]|].
    case_bool_decide as Hs; [split; [done|by intros (_ & _ & [[] _] & _)]|].
    rewrite IH, Z.add_assoc. split.
    + intros (H1 & H2 & H3 & ->). split_and!; try done.
      * intros (x & Hx & Hin)%list_elem_of_fmap. rewrite Forall_forall in H3. apply (H3 x Hin). rewrite Hx. left.
      * eapply Forall_impl; [exact H3|]. intros x Hx Hin. apply Hx. by right.
    + intros ([_ H1] & [H2 H3] & [_ H4] & ->). split_and!; try done.
      rewrite Forall_forall in H4 |- *. intros x Hin [E|Hx]%elem_of_cons; [|by eapply H4].
      apply H2. rewrite <-E. by apply list_elem_of_fmap_2.
Qed.
Lemma validateSignerList_spec p : validateSignerList p = inr tt <->
  1 <= length p.(sl_signers) <= 32 /\
  Forall (signer_ok p.(sl_account).(wl_classicAddress)) p.(sl_signers) /\ NoDup (ss_account <$> p.(sl_signers)) /\
  (0 < p.(sl_quorum) <= weights p.(sl_signers))%Z.
Proof.
  unfold validateSignerList, MAX_SIGNERS. cbv zeta.
  destruct (Nat.eqb_spec (length (sl_signers p)) 0); [split; [done|lia]|].
  destruct (Nat.ltb_spec 32 (length (sl_signers p))); [split; [done|lia]|].
  destruct (Z.leb_spec (sl_quorum p) 0); [split; [done|lia]|].
  destruct (checkSigners _ _ _ _) as [e|t] eqn:E; cbn [then_].
  - split; [done|]. intros (_ & H1 & H2 & _).
    enough (checkSigners (wl_classicAddress (sl_account p)) [] 0 (sl_signers p) = inr (0 + weights (sl_signers p))%Z) by congruence.
    apply checkSigners_spec. split_and!; [done..| |done]. apply Forall_forall. intros x _ []%not_elem_of_nil.
  - apply checkSigners_spec in E as (H1 & H2 & _ & ->).
    destruct (Z.ltb_spec (0 + weights (sl_signers p)) (sl_quorum p)); split; try done; [lia|].
    intros _. split_and!; [lia..|done|done|lia|lia].
Qed.

(** A signer list reaches the ledger exactly when it has between one and 32
    signers, all different, none of them the owner, every weight between one and
    65535, and a positive quorum that the weights together reach; otherwise
    nothing is submitted and the request fails. *)
Theorem signer_list_checked p :
  (validateSignerList p = inr tt <->
     1 <= length p.(sl_signers) <= 32 /\
     Forall (signer_ok p.(sl_account).(wl_classicAddress)) p.(sl_signers) /\ NoDup (ss_account <$> p.(sl_signers)) /\
     (0 < p.(sl_quorum) <= weights p.(sl_signers))%Z) /\
  (forall CT RT `{!Table Contract CT, !Table Reconciliation RT} env (w : Be1World CT RT),
     match validateSignerList p with
     | inr _ => env.(be_connected) w.(bw_local).(lo_asks) = true ->
         (sb_tx <$> (run env (setSignerList p) w).2.(bw_ledger)) = (sb_tx <$> w.(bw_ledger)) ++ [signerListTx p]
     | inl e => run env (setSignerList p) w = (inl e, w)
     end).
Proof.
  split; [apply validateSignerList_spec|]. intros CT RT ? ? env w. unfold setSignerList.
  destruct (validateSignerList p) as [e|[]]; [done|]. cbn. intros ->. cbn.
  destruct (be_submit _ _ _ _); cbn; [by rewrite fmap_app|].
  destruct (assertSignerListSuccess _); cbn; by rewrite fmap_app.
Qed.

(** * Memos *)

(** C18: The memo of a payment is built exactly when its JSON fits the 1024 bytes
    the ledger allows; decoded, it gives back contract, month, hashes and amount,
    so no two payloads share a memo. *)
Theorem memo_reads_back env p : hex_sound env ->
  match buildReconcileMemo env.(be_stringToHex) p with
  | inr memo =>
      (Z.of_nat (String.length (json_stringify (payload_json p))) <= 1024)%Z /\
      decodeReconcileMemo env.(be_hexToString) (jget "Memo" memo) = inr (payload_json p) /\
      forall p', buildReconcileMemo env.(be_stringToHex) p' = inr memo -> p' = p
  | inl _ => (1024 < Z.of_nat (String.length (json_stringify (payload_json p))))%Z
  end.
Proof.
  intros Hhex. destruct (buildReconcileMemo _ p) as [e|memo] eqn:E.
  - revert E. unfold buildReconcileMemo, MAX_MEMO_BYTES. cbv zeta. by destruct (Z.ltb_spec 1024 (Z.of_nat (String.length (json_stringify (payload_json p))))).
  - pose proof (decode_build env p memo Hhex E) as Hd. split_and!; [|done|].
    + revert E. unfold buildReconcileMemo, MAX_MEMO_BYTES. cbv zeta. by destruct (Z.ltb_spec 1024 (Z.of_nat (String.length (json_stringify (payload_json p))))).
    + intros p' Hp'. pose proof (decode_build env p' memo Hhex Hp') as Hd'. rewrite Hd in Hd'. injection Hd' as E1 E2 E3 E4 E5.
      destruct p, p'. cbn in *. by subst.
Qed.
Definition demoPayload : ReconcileMemoPayload := mkPayload "c1" "2026-04" "ab" "ab" "59880".
Lemma memo_reads_back_witness : exists memo, buildReconcileMemo utf8ToHex demoPayload = inr memo /\
  decodeReconcileMemo hexToUtf8 (jget "Memo" memo) = inr (payload_json demoPayload).
Proof.
  pose proof (memo_reads_back be1Env demoPayload (be1Env_hex _)) as H. cbn [be_stringToHex be_hexToString be1Env be1EnvWith] in H.
  destruct (buildReconcileMemo utf8ToHex demoPayload) as [e|memo] eqn:E; [vm_compute in E; discriminate|].
  exists memo. split; [reflexivity|apply H].
Defined.

(** * Submissions *)

Section Submissions.
Context {CT RT : Type} `{!Table Contract CT, !Table Reconciliation RT, !TableLaws Contract CT ct_id}.
Notation World := (Be1World CT RT).

Lemma toDtos_length l : forall env (w : World),
  match (run env (toDtos l) w).1 with inr ds => length ds = length l | inl _ => True end.
Proof.
  induction l as [|c l IH]; intros env w; [done|]. cbn [toDtos]. rewrite run_bind.
  destruct (run env (toDto c) w) as [[e|d] w1]; [done|]. rewrite run_bind. specialize (IH env w1).
  destruct (run env (toDtos l) w1) as [[e|ds] w2]; [done|]. cbn in *. by rewrite IH.
Qed.
Lemma submits_reconcileAll ym l : at_most (length l) (reconcileAll ym l).
Proof.
  induction l as [|c l IH]; cbn [reconcileAll length]; [done|]. apply (at_most_bind 1 (length l)); [|intros _; exact IH].
  unfold reconcileOrEnqueue, catch. apply (at_most_bind 1 0).
  - apply at_most_attempt. unfold forget. apply (at_most_bind 1 0); [apply submits_reconcile|done].
  - intros [e|[]]; [|done]. by apply at_most_quietly, every_await.
Qed.
(** The transactions that [m] adds to the ledger log. *)
Definition added (env : Be1Env) {A} (m : prog A) (w : World) : nat :=
  length (run env m w).2.(bw_ledger) - length w.(bw_ledger).
Lemma added_at_most env {A} n (m : prog A) (w : World) : at_most n m -> added env m w <= n.
Proof. intros H. pose proof (at_most_run env n m w H). unfold added. lia. Qed.
Lemma quietly_ledger env {A} (m : prog A) : quietly m -> forall w : World, (run env m w).2.(bw_ledger) = w.(bw_ledger).
Proof.
  induction m as [a|e|X e k IH]; intros H w; cbn in *; [done..|]. destruct H as [He Hk].
  pose proof (silent_ledger env X e w He) as E. destruct (perform env e w) as [x w']. cbn in *.
  rewrite (IH x); [done|]. by apply Hk.
Qed.
Lemma findAllLocked_count env (w : World) :
  match (run env findAllLocked w).1 with
  | inr l => length l <= length (filter (fun c => isLocked c) (leases w)) | inl _ => True
  end /\ (run env findAllLocked w).2.(bw_ledger) = w.(bw_ledger).
Proof.
  split.
  - unfold findAllLocked. rewrite run_bind. cbn.
    pose proof (select_finds (key := ct_id) isLocked w.(bw_contracts)) as Hf.
    destruct (t_select isLocked (bw_contracts w)) as [[m|l] t]; [done|]. cbn in *. specialize (Hf l eq_refl).
    match goal with |- context [run env (toDtos l) ?w'] => pose proof (toDtos_length l env w') as H;
      destruct (run env (toDtos l) w') as [[e|ds] w2] end; [done|]. cbn in *. rewrite H. by rewrite Hf.
  - apply quietly_ledger, every_findAllLocked; mute.
Qed.
Lemma added_monthly env ym (w : World) :
  added env (runMonthlyReconcile ym) w <= length (filter (fun c => isLocked c) (leases w)).
Proof.
  unfold added, runMonthlyReconcile. rewrite run_bind. destruct (findAllLocked_count env w) as [Hn Hl].
  destruct (run env findAllLocked w) as [[e|l] w1]; cbn in *; [rewrite Hl; lia|].
  pose proof (at_most_run env _ _ w1 (submits_reconcileAll ym l)) as H. rewrite Hl in H. lia.
Qed.

(** What one request can submit is bounded before it starts, whatever the
    ledger, the database and KEPCO answer: five transactions for a new contract,
    two for a round trip, eleven for funding with tokens (three, and at most
    eight purchases, whose loop ends), one for a month, and for a monthly run one
    for each contract that is locked. *)
Theorem submissions_bounded env (w : World) :
  (forall dto, added env (postContract dto) w <= 5) /\
  (forall amountDrops, added env (postRoundtrip amountDrops) w <= 2) /\
  (forall dto, added env (fundInternalWallet dto) w <= 11) /\
  (forall job, added env (process job) w <= 1) /\
  (forall yearMonth, added env (runMonthlyReconcile yearMonth) w <= length (filter (fun c => isLocked c) (leases w))).
Proof.
  split_and!; intros.
  - apply added_at_most, submits_postContract.
  - apply added_at_most, submits_roundtrip.
  - apply added_at_most, submits_fundInternal.
  - apply added_at_most. unfold process, forget. apply (at_most_bind 1 0); [apply submits_reconcile|done].
  - apply added_monthly.
Qed.
End Submissions.
Lemma submissions_bounded_witness :
  added be1Env (postContract demoLease) demoBoot <= 5 /\
  added be1Env (runMonthlyReconcile "2026-04") demoLocked <= length (filter (fun c => isLocked c) (leases demoLocked)) /\
  added be1Env (postContract demoLease) demoBoot = 3 /\ added be1Env (runMonthlyReconcile "2026-04") demoLocked = 1.
Proof.
  destruct (submissions_bounded be1Env demoBoot) as [H1 _].
  destruct (submissions_bounded be1Env demoLocked) as (_ & _ & _ & _ & H2).
  split; [apply H1|]. split; [apply H2|]. split; vm_compute; reflexivity.
Defined.

(** * Runs in which a check does not do what it is for *)

(** The sum of two token amounts is written with eighteen significant digits;
    an amount of the ledger has sixteen. *)
Example iou_sum_digits : sumIouValueStrings "500.5" "100.3" = inr "600.799999999999955".
Proof. vm_compute. reflexivity. Qed.
(** From 1e21 on, [toFixed] answers in exponent notation, and what is cut off
    are the zeros of the exponent. *)
Example iou_sum_large : sumIouValueStrings "1e30" "0" = inr "1e+3".
Proof. vm_compute. reflexivity. Qed.

Definition retry : prog unit := process (mkJob demoId "2026-04").
Definition demoPayments (w : MemWorld) : nat := length (payments be1Env demoId "2026-04" w.(bw_ledger)).
(** The first statement after the lookup of the month is refused. *)
Definition unsaved : MemWorld :=
  demoLocked <| bw_records := mkMemTable [] 0 (fun n => if decide (n = 1) then Refused else Answered) Z.of_nat |>.
(** A payment whose row could not be saved is made again by the retry. *)
Example unsaved_payment_paid_again :
  demoPayments (run be1Env retry unsaved).2 = 1 /\
  demoPayments (run be1Env retry (run be1Env retry unsaved).2).2 = 2.
Proof. split; vm_compute; reflexivity. Qed.
(** Two attempts for one month that both look before either has saved. *)
Definition race : MemWorld * list (prog unit) := schedule be1Env (replicate 40 0 ++ replicate 40 1) (demoLocked, [retry; retry]).
Definition interleaved : MemWorld * list (prog unit) :=
  schedule be1Env (concat (replicate 40 [0; 1])) (demoLocked, [retry; retry]).
Example one_after_the_other_pays_once : demoPayments race.1 = 1.
Proof. vm_compute. reflexivity. Qed.
Example interleaved_attempts_pay_twice : demoPayments interleaved.1 = 2.
Proof. vm_compute. reflexivity. Qed.
(** A contract whose job the queue refuses ends the monthly run. *)
Definition noQueue : Be1Env := {|
  be_config := demoConfig; be_clock := be_clock be1Env; be_randomBytes := be_randomBytes be1Env;
  be_generate := be_generate be1Env; be_connected := be_connected be1Env; be_fromSeed := be_fromSeed be1Env;
  be_sha256 := be_sha256 be1Env; be_seal := be_seal be1Env; be_open := be_open be1Env;
  be_stringToHex := utf8ToHex; be_hexToString := hexToUtf8; be_rippleTime := be_rippleTime be1Env;
  be_dropsToXrp := display; be_legacyDate := fun _ => None; be_submit := fun _ _ _ => inl "noNetwork";
  be_request := be_request be1Env; be_fund := be_fund be1Env; be_get := be_get be1Env;
  be_queue := fun _ _ => inl "ECONNREFUSED"; be_mail := be_mail be1Env |}.
Example full_queue_ends_the_run :
  (run noQueue (runMonthlyReconcile "2026-05") demoLocked).1 = inl (Err "ECONNREFUSED").
Proof. vm_compute. reflexivity. Qed.
