(* ===== verification/Frontend.v ===== *)
(** The mobile app ([apps/mobile-frontend/src]): the calls of [api/bluesafe.ts]
    and [api/internalWallet.ts], and the state, the actions and the guards of
    [App.tsx].  The views are not modelled.  An action is a computation on the
    state of [App]; it reads the [app] of the render it was made in, and its
    [setApp(prev => ..)] updates apply to the state of that moment. *)
From S2P Require Import Prelude JsString JsMap JsDate Json Utils Contracts Be1World Be1Xrpl Be1Contracts.
From Stdlib Require Import Ascii.

(** * Data *)

Inductive UserRole := Tenant | Landlord.
Inductive Lang := Ko | En.
#[export] Instance UserRole_eq_dec : EqDecision UserRole.
Proof. solve_decision. Defined.

Record ContractDraft := mkDraft {
  dr_depositAmount : string; dr_stakeAmount : string; dr_startsAt : string; dr_endsAt : string }.
#[export] Instance eta_ContractDraft : Eta ContractDraft := fun d =>
  mkDraft d.(dr_depositAmount) d.(dr_stakeAmount) d.(dr_startsAt) d.(dr_endsAt).
(** [status] is one of the strings of [ContractStatus]; [null] is [None]. *)
Record BackendContract := mkBackendContract {
  bk_id : string; bk_status : string; bk_tenantId : option string; bk_landlordId : option string;
  bk_tenantAddress : option string; bk_landlordAddress : option string; bk_contractAccountAddress : option string;
  bk_depositAmount : option string; bk_stakeAmount : option string; bk_depositEscrowTxHash : option string;
  bk_depositEscrowSequence : option Z; bk_signerListTxHash : option string; bk_startsAt : option string;
  bk_endsAt : option string; bk_updatedAt : option string }.
#[export] Instance eta_BackendContract : Eta BackendContract := fun c =>
  mkBackendContract c.(bk_id) c.(bk_status) c.(bk_tenantId) c.(bk_landlordId) c.(bk_tenantAddress)
    c.(bk_landlordAddress) c.(bk_contractAccountAddress) c.(bk_depositAmount) c.(bk_stakeAmount)
    c.(bk_depositEscrowTxHash) c.(bk_depositEscrowSequence) c.(bk_signerListTxHash) c.(bk_startsAt) c.(bk_endsAt)
    c.(bk_updatedAt).
Record SettlementView := mkSettlementView {
  sr_id : string; sr_contractId : string; sr_status : string; sr_amountMinor : option Z; sr_currencyCode : option string;
  sr_periodYear : option Z; sr_periodMonth : option Z }.

Record AppModel := mkApp {
  ap_selectedRole : UserRole; ap_walletConnected : bool; ap_walletProvider : string; ap_walletName : string;
  ap_walletNetwork : string; ap_tenantId : string; ap_landlordId : string; ap_tenantAddress : string;
  ap_landlordAddress : string; ap_contractDraft : ContractDraft; ap_contract : option BackendContract;
  ap_xrplContract : option BackendContract; ap_settlements : list SettlementView; ap_backendEvents : list string }.
#[export] Instance eta_AppModel : Eta AppModel := fun a =>
  mkApp a.(ap_selectedRole) a.(ap_walletConnected) a.(ap_walletProvider) a.(ap_walletName) a.(ap_walletNetwork)
    a.(ap_tenantId) a.(ap_landlordId) a.(ap_tenantAddress) a.(ap_landlordAddress) a.(ap_contractDraft) a.(ap_contract)
    a.(ap_xrplContract) a.(ap_settlements) a.(ap_backendEvents).
Definition emptyContractDraft : ContractDraft := mkDraft "" "" "" "".
Definition createInitialApp (selectedRole : UserRole) : AppModel :=
  mkApp selectedRole false "" "" "" "" "" "" "" emptyContractDraft None None [] [].

(** * Pure helpers *)

Definition str_drop (n : nat) (s : string) : string := of_chars (drop n (chars s)).
(** [value.replace(/\D/g, "")] *)
Definition onlyDigits (value : string) : string := of_chars (filter (fun c => is_digit c = true) (chars value)).
Definition normalizeDateInput (value : string) : string :=
  let digits := str_take 8 (onlyDigits value) in
  if (str_length digits <=? 4)%nat then digits
  else if (str_length digits <=? 6)%nat then str_take 4 digits +:+ "-" +:+ str_drop 4 digits
  else str_take 4 digits +:+ "-" +:+ str_take 2 (str_drop 4 digits) +:+ "-" +:+ str_drop 6 digits.

Definition dayMs : Z := 86400000.
(** [new Date(value)], [None] when there is none or it is invalid; [legacy] is
    [Date.parse] on formats that are not ISO. *)
Definition parseDate (legacy : string -> option Z) (value : option string) : option Z :=
  v ← nonempty value; date_parse legacy v.
Definition addDays (date days : Z) : Z := date + days * dayMs.
Definition clamp (value min max : Z) : Z := Z.min max (Z.max min value).
Record Duration := mkDuration { du_totalMs : Z; du_days : Z; du_hours : Z; du_minutes : Z }.
Definition splitDuration (ms : Z) : Duration :=
  let totalMs := Z.max 0 ms in
  mkDuration totalMs (totalMs / dayMs) (totalMs mod dayMs / 3600000) (totalMs mod 3600000 / 60000).
(** [Number(s) > 0] for the digits that the form lets through. *)
Definition positiveNumber (s : string) : bool :=
  all_chars is_digit s && negb (all_chars (fun c => bool_decide (c = "0"%char)) s).
Definition isContractDraftReady (legacy : string -> option Z) (draft : ContractDraft) : bool :=
  positiveNumber draft.(dr_depositAmount) && positiveNumber draft.(dr_stakeAmount) &&
  match parseDate legacy (Some draft.(dr_startsAt)), parseDate legacy (Some draft.(dr_endsAt)) with
  | Some startsAt, Some endsAt => (startsAt <? endsAt)%Z
  | _, _ => false
  end.

(** [a || b || undefined] *)
Definition orElse (a : option string) (b : string) : option string :=
  match nonempty a with Some v => Some v | None => nonempty (Some b) end.
Definition withContractDraft (contract : BackendContract) (draft : ContractDraft) : BackendContract :=
  contract <| bk_depositAmount := orElse contract.(bk_depositAmount) draft.(dr_depositAmount) |>
           <| bk_stakeAmount := orElse contract.(bk_stakeAmount) draft.(dr_stakeAmount) |>
           <| bk_startsAt := orElse contract.(bk_startsAt) draft.(dr_startsAt) |>
           <| bk_endsAt := orElse contract.(bk_endsAt) draft.(dr_endsAt) |>.
Definition getPreparedContract (app : AppModel) : option BackendContract :=
  (fun c => withContractDraft c app.(ap_contractDraft)) <$> app.(ap_contract).
Definition orString (a b : string) : string := if bool_decide (a = "") then b else a.
Definition getParticipantIds (app : AppModel) : option (string * string) :=
  let tenantId := orString app.(ap_tenantId) app.(ap_tenantAddress) in
  let landlordId := orString app.(ap_landlordId) app.(ap_landlordAddress) in
  if bool_decide (tenantId = "") || bool_decide (landlordId = "") then None else Some (tenantId, landlordId).

(** Without [progress], which is drawn from a quotient of floats. *)
Record LeaseMetrics := mkMetrics {
  lm_startsAt : Z; lm_endsAt : Z; lm_finishAfter : Z; lm_elapsedMs : Z; lm_totalMs : Z; lm_daysLeft : Z;
  lm_livedDays : Z; lm_returnLeft : Duration }.
Definition getLeaseMetrics (legacy : string -> option Z) (now : Z) (app : AppModel) : option LeaseMetrics :=
  let contract := match getPreparedContract app with Some c => Some c | None => app.(ap_xrplContract) end in
  startsAt ← parseDate legacy (contract ≫= bk_startsAt);
  endsAt ← parseDate legacy (contract ≫= bk_endsAt);
  let finishAfter := addDays endsAt 7 in
  let totalMs := Z.max 1 (endsAt - startsAt) in
  Some (mkMetrics startsAt endsAt finishAfter (clamp (now - startsAt) 0 totalMs) totalMs
          (Z.max 0 (- ((now - endsAt) / dayMs))) (Z.max 0 ((now - startsAt) / dayMs + 1))
          (splitDuration (finishAfter - now))).

Definition localizeError (message : string) (lang : Lang) : string :=
  match lang with
  | En =>
      if includes message "Cannot POST /contracts" then "Full BE1 escrow API is not running"
      else orString message "Request failed"
  | Ko =>
      if bool_decide (message = "") then "요청 처리에 실패했어요"
      else if includes message "Cannot POST /contracts" then "전체 BE1 에스크로 API가 실행 중이어야 해요"
      else if includes message "Failed to fetch" then "서버에 연결하지 못했어요"
      else if includes message "Wallet API URL is not configured" then "지갑 API 주소가 설정되지 않았어요"
      else if includes message "URL is not configured" then "백엔드 주소가 설정되지 않았어요"
      else if includes message "wallet addresses are required" then "임차인과 임대인 지갑 주소가 모두 필요해요"
      else if includes message "identifiers are required" then "임차인과 임대인 식별자가 모두 필요해요"
      else if includes message "depositAmount" || includes message "stakeAmount" then "계약의 보증금 또는 락업 수량 응답이 필요해요"
      else if includes message "startsAt" || includes message "endsAt" then "계약 시작일과 종료일 응답이 필요해요"
      else if includes message "transaction hash" then "에스크로 트랜잭션 해시 응답이 필요해요"
      else if includes message "settlement exists" then "백엔드 정산 응답이 아직 없어요"
      else message
  end.

(** * The two backends *)

Record CreateOperational := mkOperational {
  op_tenantId : string; op_landlordId : string; op_depositAmount : option string; op_stakeAmount : option string;
  op_startsAt : option string; op_endsAt : option string }.
(** The fields that the app fills. *)
Record CreateBe1Contract := mkBe1Contract {
  b1_tenantAddress : string; b1_landlordAddress : string; b1_depositAmount : string; b1_stakeAmount : string;
  b1_startsAt : string; b1_endsAt : string; b1_finishAfter : string; b1_cancelAfter : string; b1_tenantPii : string;
  b1_landlordPii : string }.
Record SettlementUpdate := mkUpdate {
  su_status : option string; su_amountMinor : option Z; su_currencyCode : option string; su_batchId : option string }.
Record TrackTxInput := mkTrack { tt_txHash : string; tt_txType : string; tt_account : option string; tt_network : option string }.
(** [network] is a string or an object with a label and an identifier. *)
Record WalletConnectResponse := mkWalletResponse {
  wr_address : option string; wr_account : option string; wr_classicAddress : option string;
  wr_network : string + (option string * option string); wr_wallet : option (option string * option string * option string) }.
Record WalletSession := mkSession { ws_account : string; ws_network : string; ws_provider : string }.

(** The calls that the actions make, with the type of what the server answers. *)
Inductive Api : Type -> Type :=
  | CreateOperationalContract (input : CreateOperational) : Api BackendContract
  | UpdateOperationalContractStatus (contractId status : string) : Api BackendContract
  | AnchorEscrow (contractId txHash : string) : Api BackendContract
  | ListSettlements (contractId : string) : Api (list SettlementView)
  | UpdateSettlementStatus (settlementId : string) (input : SettlementUpdate) : Api SettlementView
  | TrackTx (input : TrackTxInput) : Api unit
  | CreateXrplContract (input : CreateBe1Contract) : Api BackendContract
  | ConnectWallet (role : UserRole) : Api WalletConnectResponse.
Inductive ApiCall := | call {A : Type} (a : Api A).

Definition role_name (r : UserRole) : string := match r with Tenant => "tenant" | Landlord => "landlord" end.
(** Method, path and body; a body of [undefined] members has none of them. *)
Definition opt_member (k : string) (o : option string) : list (string * JsVal) :=
  match o with Some s => [(k, JStr s)] | None => [] end.
Definition http {A} (a : Api A) : string * string * JsVal :=
  match a with
  | CreateOperationalContract i =>
      ("POST", "/v1/contracts", JObj ([("tenantId", JStr i.(op_tenantId)); ("landlordId", JStr i.(op_landlordId))] ++
         opt_member "depositAmount" i.(op_depositAmount) ++ opt_member "stakeAmount" i.(op_stakeAmount) ++
         opt_member "startsAt" i.(op_startsAt) ++ opt_member "endsAt" i.(op_endsAt)))
  | UpdateOperationalContractStatus id status =>
      ("PATCH", "/v1/contracts/" +:+ id +:+ "/status", JObj [("status", JStr status)])
  | AnchorEscrow id txHash => ("PATCH", "/v1/contracts/" +:+ id +:+ "/escrow-anchor", JObj [("txHash", JStr txHash)])
  | ListSettlements id => ("GET", "/v1/settlements?contractId=" +:+ encodeURIComponent id, JUndef)
  | UpdateSettlementStatus id i =>
      ("PATCH", "/v1/settlements/" +:+ id +:+ "/status", JObj (opt_member "status" i.(su_status) ++
         (match i.(su_amountMinor) with Some n => [("amountMinor", JNum n)] | None => [] end) ++
         opt_member "currencyCode" i.(su_currencyCode) ++ opt_member "batchId" i.(su_batchId)))
  | TrackTx i =>
      ("POST", "/v1/xrpl/track", JObj (opt_member "network" i.(tt_network) ++ [("txHash", JStr i.(tt_txHash));
         ("txType", JStr i.(tt_txType))] ++ opt_member "account" i.(tt_account)))
  | CreateXrplContract i =>
      ("POST", "/contracts", JObj [("tenantAddress", JStr i.(b1_tenantAddress)); ("landlordAddress", JStr i.(b1_landlordAddress));
         ("depositAmount", JStr i.(b1_depositAmount)); ("stakeAmount", JStr i.(b1_stakeAmount));
         ("startsAt", JStr i.(b1_startsAt)); ("endsAt", JStr i.(b1_endsAt)); ("finishAfter", JStr i.(b1_finishAfter));
         ("cancelAfter", JStr i.(b1_cancelAfter)); ("tenantPii", JStr i.(b1_tenantPii)); ("landlordPii", JStr i.(b1_landlordPii))])
  | ConnectWallet role => ("POST", "/api/wallet/connect", JObj [("approve", JBool true); ("role", JStr (role_name role))])
  end.

(** ** Answers *)

(** [fetch] throws, or the response is not ok, or its body is what its type says. *)
Inductive Answer (A : Type) := NetworkError (message : string) | Refusal (status : Z) (statusText : string) (data : JsVal) | Success (a : A).
Arguments NetworkError {A}.
Arguments Refusal {A}.
Arguments Success {A}.
(** [String(v)] of a message; validation messages come as an array. *)
Fixpoint messageText (v : JsVal) : string :=
  match v with
  | JStr s => s
  | JNum n => num_str n
  | JDec lexeme => lexeme
  | JBool b => if b then "true" else "false"
  | JArr l => String.concat "," (map (fun x => match x with JUndef | JNull => "" | _ => messageText x end) l)
  | JObj _ => "[object Object]"
  | JUndef => "undefined"
  | JNull => "null"
  end.
(** [a || b || ..] of members. *)
Fixpoint firstTruthy (l : list JsVal) : option JsVal :=
  match l with [] => None | v :: l' => if jtruthy v then Some v else firstTruthy l' end.
Definition errorMessage (status : Z) (statusText : string) (data : JsVal) : string :=
  match data with
  | JStr s => s
  | _ => match firstTruthy [jget "message" data; jget "errorCode" data] with
         | Some v => messageText v
         | None => num_str status +:+ " " +:+ statusText
         end
  end.
Definition walletErrorMessage (status : Z) (data : JsVal) : string :=
  match firstTruthy (match data with JStr s => [JStr s] | _ => [jget "message" data; jget "error" data] end) with
  | Some v => messageText v
  | None => "Wallet API request failed (" +:+ num_str status +:+ ")"
  end.
Definition orOption (a b : option string) : option string := match nonempty a with Some s => Some s | None => nonempty b end.
Definition normalizeWallet (data : WalletConnectResponse) : string + WalletSession :=
  let wallet := default (None, None, None) data.(wr_wallet) in
  match foldr orOption None [data.(wr_address); data.(wr_account); data.(wr_classicAddress); wallet.1.1; wallet.1.2; wallet.2] with
  | None => inl "Wallet API response did not include an XRPL address"
  | Some account =>
      inr (mkSession account
             (match data.(wr_network) with inl s => s | inr (label, id) => default "" (orOption label id) end)
             "BlueSafe Wallet")
  end.

(** What the servers answer to the [n]-th call, [Date.parse] on formats that are
    not ISO, and the configured network.  A call that was sent is kept with the
    [busy] of that moment. *)
Record FrontEnv := mkFrontEnv {
  fe_server : forall A, nat -> Api A -> Answer A; fe_legacy : string -> option Z; fe_xrplNetwork : option string }.
Record Ui := mkUi { ui_app : AppModel; ui_busy : bool; ui_error : string; ui_sent : list (bool * ApiCall); ui_calls : nat }.
#[export] Instance eta_Ui : Eta Ui := fun u =>
  mkUi u.(ui_app) u.(ui_busy) u.(ui_error) u.(ui_sent) u.(ui_calls).

Definition F (A : Type) : Type := FrontEnv -> Ui -> (string + A) * Ui.
#[export] Instance F_ret : MRet F := fun A a _ u => (inr a, u).
#[export] Instance F_bind : MBind F := fun A B k m env u =>
  match m env u with
  | (inr a, u') => k a env u'
  | (inl e, u') => (inl e, u')
  end.
Definition flift {A} (r : string + A) : F A := fun _ u => (r, u).
Definition fthrow {A} (e : string) : F A := flift (inl e).
Definition fenv : F FrontEnv := fun env u => (inr env, u).
Definition sendApi {A} (refused : Z -> string -> JsVal -> string) (a : Api A) : F A := fun env u =>
  (match env.(fe_server) A u.(ui_calls) a with
   | NetworkError message => inl message
   | Refusal status statusText data => inl (refused status statusText data)
   | Success x => inr x
   end, u <| ui_sent := u.(ui_sent) ++ [(u.(ui_busy), call a)] |> <| ui_calls := S u.(ui_calls) |>).
Definition request {A} (a : Api A) : F A := sendApi errorMessage a.
Definition connectInternalWallet (role : UserRole) : F WalletSession :=
  data ← sendApi (fun status _ data => walletErrorMessage status data) (ConnectWallet role);
  flift (normalizeWallet data).
Definition setApp (f : AppModel -> AppModel) : F unit := fun _ u => (inr tt, u <| ui_app := f u.(ui_app) |>).
(** [p.catch(() => undefined)] *)
Definition caught (m : F unit) : F unit := fun env u => (inr tt, (m env u).2).
(** [if (!ok) throw new Error(message)] *)
Definition must (ok : bool) (message : string) : F unit := if ok then mret tt else fthrow message.
Definition must_some {A} (o : option A) (message : string) : F A :=
  match o with Some a => mret a | None => fthrow message end.

(** * [App] *)

Definition pushEvent (message : string) : F unit :=
  setApp (fun prev => prev <| ap_backendEvents := take 5 (message :: prev.(ap_backendEvents)) |>).
Definition run {A} (lang : Lang) (label : string) (task : F A) : F A := fun env u =>
  match task env (u <| ui_busy := true |> <| ui_error := "" |>) with
  | (inr result, u1) => (inr result, (pushEvent label env u1).2 <| ui_busy := false |>)
  | (inl err, u1) =>
      let message := localizeError err lang in
      let label_failed := label +:+ " " +:+ (match lang with Ko => "실패" | En => "failed" end) +:+ ": " +:+ message in
      (inl err, (pushEvent label_failed env (u1 <| ui_error := message |>)).2 <| ui_busy := false |>)
  end.
Definition inLang (lang : Lang) (ko en : string) : string := match lang with Ko => ko | En => en end.

Section actions.
(** The render in which the action was made. *)
Context (lang : Lang) (app : AppModel).

Definition selectRole (role : UserRole) : F unit := setApp (fun prev => prev <| ap_selectedRole := role |>).
Definition updateContractDraft (patch : ContractDraft -> ContractDraft) : F unit :=
  setApp (fun prev => prev <| ap_contractDraft := patch prev.(ap_contractDraft) |>).
Definition withAddress (role : UserRole) (account : string) (prev : AppModel) : AppModel :=
  match role with
  | Tenant => prev <| ap_tenantAddress := account |> <| ap_tenantId := account |>
  | Landlord => prev <| ap_landlordAddress := account |> <| ap_landlordId := account |>
  end.
Definition connectWallet : F unit :=
  run lang (inLang lang "BlueSafe 내부 XRPL 지갑 연결" "BlueSafe internal XRPL wallet connected") (
    session ← connectInternalWallet app.(ap_selectedRole);
    setApp (fun prev => withAddress prev.(ap_selectedRole) session.(ws_account)
      (prev <| ap_walletConnected := true |> <| ap_walletProvider := session.(ws_provider) |>
            <| ap_walletName := session.(ws_account) |> <| ap_walletNetwork := session.(ws_network) |>))).
Definition connectCounterpartyWallet : F unit :=
  let role := match app.(ap_selectedRole) with Tenant => Landlord | Landlord => Tenant end in
  run lang (match role with
            | Tenant => inLang lang "임차인 내부 XRPL 지갑 연결" "Tenant internal XRPL wallet connected"
            | Landlord => inLang lang "임대인 내부 XRPL 지갑 연결" "Landlord internal XRPL wallet connected"
            end) (
    session ← connectInternalWallet role;
    setApp (withAddress role session.(ws_account))).
(** [new Date(s).toISOString()] of a date that the guard has read. *)
Definition isoOf (env : FrontEnv) (s : string) : F string :=
  match date_parse env.(fe_legacy) s with Some t => mret (toISOString t) | None => fthrow "Invalid time value" end.
Definition createDraftContract : F BackendContract :=
  let draft := app.(ap_contractDraft) in
  match app.(ap_contract) with
  | Some c =>
      let contract := withContractDraft c draft in
      setApp (fun prev => prev <| ap_contract := Some contract |>);; mret contract
  | None =>
      run lang (inLang lang "BE2 계약 생성" "BE2 contract created") (
        env ← fenv;
        participants ← must_some (getParticipantIds app) "Tenant and landlord identifiers are required";
        must (isContractDraftReady env.(fe_legacy) draft)
          "Contract depositAmount, stakeAmount, startsAt and endsAt are required";;
        startsAt ← isoOf env draft.(dr_startsAt); endsAt ← isoOf env draft.(dr_endsAt);
        contract ← request (CreateOperationalContract (mkOperational participants.1 participants.2
          (Some draft.(dr_depositAmount)) (Some draft.(dr_stakeAmount)) (Some startsAt) (Some endsAt)));
        setApp (fun prev => prev <| ap_contract := Some contract |>);; mret contract)
  end.
Definition existingContract : F BackendContract :=
  match app.(ap_contract) with Some c => mret c | None => createDraftContract end.
Definition nonempty_string (s : string) : bool := negb (bool_decide (s = "")).
(** The rest of [lockDeposit], once there is a contract. *)
Definition submitEscrow (env : FrontEnv) (contract : BackendContract) : F unit :=
  must (nonempty_string app.(ap_tenantAddress) && nonempty_string app.(ap_landlordAddress))
    "Tenant and landlord wallet addresses are required";;
  participants ← must_some (getParticipantIds app) "Tenant and landlord identifiers are required";
  amounts ← must_some (d ← nonempty contract.(bk_depositAmount); s ← nonempty contract.(bk_stakeAmount); Some (d, s))
    "Contract depositAmount and stakeAmount are required";
  period ← must_some (s ← nonempty contract.(bk_startsAt); e ← nonempty contract.(bk_endsAt); Some (s, e))
    "Contract startsAt and endsAt are required";
  endsAt ← must_some (date_parse env.(fe_legacy) period.2) "Contract endsAt is invalid";
  xrplContract ← request (CreateXrplContract (mkBe1Contract app.(ap_tenantAddress) app.(ap_landlordAddress) amounts.1
    amounts.2 period.1 period.2 (toISOString (addDays endsAt 7)) (toISOString (addDays endsAt 30)) participants.1
    participants.2));
  txHash ← must_some (nonempty xrplContract.(bk_depositEscrowTxHash)) "BE1 did not return an escrow transaction hash";
  anchored ← request (AnchorEscrow contract.(bk_id) txHash);
  caught (request (TrackTx (mkTrack txHash "EscrowCreate"
    (Some (default app.(ap_tenantAddress) xrplContract.(bk_contractAccountAddress))) env.(fe_xrplNetwork))));;
  setApp (fun prev => prev <| ap_contract := Some anchored |> <| ap_xrplContract := Some xrplContract |>).
Definition lockDeposit : F unit :=
  run lang (inLang lang "BE1 에스크로 생성 및 BE2 연결" "BE1 escrow created and anchored to BE2") (
    env ← fenv;
    existing ← existingContract;
    submitEscrow env (withContractDraft existing app.(ap_contractDraft))).
Definition loadSettlements : F unit :=
  match nonempty (bk_id <$> app.(ap_contract)) with
  | None => mret tt
  | Some contractId =>
      run lang (inLang lang "BE2 정산 상태 조회" "BE2 settlement status loaded") (
        items ← request (ListSettlements contractId);
        setApp (fun prev => prev <| ap_settlements := items |>))
  end.
Definition landlordSignContract : F unit :=
  run lang (inLang lang "BE2 임대인 계약 동의" "BE2 landlord agreement saved") (
    contract ← existingContract;
    signed ← request (UpdateOperationalContractStatus contract.(bk_id)
      (if bool_decide (contract.(bk_status) = "draft") then "escrow_pending" else contract.(bk_status)));
    setApp (fun prev => prev <| ap_contract := Some signed |>)).
Definition landlordApproveSettlement : F unit :=
  run lang (inLang lang "BE2 보증금 정산 승인" "BE2 deposit settlement approved") (
    contract ← existingContract;
    settlement ← must_some (head app.(ap_settlements)) "No settlement exists in backend state";
    updated ← request (UpdateSettlementStatus settlement.(sr_id) (mkUpdate (Some "confirmed") settlement.(sr_amountMinor)
      settlement.(sr_currencyCode) (Some ("settlement-" +:+ contract.(bk_id)))));
    setApp (fun prev => prev <| ap_settlements := updated :: drop 1 prev.(ap_settlements) |>)).
End actions.

(** ** Guards of the buttons *)

(** T06: [canCreate], [canContinue]. *)
Definition canCreate (legacy : string -> option Z) (busy : bool) (app : AppModel) : bool :=
  bool_decide (is_Some (getParticipantIds app)) && isContractDraftReady legacy app.(ap_contractDraft) && negb busy.
Definition canContinue (legacy : string -> option Z) (app : AppModel) : bool :=
  bool_decide (is_Some app.(ap_contract)) && isContractDraftReady legacy app.(ap_contractDraft).
(** T07: [!canRunEscrow || busy] disables the button. *)
Definition canRunEscrow (legacy : string -> option Z) (app : AppModel) : bool :=
  bool_decide (is_Some (getPreparedContract app)) && nonempty_string app.(ap_tenantAddress) && nonempty_string app.(ap_landlordAddress)
  && isContractDraftReady legacy app.(ap_contractDraft).
(** L04: [canSign]. *)
Definition canSign (legacy : string -> option Z) (busy : bool) (app : AppModel) : bool :=
  bool_decide (is_Some (getParticipantIds app)) && isContractDraftReady legacy app.(ap_contractDraft) && negb busy.
(** What [ContractTermsForm] writes. *)
Inductive FormEdit := EditDeposit (value : string) | EditStake (value : string) | EditStart (value : string) | EditEnd (value : string).
Definition formPatch (e : FormEdit) (d : ContractDraft) : ContractDraft :=
  match e with
  | EditDeposit v => d <| dr_depositAmount := onlyDigits v |>
  | EditStake v => d <| dr_stakeAmount := onlyDigits v |>
  | EditStart v => d <| dr_startsAt := normalizeDateInput v |>
  | EditEnd v => d <| dr_endsAt := normalizeDateInput v |>
  end.
Definition formDraft (edits : list FormEdit) : ContractDraft := foldl (fun d e => formPatch e d) emptyContractDraft edits.

(** ** Screens *)

Definition allScreens : list string :=
  ["t01"; "role"; "wallet"; "t02"; "t03"; "t04"; "t05"; "t06"; "t07"; "t08"; "t09"; "t10"; "t11"; "t12"; "t13"; "t17";
   "t18"; "t19"; "t20"; "l01"; "l02"; "l03"; "l04"; "l05"; "l06"; "l07"; "l08"; "l10"; "l11"; "l12"].
Definition indexOf (id : string) : option nat := fst <$> list_find (fun s => s = id) allScreens.
(** [findIndex] is -1 when there is none. *)
Definition nextScreen (id : string) : option string :=
  allScreens !! Nat.min (match indexOf id with Some i => S i | None => 0 end) (length allScreens - 1).
Definition backScreen (id : string) : option string :=
  allScreens !! (match indexOf id with Some i => pred i | None => 0 end).
Definition isChromeLessScreen (id : string) : bool :=
  bool_decide (id = "role") || bool_decide (id = "t02") || bool_decide (id = "t09") || bool_decide (id = "l06").

(** [slice] from the end. *)
Definition shortHash (value : string) : string :=
  if (str_length value <=? 12)%nat then value
  else str_take 6 value +:+ "…" +:+ str_drop (str_length value - 4) value.
Definition statusNames : list (string * (string * string)) :=
  [("draft", ("계약 작성 중", "Draft")); ("escrow_pending", ("에스크로 대기", "Escrow pending"));
   ("escrow_validated", ("에스크로 확인 완료", "Escrow validated")); ("active", ("계약 진행 중", "Active"));
   ("closed", ("종료됨", "Closed")); ("cancelled", ("취소됨", "Cancelled")); ("collecting", ("정산 수집 중", "Collecting"));
   ("accrued", ("정산 발생", "Accrued")); ("confirmed", ("정산 확정", "Confirmed")); ("archived", ("보관됨", "Archived"))].
(** [responseNone] is the text of [copy] for a status that is missing. *)
Definition statusText (responseNone : string) (status : option string) (lang : Lang) : string :=
  match nonempty status with
  | None => responseNone
  | Some s => match jm_get s statusNames with
              | Some (ko, en) => match lang with Ko => ko | En => en end
              | None => s
              end
  end.

(** ** The stored state *)

(** [{ ...a, ...b }] and the members that a value spreads (a string, its
    characters, here of ASCII). *)
Definition spread (a b : list (string * JsVal)) : list (string * JsVal) := foldl (fun m kv => jm_set kv.1 kv.2 m) a b.
Definition ownMembers (v : JsVal) : list (string * JsVal) :=
  match v with
  | JObj l => l
  | JArr l => imap (fun i x => (num_str (Z.of_nat i), x)) l
  | JStr s => imap (fun i c => (num_str (Z.of_nat i), JStr (of_chars [c]))) (chars s)
  | _ => []
  end.
Definition draftMembers (d : ContractDraft) : list (string * JsVal) :=
  [("depositAmount", JStr d.(dr_depositAmount)); ("stakeAmount", JStr d.(dr_stakeAmount));
   ("startsAt", JStr d.(dr_startsAt)); ("endsAt", JStr d.(dr_endsAt))].
(** The state as an object: its own members, the settlements, and the two
    contracts once they are set. *)
Definition appMembers (a : AppModel) (settlements : list JsVal) (contracts : list (string * JsVal)) : list (string * JsVal) :=
  [("selectedRole", JStr (role_name a.(ap_selectedRole))); ("walletConnected", JBool a.(ap_walletConnected));
   ("walletProvider", JStr a.(ap_walletProvider)); ("walletName", JStr a.(ap_walletName));
   ("walletNetwork", JStr a.(ap_walletNetwork)); ("tenantId", JStr a.(ap_tenantId)); ("landlordId", JStr a.(ap_landlordId));
   ("tenantAddress", JStr a.(ap_tenantAddress)); ("landlordAddress", JStr a.(ap_landlordAddress));
   ("contractDraft", JObj (draftMembers a.(ap_contractDraft))); ("settlements", JArr settlements);
   ("backendEvents", JArr (JStr <$> a.(ap_backendEvents)))] ++ contracts.
(** [loadStoredApp] on what [localStorage.getItem] gives. *)
Definition loadStoredApp (raw : option string) (selectedRole : UserRole) : list (string * JsVal) :=
  let initial := appMembers (createInitialApp selectedRole) [] [] in
  let arrayOr k stored := match jget k stored with JArr l => JArr l | _ => JArr [] end in
  match nonempty raw ≫= json_parse with
  | None | Some JNull => initial
  | Some stored =>
      spread initial (ownMembers stored ++
        [("selectedRole", coalesce (jget "selectedRole" stored) (JStr (role_name selectedRole)));
         ("contractDraft", JObj (spread (draftMembers emptyContractDraft)
            (ownMembers (coalesce (jget "contractDraft" stored) (JObj [])))));
         ("settlements", arrayOr "settlements" stored); ("backendEvents", arrayOr "backendEvents" stored)])
  end.
(** [getInitialScreen] and [getInitialRole] on the parameters of the URL. *)
Definition getInitialScreen (screen : option string) : string :=
  match screen with Some s => if bool_decide (s ∈ allScreens) then s else "t01" | None => "t01" end.
Definition getInitialRole (role : option string) (screenId : string) : UserRole :=
  if bool_decide (role = Some "tenant") then Tenant else if bool_decide (role = Some "landlord") then Landlord
  else if startsWith screenId "l" then Landlord else Tenant.

(** * Dates *)

Open Scope Z_scope.

Lemma zodFraction_digits l :
  l <> [] -> Forall (fun c => is_digit c = true) l -> zodFraction (l ++ ["Z"%char]) = true.
Proof.
  intros Hne Hl. unfold zodFraction. rewrite rev_app_distr. cbn [rev app].
  rewrite bool_decide_eq_false_2 by (intros E; apply Hne; rewrite <-(rev_involutive l), E; done).
  apply forallb_forall. intros c Hc. apply in_rev in Hc. rewrite Forall_forall in Hl. apply Hl.
  by apply list_elem_of_In.
Qed.

(** One step of the schema on a rendered string. *)
Ltac zod_step :=
  first [rewrite decide_True by done | rewrite read_digits_pad by (simpl; lia)];
  cbn -[pad read_digits date_ms zodSeconds Z.mul Z.add Z.leb].

(** What [toISOString] prints satisfies the schemas that ask for a date-time. *)
Lemma zodDatetime_iso t : iso_range t -> zodDatetime (toISOString t) = true.
Proof.
  intros Ht. destruct (iso_fields t Ht) as (y&m&d&h&mi&s&ms&Hy&Hm&Hd&Hh&Hmi&Hs&Hms&Hday&_&Hiso).
  assert (zodFraction (pad 3 ms ++ ["Z"%char]) = true) as Hfr.
  { apply zodFraction_digits; [intros E; by apply (f_equal length) in E; rewrite pad_length in E|].
    apply pad_digits. lia. }
  unfold zodDatetime. rewrite Hiso. rewrite read_digits_pad by (simpl; lia).
  cbn -[pad read_digits date_ms zodSeconds Z.mul Z.add Z.leb].
  repeat zod_step. rewrite !Z.mul_0_l, !Z.add_0_l, Hday. cbn -[pad read_digits zodSeconds Z.leb].
  repeat zod_step. cbn -[pad read_digits zodFraction Z.leb]. rewrite read_digits_pad by (simpl; lia).
  cbn -[pad zodFraction Z.mul Z.add Z.leb]. cbn [app] in Hfr. rewrite Hfr.
  by rewrite !(proj2 (Z.leb_le _ _)) by lia.
Qed.

(** ** What the form can hold *)

Lemma read_digits_bounds n acc l v r :
  0 <= acc -> read_digits n acc l = Some (v, r) ->
  0 <= v < (acc + 1) * 10 ^ Z.of_nat n /\ exists p, l = p ++ r.
Proof.
  revert acc l. induction n as [|n IH]; intros acc l Hacc H; [simplify_eq/=; split; [lia|by exists []]|].
  destruct l as [|c l]; [done|]. simpl in H. unfold digit_val in H.
  destruct (is_digit c) eqn:Hc; simplify_eq/=. apply andb_true_iff in Hc as [?%N.leb_le ?%N.leb_le].
  apply IH in H as [Hv [p ->]]; [|lia]. split; [|by exists (c :: p)].
  rewrite Nat2Z.inj_succ, Z.pow_succ_r by lia. nia.
Qed.

Lemma date_ms_range y m d t : 0 <= y <= 9999 -> date_ms y m d = Some t -> iso_range t.
Proof.
  unfold date_ms, iso_range. intros Hy H. case_decide as E; [|done]. simplify_eq.
  set (n := days_of_civil y m d) in *. clearbody n.
  pose proof (civil_fields n) as Hf. rewrite E in Hf.
  assert (-719528 <= n <= 2932896) as ?; [|lia].
  destruct (Z.le_gt_cases (-719528) n) as [?|Hlt]; [destruct (Z.le_gt_cases n 2932896) as [?|Hgt]; [done|]|];
    exfalso.
  - pose proof (civil_key_mono 2932896 n ltac:(lia)) as Hk. rewrite E in Hk.
    change (civil_of_days 2932896) with (9999, 12, 31) in Hk. unfold civil_key in Hk. lia.
  - pose proof (civil_key_mono n (-719528) ltac:(lia)) as Hk. rewrite E in Hk.
    change (civil_of_days (-719528)) with (0, 1, 1) in Hk. unfold civil_key in Hk. lia.
Qed.

(** Begins with a digit, if with anything, and has no time of day. *)
Definition dateOnly (s : string) : Prop :=
  match chars s with [] => True | c :: _ => is_digit c = true end /\ ~ "T"%char ∈ chars s.

Lemma read_char_inv c l l' : read_char c l = Some l' -> l = c :: l'.
Proof. destruct l as [|x l]; simpl; [done|]. intros H. case_decide; by simplify_eq. Qed.

Lemma read_year_digit c l y r : is_digit c = true -> read_year (c :: l) = Some (y, r) -> read_digits 4 0 (c :: l) = Some (y, r).
Proof. destruct c as [[] [] [] [] [] [] [] []]; try done. Qed.

(** The next character, or the next two digits, that a parser has read in [H]. *)
Ltac read_sep H :=
  match type of H with context [read_char ?c ?l] =>
    let r := fresh "l" in let E := fresh "E" in
    destruct (read_char c l) as [r|] eqn:E; [apply read_char_inv in E; simplify_eq|done]; cbn [mbind option_bind] in H
  end.
Ltac read_two H :=
  match type of H with context [read_digits 2 0 ?l] =>
    let v := fresh "v" in let r := fresh "r" in let p := fresh "p" in let E := fresh "E" in
    destruct (read_digits 2 0 l) as [[v r]|] eqn:E;
      [apply read_digits_bounds in E as [_ [p ->]]; [|lia]|done]; cbn [mbind option_bind] in H
  end.
Lemma parse_iso_dateOnly s t : dateOnly s -> parse_iso s = Some t -> iso_range t.
Proof.
  unfold dateOnly, parse_iso. intros [Hhead HT] H. destruct (chars s) as [|c l]; [done|].
  destruct (read_year (c :: l)) as [[y l1]|] eqn:Hy; [|done]. apply read_year_digit in Hy; [|done].
  apply read_digits_bounds in Hy as [Hy [p1 Hp1]]; [|lia].
  assert (0 <= y <= 9999) as Hy' by (cbn in Hy; lia). rewrite Hp1 in HT. clear Hhead Hy Hp1 c l.
  cbn [mbind option_bind] in H.
  destruct l1 as [|x1 l1]; [by apply date_ms_range in H|]. read_sep H. read_two H.
  destruct r as [|x3 l3]; [by apply date_ms_range in H|]. read_sep H. read_two H.
  destruct (date_ms y v v0) as [day|] eqn:Hday; [|done]. cbn [mbind option_bind] in H.
  destruct r as [|x5 l5]; [simplify_eq; by apply date_ms_range in Hday|]. read_sep H.
  exfalso. apply HT. set_solver.
Qed.

Lemma onlyDigits_digits v : Forall (fun c => is_digit c = true) (chars (onlyDigits v)).
Proof. unfold onlyDigits. rewrite chars_of_chars, Forall_forall. intros c Hc. by apply list_elem_of_filter in Hc as [? _]. Qed.
Lemma all_chars_Forall p s : all_chars p s = true <-> Forall (fun c => p c = true) (chars s).
Proof. unfold all_chars. rewrite forallb_forall, Forall_forall. by setoid_rewrite list_elem_of_In. Qed.
(** A date as the form shapes it: up to four digits; or four, a hyphen and one
    or two more; or four, two and one or two, with hyphens between them. *)
Definition digitsOf (lo hi : nat) (l : list ascii) : Prop :=
  Forall (fun c => is_digit c = true) l /\ (lo <= length l <= hi)%nat.
Definition dateInput (s : string) : Prop :=
  digitsOf 0 4 (chars s) \/
  (exists y m, chars s = y ++ "-"%char :: m /\ digitsOf 4 4 y /\ digitsOf 1 2 m) \/
  (exists y m d, chars s = y ++ "-"%char :: m ++ "-"%char :: d /\ digitsOf 4 4 y /\ digitsOf 2 2 m /\ digitsOf 1 2 d).
Lemma dateInput_empty : dateInput "".
Proof. left. split; [constructor|simpl; lia]. Qed.

Lemma dateInput_dateOnly s : dateInput s -> dateOnly s.
Proof.
  assert (HT : forall l, Forall (fun c => is_digit c = true) l -> ~ "T"%char ∈ l)
    by (intros l H Hin; rewrite Forall_forall in H; by apply H in Hin).
  assert (Hy : forall y l, digitsOf 4 4 y -> match y ++ l with [] => True | c :: _ => is_digit c = true end).
  { intros [|c y] l [Hy Hlen]; simpl in *; [lia|]. by inversion Hy. }
  unfold dateOnly. intros [[Hd _]|[(y & m & -> & Hy4 & [Hm _])|(y & m & d & -> & Hy4 & [Hm _] & [Hd _])]].
  - split; [destruct (chars s); [done|by inversion Hd]|by apply HT].
  - split; [by apply Hy|]. pose proof (HT _ (proj1 Hy4)). pose proof (HT _ Hm). set_solver.
  - split; [by apply Hy|]. pose proof (HT _ (proj1 Hy4)). pose proof (HT _ Hm). pose proof (HT _ Hd). set_solver.
Qed.
Lemma parse_iso_dateInput s t : dateInput s -> parse_iso s = Some t -> iso_range t.
Proof. intros H. by apply parse_iso_dateOnly, dateInput_dateOnly. Qed.

Lemma normalizeDateInput_dateInput v : dateInput (normalizeDateInput v).
Proof.
  unfold normalizeDateInput. set (digits := str_take 8 (onlyDigits v)).
  assert (Hl : digitsOf 0 8 (chars digits)).
  { unfold digits, str_take. rewrite chars_of_chars. split; [apply Forall_take, onlyDigits_digits|].
    rewrite length_take. lia. }
  clearbody digits. destruct Hl as [Hd Hlen]. unfold str_length, str_take, str_drop.
  destruct (length (chars digits) <=? 4)%nat eqn:E4; [apply Nat.leb_le in E4|apply Nat.leb_gt in E4].
  { left. split; [done|lia]. }
  destruct (length (chars digits) <=? 6)%nat eqn:E6; [apply Nat.leb_le in E6|apply Nat.leb_gt in E6];
    unfold dateInput; rewrite !chars_app, !chars_of_chars; right; [left|right].
  - exists (take 4 (chars digits)), (drop 4 (chars digits)). split; [done|].
    split; (split; [by first [apply Forall_take|apply Forall_drop]|]); rewrite ?length_take, ?length_drop; lia.
  - exists (take 4 (chars digits)), (take 2 (drop 4 (chars digits))), (drop 6 (chars digits)). split; [done|].
    split_and!; (split; [by first [apply Forall_take, Forall_drop|apply Forall_take|apply Forall_drop]|]);
      rewrite ?length_take, ?length_drop; lia.
Qed.

(** The invariant of a draft that only the form writes. *)
Definition formShape (d : ContractDraft) : Prop :=
  all_chars is_digit d.(dr_depositAmount) = true /\ all_chars is_digit d.(dr_stakeAmount) = true /\
  dateInput d.(dr_startsAt) /\ dateInput d.(dr_endsAt).
Lemma formPatch_shape e d : formShape d -> formShape (formPatch e d).
Proof.
  intros (?&?&?&?). destruct e; split_and!; cbn; try done;
    first [apply normalizeDateInput_dateInput|apply all_chars_Forall, onlyDigits_digits].
Qed.
Lemma formDraft_shape edits : formShape (formDraft edits).
Proof.
  unfold formDraft. assert (formShape emptyContractDraft) as Hd by (split_and!; [done|done| |]; apply dateInput_empty).
  revert Hd. generalize emptyContractDraft. induction edits as [|e edits IH]; intros d Hd; [done|]. by apply IH, formPatch_shape.
Qed.

(** * The outcome of an action *)

Definition ends {A} (env : FrontEnv) (m : F A) (u : Ui) (Q : string + A -> Ui -> Prop) : Prop :=
  Q (m env u).1 (m env u).2.
(** What [sendApi] leaves: one more call. *)
Definition calling {A} (a : Api A) (u : Ui) : Ui :=
  u <| ui_sent := u.(ui_sent) ++ [(u.(ui_busy), call a)] |> <| ui_calls := S u.(ui_calls) |>.
(** What [run] leaves after its task: the banner, and an event. *)
Definition ran (u u' : Ui) : Prop :=
  u'.(ui_sent) = u.(ui_sent) /\ u'.(ui_calls) = u.(ui_calls) /\ u'.(ui_busy) = false /\
  u'.(ui_app).(ap_contract) = u.(ui_app).(ap_contract) /\ u'.(ui_app).(ap_xrplContract) = u.(ui_app).(ap_xrplContract) /\
  u'.(ui_app).(ap_settlements) = u.(ui_app).(ap_settlements).

Section outcomes.
Context (env : FrontEnv).

Lemma oc_intro {A} (m : F A) u Q : ends env m u Q -> let '(r, u') := m env u in Q r u'.
Proof. unfold ends. by destruct (m env u). Qed.
Lemma oc_bind {A B} (m : F A) (k : A -> F B) u Q :
  ends env m u (fun r u' => match r with inr a => ends env (k a) u' Q | inl e => Q (inl e) u' end) ->
  ends env (m ≫= k) u Q.
Proof. unfold ends. cbv [mbind F_bind]. by destruct (m env u) as [[e|a] u']. Qed.
Lemma oc_mono {A} (m : F A) u (Q Q' : string + A -> Ui -> Prop) :
  ends env m u Q -> (forall r u', Q r u' -> Q' r u') -> ends env m u Q'.
Proof. unfold ends. auto. Qed.
Lemma oc_answer {A} refused (a : Api A) u Q :
  (forall e, (forall x, env.(fe_server) A u.(ui_calls) a <> Success x) -> Q (inl e) (calling a u)) ->
  (forall x, env.(fe_server) A u.(ui_calls) a = Success x -> Q (inr x) (calling a u)) ->
  ends env (sendApi refused a) u Q.
Proof.
  unfold ends, sendApi. destruct (fe_server env A (ui_calls u) a) eqn:E; intros H1 H2; cbn;
    first [by apply H2|apply H1; congruence].
Qed.
Lemma oc_must (ok : bool) message u Q :
  (ok = true -> Q (inr tt) u) -> (ok = false -> Q (inl message) u) -> ends env (must ok message) u Q.
Proof. destruct ok; unfold ends; cbn; auto. Qed.
Lemma oc_must_some {A} (o : option A) message u Q :
  (forall a, o = Some a -> Q (inr a) u) -> (o = None -> Q (inl message) u) -> ends env (must_some o message) u Q.
Proof. destruct o; unfold ends; cbn; auto. Qed.
Lemma oc_run {A} lang label (task : F A) u Q :
  ends env task (u <| ui_busy := true |> <| ui_error := "" |>) (fun r u1 => forall u', ran u1 u' -> Q r u') ->
  ends env (run lang label task) u Q.
Proof.
  unfold ends, run. destruct (task env _) as [[e|a] u1]; cbn; intros H; apply H; repeat split.
Qed.
End outcomes.

(** * Contract creation *)

(** The body that BE2 receives. *)
Definition asBody (i : CreateOperational) : CreateContract :=
  mkCreateContract i.(op_tenantId) i.(op_landlordId) i.(op_depositAmount) i.(op_stakeAmount) i.(op_startsAt) i.(op_endsAt).

Lemma participants_named app p : getParticipantIds app = Some p -> p.1 <> "" /\ p.2 <> "".
Proof.
  unfold getParticipantIds. set (a := orString _ _). set (b := orString _ _). clearbody a b.
  repeat case_bool_decide; try done. cbn. intros ?. by simplify_eq.
Qed.
Lemma positive_digits s : positiveNumber s = true -> truthy (Some s) && all_chars is_digit s = true.
Proof.
  unfold positiveNumber. intros [Hd Hz]%andb_true_iff. rewrite Hd, andb_true_r.
  apply negb_true_iff in Hz. by destruct s.
Qed.
(** What a ready draft of the form amounts to. *)
Lemma ready_draft legacy d :
  (forall s t, dateInput s -> legacy s = Some t -> iso_range t) -> formShape d -> isContractDraftReady legacy d = true ->
  positiveNumber d.(dr_depositAmount) = true /\ positiveNumber d.(dr_stakeAmount) = true /\
  exists s e, date_parse legacy d.(dr_startsAt) = Some s /\ date_parse legacy d.(dr_endsAt) = Some e /\
    s < e /\ iso_range s /\ iso_range e.
Proof.
  intros Hleg (_&_&Hs&He) H. unfold isContractDraftReady in H.
  apply andb_true_iff in H as [[Hp1 Hp2]%andb_true_iff H]. split_and!; [done|done|].
  assert (forall v t, dateInput v -> parseDate legacy (Some v) = Some t -> date_parse legacy v = Some t /\ iso_range t) as Hr.
  { intros v t Hv Hp. unfold parseDate in Hp. destruct (nonempty (Some v)) as [v'|] eqn:Hn; [|done].
    unfold nonempty in Hn. case_match; [|done]. injection Hn as <-. cbn in Hp. split; [done|]. unfold date_parse in Hp.
    destruct (parse_iso v) eqn:Hi; simplify_eq; [by eapply parse_iso_dateInput|by eapply Hleg]. }
  destruct (parseDate legacy (Some d.(dr_startsAt))) as [s|] eqn:E1; [|done].
  destruct (parseDate legacy (Some d.(dr_endsAt))) as [e|] eqn:E2; [|done].
  apply Hr in E1 as [??], E2 as [??]; [|done..]. exists s, e. split_and!; auto. lia.
Qed.

Lemma oc_isoOf env s u Q :
  (forall t, date_parse env.(fe_legacy) s = Some t -> Q (inr (toISOString t)) u) ->
  (date_parse env.(fe_legacy) s = None -> Q (inl "Invalid time value") u) -> ends env (isoOf env s) u Q.
Proof. unfold isoOf, ends. intros H1 H2. destruct (date_parse _ s) eqn:E; [exact (H1 _ eq_refl)|exact (H2 eq_refl)]. Qed.

(** [u'] differs from [u] by the calls [l] and leaves the two contracts alone. *)
Definition sentOnly (l : list (bool * ApiCall)) (u u' : Ui) : Prop :=
  u'.(ui_sent) = u.(ui_sent) ++ l /\
  u'.(ui_app).(ap_contract) = u.(ui_app).(ap_contract) /\ u'.(ui_app).(ap_xrplContract) = u.(ui_app).(ap_xrplContract).

(** The request that [createDraftContract] makes when the guard of its button holds. *)
Definition creation (env : FrontEnv) (d : ContractDraft) (p : string * string) (op : CreateOperational) : Prop :=
  exists s e, date_parse env.(fe_legacy) d.(dr_startsAt) = Some s /\ date_parse env.(fe_legacy) d.(dr_endsAt) = Some e /\
    s < e /\ iso_range s /\ iso_range e /\
    op = mkOperational p.1 p.2 (Some d.(dr_depositAmount)) (Some d.(dr_stakeAmount)) (Some (toISOString s)) (Some (toISOString e)).

Lemma creation_valid env d p op :
  p.1 <> "" -> p.2 <> "" -> positiveNumber d.(dr_depositAmount) = true -> positiveNumber d.(dr_stakeAmount) = true ->
  creation env d p op -> createContractSchema (asBody op) = true.
Proof.
  intros H1 H2 Hd Hs (s&e&_&_&_&Hs'&He'&->). unfold createContractSchema. cbn -[truthy all_chars zodDatetime toISOString].
    rewrite (positive_digits _ Hd), (positive_digits _ Hs), !zodDatetime_iso by done.
  cbn. by rewrite !bool_decide_eq_false_2.
Qed.

(** What the mobile app asks BE2 to create is what BE2 accepts.  Whatever was typed into the
    contract form, and whichever of the dates that the form lets through the engine reads beyond the
    ISO formats, as long as it reads them within the years 0 to 9999: [createDraftContract] without a contract sends nothing and fails
    unless both participants are known and the terms are ready; otherwise it makes one call, while the
    buttons are disabled, whose body satisfies [createContractSchema], starts before it ends, and whose
    answer becomes the contract of the app.  The buttons are enabled again in every case. *)
Theorem draft_accepted lang app edits env u :
  (forall s t, dateInput s -> env.(fe_legacy) s = Some t -> iso_range t) ->
  app.(ap_contract) = None -> app.(ap_contractDraft) = formDraft edits ->
  let '(r, u') := createDraftContract lang app env u in
  u'.(ui_busy) = false /\
  match getParticipantIds app, isContractDraftReady env.(fe_legacy) app.(ap_contractDraft) with
  | Some p, true =>
      exists op, creation env app.(ap_contractDraft) p op /\ createContractSchema (asBody op) = true /\
        match env.(fe_server) _ u.(ui_calls) (CreateOperationalContract op) with
        | Success c => r = inr c /\ u'.(ui_sent) = u.(ui_sent) ++ [(true, call (CreateOperationalContract op))] /\
                       u'.(ui_app).(ap_contract) = Some c
        | _ => (exists e, r = inl e) /\ sentOnly [(true, call (CreateOperationalContract op))] u u'
        end
  | _, _ => (exists e, r = inl e) /\ sentOnly [] u u'
  end.
Proof.
  intros Hleg Hno Hform. pose proof (formDraft_shape edits) as Hshape. rewrite <-Hform in Hshape. clear Hform.
  apply oc_intro. unfold createDraftContract. rewrite Hno. apply oc_run, oc_bind. unfold ends at 1. cbn [fenv fst snd].
  apply oc_bind, oc_must_some; [intros p Hp|intros Hp u' (Hs&_&Hb&Hc&Hx&_); rewrite Hp; split; [done|]; split; [eauto|]; repeat split; [by rewrite Hs, app_nil_r|done|done]].
  apply oc_bind, oc_must; [intros Hr|intros Hr u' (Hs&_&Hb&Hc&Hx&_); rewrite Hp, Hr; split; [done|]; split; [eauto|]; repeat split; [by rewrite Hs, app_nil_r|done|done]].
  destruct (ready_draft _ _ Hleg Hshape Hr) as (Hd&Hst&s&e&Hs&He&Hlt&Hrs&Hre). rewrite Hp, Hr.
  apply oc_bind, oc_isoOf; rewrite Hs; [|done]. intros ? [= <-].
  apply oc_bind, oc_isoOf; rewrite He; [|done]. intros ? [= <-].
  destruct (participants_named _ _ Hp) as [Hp1 Hp2].
  set (op := mkOperational _ _ _ _ _ _).
  assert (creation env app.(ap_contractDraft) p op) as Hop by (exists s, e; split_and!; done).
  pose proof (creation_valid _ _ _ _ Hp1 Hp2 Hd Hst Hop) as Hval. clearbody op.
  apply oc_bind, oc_answer.
  - intros e' Hne u' (Hsent&_&Hb&Hc&Hx&_). split; [done|]. exists op. split_and!; [done|done|]. cbn in Hne.
    destruct (fe_server env _ (ui_calls u) _) as [m|? ? ?|c]; [..|by destruct (Hne c)];
      (split; [eauto|repeat split; done]).
  - intros c Hans. cbn in Hans. apply oc_bind. intros u' (Hsent&_&Hb&Hc&Hx&_). split; [done|]. exists op.
    rewrite Hans. split_and!; done.
Qed.

(** * The escrow *)

(** What the body says, for an app and its contract completed with the draft. *)
Definition escrowTerms (env : FrontEnv) (app : AppModel) (c : BackendContract) (b : CreateBe1Contract) : Prop :=
  getParticipantIds app = Some (b.(b1_tenantPii), b.(b1_landlordPii)) /\
  b.(b1_tenantAddress) = app.(ap_tenantAddress) /\ b.(b1_landlordAddress) = app.(ap_landlordAddress) /\
  nonempty c.(bk_depositAmount) = Some b.(b1_depositAmount) /\ nonempty c.(bk_stakeAmount) = Some b.(b1_stakeAmount) /\
  nonempty c.(bk_startsAt) = Some b.(b1_startsAt) /\ nonempty c.(bk_endsAt) = Some b.(b1_endsAt) /\
  exists t, date_parse env.(fe_legacy) b.(b1_endsAt) = Some t /\
    b.(b1_finishAfter) = toISOString (addDays t 7) /\ b.(b1_cancelAfter) = toISOString (addDays t 30).
Definition fails {A} (r : string + A) : Prop := exists e, r = inl e.
Definition trackEscrow (env : FrontEnv) (app : AppModel) (x : BackendContract) (txHash : string) : TrackTxInput :=
  mkTrack txHash "EscrowCreate" (Some (default app.(ap_tenantAddress) x.(bk_contractAccountAddress))) env.(fe_xrplNetwork).
(** Where [submitEscrow] can end, by the answers to its calls. *)
Definition escrowEnds (env : FrontEnv) (app : AppModel) (c : BackendContract) (b : CreateBe1Contract) (u : Ui)
    (r : string + unit) (u' : Ui) : Prop :=
  let create := call (CreateXrplContract b) in
  match env.(fe_server) _ u.(ui_calls) (CreateXrplContract b) with
  | Success x =>
      match nonempty x.(bk_depositEscrowTxHash) with
      | None => fails r /\ sentOnly [(true, create)] u u'
      | Some h =>
          let anchor := call (AnchorEscrow c.(bk_id) h) in
          match env.(fe_server) _ (S u.(ui_calls)) (AnchorEscrow c.(bk_id) h) with
          | Success anchored =>
              r = inr tt /\
              u'.(ui_sent) = u.(ui_sent) ++ [(true, create); (true, anchor); (true, call (TrackTx (trackEscrow env app x h)))] /\
              u'.(ui_app).(ap_contract) = Some anchored /\ u'.(ui_app).(ap_xrplContract) = Some x
          | _ => fails r /\ sentOnly [(true, create); (true, anchor)] u u'
          end
      end
  | _ => fails r /\ sentOnly [(true, create)] u u'
  end.
(** The guards of [submitEscrow] hold. *)
Definition escrowReady (env : FrontEnv) (app : AppModel) (c : BackendContract) : Prop :=
  app.(ap_tenantAddress) <> "" /\ app.(ap_landlordAddress) <> "" /\ exists b, escrowTerms env app c b.

Lemma sentOnly_nil u u' : ran u u' -> sentOnly [] u u'.
Proof. intros (Hs&_&_&Hc&Hx&_). split_and!; [by rewrite Hs, app_nil_r|done|done]. Qed.
Lemma fails_inl {A} e : fails (A := A) (inl e).
Proof. by exists e. Qed.
Lemma sentOnly_refl u : sentOnly [] u u.
Proof. split_and!; [by rewrite app_nil_r|done|done]. Qed.
Lemma sent_one {A} (a : Api A) u : u.(ui_busy) = true -> sentOnly [(true, call a)] u (calling a u).
Proof. intros Hb. split_and!; cbn; by rewrite ?Hb. Qed.
Lemma sent_two {A B} (a : Api A) (a' : Api B) u :
  u.(ui_busy) = true -> sentOnly [(true, call a); (true, call a')] u (calling a' (calling a u)).
Proof. intros Hb. split_and!; cbn; by rewrite ?Hb, <-?(assoc_L (++)). Qed.
#[local] Hint Resolve sentOnly_refl fails_inl sent_one sent_two : core.

Lemma submitEscrow_ends env app c u :
  u.(ui_busy) = true ->
  ends env (submitEscrow app env c) u (fun r u' =>
    (~ escrowReady env app c /\ fails r /\ sentOnly [] u u') \/
    exists b, app.(ap_tenantAddress) <> "" /\ app.(ap_landlordAddress) <> "" /\ escrowTerms env app c b /\
              escrowEnds env app c b u r u').
Proof.
  intros Hbusy. unfold submitEscrow.
  apply oc_bind, oc_must; intros Haddr; [apply andb_true_iff in Haddr as [Ha1 Ha2]|left; split; [|done]].
  2: { intros (?&?&_). unfold nonempty_string in Haddr. by rewrite !bool_decide_eq_false_2 in Haddr. }
  unfold nonempty_string in Ha1, Ha2. bool_to_prop.
  apply oc_bind, oc_must_some; [intros p Hp|intros Hp; left; split; [|done]; intros (_&_&b&Hb&_); congruence].
  apply oc_bind, oc_must_some; [intros am Ham|intros Ham; left; split; [|done]].
  2: { intros (_&_&b&_&_&_&Hd&Hs&_). by rewrite Hd, Hs in Ham. }
  apply oc_bind, oc_must_some; [intros pe Hpe|intros Hpe; left; split; [|done]].
  2: { intros (_&_&b&_&_&_&_&_&Hd&Hs&_). by rewrite Hd, Hs in Hpe. }
  destruct (nonempty c.(bk_depositAmount)) as [d|] eqn:Hd; [|done].
  destruct (nonempty c.(bk_stakeAmount)) as [st|] eqn:Hst; [|done]. injection Ham as <-.
  destruct (nonempty c.(bk_startsAt)) as [s|] eqn:Hs; [|done].
  destruct (nonempty c.(bk_endsAt)) as [e|] eqn:He; [|done]. injection Hpe as <-. cbn [fst snd].
  apply oc_bind, oc_must_some; [intros t Ht|intros Ht; left; split; [|done]].
  2: { intros (_&_&b&_&_&_&_&_&_&He'&t&Ht'&_). congruence. }
  set (b := mkBe1Contract _ _ _ _ _ _ _ _ _ _).
  assert (escrowTerms env app c b) as Hb.
  { split_and!; try done; [by rewrite Hp; destruct p|]. by exists t. }
  eapply oc_mono; [|intros r u' H; right; exists b; exact (conj Ha1 (conj Ha2 (conj Hb H)))]. clearbody b. clear Hb.
  unfold escrowEnds. apply oc_bind, oc_answer; [intros err Hne|intros x Hx; rewrite Hx].
  { destruct (fe_server env _ (ui_calls u) _) as [?|? ? ?|x]; [auto..|by destruct (Hne x)]. }
  apply oc_bind, oc_must_some; [intros h Hh|intros Hh]; rewrite Hh; [|auto].
  apply oc_bind, oc_answer; [intros err Hne|intros anchored Han]; cbn in Han || cbn in Hne.
  { destruct (fe_server env _ (S (ui_calls u)) _) as [?|? ? ?|y]; [auto..|by destruct (Hne y)]. }
  rewrite Han. apply oc_bind. unfold ends, caught, request, sendApi. cbn.
  split_and!; try done. by rewrite ?Hbusy, <-!(assoc_L (++)).
Qed.

Lemma sentOnly_ran l u u1 u' : sentOnly l u u1 -> ran u1 u' -> sentOnly l u u'.
Proof. intros (H1&H2&H3) (Hs&_&_&Hc&Hx&_). split_and!; congruence. Qed.
Lemma escrowEnds_ran env app c b u r u1 u' : escrowEnds env app c b u r u1 -> ran u1 u' -> escrowEnds env app c b u r u'.
Proof.
  unfold escrowEnds. intros H Hran.
  repeat case_match; (destruct H as [? H]; split; [done|]); try by eapply sentOnly_ran.
  destruct H as (?&?&?), Hran as (?&_&_&?&?&_). split_and!; congruence.
Qed.

(** [ValidationPipe] on the body of [POST /contracts]: the decorators of
    [CreateContractDto] on the fields that the app fills. *)
Definition alphanumeric (c : ascii) : bool := is_digit c || is_lower c || is_upper c.
Definition addressFormat (s : string) : bool :=
  match chars s with
  | "r"%char :: l => (24 <=? length l)%nat && (length l <=? 34)%nat && forallb alphanumeric l
  | _ => false
  end.
Definition be1Dto (legacy : string -> option Z) (b : CreateBe1Contract) : option CreateContractInput :=
  s ← date_parse legacy b.(b1_startsAt); e ← date_parse legacy b.(b1_endsAt);
  f ← date_parse legacy b.(b1_finishAfter); c ← date_parse legacy b.(b1_cancelAfter);
  let i := mkCreate b.(b1_tenantAddress) b.(b1_landlordAddress) b.(b1_depositAmount) b.(b1_stakeAmount) s e f c
             b.(b1_tenantPii) b.(b1_landlordPii) None None None None in
  if addressFormat b.(b1_tenantAddress) && addressFormat b.(b1_landlordAddress) && depositStakeShape i
     && truthy (Some b.(b1_stakeAmount)) && truthy (Some b.(b1_tenantPii)) && truthy (Some b.(b1_landlordPii))
  then Some i else None.

Lemma addressFormat_nonempty s : addressFormat s = true -> s <> "".
Proof. by intros H ->. Qed.
Lemma allDigits_nonempty s : allDigits s = true -> nonempty (Some s) = Some s.
Proof. unfold allDigits, nonempty. by destruct s. Qed.
Lemma nonempty_iso t : nonempty (Some (toISOString t)) = Some (toISOString t).
Proof. unfold nonempty. cbn -[toISOString]. by rewrite bool_decide_eq_false_2 by apply toISOString_nonempty. Qed.
Lemma date_parse_iso legacy t : iso_range t -> date_parse legacy (toISOString t) = Some t.
Proof. intros. unfold date_parse. by rewrite parse_iso_toISOString. Qed.
Lemma orElse_first a b v : nonempty a = Some v -> orElse a b = Some v.
Proof. unfold orElse. by intros ->. Qed.

(** A contract whose terms BE2 has stored, as the app receives it. *)
Definition storedTerms (c : BackendContract) (deposit stake : string) (s e : Z) : Prop :=
  c.(bk_depositAmount) = Some deposit /\ allDigits deposit = true /\ c.(bk_stakeAmount) = Some stake /\
  allDigits stake = true /\ c.(bk_startsAt) = Some (toISOString s) /\ c.(bk_endsAt) = Some (toISOString e) /\
  iso_range s /\ iso_range e /\ iso_range (addDays e 30).

(** What BE1 makes of the body: escrows that finish a week and cancel a month after the lease. *)
Lemma dto_of_terms env legacy app c b deposit stake s e :
  storedTerms c deposit stake s e -> addressFormat app.(ap_tenantAddress) = true ->
  addressFormat app.(ap_landlordAddress) = true -> escrowTerms env app c b ->
  exists dto, be1Dto legacy b = Some dto /\ depositStakeShape dto = true /\ dto.(ci_startsAt) = s /\ dto.(ci_endsAt) = e /\
    dto.(ci_finishAfter) = addDays e 7 /\ dto.(ci_cancelAfter) = addDays e 30.
Proof.
  intros (Hd&Hdd&Hs&Hsd&Hst&Hen&Rs&Re&Rc) Ht Hl (Hp&Ha1&Ha2&Hbd&Hbs&Hbst&Hben&t&Hpt&Hf&Hc).
  rewrite Hd, allDigits_nonempty in Hbd by done. rewrite Hs, allDigits_nonempty in Hbs by done.
  rewrite Hst, nonempty_iso in Hbst. rewrite Hen, nonempty_iso in Hben.
  injection Hbd as Hbd. injection Hbs as Hbs. injection Hbst as Hbst. injection Hben as Hben.
  rewrite <-Hben, date_parse_iso in Hpt by done. injection Hpt as <-.
  assert (iso_range (addDays e 7)) as Rf by (unfold iso_range, addDays, dayMs in *; lia).
  destruct (participants_named _ _ Hp) as [Hp1 Hp2]. cbn [fst snd] in Hp1, Hp2.
  unfold be1Dto. rewrite <-Hbst, <-Hben, Hf, Hc, !date_parse_iso by done. cbn -[addressFormat depositStakeShape toISOString].
  rewrite Ha1, Ha2, Ht, Hl, <-Hbd, <-Hbs. unfold depositStakeShape at 1. cbn -[toISOString allDigits addressFormat depositStakeShape].
  rewrite Hdd, Hsd, (bool_decide_eq_false_2 (stake = "")), !bool_decide_eq_false_2 by (first [done|by intros ->]).
  eexists. split; [reflexivity|]. split_and!; try done. unfold depositStakeShape. cbn. by rewrite Hdd, Hsd.
Qed.

Lemma lock_terms env app c deposit stake s e :
  storedTerms c deposit stake s e -> addressFormat app.(ap_tenantAddress) = true ->
  addressFormat app.(ap_landlordAddress) = true -> escrowReady env app c.
Proof.
  intros (Hd&Hdd&Hs&Hsd&Hst&Hen&Rs&Re&Rc) Ht Hl. apply addressFormat_nonempty in Ht, Hl. split_and!; [done|done|].
  assert (exists p, getParticipantIds app = Some p) as [p Hp].
  { unfold getParticipantIds, orString. repeat case_bool_decide; naive_solver. }
  exists (mkBe1Contract app.(ap_tenantAddress) app.(ap_landlordAddress) deposit stake (toISOString s) (toISOString e)
       (toISOString (addDays e 7)) (toISOString (addDays e 30)) p.1 p.2).
  unfold escrowTerms. cbn -[toISOString]. rewrite Hd, Hs, Hst, Hen, !nonempty_iso, !allDigits_nonempty by done.
  split_and!; try done; [by destruct p|]. exists e. by rewrite date_parse_iso.
Qed.

(** The deposit that the mobile app locks is the deposit of the contract, and BE1 accepts the request:
    for a contract whose terms BE2 has stored and two connected wallets, [lockDeposit] makes exactly one
    [POST /contracts]; BE1's [ValidationPipe] accepts its body, and both escrows it then creates pass
    [validateEscrowParams].  Where the action ends is [escrowEnds]. *)
Lemma lock_accepted lang app env legacyBe1 u c deposit stake s e :
  app.(ap_contract) = Some c -> storedTerms c deposit stake s e ->
  addressFormat app.(ap_tenantAddress) = true -> addressFormat app.(ap_landlordAddress) = true ->
  let '(r, u') := lockDeposit lang app env u in
  u'.(ui_busy) = false /\
  exists b dto, escrowTerms env app c b /\ be1Dto legacyBe1 b = Some dto /\ depositStakeShape dto = true /\
    dto.(ci_startsAt) = s /\ dto.(ci_endsAt) = e /\ dto.(ci_finishAfter) = addDays e 7 /\
    dto.(ci_cancelAfter) = addDays e 30 /\
    (forall wallet operator amount,
       validateEscrowParams (depositEscrow (mkLock dto wallet operator) amount) = inr tt /\
       validateEscrowParams (stakeEscrow (mkLock dto wallet operator) amount) = inr tt) /\
    escrowEnds env app c b u r u'.
Proof.
  intros Hc Hterms Ht Hl. apply oc_intro. unfold lockDeposit. apply oc_run, oc_bind.
  unfold ends at 1. cbn [fenv fst snd]. apply oc_bind. unfold existingContract. rewrite Hc.
  unfold ends at 1. cbn [mret F_ret fst snd]. set (c' := withContractDraft c _).
  pose proof Hterms as (Hd&Hdd&Hs&Hsd&Hst&Hen&_).
  assert (c' = c) as ->.
  { subst c'. unfold withContractDraft. destruct c; cbn -[toISOString allDigits] in *. subst.
    by rewrite !(orElse_first _ _ _ (nonempty_iso _)), (orElse_first _ _ _ (allDigits_nonempty _ Hdd)),
      (orElse_first _ _ _ (allDigits_nonempty _ Hsd)). }
  eapply oc_mono; [by apply submitEscrow_ends|]. intros r u1 H u' Hran. split; [apply Hran|].
  destruct H as [[Hno _]|(b&_&_&Hb&Hends)]; [by destruct Hno; eapply lock_terms|].
  destruct (dto_of_terms _ legacyBe1 _ _ _ _ _ _ _ Hterms Ht Hl Hb) as (dto&Hdto&Hshape&H1&H2&Hf&Hca).
  exists b, dto. split_and!; try done; [|by eapply escrowEnds_ran in Hends].
  intros wallet operator amount. unfold validateEscrowParams. cbn. rewrite Hf, Hca.
  by rewrite (proj2 (Z.leb_gt _ _)) by (unfold addDays, dayMs; lia).
Qed.

(** * Sessions *)

Inductive Action :=
  | SelectRole (role : UserRole) | Edit (e : FormEdit) | ConnectOwn | ConnectCounterparty | CreateDraft | LockDeposit
  | LoadSettlements | Sign | Approve.
Definition perform (lang : Lang) (app : AppModel) (a : Action) : F unit :=
  match a with
  | SelectRole role => selectRole role
  | Edit e => updateContractDraft (formPatch e)
  | ConnectOwn => connectWallet lang app
  | ConnectCounterparty => connectCounterpartyWallet lang app
  | CreateDraft => createDraftContract lang app;; mret tt
  | LockDeposit => lockDeposit lang app
  | LoadSettlements => loadSettlements lang app
  | Sign => landlordSignContract lang app
  | Approve => landlordApproveSettlement lang app
  end.
(** A session from an empty storage.  An action sees the state of the render it
    was made in, which may be any earlier one; a reload keeps the state (it is
    stored after every change) and forgets [busy] and the banner. *)
Inductive session (env : FrontEnv) : list AppModel -> Ui -> Prop :=
  | session_start role : session env [] (mkUi (createInitialApp role) false "" [] 0)
  | session_act rendered u lang app a :
      session env rendered u -> app ∈ u.(ui_app) :: rendered ->
      session env (u.(ui_app) :: rendered) (perform lang app a env u).2
  | session_reload rendered u :
      session env rendered u -> session env [] (u <| ui_busy := false |> <| ui_error := "" |>).

Record appInv (a : AppModel) : Prop := mkAppInv {
  ai_form : formShape a.(ap_contractDraft);
  ai_tenant : a.(ap_tenantId) = a.(ap_tenantAddress);
  ai_landlord : a.(ap_landlordId) = a.(ap_landlordAddress);
  ai_events : (length a.(ap_backendEvents) <= 5)%nat;
  ai_escrow : forall x, a.(ap_xrplContract) = Some x ->
    is_Some a.(ap_contract) /\ is_Some (nonempty x.(bk_depositEscrowTxHash)) }.
(** A call that a session may make, after the calls [sent]. *)
Definition goodCall (env : FrontEnv) (sent : list (bool * ApiCall)) (c : ApiCall) : Prop :=
  match c with
  | call a =>
      match a with
      | CreateOperationalContract op => createContractSchema (asBody op) = true
      | CreateXrplContract b =>
          b.(b1_tenantAddress) <> "" /\ b.(b1_landlordAddress) <> "" /\
          b.(b1_tenantPii) = b.(b1_tenantAddress) /\ b.(b1_landlordPii) = b.(b1_landlordAddress)
      | AnchorEscrow _ h =>
          exists n b x, snd <$> sent !! n = Some (call (CreateXrplContract b)) /\
            env.(fe_server) _ n (CreateXrplContract b) = Success x /\ nonempty x.(bk_depositEscrowTxHash) = Some h
      | _ => True
      end
  end.
Record sessionInv (env : FrontEnv) (u : Ui) : Prop := mkSessionInv {
  si_app : appInv u.(ui_app);
  si_calls : u.(ui_calls) = length u.(ui_sent);
  si_good : Forall (fun c => goodCall env u.(ui_sent) c.2) u.(ui_sent) }.

Lemma goodCall_app env sent l c : goodCall env sent c -> goodCall env (sent ++ l) c.
Proof.
  destruct c as [A []]; cbn; try done. intros (n&b&x&Hn&?). exists n, b, x. split; [|done].
  destruct (sent !! n) as [y|] eqn:E; [|done]. by rewrite (lookup_app_l_Some _ _ _ _ E).
Qed.

Section session_rules.
Context (env : FrontEnv).
Notation safe m u := (ends env m u (fun _ u' => sessionInv env u')).

Lemma sessionInv_calling {A} (a : Api A) u :
  goodCall env u.(ui_sent) (call a) -> sessionInv env u -> sessionInv env (calling a u).
Proof.
  intros Ha [Happ Hcalls Hgood]. split; cbn; [done|by rewrite length_app, Hcalls, Nat.add_comm|].
  apply Forall_app. split; [|constructor; [by apply goodCall_app|constructor]].
  eapply Forall_impl; [exact Hgood|]. intros c. apply goodCall_app.
Qed.
Lemma safe_request {A} refused (a : Api A) u (Q : string + A -> Ui -> Prop) :
  goodCall env u.(ui_sent) (call a) -> sessionInv env u ->
  (forall e, sessionInv env (calling a u) -> Q (inl e) (calling a u)) ->
  (forall x, env.(fe_server) A u.(ui_calls) a = Success x -> sessionInv env (calling a u) -> Q (inr x) (calling a u)) ->
  ends env (sendApi refused a) u Q.
Proof. intros Ha HS H1 H2. apply oc_answer; intros; [apply H1|apply H2; [done|]]; by apply sessionInv_calling. Qed.
Lemma sessionInv_app f u : sessionInv env u -> appInv (f u.(ui_app)) -> sessionInv env (u <| ui_app := f u.(ui_app) |>).
Proof. by intros [_ ? ?] ?. Qed.
Lemma sessionInv_quiet b e u : sessionInv env u -> sessionInv env (u <| ui_busy := b |> <| ui_error := e |>).
Proof. by intros [? ? ?]. Qed.
Lemma sessionInv_push message u : sessionInv env u -> sessionInv env (pushEvent message env u).2.
Proof.
  intros HS. apply (sessionInv_app (fun prev => prev <| ap_backendEvents := take 5 (message :: prev.(ap_backendEvents)) |>)).
  - done.
  - destruct HS as [[? ? ? ? ?] _ _]. split; try done. cbn. rewrite length_take. lia.
Qed.
Lemma safe_run {A} lang label (task : F A) u :
  sessionInv env u -> (forall u0, sessionInv env u0 -> safe task u0) -> safe (run lang label task) u.
Proof.
  intros HS Htask. pose proof (Htask _ (sessionInv_quiet true "" u HS)) as H. unfold ends, run in *.
  destruct (task env _) as [[e|a] u1]; cbn [fst snd] in *.
  - pose proof (sessionInv_push (label +:+ " " +:+ (match lang with Ko => "실패" | En => "failed" end) +:+ ": " +:+ localizeError e lang)
      _ (sessionInv_quiet u1.(ui_busy) (localizeError e lang) u1 H)) as [? ? ?]. by split.
  - pose proof (sessionInv_push label u1 H) as [? ? ?]. by split.
Qed.

Lemma safe_bind {A B} (m : F A) (k : A -> F B) u :
  ends env m u (fun r u' => sessionInv env u' /\ forall a, r = inr a -> safe (k a) u') -> safe (m ≫= k) u.
Proof. intros H. apply oc_bind. eapply oc_mono; [exact H|]. intros [e|a] u' [HS Hk]; auto. Qed.
Lemma appInv_contract a c : appInv a -> appInv (a <| ap_contract := Some c |>).
Proof. intros [? ? ? ? Hx]. split; try done. cbn. intros x Hxx. by apply Hx in Hxx as [_ ?]. Qed.
Lemma safe_setContract {A} c (r : A) u :
  sessionInv env u -> safe (setApp (fun prev => prev <| ap_contract := Some c |>);; mret r) u.
Proof.
  intros HS. pose proof HS as [Ha _ _].
  pose proof (sessionInv_app (fun prev => prev <| ap_contract := Some c |>) u HS (appInv_contract _ c Ha)) as Hset.
  apply safe_bind. split; [exact Hset|]. intros ? _. exact Hset.
Qed.
(** An update at the end of an action. *)
Lemma safe_setApp f u : sessionInv env u -> appInv (f u.(ui_app)) -> safe (setApp f) u.
Proof. intros. by apply sessionInv_app. Qed.
Lemma safe_call {A} (a : Api A) (k : A -> F unit) u :
  goodCall env u.(ui_sent) (call a) -> sessionInv env u ->
  (forall x u', sessionInv env u' -> safe (k x) u') -> safe (request a ≫= k) u.
Proof. intros Ha HS Hk. apply safe_bind. apply safe_request; [done|done|done|]. intros x _ HS'. split; [done|]. intros ? [= <-]. auto. Qed.
Lemma safe_connect role (k : WalletSession -> F unit) u :
  sessionInv env u -> (forall x u', sessionInv env u' -> safe (k x) u') -> safe (connectInternalWallet role ≫= k) u.
Proof.
  intros HS Hk. apply safe_bind. unfold connectInternalWallet. apply oc_bind, safe_request; [done|done|by split|].
  intros data _ HS'. unfold ends, flift. cbn [fst snd]. split; [done|]. intros ? _. by apply Hk.
Qed.

Context (Hlegacy : forall s t, dateInput s -> env.(fe_legacy) s = Some t -> iso_range t).
Context (lang : Lang) (app : AppModel) (Happ : appInv app).

Lemma participants_are_wallets p : getParticipantIds app = Some p ->
  p = (app.(ap_tenantAddress), app.(ap_landlordAddress)).
Proof.
  destruct Happ as [_ Ht Hl _ _]. unfold getParticipantIds. rewrite Ht, Hl.
  assert (forall t, orString t t = t) as Hor by (intros t; unfold orString; by case_bool_decide).
  rewrite !Hor. destruct (bool_decide _ || bool_decide _); [done|]. by intros [= <-].
Qed.

Lemma safe_createDraft u : sessionInv env u -> safe (createDraftContract lang app) u.
Proof.
  intros HS. unfold createDraftContract. destruct (ap_contract app) as [c|].
  { by apply safe_setContract. }
  apply safe_run; [done|]. clear u HS. intros u HS.
  apply safe_bind. split; [done|]. intros ? [= <-]. apply safe_bind, oc_must_some; [|by split]. intros p Hp. split; [done|].
  intros ? [= <-]. apply safe_bind, oc_must; [|by split]. intros Hr. split; [done|]. intros ? _.
  destruct (ready_draft _ _ Hlegacy (ai_form _ Happ) Hr) as (Hd&Hst&s&e&Hs&He&Hlt&Hrs&Hre).
  apply safe_bind, oc_isoOf; rewrite Hs; [|done]. intros ? [= <-]. split; [done|]. intros ? [= <-].
  apply safe_bind, oc_isoOf; rewrite He; [|done]. intros ? [= <-]. split; [done|]. intros ? [= <-].
  destruct (participants_named _ _ Hp) as [Hp1 Hp2]. set (op := mkOperational _ _ _ _ _ _).
  assert (createContractSchema (asBody op) = true) as Hval.
  { eapply (creation_valid env app.(ap_contractDraft) p); try done. by exists s, e. }
  clearbody op. apply safe_bind, safe_request; [done|done|by split|]. intros c _ HS'. split; [done|]. intros ? [= <-].
  by apply safe_setContract.
Qed.
Lemma safe_existing (k : BackendContract -> F unit) u :
  sessionInv env u -> (forall c u', sessionInv env u' -> safe (k c) u') -> safe (existingContract lang app ≫= k) u.
Proof.
  intros HS Hk. apply safe_bind. unfold existingContract. destruct (ap_contract app) eqn:E.
  - split; [done|]. intros ? _. by apply Hk.
  - eapply oc_mono; [by apply safe_createDraft|]. cbn. eauto.
Qed.

Lemma safe_submitEscrow c u : sessionInv env u -> safe (submitEscrow app env c) u.
Proof.
  intros HS. unfold submitEscrow. apply safe_bind, oc_must; [intros Haddr|by split]. split; [done|]. intros ? _.
  apply andb_true_iff in Haddr as [Ha1 Ha2]. unfold nonempty_string in Ha1, Ha2. bool_to_prop.
  apply safe_bind, oc_must_some; [intros p Hp|by split]. split; [done|]. intros ? [= <-].
  apply participants_are_wallets in Hp as ->.
  apply safe_bind, oc_must_some; [intros am _|by split]. split; [done|]. intros ? [= <-].
  apply safe_bind, oc_must_some; [intros pe _|by split]. split; [done|]. intros ? [= <-].
  apply safe_bind, oc_must_some; [intros t _|by split]. split; [done|]. intros ? [= <-].
  set (b := mkBe1Contract _ _ _ _ _ _ _ _ _ _).
  apply safe_bind, safe_request; [by repeat split|done|by split|]. intros x Hx HS1. split; [done|]. intros ? [= <-].
  apply safe_bind, oc_must_some; [intros h Hh|by split]. split; [done|]. intros ? [= <-].
  assert (goodCall env (calling (CreateXrplContract b) u).(ui_sent) (call (AnchorEscrow c.(bk_id) h))) as Hgood.
  { exists u.(ui_calls), b, x. split; [|done]. cbn. rewrite (si_calls _ _ HS).
    by rewrite lookup_app_r, Nat.sub_diag by lia. }
  clearbody b. apply safe_bind, safe_request; [exact Hgood|done|by split|]. intros anchored _ HS2. split; [done|]. intros ? [= <-].
  apply safe_bind. unfold caught, ends. cbn [fst snd].
  match goal with |- context [request ?a env ?u2] => pose proof (sessionInv_calling a u2 I HS2) as HS3;
    change (request a env u2).2 with (calling a u2) end.
  split; [exact HS3|]. intros ? _.
  apply (sessionInv_app (fun prev => prev <| ap_contract := Some anchored |> <| ap_xrplContract := Some x |>)); [done|].
  destruct HS3 as [[? ? ? ? _] _ _]. split; try done. cbn. intros ? [= <-]. by rewrite Hh.
Qed.

Lemma safe_perform a u : sessionInv env u -> safe (perform lang app a) u.
Proof.
  intros HS. pose proof HS as [[Hform Ht Hl Hev Hx] _ _]. destruct a as [role|e| | | | | | |]; unfold perform.
  - apply safe_setApp; [done|]. by split.
  - apply safe_setApp; [done|]. split; try done. cbn. by apply formPatch_shape.
  - apply safe_run; [done|]. intros u0 HS0. apply safe_connect; [done|]. intros x u1 HS1. apply safe_setApp; [done|].
    destruct HS1 as [[? ? ? ? ?] _ _]. unfold withAddress. by destruct (ap_selectedRole _); split.
  - apply safe_run; [done|]. intros u0 HS0. apply safe_connect; [done|]. intros x u1 HS1. apply safe_setApp; [done|].
    destruct HS1 as [[? ? ? ? ?] _ _]. unfold withAddress. by destruct (ap_selectedRole app); split.
  - apply safe_bind. eapply oc_mono; [by apply safe_createDraft|]. intros r u1 HS1. by split.
  - apply safe_run; [done|]. intros u0 HS0. apply safe_bind. split; [done|]. intros ? [= <-].
    apply safe_existing; [done|]. intros c u1 HS1. by apply safe_submitEscrow.
  - unfold loadSettlements. destruct (nonempty _); [|done]. apply safe_run; [done|]. intros u0 HS0.
    apply safe_call; [done|done|]. intros x u1 HS1. apply safe_setApp; [done|]. destruct HS1 as [[? ? ? ? ?] _ _]. by split.
  - apply safe_run; [done|]. intros u0 HS0. apply safe_existing; [done|]. intros c u1 HS1.
    apply safe_call; [done|done|]. intros x u2 HS2. apply safe_setApp; [done|]. apply appInv_contract, HS2.
  - apply safe_run; [done|]. intros u0 HS0. apply safe_existing; [done|]. intros c u1 HS1.
    apply safe_bind, oc_must_some; [|by split]. intros st _. split; [done|]. intros ? [= <-].
    apply safe_call; [done|done|]. intros x u2 HS2. apply safe_setApp; [done|]. destruct HS2 as [[? ? ? ? ?] _ _]. by split.
Qed.
End session_rules.

(** C38: Every session of the mobile app.  Whatever the user does, in whatever order and from however
    old a view of the state, whatever the servers answer, and across reloads: the draft has the shape
    the form gives it, participants are identified by their wallets, an escrow in the state has a
    transaction hash and comes with a contract; every contract request satisfies BE2's schema, every
    escrow request names two wallets and identifies the parties by them, and every anchored hash is
    one that BE1 answered to an escrow request made earlier in the session.  The draft's shape: digits
    for the two amounts, and dates of up to four digits, then a hyphen and up to two, then a hyphen and
    up to two.  Of the engine it is assumed that Date.parse reads a text of that shape, where it reads
    one beyond the ISO formats ("2026-1", say), as a time within the years 0 to 9999. *)
Theorem session_sound env rendered u :
  (forall s t, dateInput s -> env.(fe_legacy) s = Some t -> iso_range t) ->
  session env rendered u -> sessionInv env u /\ Forall appInv rendered.
Proof.
  intros Hleg. induction 1 as [role|rendered u lang app a _ [HS Hr] Happ|rendered u _ [HS _]].
  - split; [|constructor]. split; [|done|constructor].
    split; try done; cbn; [split_and!; [done|done| |]; apply dateInput_empty|lia].
  - assert (Forall appInv (u.(ui_app) :: rendered)) as Hall by (constructor; [apply HS|done]).
    split; [|done]. rewrite Forall_forall in Hall. by apply (safe_perform env Hleg lang app (Hall _ Happ)).
  - split; [by apply sessionInv_quiet|constructor].
Qed.

(** * Durations and screens *)

Lemma splitDuration_parts ms :
  let d := splitDuration ms in
  0 <= d.(du_hours) < 24 /\ 0 <= d.(du_minutes) < 60 /\
  0 <= Z.max 0 ms - (d.(du_days) * dayMs + d.(du_hours) * 3600000 + d.(du_minutes) * 60000) < 60000.
Proof. unfold splitDuration, dayMs. cbn. Z.to_euclidean_division_equations; lia. Qed.

(** [back] undoes [next] on every screen but the last. *)
Lemma back_next : Forall (fun s => (nextScreen s ≫= backScreen) = Some s) (take 29 allScreens).
Proof. repeat constructor. Qed.

(** * The stored state *)

Lemma sublist_pair {A} (a b : A) l : l `sublist_of` [a; b] -> l = [] \/ l = [a] \/ l = [b] \/ l = [a; b].
Proof.
  intros H. inversion H as [|? ? ? H1|? ? ? H1]; subst; inversion H1 as [|? ? ? H2|? ? ? H2]; subst;
    inversion H2; subst; auto.
Qed.
Lemma json_ok_app a settlements contracts :
  Forall json_ok settlements -> json_ok (JObj contracts) -> contracts.*1 `sublist_of` ["contract"; "xrplContract"] ->
  json_ok (JObj (appMembers a settlements contracts)).
Proof.
  rewrite !json_ok_members. intros Hs [_ Hc] Hk. split.
  - unfold appMembers. rewrite fmap_app. eapply sublist_NoDup; [|apply sublist_app; [reflexivity|exact Hk]].
    apply (bool_decide_unpack _). vm_compute. exact I.
  - unfold appMembers. apply Forall_app. split; [|done]. repeat (apply Forall_cons; split); [done..| | | |constructor].
    + apply json_ok_members. split; [apply (bool_decide_unpack _); vm_compute; exact I|by repeat constructor].
    + by apply json_ok_items.
    + apply json_ok_items, Forall_fmap, Forall_true. done.
Qed.

(** Whatever the app keeps in [localStorage] it reads back, in any role. *)
Lemma stored_app_comes_back role a settlements contracts :
  Forall json_ok settlements -> json_ok (JObj contracts) -> contracts.*1 `sublist_of` ["contract"; "xrplContract"] ->
  loadStoredApp (Some (json_stringify (JObj (appMembers a settlements contracts)))) role = appMembers a settlements contracts.
Proof.
  intros Hs Hc Hk. pose proof (json_ok_app a settlements contracts Hs Hc Hk) as Hok.
  unfold loadStoredApp.
  assert (nonempty (Some (json_stringify (JObj (appMembers a settlements contracts))))
    = Some (json_stringify (JObj (appMembers a settlements contracts)))) as -> by done.
  cbn [mbind option_bind]. rewrite json_parse_stringify by done. cbn [ownMembers].
  apply sublist_pair in Hk as [Hk|[Hk|[Hk|Hk]]]; destruct contracts as [|[k1 c1] [|[k2 c2] [|? l]]];
    cbn in Hk; simplify_eq; destruct a as [? ? ? ? ? ? ? ? ? [] ? ? ? ?]; reflexivity.
Qed.
(** A text that is not JSON is as good as none. *)
Lemma corrupt_storage raw role : json_parse raw = None -> loadStoredApp (Some raw) role = loadStoredApp None role.
Proof. unfold loadStoredApp. intros Hp. destruct (nonempty (Some raw)) eqn:E; [|done]. unfold nonempty in E. case_match; simplify_eq. cbn [mbind option_bind]. by rewrite Hp. Qed.

(** * Runs *)

Definition demoAddress : string := "rTenantTenantTenantTenantTen".
Definition demoLandlord : string := "rLandlordLandlordLandlordLan".
Definition demoRow (id status : string) (hash : option string) : BackendContract :=
  mkBackendContract id status (Some demoAddress) (Some demoLandlord) None None None (Some "1000000") (Some "100000")
    hash None None (Some (toISOString 1767225600000)) (Some (toISOString 1798761600000)) None.
(** Servers that answer everything, except that [lost n] keeps the [n]-th call from its server. *)
Definition demoServer (lost : nat -> bool) : forall A, nat -> Api A -> Answer A := fun A n a =>
  if lost n then NetworkError "Failed to fetch" else
  match a in Api A return Answer A with
  | CreateOperationalContract _ => Success (demoRow "ctr-1" "draft" None)
  | UpdateOperationalContractStatus id status => Success (demoRow id status None)
  | AnchorEscrow id txHash => Success (demoRow id "escrow_pending" (Some txHash))
  | ListSettlements _ => Success []
  | UpdateSettlementStatus id _ => Success (mkSettlementView id "ctr-1" "confirmed" None None None None)
  | TrackTx _ => Success tt
  | CreateXrplContract _ => Success (demoRow ("be1-" +:+ num_str (Z.of_nat n)) "LOCKED" (Some ("HASH" +:+ num_str (Z.of_nat n))))
  | ConnectWallet r =>
      Success (mkWalletResponse (Some (match r with Tenant => demoAddress | Landlord => demoLandlord end)) None None (inl "testnet") None)
  end.
Definition demoFront (lost : nat -> bool) : FrontEnv := mkFrontEnv (demoServer lost) (fun _ => None) None.
Definition typed : list FormEdit :=
  [EditDeposit "1,000,000"; EditStake "100000"; EditStart "20260101"; EditEnd "2027.01.01"].
Definition demoDraft : AppModel :=
  (createInitialApp Tenant) <| ap_tenantId := demoAddress |> <| ap_tenantAddress := demoAddress |>
    <| ap_landlordId := demoLandlord |> <| ap_landlordAddress := demoLandlord |> <| ap_contractDraft := formDraft typed |>.
Definition demoApp : AppModel := demoDraft <| ap_contract := Some (demoRow "ctr-1" "draft" None) |>.
Definition demoUi (app : AppModel) : Ui := mkUi app false "" [] 0.

Lemma no_legacy s t : dateInput s -> (demoFront (fun _ => false)).(fe_legacy) s = Some t -> iso_range t.
Proof. done. Qed.
Lemma draft_accepted_witness :
  exists op, createContractSchema (asBody op) = true /\
    (createDraftContract En demoDraft (demoFront (fun _ => false)) (demoUi demoDraft)).2.(ui_sent)
      = [(true, call (CreateOperationalContract op))].
Proof.
  pose proof (draft_accepted En demoDraft typed (demoFront (fun _ => false)) (demoUi demoDraft) no_legacy eq_refl eq_refl) as H.
  assert (getParticipantIds demoDraft = Some (demoAddress, demoLandlord)) as Ep by reflexivity.
  assert (isContractDraftReady (fun _ => None) demoDraft.(ap_contractDraft) = true) as Er by (vm_compute; reflexivity).
  change (demoFront _).(fe_legacy) with (fun _ : string => @None Z) in H. rewrite Ep, Er in H.
  destruct (createDraftContract _ _ _ _) as [r u']. cbv beta iota zeta in H.
  destruct H as [_ (op&_&Hval&_&Hsent&_)]. exists op. split; [exact Hval|exact Hsent].
Defined.

Lemma demo_terms : storedTerms (demoRow "ctr-1" "draft" None) "1000000" "100000" 1767225600000 1798761600000.
Proof. unfold storedTerms, iso_range, addDays, dayMs. split_and!; try done; lia. Qed.
(** The escrows of a run: the hashes that BE1 has returned. *)
Definition isEscrow (c : bool * ApiCall) : bool := match c.2 with call (CreateXrplContract _) => true | _ => false end.
(** Wallets, form, contract, escrow: the steps of a tenant, each from the current view. *)
Definition demoSteps : list Action := [ConnectOwn; ConnectCounterparty] ++ (Edit <$> typed) ++ [CreateDraft; LockDeposit].
Definition demoSession (steps : list Action) : list AppModel * Ui :=
  foldl (fun '(rendered, u) a =>
    (u.(ui_app) :: rendered, (perform En u.(ui_app) a (demoFront (fun _ => false)) u).2))
    ([], mkUi (createInitialApp Tenant) false "" [] 0) steps.
Lemma demoSession_session steps : session (demoFront (fun _ => false)) (demoSession steps).1 (demoSession steps).2.
Proof.
  unfold demoSession. induction steps as [|a steps IH] using rev_ind; [apply session_start|].
  rewrite foldl_snoc. destruct (foldl _ _ steps) as [rendered u]. cbn [fst snd] in *.
  apply session_act; [exact IH|by constructor].
Qed.
Lemma session_sound_witness :
  sessionInv (demoFront (fun _ => false)) (demoSession demoSteps).2 /\
  length (filter (fun c => isEscrow c = true) (demoSession demoSteps).2.(ui_sent)) = 1%nat /\
  (bk_status <$> (demoSession demoSteps).2.(ui_app).(ap_contract)) = Some "escrow_pending".
Proof.
  split; [apply (session_sound (demoFront (fun _ => false)) _ _ no_legacy (demoSession_session demoSteps))|].
  vm_compute. split; reflexivity.
Defined.

(** The anchor request is lost after BE1 has created the escrow: the app keeps nothing of it, its
    button is enabled again, and pressing it creates a second escrow. *)
Lemma escrow_created_twice :
  let env := demoFront (fun n => (n =? 1)%nat) in
  let u1 := (lockDeposit En demoApp env (demoUi demoApp)).2 in
  let u2 := (lockDeposit En u1.(ui_app) env u1).2 in
  u1.(ui_app).(ap_xrplContract) = None /\ canRunEscrow env.(fe_legacy) u1.(ui_app) = true /\ u1.(ui_busy) = false /\
  length (filter (fun c => isEscrow c = true) u2.(ui_sent)) = 2%nat /\
  (bk_depositEscrowTxHash <$> u2.(ui_app).(ap_xrplContract)) = Some (Some "HASH2").
Proof. vm_compute. repeat split. Qed.

(** Signing without a contract creates it first; that inner [run] enables the buttons again, so the
    status request is sent while they are enabled. *)
Lemma signing_enabled_early :
  let u := (landlordSignContract En demoDraft (demoFront (fun _ => false)) (demoUi demoDraft)).2 in
  u.(ui_sent).*1 = [true; false].
Proof. reflexivity. Qed.

(** Approving a settlement without a contract and without a settlement creates a contract in BE2
    before it fails. *)
Lemma approval_creates_contract :
  let '(r, u) := landlordApproveSettlement En demoDraft (demoFront (fun _ => false)) (demoUi demoDraft) in
  r = inl "No settlement exists in backend state" /\ u.(ui_app).(ap_contract) = Some (demoRow "ctr-1" "draft" None).
Proof. vm_compute. split; reflexivity. Qed.
