(* ===== verification/FrontendProps.v ===== *)
(** The mobile app against the backend it calls: its requests as [System.v]
    serves them, the bodies of the answers as the app reads them, and the way of
    a contract from the form over BE2 to the escrow request of BE1. *)
From S2P Require Import Prelude JsString JsMap JsDate Be1World Be1Xrpl Be1Contracts Types Config World Utils MemoryRepo.
From S2P Require Import Http Auth Notify Logic Contracts System Wp AccessProps Demo Frontend.
Open Scope Z_scope.

(** * Requests and answers *)

(** The headers of [request]: the app knows no role and no identifier. *)
Definition appHeaders (authToken : option string) : JsMap string :=
  ("content-type", "application/json") ::
  match nonempty authToken with Some t => [("authorization", "Bearer " +:+ t)] | None => [] end.
Definition appRequest (authToken : option string) : Request := mkRequest "" (appHeaders authToken) None.
(** A [BackendContract] as the app reads it from a body. *)
Definition decodeContract (body : JsVal) : BackendContract :=
  let str k := jstr (jget k body) in
  mkBackendContract (default "" (str "id")) (default "" (str "status")) (str "tenantId") (str "landlordId")
    (str "tenantAddress") (str "landlordAddress") (str "contractAccountAddress") (str "depositAmount") (str "stakeAmount")
    (str "depositEscrowTxHash") (jnum (jget "depositEscrowSequence" body)) (str "signerListTxHash") (str "startsAt")
    (str "endsAt") (str "updatedAt").
Definition answerOf (r : World.Exn + Response) : Answer BackendContract :=
  match r with
  | inr res =>
      if (200 <=? res.(rs_status)) && (res.(rs_status) <? 300) then Success (decodeContract res.(rs_body))
      else Refusal res.(rs_status) "" res.(rs_body)
  | inl e => NetworkError e.(exn_message)
  end.
(** [safeParse] of the body. *)
Definition parsedBody (op : CreateOperational) : Parsed CreateContract :=
  if createContractSchema (asBody op) then Valid (asBody op) else Invalid JUndef.

(** * Access *)

Lemma appRequest_roleless authToken : parseRole (header (appRequest authToken) "x-bluesafe-role") = None.
Proof. unfold appRequest, appHeaders, header. by destruct (nonempty authToken). Qed.

(** With [BLUESAFE_AUTH=1] BE2 answers every call of the app 401: the app sends no [X-Bluesafe-Role]. *)
Lemma app_unauthorized env c authToken access w :
  env.(env_cfg).(cfg_authEnabled) = true -> (route c).2 = Some access ->
  exists res, serve c (appRequest authToken) env w = (inr res, w) /\ res.(rs_status) = 401.
Proof.
  intros Hauth Hroute. rewrite serve_chain. unfold middlewares. rewrite Hroute. destruct access as [roles scopes].
  unfold route_middlewares, v1_middlewares. cbn [chain app].
  unfold v1ApiTransportGuard. set (req := asSent _ _).
  assert (parseRole (header req "x-bluesafe-role") = None) as Hrole by apply (appRequest_roleless authToken).
  repeat case_match; simplify_eq; try (by eexists);
    match goal with H : bluesafeAuthMiddleware _ _ = _ |- _ => unfold bluesafeAuthMiddleware in H; rewrite Hauth, Hrole in H end;
    simplify_eq/=; by eexists.
Qed.

(** BE2 without authentication, whose transport guard lets the app through. *)
Record admitted (cfg : Config) (authToken : option string) : Prop := mkAdmitted {
  ad_auth : cfg.(cfg_authEnabled) = false;
  ad_guard : forall req, req.(rq_headers) = appHeaders authToken -> v1ApiTransportGuard cfg req = inr req }.

Lemma serve_admitted env c authToken access w :
  admitted env.(env_cfg) authToken -> (route c).2 = Some access ->
  serve c (appRequest authToken) env w
  = errorMiddleware (handler c (asSent (route c).1 (appRequest authToken))) env w.
Proof.
  intros [Hauth Hguard] Hroute. rewrite serve_chain. unfold middlewares. rewrite Hroute. destruct access as [roles scopes].
  unfold route_middlewares, v1_middlewares. cbn [chain app]. rewrite Hguard by done.
  unfold bluesafeAuthMiddleware, blockAuditorWriteOperations, requireRoles. rewrite Hauth. cbn [negb].
  destruct scopes; [done|]. cbn [chain]. unfold requireOperatorScopes. by rewrite Hauth.
Qed.

(** * A contract is created *)

(** The answer to the app's contract request, and what BE2 keeps. *)
Lemma serve_create env authToken b w :
  admitted env.(env_cfg) authToken ->
  exists id now w', serve (C_postContract (Valid b)) (appRequest authToken) env w
      = (inr (json 201 (contract_json (newContract id now b))), w') /\
    jm_get id w'.(w_db).(contracts) = Some (newContract id now b).
Proof.
  intros Hadm. rewrite (serve_admitted _ _ _ (everyone, [])) by done. pose proof (ad_auth _ _ Hadm) as Hauth.
  assert (wp (Contracts.postContract (asSent V_POST (appRequest authToken)) (Valid b)) env w (fun res w' =>
    exists id now, res = json 201 (contract_json (newContract id now b)) /\
      jm_get id w'.(w_db).(contracts) = Some (newContract id now b))) as H.
  { unfold Contracts.postContract, withParsed. wp_step. unfold assertCreateContractAllowed. rewrite Hauth. cbn [negb].
    wp_step. wp_step. unfold saveContract. wp_step.
    apply wp_bind, wp_background; [total_auto|keeps_auto|]. intros _ w1 (Hc1&_).
    apply wp_bind, wp_background; [total_auto|keeps_auto|]. intros _ w2 (Hc2&_).
    unfold getContract. wp_step. set (id := idOfUuid _ _) in *. set (now := toISOString _) in *.
    assert (jm_get id w2.(w_db).(contracts) = Some (newContract id now b)) as Hget
      by (rewrite Hc2, Hc1; apply jm_get_set_eq).
    rewrite Hget. wp_step. by exists id, now. }
  apply wp_elim in H as (res & w' & Hrun & id & now & -> & Hget). exists id, now, w'. split; [|done].
  unfold errorMiddleware, try_catch, handler. cbn [route fst]. by rewrite Hrun.
Qed.

(** What the app makes of it: a contract with the terms that were sent. *)
Lemma decode_created id now op d s e :
  op = mkOperational (op_tenantId op) (op_landlordId op) (Some d.(dr_depositAmount)) (Some d.(dr_stakeAmount))
         (Some (toISOString s)) (Some (toISOString e)) ->
  positiveNumber d.(dr_depositAmount) = true -> positiveNumber d.(dr_stakeAmount) = true ->
  iso_range s -> iso_range e -> iso_range (addDays e 30) ->
  let c := decodeContract (contract_json (newContract id now (asBody op))) in
  c.(bk_id) = id /\ c.(bk_status) = "draft" /\ c.(bk_depositEscrowTxHash) = None /\
  storedTerms c d.(dr_depositAmount) d.(dr_stakeAmount) s e.
Proof.
  intros -> Hd Hst Rs Re Rc. split_and!; try done. unfold storedTerms.
  split_and!; try done; unfold allDigits; [apply positive_digits in Hd|apply positive_digits in Hst];
    unfold truthy in *; done.
Qed.

Lemma be1Dto_fields legacy b dto :
  be1Dto legacy b = Some dto ->
  dto.(ci_tenantAddress) = b.(b1_tenantAddress) /\ dto.(ci_landlordAddress) = b.(b1_landlordAddress) /\
  dto.(ci_depositAmount) = b.(b1_depositAmount) /\ dto.(ci_stakeAmount) = b.(b1_stakeAmount).
Proof.
  unfold be1Dto. intros H.
  repeat match type of H with (?o ≫= _) = _ => destruct o; [|done]; cbn [mbind option_bind] in H end.
  case_match; [|done]. by injection H as <-.
Qed.
Lemma participants_known app : app.(ap_tenantAddress) <> "" -> app.(ap_landlordAddress) <> "" ->
  is_Some (getParticipantIds app).
Proof. intros. unfold getParticipantIds, orString. repeat case_bool_decide; try done; naive_solver. Qed.

(** * From the form to the ledger *)

(** What BE1 is asked to lock is what was typed. *)
Definition locksDraft (app : AppModel) (d : ContractDraft) (s e : Z) (dto : CreateContractInput) : Prop :=
  dto.(ci_tenantAddress) = app.(ap_tenantAddress) /\ dto.(ci_landlordAddress) = app.(ap_landlordAddress) /\
  dto.(ci_depositAmount) = d.(dr_depositAmount) /\ dto.(ci_stakeAmount) = d.(dr_stakeAmount) /\
  dto.(ci_startsAt) = s /\ dto.(ci_endsAt) = e /\
  dto.(ci_finishAfter) = addDays e 7 /\ dto.(ci_cancelAfter) = addDays e 30 /\
  forall wallet operator amount,
    validateEscrowParams (depositEscrow (mkLock dto wallet operator) amount) = inr tt /\
    validateEscrowParams (stakeEscrow (mkLock dto wallet operator) amount) = inr tt.

(** C27: What is typed into the app is what BE1 is asked to lock.  Take the app with two wallets, no
    contract and ready terms typed into the form, against a BE2 that runs without authentication and
    whose transport guard lets the app's requests through ([admitted]; with authentication on BE2
    answers them 401), in any state.  Of the app's engine it is assumed that Date.parse reads a text the
    form lets through ([dateInput]), where it reads one beyond the ISO formats, as a time within the
    years 0 to 9999, and that so is the cancel date, 30 days after the end.
    [createDraftContract] returns a draft that BE2 has stored under its identifier.  In any later view
    of the app with that contract and these wallets, [lockDeposit] sends BE1 one request that its
    validation accepts: the wallets, amounts and dates are the typed ones, the escrows finish 7 and
    cancel 30 days after the end, and pass [validateEscrowParams]; only a hash that BE1 returned is
    anchored, and on any other answer the app keeps its contracts ([escrowEnds]). *)
Theorem typed_is_locked fenv benv served authToken legacyBe1 lang app edits u e :
  (forall s t, dateInput s -> fenv.(fe_legacy) s = Some t -> iso_range t) ->
  admitted benv.(env_cfg) authToken ->
  (forall n op, fenv.(fe_server) _ n (CreateOperationalContract op)
     = answerOf (serve (C_postContract (parsedBody op)) (appRequest authToken) benv (served n)).1) ->
  addressFormat app.(ap_tenantAddress) = true -> addressFormat app.(ap_landlordAddress) = true ->
  app.(ap_contract) = None -> app.(ap_contractDraft) = formDraft edits ->
  isContractDraftReady fenv.(fe_legacy) (formDraft edits) = true ->
  date_parse fenv.(fe_legacy) (formDraft edits).(dr_endsAt) = Some e -> iso_range (addDays e 30) ->
  exists c u1 s op, createDraftContract lang app fenv u = (inr c, u1) /\ u1.(ui_app).(ap_contract) = Some c /\
    date_parse fenv.(fe_legacy) (formDraft edits).(dr_startsAt) = Some s /\ s < e /\ c.(bk_status) = "draft" /\
    (exists now, jm_get c.(bk_id)
       (serve (C_postContract (parsedBody op)) (appRequest authToken) benv (served u.(ui_calls))).2.(w_db).(contracts)
       = Some (newContract c.(bk_id) now (asBody op))) /\
    forall lang' app' u2, app'.(ap_contract) = Some c -> app'.(ap_tenantAddress) = app.(ap_tenantAddress) ->
      app'.(ap_landlordAddress) = app.(ap_landlordAddress) ->
      let '(r, u') := lockDeposit lang' app' fenv u2 in
      exists b dto, be1Dto legacyBe1 b = Some dto /\ depositStakeShape dto = true /\
        locksDraft app (formDraft edits) s e dto /\ escrowEnds fenv app' c b u2 r u'.
Proof.
  intros Hleg Hadm Hbe2 Ht Hl Hno Hform Hready He Rc.
  pose proof (draft_accepted lang app edits fenv u Hleg Hno Hform) as Hc. rewrite Hform, Hready in Hc.
  destruct (createDraftContract lang app fenv u) as [r u1]. destruct Hc as [_ Hc].
  destruct (participants_known app (addressFormat_nonempty _ Ht) (addressFormat_nonempty _ Hl)) as [p Hp].
  rewrite Hp in Hc. destruct Hc as (op&(s&e'&Hs&He'&Hlt&Rs&Re&Hop)&Hval&Hans). rewrite He in He'. injection He' as <-.
  destruct (ready_draft _ _ Hleg (formDraft_shape edits) Hready) as (Hd&Hst&_).
  destruct (serve_create benv authToken (asBody op) (served u.(ui_calls)) Hadm) as (id&now&w'&Hserve&Hget).
  assert (parsedBody op = Valid (asBody op)) as Hparsed by (unfold parsedBody; by rewrite Hval).
  rewrite Hbe2, Hparsed, Hserve in Hans. cbn [fst snd answerOf rs_status json rs_body] in Hans.
  destruct Hans as (->&_&Hcontract). set (c := decodeContract _) in *.
  assert (op = mkOperational (op_tenantId op) (op_landlordId op) (Some (formDraft edits).(dr_depositAmount))
    (Some (formDraft edits).(dr_stakeAmount)) (Some (toISOString s)) (Some (toISOString e))) as Hop' by (by rewrite Hop).
  pose proof (decode_created id now op _ s e Hop' Hd Hst Rs Re Rc) as Hdec. cbv zeta in Hdec. fold c in Hdec.
  clearbody c. destruct Hdec as (Hid&Hstatus&_&Hterms).
  exists c, u1, s, op. split_and!; [done|done|done|done|done| |].
  - exists now. rewrite Hparsed, Hserve. cbn [snd]. by rewrite Hid.
  - intros lang' app' u2 Hc' Ht' Hl'. rewrite <-Ht' in Ht. rewrite <-Hl' in Hl.
    pose proof (lock_accepted lang' app' fenv legacyBe1 u2 c _ _ _ _ Hc' Hterms Ht Hl) as H.
    destruct (lockDeposit lang' app' fenv u2) as [r u']. destruct H as (_&b&dto&Hb&Hdto&Hshape&H1&H2&H3&H4&Hval'&Hends).
    destruct (be1Dto_fields _ _ _ Hdto) as (F1&F2&F3&F4). destruct Hb as (_&E1&E2&E3&E4&_).
    destruct Hterms as (D1&D2&D3&D4&_). exists b, dto. split_and!; [done|done| |done].
    rewrite D1, allDigits_nonempty in E3 by done. rewrite D3, allDigits_nonempty in E4 by done.
    unfold locksDraft. split_and!; try congruence; done.
Qed.

(** The app of [Frontend.v]'s runs against the demo backend. *)
Definition backedServer : forall A, nat -> Api A -> Answer A := fun A n a =>
  match a in Api A return Answer A with
  | CreateOperationalContract op =>
      answerOf (serve (C_postContract (parsedBody op)) (appRequest None) demoEnv initWorld).1
  | a => demoServer (fun _ => false) _ n a
  end.
Definition backedFront : FrontEnv := mkFrontEnv backedServer (fun _ => None) None.
Lemma demo_admitted : admitted demoEnv.(env_cfg) None.
Proof. split; [reflexivity|]. intros req _. reflexivity. Qed.
Lemma typed_is_locked_witness :
  exists c u1, createDraftContract En demoDraft backedFront (demoUi demoDraft) = (inr c, u1) /\
    let '(r, u') := lockDeposit Ko (demoDraft <| ap_contract := Some c |>) backedFront u1 in
    exists b dto, be1Dto (fun _ => None) b = Some dto /\
      locksDraft demoDraft (formDraft typed) 1767225600000 1798761600000 dto /\
      escrowEnds backedFront (demoDraft <| ap_contract := Some c |>) c b u1 r u'.
Proof.
  assert (isContractDraftReady backedFront.(fe_legacy) (formDraft typed) = true) as Hr by (vm_compute; reflexivity).
  assert (date_parse backedFront.(fe_legacy) (formDraft typed).(dr_endsAt) = Some 1798761600000) as He by (vm_compute; reflexivity).
  assert (iso_range (addDays 1798761600000 30)) as Rc by (unfold iso_range, addDays, dayMs; lia).
  destruct (typed_is_locked backedFront demoEnv (fun _ => initWorld) None (fun _ => None) En demoDraft typed
    (demoUi demoDraft) 1798761600000 no_legacy demo_admitted (fun _ _ => eq_refl) eq_refl eq_refl eq_refl eq_refl Hr He Rc)
    as (c&u1&s&op&Hrun&_&Hs&_&_&_&Hlock).
  assert (s = 1767225600000) as -> by (vm_compute in Hs; congruence).
  exists c, u1. split; [exact Hrun|].
  specialize (Hlock Ko (demoDraft <| ap_contract := Some c |>) u1 eq_refl eq_refl eq_refl).
  destruct (lockDeposit _ _ _ _) as [r u']. destruct Hlock as (b&dto&Hdto&_&Hlocks&Hends). exact (ex_intro _ b (ex_intro _ dto (conj Hdto (conj Hlocks Hends)))).
Defined.

(** * Signing again *)

(** BE2 refuses a status that a contract already has. *)
Lemma same_status_refused env authToken k id w :
  admitted env.(env_cfg) authToken -> jm_get id w.(w_db).(contracts) = Some k ->
  exists res, serve (C_patchContractStatus id (Valid k.(c_status))) (appRequest authToken) env w = (inr res, w) /\
    res.(rs_status) = 409.
Proof.
  intros Hadm Hk. rewrite (serve_admitted _ _ _ (everyone, [])) by done. pose proof (ad_auth _ _ Hadm) as Hauth.
  unfold errorMiddleware, try_catch, handler, patchContractStatus, withParsed, withContract, getContract, mayAccess, askCfg.
  rewrite bind_asks, Hk, bind_askEnv. unfold canAccessContract, canAccess. rewrite Hauth. cbn [negb].
  assert (isContractStatusTransitionAllowed k.(c_status) k.(c_status) = false) as -> by (by destruct (c_status k)).
  by eexists.
Qed.
(** For a contract that is no draft, signing sends the status it already has. *)
Lemma signing_repeats_status lang app env u c :
  app.(ap_contract) = Some c -> c.(bk_status) <> "draft" ->
  (landlordSignContract lang app env u).2.(ui_sent)
  = u.(ui_sent) ++ [(true, call (UpdateOperationalContractStatus c.(bk_id) c.(bk_status)))].
Proof.
  intros Hc Hs. set (l := _ ++ _).
  change (ends env (landlordSignContract lang app) u (fun _ u' => u'.(ui_sent) = l)).
  unfold landlordSignContract. apply oc_run, oc_bind. unfold existingContract. rewrite Hc. unfold ends at 1.
  cbn [mret F_ret fst snd]. rewrite bool_decide_eq_false_2 by done. apply oc_bind, oc_answer.
  - by intros e' _ u' [-> _].
  - by intros x _ u' [-> _].
Qed.
